(* ===== verification/_CoqProject ===== *)
-Q . S2P
Prelude.v
Steps.v
GoStrings.v
GoRegexp.v
GoURL.v
GoNet.v
GoNetFacts.v
GoNetRoundtrip.v
Config.v
Model.v
IPReplacement.v
Validation.v
Validators.v
Certificates.v
Logging.v
Loader.v
NginxFormat.v
NginxClient.v
NginxPlan.v
LoadBalancerPort.v
NginxSync.v
NginxConverge.v
Merge.v
Kubernetes.v
Controller.v
Metrics.v
LeaderElection.v
App.v
WorkQueue.v
Wire.v
ControllerFacts.v
ControllerSync.v
ControllerFleet.v
NginxFleet.v
NginxConcurrent.v
NginxPool.v
ControllerHandlers.v
ControllerLoop.v
ControllerStages.v
ControllerConverge.v
ControllerReads.v
ControllerRaces.v
System.v
SiteEvents.v
SiteCalls.v
