(* ===== verification/Prelude.v ===== *)
(** * A verification development for mlb-controller

    mlb-controller watches the services, pods and nodes of a Kubernetes cluster
    and keeps the upstreams of external load balancers equal to the ready pods.
    This library models its core in Rocq and proves what makes it correct.  It
    is a shallow embedding: a Go function is a Rocq function, with the source's
    name where Rocq allows it; a method that changes state is a function
    [S → A * S] ([ST S A], below); a Go [error] is an [option error] that records
    the format and the arguments of the [fmt.Errorf] that built it; [int],
    [int32] and [int64] are [Z] with the wrap-around written out ([wrap]).

    ** The parts of the program and the files that model them

    - Go's own library, as far as the program uses it, is modelled in executable
      form: [GoStrings] (package strings, strconv), [GoRegexp] (the one pattern
      the program matches), [GoURL] (net/url: parsing, queries, escaping), [GoNet]
      (package net: addresses, masks, CIDR blocks, host and port), with the facts
      about them in [GoNetFacts] and [GoNetRoundtrip].
    - [Config] is internal/domain/config: the configuration structs, the
      [LoadBalancerConfig] interface with its two implementations, and
      [ApplyDefaultValues].  [Model] is internal/domain/model, and the loop that
      merges backends by key, which the controller and the NGINX adapter share.
    - [IPReplacement] is internal/util/ip_replacement.go, [Validation] is
      internal/util/validation.go, and [Validators] is
      internal/adapters/validator, the nine validators run on a configuration.
    - [LoadBalancerPort] is the port internal/ports/loadbalancer: the record of
      operations [LoadBalancerAdapter] with its contract [Converges].
    - [NginxFormat], [NginxClient], [NginxPlan], [NginxSync] and [NginxConverge]
      are internal/adapters/loadbalancer (nginx/nginx.go, nginx/client.go and
      factory.go): the text the adapter writes and parses, the HTTP client with
      its retries, the pure diff of desired and listed backends, the calls that
      run it on every server with the cache of listings, and the proof that they
      keep the contract of the port.  [NginxConcurrent] interleaves the goroutines
      of concurrent [SyncUpstream] calls; [NginxPool] those of any number of calls
      of both methods, under the semaphore.
    - [Kubernetes] is internal/ports/kubernetes and
      internal/adapters/kubernetes/client.go: the conversion of API objects, the
      events of the informer handlers, the reads from the listers, and the
      contract [PortContract] of the port.
    - [Merge], [Controller], [ControllerFacts], [ControllerSync] and
      [ControllerHandlers] are internal/controller/controller.go: [mergeBackends],
      every handler of [ControllerImpl], the intent of the controller for an
      upstream, the proof that the event path and the periodic path implement it,
      the invariant of the reachable states, deletion and events.
    - [WorkQueue] states the documented behaviour of the rate limiting work queue
      of client-go; [ControllerLoop] is the rest of controller.go over it: [Start],
      [stop], [processEvents], [runWorker], [runPeriodicSync], and the controller
      with its workers as a transition system in which a handler is one step.
      [ControllerStages] cuts the handlers and the reconciliations at their reads,
      critical sections and adapter calls and interleaves them;
      [ControllerConverge] is what they reach while the caches do not change,
      [ControllerReads] makes the reads of the caches one by one, and
      [ControllerRaces] is what a change of the caches can leave behind.
    - [Certificates], [Logging], [Loader] and [Metrics] are the adapters
      certificate/loader.go, logging/zap.go, config/viper.go and
      metrics/prometheus.go, with their ports.
    - [LeaderElection] is adapters/leaderelection/kubernetes.go; [App] is
      application/app.go with the goroutine of [leaderElection.Run] and the
      callbacks, as a transition system; [Wire] is di/wire.go and
      cmd/mlb-controller/main.go.
    - [ControllerFleet] is [SyncUpstreams] over all the adapters: what one balancer
      is promised whatever the others do.  [NginxFleet] puts several NGINX adapters
      into one world, the [Site], in which each has its own cache of listings and
      all share the network, and proves them isolated from each other.
    - [System] composes everything: the controller with one NGINX adapter, with
      the adapters of a site, and with what [NewContainer] built; [SiteEvents] puts
      the interleaved controller on a site, and [SiteCalls] lets the calls it makes
      on one adapter run at the same time.  [Steps] holds what the transition
      systems share: what is inevitable under every scheduling.

    ** How state and operations correspond

    The state of the controller is [Ctrl]: [ct_state] and [ct_last] are the maps
    behind [stateMutex] ([state], [lastKnownServices]); [ct_queue] and
    [ct_metrics] list the calls made on the work queue and on the metrics; and
    [ct_world] is everything outside, which the record [KubernetesPort] reads and
    a [LoadBalancerAdapter] changes.  The state of the NGINX adapter is [AdState]:
    the two maps of the cache and the world, in which [NginxEnv] gives HTTP, the
    clock and the semaphore.  Code that is not in the repository is a parameter:
    [Listers] for client-go, [HttpEnv] for the HTTP transport, the TLS functions
    of [NewNginxClientSet], [CertEnv] for files, clock and x509, [ViperEnv] for
    viper and mapstructure, [PromEnv] and [MuxEnv] for the registry and the mux,
    [WorkQueue] for the queue.  What is assumed of it is stated as [ListersLaws],
    [NginxApi], [QuietFiles], [RegistryLaws], [ValueLaws], [MuxLaws] and
    [WorkQueueLaws], with concrete instances in the modules [caches], [sim],
    [disk], [file], [lists] and [values] and in [documented].

    Four transition systems model concurrency.  The [loop] of [ControllerLoop] is
    the state of the controller, its queue, its workers (at [Get], holding a key,
    exited) and a log of what happened to the keys, with what [syncHandler]
    returned for each; a step is one [Get], one run
    of a handler with its calls on the queue, one event, one reconciliation, the
    end of a delay, a change of the caches or the shutdown.  The [fine] system of
    [ControllerStages] adds the [stage] of the handler of each key that is held
    ([GetService], the two reads of [lastKnownServices], [handleServiceDeletion]
    and [syncUpstreamsForService] with their reads, records and pushes) and the
    [round] of each reconciliation under way, by the ticker of a balancer or by
    [Start], which reconciles each balancer once while the tickers and the workers
    already run; a step is one stage.  The
    pool of [NginxPool] is the state of one adapter and the calls on it, each with
    its phases ([wg.Wait] between them) and their goroutines; a step is a critical
    section or a request of one goroutine, and one that waits needs a free unit of
    the semaphore.  The [system] of [App] is the data its goroutines share and the
    list of goroutines; a step is one critical section or one blocking operation.

    Two choices of the Go runtime are parameters too, and no theorem depends on
    them: [MapRange] is the order in which a map is iterated, [Schedule] the
    order in which the goroutines of one call run.

    ** What the theorems show

    - Reconciliation.  [intent_of] says, from the caches alone, what a balancer
      should do with an upstream name: serve the merge of all the services that
      target it, keep what it has, or have nothing.
      [System.startup_end_to_end] goes from the configuration file to what every
      server holds after the first reconciliation, and [System.site_end_to_end]
      shows that a broken balancer does not keep the others from their intent.
      [System.reconciliation_end_to_end], [ControllerSync.reconcile_serves_intent]
      and [ControllerSync.sync_service_serves_intent] prove that both paths, each
      alone, bring the balancer there; [ControllerSync.event_periodic_agree] that the two paths
      agree; [ControllerHandlers.reconcile_records_intent] and
      [ControllerHandlers.reachable_wf] what the controller records, in every
      reachable state; [ControllerSync.buildUpstream_spec] and the theorems of
      [Merge] that weights count pods, in whatever order services are merged.
    - Events and interleavings.  [SiteEvents.event_end_to_end] and
      [ControllerConverge.queued_keys_converge]: while the caches do not change,
      in whatever order the stages of handlers, reconciliations and events
      interleave, balancers only move towards the intent, and everything queued or
      under way inevitably ends with the intent reached.
      [SiteCalls.pushes_agree]: the calls they make on one adapter can run at the
      same time.  [ControllerRaces.stale_push_survives]: work that read the caches
      before a change can undo what was pushed after it;
      [ControllerRaces.reconciliation_repairs]: that work ends, and the next
      reconciliation brings the balancer to the intent.
      [ControllerStages.handlers_in_stages]: the stages are the handlers;
      [ControllerReads.reads_atomic]: their reads may be taken as one;
      [ControllerReads.torn_reads_keep] and [ControllerReads.torn_weights]: what
      they can and cannot return when the caches change in between.
      [ControllerHandlers.deleted_service_drained],
      [unknown_balancer_blocks] and [invalid_port_unnoticed] are the corner cases
      of the event path.
    - The NGINX adapter.  [NginxConverge.nginx_adapter_converges] is its
      refinement of the port; [NginxPool.concurrent_calls_converge] and
      [NginxConcurrent.concurrent_syncs_converge] prove that concurrent calls
      converge under every interleaving, and
      [NginxConcurrent.stale_listing_race] that they can leave a stale cache;
      [NginxPlan] proves the diff correct, independent of
      map order and empty exactly when nothing differs; [NginxFormat] that
      listings parse back to what was printed, that keys are injective and that
      request paths carry their parameters; [NginxClient] which requests the
      retry loop sends, when it waits and what it returns.
    - Kubernetes.  [Kubernetes.KubernetesAdapter_contract]: the adapter serves
      exactly what the informers hold ([ServesInformers]), field by field, from
      which follows what the controller relies on ([PortContract]); and ([ControllerHandlers.informer_mirrored], [pod_event_wakes]) the mirror
      of the informers and the work the events queue.
    - Queue and workers.  [ControllerLoop.no_lost_key]: a key that was queued is
      handled successfully later, or is still queued or being handled, whatever
      interleaves; [ControllerLoop.workers_finish]: the workers always empty the
      queue and, after a shutdown, exit.
    - Leadership.  [App.lost_leadership_exits], [App.leader_runs_controller] and
      [App.standby_is_passive]: a replica that lost the lease inevitably returns
      from [Start], a leader inevitably runs its controller, a standby runs none
      and does not report itself as leader.
    - Start-up.  [Loader.Load_valid] and [Certificates.FileLoader_Load_spec] say
      what a loaded configuration and its certificates satisfy,
      [Wire.NewContainer_spec] when the process starts and what it is wired to,
      [Metrics.metrics_server_spec] when the metrics server panics and what it
      answers, [Metrics.metrics_report] what the metrics show.
    - Configuration.  Defaults are idempotent and inherited as documented; the
      validators accept exactly the configurations their rules describe; in an
      accepted one the order of the replacement rules does not matter and
      replacement yields valid addresses; replacing a network keeps the host bits
      and can be undone.

    ** Bounds and fuel

    [strings.skip_spaces] and [strings.Fields] recurse with the length of the
    string as fuel, and every step consumes a byte; [parseIPv6_loop] has one unit
    per group of an address and rejects the string when more groups follow, as
    the source of net/netip does; [doRequest_loop] has the three attempts of the
    source; [runWorker] takes one unit per item, and [runWorker_drains] bounds
    them by the items that wait.  Every other function is structurally recursive,
    so all of them return a result on every input.  The transition systems have no
    fuel: [inevitably] is an inductive predicate, proved with a decreasing measure.

    ** What is not modelled

    What zap prints, and the log calls inside the other components; durations
    given to the metrics and to sleeps beyond their value.  In [ControllerStages]
    the reads of a handler, or of the loop that builds [desiredState], are one step;
    [ControllerReads] has them one by one and proves that this is the same while the
    caches do not change, but does not interleave them with the other stages when
    they do.  Events are handled in one step.  In [NginxSync] the
    goroutines of one adapter call run one after the other, in any order, and the
    semaphore is only an operation that can fail; [NginxPool] has the interleavings
    and the units of the semaphore, with the errors of a phase listed by goroutine
    and not in the order they occur.  A [select] between ready channels is any of
    its cases, and tickers may tick at any time. *)
From stdpp Require Export base gmap strings list sorting pretty numbers option.
From Stdlib Require Export Ascii.
From Stdlib Require Import Lia.

Declare Scope go_scope.
Delimit Scope go_scope with go.

(** ** Errors

    A Go [error] is the call of [fmt.Errorf] that built it: the format
    literal of the source and the values of its verbs.  An [error] result is
    an [option error], [None] being [nil]. *)
Inductive error : Type :=
  | Errorf (format : string) (args : list fmt_arg)
with fmt_arg : Type :=
  | FStr (s : string)
  | FInt (z : Z)
  | FDur (ns : Z)
  | FErr (e : error)
  | FErrs (es : list error).

(** A Go result of type [(A, error)]. *)
Inductive result (A : Type) : Type :=
  | Ok (a : A)
  | Err (e : error).
Arguments Ok {_} _.
Arguments Err {_} _.

Global Instance result_ret : MRet result := fun _ a => Ok a.
Global Instance result_bind : MBind result := fun _ _ f r =>
  match r with Ok a => f a | Err e => Err e end.

(** [if cond { return fmt.Errorf(...) }] and [if err := c; err != nil { return err }]. *)
Notation "'fail_if' c 'with' e ;; k" := (if c then Some e else k)
  (at level 100, c at next level, e at next level, k at level 200,
   right associativity, only parsing) : go_scope.
Notation "'on_err' c 'as' f ;; k" := (match c with Some e => Some (f e) | None => k end)
  (at level 100, c at next level, f at next level, k at level 200,
   right associativity, only parsing) : go_scope.

(** A [for range] loop whose body may return an error early. *)
Fixpoint for_each {A} (f : A → option error) (l : list A) : option error :=
  match l with
  | [] => None
  | x :: l => match f x with Some e => Some e | None => for_each f l end
  end.

(** The same loop with the index of the element. *)
Fixpoint for_eachi_from {A} (i : nat) (f : nat → A → option error) (l : list A) : option error :=
  match l with
  | [] => None
  | x :: l => match f i x with Some e => Some e | None => for_eachi_from (S i) f l end
  end.
Abbreviation for_eachi := (for_eachi_from 0).

(** The same loop with a state that the body updates. *)
Fixpoint for_state {S A} (f : S → A → result S) (s : S) (l : list A) : result S :=
  match l with
  | [] => Ok s
  | x :: l => match f s x with Err e => Err e | Ok s' => for_state f s' l end
  end.

(** A loop that returns the first value its body yields. *)
Fixpoint first_some {A B} (f : A → option B) (l : list A) : option B :=
  match l with
  | [] => None
  | x :: l => match f x with Some y => Some y | None => first_some f l end
  end.

(** The error part of a result, for the functions that return [error] only. *)
Definition err_of {A} (r : result A) : option error :=
  match r with Ok _ => None | Err e => Some e end.

(** ** Machine integers

    Signed two's complement wrap-around at width [w]. *)
Definition wrap (w z : Z) : Z := ((z + 2 ^ (w - 1)) `mod` 2 ^ w - 2 ^ (w - 1))%Z.
Abbreviation int32 := (wrap 32).
Abbreviation int64 := (wrap 64).

(** ** Iteration over a Go map

    [for k, v := range m] visits the entries in an order the language leaves
    unspecified.  The order is a parameter of the definitions that range over
    a map; the only law is that every entry is visited exactly once. *)
Class MapRange := {
  map_range : ∀ {A}, gmap string A → list (string * A);
  map_range_perm : ∀ {A} (m : gmap string A), map_range m ≡ₚ map_to_list m
}.

(** An instance to evaluate the definitions with. *)
Definition map_range_default : MapRange :=
  {| map_range := λ A m, map_to_list m; map_range_perm := λ A m, reflexivity _ |}.

(** Another one, which visits the entries backwards. *)
Program Definition map_range_reverse : MapRange :=
  {| map_range := λ A m, reverse (map_to_list m) |}.
Next Obligation. intros A m. apply reverse_Permutation. Qed.

(** ** State passing *)
Definition ST (S A : Type) : Type := S → A * S.
Global Instance ST_ret {S} : MRet (ST S) := fun _ a s => (a, s).
Global Instance ST_bind {S} : MBind (ST S) := fun _ _ f m s =>
  let '(a, s') := m s in f a s'.
Definition gets {S A} (f : S → A) : ST S A := λ s, (f s, s).
Definition modify {S} (f : S → S) : ST S unit := λ s, (tt, f s).

(** A loop whose body is a state transformer. *)
Fixpoint for_st {S A} (f : A → ST S unit) (l : list A) : ST S unit :=
  match l with
  | [] => mret tt
  | x :: l => λ s, for_st f l (f x s).2
  end.

(** Evaluate a closed decidable proposition. *)
Ltac vm_decide := apply (bool_decide_unpack _); vm_compute; exact I.

(** ** Lemmas on loops that return errors *)
Lemma for_each_None {A} (f : A → option error) l :
  for_each f l = None ↔ Forall (λ x, f x = None) l.
Proof.
  induction l as [|x l IH]; simpl; [split; auto|].
  rewrite list.Forall_cons, <- IH. destruct (f x); split; intros; destruct_and?; done.
Qed.

(** The error of the loop is the error of its first failing element. *)
Lemma for_each_Some {A} (f : A → option error) l e :
  for_each f l = Some e ↔
  ∃ l1 x l2, l = l1 ++ x :: l2 ∧ Forall (λ y, f y = None) l1 ∧ f x = Some e.
Proof.
  induction l as [|x l IH]; simpl.
  - split; [done|]. intros (l1 & x & l2 & H & _); destruct l1; done.
  - destruct (f x) as [e'|] eqn:Hf.
    + split.
      * intros [= ->]. exists [], x, l. auto.
      * intros ([|y l1] & z & l2 & [= -> ->] & Hall & Hz); [congruence|].
        inversion Hall; congruence.
    + rewrite IH. split.
      * intros (l1 & y & l2 & -> & Hall & Hy). exists (x :: l1), y, l2. auto.
      * intros ([|y l1] & z & l2 & [= -> ->] & Hall & Hz); [congruence|].
        inversion Hall; subst. eauto 10.
Qed.

Lemma for_eachi_from_None {A} (f : nat → A → option error) l i :
  for_eachi_from i f l = None ↔ ∀ j x, l !! j = Some x → f (i + j) x = None.
Proof.
  revert i. induction l as [|x l IH]; intros i; simpl; [split; [|done]; intros _ [|j]; done|].
  destruct (f i x) as [e|] eqn:Hf.
  - split; [done|]. intros H. specialize (H 0 x eq_refl). rewrite Nat.add_0_r in H. congruence.
  - rewrite IH. split.
    + intros H [|j] y Hy; simplify_eq/=; [by rewrite Nat.add_0_r|].
      rewrite Nat.add_succ_r. by apply (H j).
    + intros H j y Hy. rewrite <- (H (S j) y Hy). f_equal. lia.
Qed.

Lemma for_state_Ok {S A} (f : S → A → result S) l s s' (g : S → A → S) :
  for_state f s l = Ok s' →
  (∀ s s' x, f s x = Ok s' → s' = g s x) →
  s' = foldl g s l.
Proof.
  revert s. induction l as [|x l IH]; intros s Hl Hg; simplify_eq/=; [done|].
  destruct (f s x) eqn:Hf; [|done]. rewrite <- (Hg _ _ _ Hf). by apply IH.
Qed.

Lemma first_some_app {A B} (f : A → option B) l1 l2 :
  first_some f (l1 ++ l2) =
  match first_some f l1 with Some y => Some y | None => first_some f l2 end.
Proof. induction l1 as [|x l1 IH]; simpl; [done|]. by destruct (f x). Qed.

Lemma first_some_fmap {A B C} (f : B → option C) (g : A → B) l :
  first_some f (g <$> l) = first_some (λ x, f (g x)) l.
Proof. induction l as [|x l IH]; simpl; [done|]. by destruct (f (g x)). Qed.

Lemma first_some_bind {A B C} (f : B → option C) (g : A → list B) l :
  first_some f (l ≫= g) = first_some (λ x, first_some f (g x)) l.
Proof.
  induction l as [|x l IH]; [done|].
  rewrite bind_cons, first_some_app, IH. done.
Qed.

Lemma first_some_filter {A B} (p : A → bool) (f : A → option B) l :
  first_some (λ x, if p x then f x else None) l =
  first_some f (List.filter p l).
Proof.
  induction l as [|x l IH]; simpl; [done|].
  destruct (p x); simpl; [|done]. by rewrite IH.
Qed.

Lemma first_some_ext {A B} (f g : A → option B) l :
  (∀ x, x ∈ l → f x = g x) → first_some f l = first_some g l.
Proof.
  induction l as [|x l IH]; intros H; simpl; [done|].
  rewrite H by set_solver. rewrite IH; [done|]. intros; apply H; set_solver.
Qed.

Lemma first_some_None {A B} (f : A → option B) l :
  first_some f l = None ↔ ∀ x, x ∈ l → f x = None.
Proof.
  induction l as [|x l IH]; simpl.
  { split; [|done]. intros _ y Hy. by apply not_elem_of_nil in Hy. }
  destruct (f x) as [y|] eqn:Hf.
  - split; [done|]. intros H. by rewrite (H x) in Hf by constructor.
  - rewrite IH. setoid_rewrite elem_of_cons. split; [intros H y [-> | Hy]; [done|by apply H]|intros H y Hy; apply H; by right].
Qed.

Lemma first_some_elem {A B} (f : A → option B) l y :
  first_some f l = Some y → ∃ x, x ∈ l ∧ f x = Some y.
Proof.
  induction l as [|x l IH]; simpl; [done|]. destruct (f x) as [z|] eqn:E.
  - intros [= ->]. exists x. by split; [constructor|].
  - intros (x' & Hx & Hf)%IH. exists x'. by split; [constructor|].
Qed.

(** When at most one element matters, the order of the list does not. *)
Lemma first_some_perm {A B} (f : A → option B) l1 l2 :
  l1 ≡ₚ l2 →
  (∀ i j x y, l1 !! i = Some x → l1 !! j = Some y → is_Some (f x) → is_Some (f y) → i = j) →
  first_some f l1 = first_some f l2.
Proof.
  intros Hp. induction Hp as [|x l l' Hp IH|x y l|l1 l2 l3 H1 IH1 H2 IH2]; intros Hu; simpl.
  - done.
  - rewrite IH; [done|]. intros i j a b Ha Hb Hfa Hfb.
    specialize (Hu (S i) (S j) a b Ha Hb Hfa Hfb). lia.
  - destruct (f y) as [v|] eqn:Hy, (f x) as [w|] eqn:Hx; try done.
    specialize (Hu 0 1 y x eq_refl eq_refl). rewrite Hx, Hy in Hu.
    specialize (Hu (mk_is_Some _ _ eq_refl) (mk_is_Some _ _ eq_refl)). done.
  - rewrite IH1 by done. apply IH2. intros i j a b Ha Hb Hfa Hfb.
    apply symmetry, Permutation_inj in H1 as [Hl [g [Hg Hlk]]].
    destruct (decide (i = j)) as [|Hne]; [done|]. exfalso. apply Hne.
    rewrite Hlk in Ha, Hb. by apply Hg, (Hu _ _ a b).
Qed.

(** ** Lemmas on machine integers *)
Lemma wrap_bound w z : (0 < w)%Z → (- 2 ^ (w - 1) ≤ wrap w z < 2 ^ (w - 1))%Z.
Proof.
  intros Hw. unfold wrap. assert (2 ^ w = 2 * 2 ^ (w - 1))%Z as Hp.
  { rewrite <- Z.pow_succ_r by lia. f_equal. lia. }
  pose proof (Z.mod_pos_bound (z + 2 ^ (w - 1)) (2 ^ w)) as Hb.
  assert (0 < 2 ^ (w - 1))%Z by (apply Z.pow_pos_nonneg; lia). lia.
Qed.

Lemma wrap_id w z : (0 < w)%Z → (- 2 ^ (w - 1) ≤ z < 2 ^ (w - 1))%Z → wrap w z = z.
Proof.
  intros Hw Hz. unfold wrap. assert (2 ^ w = 2 * 2 ^ (w - 1))%Z as Hp.
  { rewrite <- Z.pow_succ_r by lia. f_equal. lia. }
  rewrite Z.mod_small; lia.
Qed.

Lemma wrap_add_l w x y : (0 < w)%Z → wrap w (wrap w x + y) = wrap w (x + y).
Proof.
  intros Hw. unfold wrap. f_equal.
  replace ((x + 2 ^ (w - 1)) `mod` 2 ^ w - 2 ^ (w - 1) + y + 2 ^ (w - 1))%Z
    with ((x + 2 ^ (w - 1)) `mod` 2 ^ w + y)%Z by lia.
  rewrite Zplus_mod_idemp_l. f_equal. lia.
Qed.

Lemma wrap_add_r w x y : (0 < w)%Z → wrap w (x + wrap w y) = wrap w (x + y).
Proof. intros. rewrite Z.add_comm, wrap_add_l by done. f_equal. lia. Qed.

(** ** Iteration order *)
Lemma map_range_elem `{MapRange} {A} (m : gmap string A) k x :
  (k, x) ∈ map_range m ↔ m !! k = Some x.
Proof. rewrite map_range_perm. apply elem_of_map_to_list. Qed.

Lemma map_range_values_perm `{MapRange} {A} (m : gmap string A) :
  (map_range m).*2 ≡ₚ (map_to_list m).*2.
Proof. by rewrite map_range_perm. Qed.

Lemma map_range_NoDup_keys `{MapRange} {A} (m : gmap string A) :
  NoDup (map_range m).*1.
Proof. rewrite map_range_perm. apply NoDup_fst_map_to_list. Qed.

Lemma list_to_map_range `{MapRange} {A} (m : gmap string A) :
  list_to_map (map_range m) = m.
Proof.
  rewrite <- (list_to_map_to_list m) at 2.
  apply list_to_map_proper; [apply map_range_NoDup_keys|apply map_range_perm].
Qed.

(** A loop of state transformers preserves what each iteration preserves. *)
Lemma for_st_inv {S A} (P : S → Prop) (f : A → ST S unit) l s :
  P s → (∀ x s, x ∈ l → P s → P (f x s).2) → P (for_st f l s).2.
Proof.
  revert s. induction l as [|x l IH]; intros s Hs Hf; simpl; [done|].
  apply IH; [apply Hf; [set_solver|done] | intros y s' Hy; apply Hf; set_solver].
Qed.

Lemma for_st_app {S A} (f : A → ST S unit) l1 l2 s :
  for_st f (l1 ++ l2) s = for_st f l2 (for_st f l1 s).2.
Proof. revert s. induction l1 as [|x l1 IH]; intros s; simpl; [done|apply IH]. Qed.

(** A loop that rejects an element whose key it has met before. *)
Lemma for_state_seen {A} (key : A → string) (ok : A → Prop)
    (f : gset string → A → result (gset string)) l seen s' :
  (∀ s x s', f s x = Ok s' ↔ ok x ∧ (key x ∉ s) ∧ s' = {[key x]} ∪ s) →
  for_state f seen l = Ok s' ↔
  Forall ok l ∧ NoDup (key <$> l) ∧ (∀ x, x ∈ l → key x ∉ seen) ∧
  s' = list_to_set (key <$> l) ∪ seen.
Proof.
  intros Hf. revert seen. induction l as [|x l IH]; intros seen; cbn [for_state fmap list_fmap].
  - cbn. split.
    + intros [= ->]. split_and!; [constructor|constructor| |set_solver]. intros x Hx. by apply not_elem_of_nil in Hx.
    + intros (_ & _ & _ & ->). f_equal. set_solver.
  - rewrite list.Forall_cons, list.NoDup_cons. cbn [list_to_set]. split.
    + destruct (f seen x) as [s1|e] eqn:E; [|done]. apply Hf in E as (Hok & Hx & ->).
      intros (Hall & Hnd & Hs & ->)%IH. split_and!; try done.
      * intros (y & Hy1 & Hy2)%list_elem_of_fmap. apply (Hs y); set_solver.
      * intros y [-> |Hy]%elem_of_cons; [done|]. specialize (Hs y Hy). set_solver.
      * set_solver.
    + intros ([Hok Hall] & [Hx Hnd] & Hs & ->).
      assert (f seen x = Ok ({[key x]} ∪ seen)) as -> by (apply Hf; split_and!; [done| |done]; apply Hs; set_solver).
      apply IH. split_and!; [done|done| |set_solver].
      intros y Hy. assert (key y ≠ key x) by (intros E; apply Hx; apply list_elem_of_fmap; eauto).
      specialize (Hs y). set_solver.
Qed.

Lemma for_state_seen_ok {A} (key : A → string) (ok : A → Prop)
    (f : gset string → A → result (gset string)) l :
  (∀ s x s', f s x = Ok s' ↔ ok x ∧ (key x ∉ s) ∧ s' = {[key x]} ∪ s) →
  err_of (for_state f ∅ l) = None ↔ Forall ok l ∧ NoDup (key <$> l).
Proof.
  intros Hf. destruct (for_state f ∅ l) as [s'|e] eqn:E; cbn.
  - apply (for_state_seen key ok) in E; [|done]. split; [|done]. tauto.
  - split; [done|]. intros [H1 H2].
    assert (for_state f ∅ l = Ok (list_to_set (key <$> l) ∪ ∅)) as E'.
    { apply (for_state_seen key ok); [done|]. split_and!; done || set_solver. }
    congruence.
Qed.

(** Conditions and error checks, read as propositions. *)
Lemma fail_if_None (c : bool) e (k : option error) :
  (if c then Some e else k) = None ↔ c = false ∧ k = None.
Proof. destruct c; naive_solver. Qed.
Lemma on_err_None (c : option error) f (k : option error) :
  (match c with Some e => Some (f e) | None => k end) = None ↔ c = None ∧ k = None.
Proof. destruct c; naive_solver. Qed.

(** Nested loops are loops over the concatenation. *)
Lemma for_state_app {S A} (f : S → A → result S) s l1 l2 :
  for_state f s (l1 ++ l2) =
  match for_state f s l1 with Ok s' => for_state f s' l2 | Err e => Err e end.
Proof. revert s. induction l1 as [|x l1 IH]; intros s; simpl; [done|]. destruct (f s x); [apply IH|done]. Qed.

Lemma for_state_nested {S A B} (f : S → B → result S) (g : A → list B) h s l :
  (∀ s x, h s x = for_state f s (g x)) →
  for_state h s l = for_state f s (l ≫= g).
Proof.
  intros Hh. revert s. induction l as [|x l IH]; intros s; [done|].
  rewrite bind_cons, for_state_app, <- Hh. cbn. by destruct (h s x).
Qed.

Lemma bind_if_filter {A B} (p : A → bool) (f : A → list B) l :
  (l ≫= λ x, if p x then f x else []) = List.filter p l ≫= f.
Proof.
  induction l as [|x l IH]; [done|]. rewrite bind_cons. cbn. rewrite IH.
  by destruct (p x).
Qed.

Lemma list_bind_ext_In {A B} (f g : A → list B) l :
  (∀ x, f x = g x) → l ≫= f = l ≫= g.
Proof. intros H. induction l as [|x l IH]; [done|]. by rewrite !bind_cons, IH, H. Qed.

(** Elements with distinct keys are determined by them. *)
Lemma NoDup_key_inj {A B} (f : A → B) l x y :
  NoDup (f <$> l) → x ∈ l → y ∈ l → f x = f y → x = y.
Proof.
  induction l as [|z l IH]; [by intros _ Hx%not_elem_of_nil|].
  rewrite fmap_cons, list.NoDup_cons, !elem_of_cons. intros [Hz Hd] [-> |Hx] [-> |Hy] E; try done.
  - destruct Hz. rewrite E. by apply list_elem_of_fmap_2.
  - destruct Hz. rewrite <- E. by apply list_elem_of_fmap_2.
  - by apply IH.
Qed.
