(* ===== verification/Steps.v ===== *)
(** * Transition systems

    Reachability is [rtc] of stdpp.  [inevitably] is inevitability: whatever
    steps are taken, a state with the property is reached after finitely many
    of them, and the system is not stuck before. *)
From S2P Require Export Prelude.
From stdpp Require Export relations.
From Stdlib Require Import Lia.

Section steps.
Context {S : Type} (step : S → S → Prop).
Implicit Types P Q I : S → Prop.

Inductive inevitably (P : S → Prop) (s : S) : Prop :=
  | inevitably_now : P s → inevitably P s
  | inevitably_later : (∃ s', step s s') → (∀ s', step s s' → inevitably P s') → inevitably P s.

Lemma inevitably_mono P Q s : inevitably P s → (∀ t, P t → Q t) → inevitably Q s.
Proof. induction 1 as [s H|s H _ IH]; intros HPQ; [left; auto|right; auto]. Qed.

Lemma inevitably_trans P Q s : inevitably P s → (∀ t, P t → inevitably Q t) → inevitably Q s.
Proof. induction 1 as [s H|s H _ IH]; intros HPQ; [auto|right; auto]. Qed.

(** An invariant under which every step decreases a measure and no state is
    stuck before the property holds. *)
Lemma inevitably_wf {A} (R : A → A → Prop) I P (m : S → A) : well_founded R →
  (∀ s s', I s → step s s' → I s' ∧ R (m s') (m s)) →
  (∀ s, I s → P s ∨ ∃ s', step s s') →
  ∀ s, I s → inevitably P s.
Proof.
  intros Hwf Hstep Hprog s. remember (m s) as n eqn:Hn. revert s Hn.
  induction n as [n IH] using (well_founded_induction Hwf). intros s -> Hs.
  destruct (Hprog s Hs) as [?|He]; [by left|]. right; [done|].
  intros s' Hs'. destruct (Hstep s s' Hs Hs') as [Hi Hm]. by apply (IH (m s')).
Qed.
Lemma inevitably_measure I P (m : S → nat) :
  (∀ s s', I s → step s s' → I s' ∧ m s' < m s) →
  (∀ s, I s → P s ∨ ∃ s', step s s') →
  ∀ s, I s → inevitably P s.
Proof. apply inevitably_wf, lt_wf. Qed.

(** An invariant of the initial states that steps keep holds of every reachable
    state. *)
Lemma reachable_inv I s s' : rtc step s s' → I s → (∀ t t', I t → step t t' → I t') → I s'.
Proof. intros Hr Hs Hstep. induction Hr; eauto. Qed.

(** The same with the steps counted from the end. *)
Lemma reachable_inv_under I J s s' : rtc step s s' → I s →
  (∀ t, rtc step s t → J t) → (∀ t t', J t → I t → step t t' → I t') → I s'.
Proof.
  intros Hr Hs HJ Hstep. induction Hr as [|s t u Hst Htu IH]; [done|].
  apply IH; [apply (Hstep s); [apply HJ; done|done..]|]. intros v Hv. apply HJ. by eapply rtc_l.
Qed.
End steps.

(** Pairs of numbers, the first one counting first. *)
Definition lex (p q : nat * nat) : Prop := p.1 < q.1 ∨ p.1 = q.1 ∧ p.2 < q.2.
Lemma lex_wf : well_founded lex.
Proof.
  intros [a b]. revert b. induction (lt_wf a) as [a _ IHa]. intros b. induction (lt_wf b) as [b _ IHb].
  constructor. intros [a' b'] [H|[H1 H2]]; cbn in *; [by apply IHa|subst; by apply IHb].
Qed.
