(* ===== verification/GoStrings.v ===== *)
(** * The Go string functions the program uses

    A Go string is a sequence of bytes, here a [string] of [ascii].  Each
    function carries the name it has in the packages [strings], [strconv],
    [net] and [net/url] of the Go standard library. *)
From S2P Require Export Prelude.
From Stdlib Require Import Lia.

(** ** Bytes and substrings *)
Abbreviation byte := N_of_ascii.

Fixpoint str_take (n : nat) (s : string) : string :=
  match n, s with
  | S n, String c s => String c (str_take n s)
  | _, _ => ""
  end.
Fixpoint str_drop (n : nat) (s : string) : string :=
  match n, s with
  | S n, String _ s => str_drop n s
  | _, s => s
  end.
Fixpoint str_forallb (f : ascii → bool) (s : string) : bool :=
  match s with "" => true | String c s => f c && str_forallb f s end.
Definition str_existsb (f : ascii → bool) (s : string) : bool :=
  negb (str_forallb (λ c, negb (f c)) s).

(** Turn boolean comparisons of bytes into inequalities. *)
Ltac bool_to_N :=
  repeat match goal with
  | H : _ && _ = true |- _ => apply andb_true_iff in H as [? ?]
  | H : (_ <=? _)%N = true |- _ => apply N.leb_le in H
  | H : (_ <=? _)%N = false |- _ => apply N.leb_gt in H
  | H : (_ =? _)%N = true |- _ => apply N.eqb_eq in H
  end.

(** The longest prefix whose bytes satisfy [f], and the rest. *)
Fixpoint str_span (f : ascii → bool) (s : string) : string * string :=
  match s with
  | "" => ("", "")
  | String c s' =>
      if f c then let '(a, b) := str_span f s' in (String c a, b) else ("", s)
  end.

Definition is_char (c d : ascii) : bool := bool_decide (c = d).

Module strings.

Fixpoint HasPrefix (s p : string) : bool :=
  match p, s with
  | "", _ => true
  | String c p, String d s => is_char c d && HasPrefix s p
  | _, _ => false
  end.
Definition HasSuffix (s p : string) : bool :=
  HasPrefix (String.rev s) (String.rev p).
Definition TrimPrefix (s p : string) : string :=
  if HasPrefix s p then str_drop (String.length p) s else s.
Definition TrimSuffix (s p : string) : string :=
  if HasSuffix s p then str_take (String.length s - String.length p) s else s.

Fixpoint Contains (s p : string) : bool :=
  HasPrefix s p || match s with "" => false | String _ s => Contains s p end.

(** [strings.Cut] and [strings.Split] for a separator of one byte. *)
Fixpoint Cut (s : string) (sep : ascii) : string * string * bool :=
  match s with
  | "" => ("", "", false)
  | String c s =>
      if is_char c sep then ("", s, true)
      else let '(a, b, found) := Cut s sep in (String c a, b, found)
  end.
Fixpoint Split (s : string) (sep : ascii) : list string :=
  match s with
  | "" => [""]
  | String c s =>
      if is_char c sep then "" :: Split s sep
      else match Split s sep with
           | [] => [String c ""]
           | w :: ws => String c w :: ws
           end
  end.

(** [strings.Trim] with a cutset of ASCII bytes. *)
Fixpoint TrimLeft (s : string) (cut : ascii → bool) : string :=
  match s with
  | "" => ""
  | String c s' => if cut c then TrimLeft s' cut else s
  end.
Definition Trim (s : string) (cut : ascii → bool) : string :=
  String.rev (TrimLeft (String.rev (TrimLeft s cut)) cut).

(** Length of the white space rune [s] starts with, 0 if there is none:
    the ASCII spaces and the UTF-8 encodings of U+0085, U+00A0, U+1680,
    U+2000 to U+200A, U+2028, U+2029, U+202F, U+205F and U+3000
    ([unicode.IsSpace]). *)
Definition ascii_space (c : ascii) : bool :=
  let b := byte c in ((9 <=? b)%N && (b <=? 13)%N) || (b =? 32)%N.
Definition space2 (a b : N) : bool :=
  ((a =? 194) && ((b =? 133) || (b =? 160)))%N.
Definition space3 (a b c : N) : bool :=
  (((a =? 225) && (b =? 154) && (c =? 128))
   || ((a =? 226) && (b =? 128) &&
         (((128 <=? c) && (c <=? 138)) || (c =? 168) || (c =? 169) || (c =? 175)))
   || ((a =? 226) && (b =? 129) && (c =? 159))
   || ((a =? 227) && (b =? 128) && (c =? 128)))%N.
Definition space_len (s : string) : nat :=
  match s with
  | String a s1 =>
      if ascii_space a then 1 else
      match s1 with
      | String b s2 =>
          if space2 (byte a) (byte b) then 2 else
          match s2 with
          | String c _ => if space3 (byte a) (byte b) (byte c) then 3 else 0
          | _ => 0
          end
      | _ => 0
      end
  | _ => 0
  end.
(** The same for the reversed string: the rune [s] ends with. *)
Definition space_len_rev (s : string) : nat :=
  match s with
  | String c s1 =>
      if ascii_space c then 1 else
      match s1 with
      | String b s2 =>
          if space2 (byte b) (byte c) then 2 else
          match s2 with
          | String a _ => if space3 (byte a) (byte b) (byte c) then 3 else 0
          | _ => 0
          end
      | _ => 0
      end
  | _ => 0
  end.

(** Skip the leading runes that [len] measures; [fuel] is the length of the
    string, and each rune is at least one byte long. *)
Fixpoint skip_spaces (len : string → nat) (fuel : nat) (s : string) : string :=
  match fuel with
  | 0 => s
  | S fuel => match len s with 0 => s | S n => skip_spaces len fuel (str_drop (S n) s) end
  end.
Definition TrimLeftSpace (s : string) : string :=
  skip_spaces space_len (String.length s) s.
Definition TrimRightSpace (s : string) : string :=
  String.rev (skip_spaces space_len_rev (String.length s) (String.rev s)).
Definition TrimSpace (s : string) : string := TrimRightSpace (TrimLeftSpace s).

(** [strings.Fields]: the maximal runs of bytes outside white space. *)
Fixpoint Fields_go (fuel : nat) (cur : string) (s : string) : list string :=
  match fuel with
  | 0 => match cur with "" => [] | _ => [String.rev cur] end
  | S fuel =>
      match s with
      | "" => match cur with "" => [] | _ => [String.rev cur] end
      | String c s' =>
          match space_len s with
          | 0 => Fields_go fuel (String c cur) s'
          | S n => match cur with
                   | "" => Fields_go fuel "" (str_drop (S n) s)
                   | _ => String.rev cur :: Fields_go fuel "" (str_drop (S n) s)
                   end
          end
      end
  end.
Definition Fields (s : string) : list string := Fields_go (S (String.length s)) "" s.

(** [strings.ToLower], on the bytes of ASCII letters and on the two
    non-ASCII letters whose lower case is an ASCII letter (U+0130 and U+212A);
    the other non-ASCII letters are left as they are. *)
Definition lower (c : ascii) : ascii :=
  let b := byte c in
  if ((65 <=? b) && (b <=? 90))%N then ascii_of_N (b + 32) else c.
Fixpoint ToLower (s : string) : string :=
  match s with
  | "" => ""
  | String a s1 =>
      match s1 with
      | String b s2 =>
          if ((byte a =? 196) && (byte b =? 176))%N then String "i" (ToLower s2) else
          match s2 with
          | String c s3 =>
              if ((byte a =? 226) && (byte b =? 132) && (byte c =? 170))%N
              then String "k" (ToLower s3) else String (lower a) (ToLower s1)
          | "" => String (lower a) (ToLower s1)
          end
      | "" => String (lower a) ""
      end
  end.

End strings.

Module strconv.

Definition digit (c : ascii) : option Z :=
  let b := byte c in
  if ((48 <=? b) && (b <=? 57))%N then Some (Z.of_N b - 48)%Z else None.

(** The value of a string of decimal digits, with [acc] read before it. *)
Fixpoint digits (acc : Z) (s : string) : option Z :=
  match s with
  | "" => Some acc
  | String c s => d ← digit c; digits (10 * acc + d) s
  end.

(** [strconv.ParseInt(s, 10, bits)]: [None] stands for a non-nil error. *)
Definition ParseInt (s : string) (bits : Z) : option Z :=
  let '(neg, ds) :=
    match s with
    | String "+" ds => (false, ds)
    | String "-" ds => (true, ds)
    | _ => (false, s)
    end%char in
  match ds with
  | "" => None
  | _ =>
      v ← digits 0 ds;
      let z := if neg : bool then (- v)%Z else v in
      if bool_decide (- 2 ^ (bits - 1) ≤ z < 2 ^ (bits - 1))%Z then Some z else None
  end.
Definition Atoi (s : string) : option Z := ParseInt s 64.
Definition Itoa (z : Z) : string := pretty z.

End strconv.

(** [fmt.Sprintf("%s:%d", s, z)] and the like. *)
Definition fmt_d (z : Z) : string := pretty z.

(** ** Lemmas on strings *)
Lemma app_cons_s c s t : String c s +:+ t = String c (s +:+ t).
Proof. done. Qed.
Lemma app_nil_s s : "" +:+ s = s.
Proof. done. Qed.
Lemma app_nil_r_s s : s +:+ "" = s.
Proof. induction s as [|c s IH]; [done|]. by rewrite app_cons_s, IH. Qed.
Lemma app_assoc_s a b c : (a +:+ b) +:+ c = a +:+ b +:+ c.
Proof. induction a as [|x a IH]; [done|]. by rewrite !app_cons_s, IH. Qed.

Create Rewrite HintDb go_str.
#[export] Hint Rewrite app_cons_s app_nil_s app_nil_r_s app_assoc_s : go_str.
Ltac str_norm := autorewrite with go_str.

Lemma is_char_refl c : is_char c c = true.
Proof. by apply bool_decide_eq_true. Qed.
Lemma is_char_true c d : is_char c d = true ↔ c = d.
Proof. apply bool_decide_eq_true. Qed.
Lemma is_char_false c d : is_char c d = false ↔ c ≠ d.
Proof. apply bool_decide_eq_false. Qed.

Lemma str_forallb_app f s t : str_forallb f (s +:+ t) = str_forallb f s && str_forallb f t.
Proof. induction s as [|c s IH]; [done|]. rewrite app_cons_s. simpl. by rewrite IH, andb_assoc. Qed.

Lemma HasPrefix_nil s : strings.HasPrefix s "" = true.
Proof. by destruct s. Qed.
Lemma HasPrefix_app p s : strings.HasPrefix (p +:+ s) p = true.
Proof.
  induction p as [|c p IH]; [apply HasPrefix_nil|].
  rewrite app_cons_s. cbn. by rewrite is_char_refl.
Qed.
Lemma str_drop_app p s : str_drop (String.length p) (p +:+ s) = s.
Proof. induction p as [|c p IH]; [by destruct s|exact IH]. Qed.

(** No byte of [s] is [c]. *)
Definition str_free (c : ascii) (s : string) : bool := str_forallb (λ d, negb (is_char d c)) s.

Lemma str_free_cons c d s : str_free c (String d s) = negb (is_char d c) && str_free c s.
Proof. done. Qed.
Lemma str_free_app c s t : str_free c (s +:+ t) = str_free c s && str_free c t.
Proof. apply str_forallb_app. Qed.

(** Splitting at the first separator. *)
Lemma Cut_app c s t : str_free c s = true → strings.Cut (s +:+ String c t) c = (s, t, true).
Proof.
  induction s as [|d s IH]; intros H.
  - rewrite app_nil_s. simpl. by rewrite is_char_refl.
  - rewrite app_cons_s. rewrite str_free_cons in H. apply andb_true_iff in H as [H1%negb_true_iff H2].
    simpl. by rewrite H1, IH.
Qed.
Lemma Cut_free c s : str_free c s = true → strings.Cut s c = (s, "", false).
Proof.
  induction s as [|d s IH]; intros H; [done|].
  rewrite str_free_cons in H. apply andb_true_iff in H as [H1%negb_true_iff H2].
  simpl. by rewrite H1, IH.
Qed.

Lemma Split_app c s t :
  str_free c s = true → strings.Split (s +:+ String c t) c = s :: strings.Split t c.
Proof.
  induction s as [|d s IH]; intros H.
  - rewrite app_nil_s. simpl. by rewrite is_char_refl.
  - rewrite app_cons_s. rewrite str_free_cons in H. apply andb_true_iff in H as [H1%negb_true_iff H2].
    simpl. by rewrite H1, IH.
Qed.
Lemma Split_free c s : str_free c s = true → strings.Split s c = [s].
Proof.
  induction s as [|d s IH]; intros H; [done|].
  rewrite str_free_cons in H. apply andb_true_iff in H as [H1%negb_true_iff H2].
  simpl. by rewrite H1, IH.
Qed.

(** A string is cut in one way at its last separator. *)
Lemma app_last_sep_inj c a1 b1 a2 b2 :
  str_free c b1 = true → str_free c b2 = true →
  a1 +:+ String c b1 = a2 +:+ String c b2 → a1 = a2 ∧ b1 = b2.
Proof.
  intros H1 H2. assert (∀ a b b', str_free c b = true → b = a +:+ String c b' → False) as Hno.
  { intros a b b' Hf ->. rewrite str_free_app, str_free_cons, is_char_refl in Hf.
    by rewrite andb_false_r in Hf. }
  revert a2. induction a1 as [|x a1 IH]; intros [|y a2] E; rewrite ?app_nil_s, ?app_cons_s in E.
  - by simplify_eq.
  - injection E as -> E. exfalso. eauto.
  - injection E as -> E. exfalso. eauto.
  - injection E as -> E. apply IH in E as [-> ->]. done.
Qed.

(** ** Decimal numbers *)
Lemma pretty_N_char_digit n : (n < 10)%N →
  strconv.digit (pretty_N_char n) = Some (Z.of_N n).
Proof.
  intros H. assert (n = 0 ∨ n = 1 ∨ n = 2 ∨ n = 3 ∨ n = 4 ∨ n = 5 ∨ n = 6 ∨ n = 7 ∨ n = 8 ∨ n = 9)%N
    as Hn by lia.
  by repeat (destruct Hn as [-> | Hn]; [done|]); subst.
Qed.

Lemma digits_pretty_go x s acc :
  ∃ k, strconv.digits acc (pretty_N_go x s) = strconv.digits (acc * 10 ^ k + Z.of_N x) s ∧
       (0 ≤ k)%Z ∧ (acc = 0 ∨ 0 ≤ k)%Z.
Proof.
  revert s. induction (N.lt_wf_0 x) as [x _ IH]; intros s.
  destruct (decide (x = 0)%N) as [->|Hx].
  - exists 0%Z. rewrite pretty_N_go_0. split; [f_equal; lia|lia].
  - rewrite pretty_N_go_step by lia.
    destruct (IH (x `div` 10)%N) with (String (pretty_N_char (x `mod` 10)) s) as (k & Hk & Hk0 & _).
    { apply N.div_lt; lia. }
    exists (k + 1)%Z. rewrite Hk. split; [|lia]. simpl.
    rewrite pretty_N_char_digit by (apply N.mod_lt; lia). simpl. f_equal.
    rewrite Z.pow_add_r by lia. rewrite N2Z.inj_div, N2Z.inj_mod.
    pose proof (Z.div_mod (Z.of_N x) 10). lia.
Qed.

Lemma digits_pretty_N x : strconv.digits 0 (pretty x) = Some (Z.of_N x).
Proof.
  unfold pretty, pretty_N. case_decide as Hx; [by subst|].
  destruct (digits_pretty_go x "" 0) as (k & -> & _). done.
Qed.

(** The bytes of a decimal number are digits, after a possible sign. *)
Definition is_digit (c : ascii) : bool := match strconv.digit c with Some _ => true | None => false end.

Lemma digits_all acc s v : strconv.digits acc s = Some v → str_forallb is_digit s = true.
Proof.
  revert acc. induction s as [|c s IH]; intros acc H; [done|]. simpl in *. unfold is_digit.
  destruct (strconv.digit c); [|done]. simpl in *. eauto.
Qed.

Lemma pretty_N_nonempty x : (pretty (x : N)) ≠ "".
Proof.
  intros H. assert (strconv.digits 0 (pretty x) = Some 0%Z) as Hd by (by rewrite H).
  rewrite digits_pretty_N in Hd. destruct x; [|done]. by vm_compute in H.
Qed.

Lemma digit_char_not_sign c : is_digit c = true → c ≠ "+"%char ∧ c ≠ "-"%char.
Proof. intros H. split; intros ->; done. Qed.

Lemma ParseInt_pretty z bits :
  (- 2 ^ (bits - 1) ≤ z < 2 ^ (bits - 1))%Z → strconv.ParseInt (pretty z) bits = Some z.
Proof.
  intros Hz. assert (∀ x : N, ∀ (neg : bool), (if neg then (- Z.of_N x)%Z else Z.of_N x) = z →
    match pretty x with
    | "" => None
    | _ => v ← strconv.digits 0 (pretty x);
           if bool_decide (- 2 ^ (bits - 1) ≤ (if neg then - v else v) < 2 ^ (bits - 1))%Z
           then Some (if neg then - v else v)%Z else None
    end = Some z) as Hgo.
  { intros x neg Hx. pose proof (pretty_N_nonempty x). rewrite digits_pretty_N.
    destruct (pretty x); [done|]. cbn [mbind option_bind].
    rewrite Hx. by rewrite bool_decide_true. }
  unfold strconv.ParseInt. destruct z as [|p|p].
  - apply (Hgo 0%N false). done.
  - specialize (Hgo (N.pos p) false eq_refl). change (pretty (Z.pos p)) with (pretty (N.pos p)).
    pose proof (digits_all 0 _ _ (digits_pretty_N (N.pos p))) as Hall.
    destruct (pretty (N.pos p)) as [|c s]; [done|].
    simpl in Hall. apply andb_true_iff in Hall as [Hc _]. apply digit_char_not_sign in Hc as [Hc1 Hc2].
    destruct c as [[] [] [] [] [] [] [] []]; try exact Hgo; done.
  - specialize (Hgo (N.pos p) true eq_refl).
    change (pretty (Z.neg p)) with (String "-" (pretty (N.pos p))). exact Hgo.
Qed.

Lemma Atoi_Itoa z : (- 2 ^ 63 ≤ z < 2 ^ 63)%Z → strconv.Atoi (strconv.Itoa z) = Some z.
Proof. apply (ParseInt_pretty z 64). Qed.

Lemma str_forallb_impl (f g : ascii → bool) s :
  (∀ c, f c = true → g c = true) → str_forallb f s = true → str_forallb g s = true.
Proof.
  intros Hfg. induction s as [|c s IH]; [done|]. simpl. rewrite !andb_true_iff. intros [? ?]; auto.
Qed.

Lemma pretty_Z_chars z : str_forallb (λ c, is_digit c || is_char c "-") (pretty (z : Z)) = true.
Proof.
  assert (∀ x : N, str_forallb (λ c, is_digit c || is_char c "-") (pretty x) = true) as HN.
  { intros x. eapply str_forallb_impl; [|eapply digits_all, digits_pretty_N].
    intros c ->. done. }
  destruct z as [|p|p]; [done|apply (HN (N.pos p))|].
  change (pretty (Z.neg p)) with (String "-" (pretty (N.pos p))). simpl. apply HN.
Qed.

(** No decimal number contains a byte that is neither a digit nor '-'. *)
Lemma pretty_Z_free c z : is_digit c || is_char c "-" = false → str_free c (pretty (z : Z)) = true.
Proof.
  intros Hc. eapply str_forallb_impl, pretty_Z_chars. intros d Hd.
  apply negb_true_iff, is_char_false. intros ->. congruence.
Qed.

Lemma length_app_s s t : String.length (s +:+ t) = (String.length s + String.length t)%nat.
Proof. induction s as [|c s IH]; [done|]. rewrite app_cons_s. cbn. by rewrite IH. Qed.

Lemma Split_nonempty c s : strings.Split s c ≠ [].
Proof. destruct s as [|d s]; [done|]. cbn. destruct (is_char d c); [done|]. by destruct (strings.Split s c). Qed.

(** A string split at its separators is put together again. *)
Lemma Split_inv c s w ws : strings.Split s c = w :: ws →
  (ws = [] ∧ s = w) ∨ ∃ t, s = w +:+ String c t ∧ strings.Split t c = ws ∧ ws ≠ [].
Proof.
  revert w ws. induction s as [|d s IH]; intros w ws H; cbn in H; [injection H as <- <-; by left|].
  destruct (is_char d c) eqn:Hd.
  - apply is_char_true in Hd as ->. injection H as <- <-. right. exists s.
    split; [done|]. split; [done|apply Split_nonempty].
  - destruct (strings.Split s c) as [|v vs] eqn:E; [by apply Split_nonempty in E|].
    injection H as <- <-. destruct (IH v vs eq_refl) as [[-> ->]|(t & -> & Ht & Hne)]; [by left|].
    right. by exists t.
Qed.

(** ** Reversal, prefixes and suffixes *)

Lemma rev_app_spec s t : String.rev_app s t = String.rev s +:+ t.
Proof.
  unfold String.rev. revert t. induction s as [|c s IH]; intros t; [done|]. cbn.
  rewrite (IH (String c t)), (IH (String c "")). by rewrite app_assoc_s.
Qed.
Lemma rev_cons_s c s : String.rev (String c s) = String.rev s +:+ String c "".
Proof. apply (rev_app_spec s (String c "")). Qed.
Lemma rev_app_s s t : String.rev (s +:+ t) = String.rev t +:+ String.rev s.
Proof.
  induction s as [|c s IH]; [by rewrite app_nil_s, app_nil_r_s|].
  by rewrite app_cons_s, !rev_cons_s, IH, app_assoc_s.
Qed.
Lemma rev_snoc_s s c : String.rev (s +:+ String c "") = String c (String.rev s).
Proof. by rewrite rev_app_s. Qed.
Lemma rev_rev_s s : String.rev (String.rev s) = s.
Proof. induction s as [|c s IH]; [done|]. by rewrite rev_cons_s, rev_app_s, IH. Qed.
Lemma length_rev_s s : String.length (String.rev s) = String.length s.
Proof. induction s as [|c s IH]; [done|]. rewrite rev_cons_s, length_app_s, IH. cbn. lia. Qed.
Lemma forallb_rev_s f s : str_forallb f (String.rev s) = str_forallb f s.
Proof.
  induction s as [|c s IH]; [done|]. rewrite rev_cons_s, str_forallb_app, IH. cbn.
  by rewrite andb_true_r, andb_comm.
Qed.

Lemma TrimPrefix_app p s : strings.TrimPrefix (p +:+ s) p = s.
Proof. unfold strings.TrimPrefix. by rewrite HasPrefix_app, str_drop_app. Qed.

Lemma HasSuffix_last s c : strings.HasSuffix (s +:+ String c "") (String c "") = true.
Proof. unfold strings.HasSuffix. rewrite rev_snoc_s. cbn. by rewrite is_char_refl, HasPrefix_nil. Qed.
Lemma HasSuffix_last_ne s c d : c ≠ d → strings.HasSuffix (s +:+ String c "") (String d "") = false.
Proof.
  intros H. unfold strings.HasSuffix. rewrite rev_snoc_s. cbn.
  by rewrite (proj2 (is_char_false d c)) by congruence.
Qed.
Lemma str_take_app s t : str_take (String.length s) (s +:+ t) = s.
Proof. induction s as [|c s IH]; [by destruct t|]. rewrite app_cons_s. cbn. by rewrite IH. Qed.
Lemma TrimSuffix_last s c : strings.TrimSuffix (s +:+ String c "") (String c "") = s.
Proof.
  unfold strings.TrimSuffix. rewrite HasSuffix_last, length_app_s. cbn.
  rewrite Nat.add_sub. apply str_take_app.
Qed.
Lemma TrimSuffix_last_ne s c d : c ≠ d →
  strings.TrimSuffix (s +:+ String c "") (String d "") = s +:+ String c "".
Proof. intros H. unfold strings.TrimSuffix. by rewrite HasSuffix_last_ne. Qed.

(** Every non-empty string has a last byte. *)
Lemma last_byte s : s ≠ "" → ∃ t c, s = t +:+ String c "".
Proof.
  induction s as [|c s IH]; [done|]. intros _. destruct s as [|d s]; [by exists "", c|].
  destruct IH as (t & e & ->); [done|]. by exists (String c t), e.
Qed.

(** [strings.Contains] of one byte. *)
Lemma Contains_char c s : strings.Contains s (String c "") = negb (str_free c s).
Proof.
  induction s as [|d s IH]; [done|]. rewrite str_free_cons. cbn. rewrite IH, HasPrefix_nil, andb_true_r.
  destruct (is_char c d) eqn:E.
  - apply is_char_true in E as ->. by rewrite is_char_refl.
  - apply is_char_false in E. by rewrite (proj2 (is_char_false d c)) by congruence.
Qed.

(** A prefix that contains a byte the string lacks is not one. *)
Lemma HasPrefix_free c s p : str_free c s = true → str_free c p = false → strings.HasPrefix s p = false.
Proof.
  revert s. induction p as [|d p IH]; intros s Hs Hp; [done|].
  destruct s as [|e s]; [done|]. cbn. rewrite str_free_cons in Hs, Hp.
  apply andb_true_iff in Hs as [He Hs]. destruct (is_char d e) eqn:E; [|done].
  apply is_char_true in E as ->. rewrite He in Hp. by apply IH.
Qed.

(** ** White space: bytes [strings.TrimSpace] and [strings.Fields] never cut at *)

Definition solid (c : ascii) : bool := (byte c <? 128)%N && negb (strings.ascii_space c).

Lemma space_len_solid c s : solid c = true → strings.space_len (String c s) = 0%nat.
Proof.
  intros [H1%N.ltb_lt H2%negb_true_iff]%andb_true_iff. cbn. rewrite H2.
  assert ((byte c =? 194)%N = false) as E1 by (apply N.eqb_neq; lia).
  assert ((byte c =? 225)%N = false) as E2 by (apply N.eqb_neq; lia).
  assert ((byte c =? 226)%N = false) as E3 by (apply N.eqb_neq; lia).
  assert ((byte c =? 227)%N = false) as E4 by (apply N.eqb_neq; lia).
  destruct s as [|d [|e s]]; [done|..]; unfold strings.space2, strings.space3; by rewrite E1, ?E2, ?E3, ?E4.
Qed.

Lemma space_len_rev_solid c s : solid c = true → strings.space_len_rev (String c s) = 0%nat.
Proof.
  intros [H1%N.ltb_lt H2%negb_true_iff]%andb_true_iff. cbn. rewrite H2.
  assert ((byte c =? 133)%N = false) as E1 by (apply N.eqb_neq; lia).
  assert ((byte c =? 160)%N = false) as E2 by (apply N.eqb_neq; lia).
  assert ((byte c =? 128)%N = false) as E3 by (apply N.eqb_neq; lia).
  assert ((128 <=? byte c)%N = false) as E4 by (apply N.leb_gt; lia).
  assert ((byte c =? 168)%N = false) as E5 by (apply N.eqb_neq; lia).
  assert ((byte c =? 169)%N = false) as E6 by (apply N.eqb_neq; lia).
  assert ((byte c =? 175)%N = false) as E7 by (apply N.eqb_neq; lia).
  assert ((byte c =? 159)%N = false) as E8 by (apply N.eqb_neq; lia).
  destruct s as [|d [|e s]]; [done|..]; unfold strings.space2, strings.space3;
    rewrite E1, E2, ?E3, ?E4, ?E5, ?E6, ?E7, ?E8, ?andb_false_r; cbn; by rewrite ?andb_false_r.
Qed.

(** A string with solid bytes at both ends is trimmed already. *)
Lemma TrimSpace_ends a x y z : solid a = true → solid z = true →
  String a x = y +:+ String z "" → strings.TrimSpace (String a x) = String a x.
Proof.
  intros Ha Hz E. unfold strings.TrimSpace.
  assert (strings.TrimLeftSpace (String a x) = String a x) as ->
    by (unfold strings.TrimLeftSpace; cbn [String.length strings.skip_spaces];
        by rewrite space_len_solid).
  unfold strings.TrimRightSpace. rewrite E, rev_snoc_s, length_app_s. cbn [String.length].
  rewrite Nat.add_comm.
  cbn [Nat.add strings.skip_spaces]. rewrite space_len_rev_solid by done.
  by rewrite rev_cons_s, rev_rev_s.
Qed.

Lemma TrimSpace_solid s : str_forallb solid s = true → strings.TrimSpace s = s.
Proof.
  intros H. destruct s as [|a x]; [done|]. destruct (last_byte (String a x)) as (y & z & E); [done|].
  eapply TrimSpace_ends; [|..|exact E].
  - by apply andb_true_iff in H as [? _].
  - rewrite E, str_forallb_app in H. cbn in H. rewrite andb_true_r in H. by apply andb_true_iff in H as [_ ?].
Qed.

Lemma solid_not_space c : solid c = true → c ≠ " "%char.
Proof. by intros H ->. Qed.
Lemma solid_free s : str_forallb solid s = true → str_free " " s = true.
Proof.
  apply str_forallb_impl. intros c Hc%solid_not_space. by apply negb_true_iff, is_char_false.
Qed.

(** The fields of words joined by single spaces. *)
Lemma Fields_go_word w : ∀ fuel cur rest, str_forallb solid w = true →
  strings.Fields_go (String.length w + fuel) cur (w +:+ rest) =
  strings.Fields_go fuel (String.rev w +:+ cur) rest.
Proof.
  induction w as [|c w IH]; intros fuel cur rest H; [done|].
  cbn in H. apply andb_true_iff in H as [Hc Hw]. rewrite app_cons_s.
  cbn [String.length Nat.add strings.Fields_go]. rewrite space_len_solid, IH by done.
  by rewrite rev_cons_s, app_assoc_s, app_cons_s, app_nil_s.
Qed.

Lemma Fields_go_end fuel w : w ≠ "" → strings.Fields_go fuel (String.rev w) "" = [w].
Proof.
  intros Hw. assert (String.rev w ≠ "") as Hr.
  { intros E. apply Hw. rewrite <- (rev_rev_s w), E. done. }
  destruct fuel; cbn; destruct (String.rev w) as [|c s] eqn:E; try done; by rewrite <- E, rev_rev_s.
Qed.

Lemma Fields_go_two fuel w1 w2 : w1 ≠ "" → w2 ≠ "" →
  str_forallb solid w1 = true → str_forallb solid w2 = true →
  (String.length w1 + S (String.length w2) <= fuel)%nat →
  strings.Fields_go fuel "" (w1 +:+ String " " w2) = [w1; w2].
Proof.
  intros H1 H2 S1 S2 Hf.
  replace fuel with (String.length w1 + S (String.length w2 + (fuel - String.length w1 - S (String.length w2))))%nat by lia.
  rewrite Fields_go_word, app_nil_r_s by done. cbn [strings.Fields_go].
  assert (String.rev w1 ≠ "") as Hr.
  { intros E. apply H1. rewrite <- (rev_rev_s w1), E. done. }
  change (strings.space_len (String " " w2)) with 1%nat. cbn [str_drop].
  set (k := (fuel - String.length w1 - S (String.length w2))%nat).
  destruct (String.rev w1) as [|c s] eqn:E; [done|]. rewrite <- E, rev_rev_s. f_equal.
  rewrite <- (app_nil_r_s w2) at 2. rewrite Fields_go_word, app_nil_r_s by done.
  by apply Fields_go_end.
Qed.

Lemma Fields_two w1 w2 : w1 ≠ "" → w2 ≠ "" →
  str_forallb solid w1 = true → str_forallb solid w2 = true →
  strings.Fields (w1 +:+ String " " w2) = [w1; w2].
Proof.
  intros. unfold strings.Fields. apply Fields_go_two; try done.
  rewrite length_app_s. cbn. lia.
Qed.
