(* ===== verification/GoRegexp.v ===== *)
(** * Regular expressions, as Go's [regexp] gives them a meaning

    The syntax of the one pattern the program compiles (character classes,
    sequences, counted repetitions, [+] and [?] between [^] and [$]), its
    language, and an executable matcher by derivatives that decides it. *)
From S2P Require Export GoStrings.
From Stdlib Require Import Lia.

Inductive re :=
  | Void
  | Empty
  | Cls (f : ascii → bool)
  | Seq (r1 r2 : re)
  | Alt (r1 r2 : re)
  | Star (r : re).

(** [r?], [r+], [r{0,n}] and [r{n,}]. *)
Definition Opt (r : re) : re := Alt r Empty.
Definition Plus (r : re) : re := Seq r (Star r).
Fixpoint UpTo (n : nat) (r : re) : re :=
  match n with 0 => Empty | S n => Opt (Seq r (UpTo n r)) end.
Fixpoint AtLeast (n : nat) (r : re) : re :=
  match n with 0 => Star r | S n => Seq r (AtLeast n r) end.

(** The language of an expression. *)
Inductive matches : re → string → Prop :=
  | m_Empty : matches Empty ""
  | m_Cls f c : f c = true → matches (Cls f) (String c "")
  | m_Seq r1 r2 s1 s2 : matches r1 s1 → matches r2 s2 → matches (Seq r1 r2) (s1 +:+ s2)
  | m_AltL r1 r2 s : matches r1 s → matches (Alt r1 r2) s
  | m_AltR r1 r2 s : matches r2 s → matches (Alt r1 r2) s
  | m_StarNil r : matches (Star r) ""
  | m_StarCons r s1 s2 : matches r s1 → matches (Star r) s2 → matches (Star r) (s1 +:+ s2).

Fixpoint nullable (r : re) : bool :=
  match r with
  | Void | Cls _ => false
  | Empty | Star _ => true
  | Seq r1 r2 => nullable r1 && nullable r2
  | Alt r1 r2 => nullable r1 || nullable r2
  end.

(** Smart constructors keep the derivatives small. *)
Definition seq (r1 r2 : re) : re :=
  match r1, r2 with
  | Void, _ | _, Void => Void
  | Empty, r | r, Empty => r
  | _, _ => Seq r1 r2
  end.
Definition alt (r1 r2 : re) : re :=
  match r1, r2 with Void, r | r, Void => r | _, _ => Alt r1 r2 end.

Fixpoint deriv (c : ascii) (r : re) : re :=
  match r with
  | Void | Empty => Void
  | Cls f => if f c then Empty else Void
  | Seq r1 r2 =>
      if nullable r1 then alt (seq (deriv c r1) r2) (deriv c r2) else seq (deriv c r1) r2
  | Alt r1 r2 => alt (deriv c r1) (deriv c r2)
  | Star r => seq (deriv c r) (Star r)
  end.

(** [MatchString] of [^r$]: the whole text is matched. *)
Fixpoint MatchString (r : re) (s : string) : bool :=
  match s with "" => nullable r | String c s => MatchString (deriv c r) s end.

(** ** The matcher decides the language *)

Lemma matches_inv r s : matches r s →
  match r with
  | Void => False
  | Empty => s = ""
  | Cls f => ∃ c, s = String c "" ∧ f c = true
  | Seq r1 r2 => ∃ s1 s2, s = s1 +:+ s2 ∧ matches r1 s1 ∧ matches r2 s2
  | Alt r1 r2 => matches r1 s ∨ matches r2 s
  | Star r => s = "" ∨ ∃ s1 s2, s = s1 +:+ s2 ∧ matches r s1 ∧ matches (Star r) s2
  end.
Proof. destruct 1; eauto 10. Qed.

Lemma nullable_spec r : nullable r = true ↔ matches r "".
Proof.
  induction r as [| |f|r1 IH1 r2 IH2|r1 IH1 r2 IH2|r IH]; cbn.
  - split; [done|]. by intros ?%matches_inv.
  - split; [constructor|done].
  - split; [done|]. by intros (c & ? & _)%matches_inv.
  - rewrite andb_true_iff, IH1, IH2. split.
    + intros [H1 H2]. by apply (m_Seq _ _ "" "").
    + intros ([|] & [|] & E & H1 & H2)%matches_inv; try done. 
  - rewrite orb_true_iff, IH1, IH2. split.
    + intros [H|H]; [by apply m_AltL|by apply m_AltR].
    + by intros H%matches_inv.
  - split; [constructor|done].
Qed.

Lemma seq_spec r1 r2 s : matches (seq r1 r2) s ↔ matches (Seq r1 r2) s.
Proof.
  assert (∀ r, matches (Seq Empty r) s ↔ matches r s) as HE1.
  { intros r. split.
    - by intros (s1 & s2 & -> & ->%matches_inv & H)%matches_inv.
    - intros H. apply (m_Seq _ _ "" s); [constructor|done]. }
  assert (∀ r, matches (Seq r Empty) s ↔ matches r s) as HE2.
  { intros r. split.
    - intros (s1 & s2 & -> & H & ->%matches_inv)%matches_inv. by rewrite app_nil_r_s.
    - intros H. rewrite <- (app_nil_r_s s). apply m_Seq; [done|constructor]. }
  assert (∀ r, ¬ matches (Seq Void r) s) as HV1 by (by intros r (? & ? & _ & ?%matches_inv & _)%matches_inv).
  assert (∀ r, ¬ matches (Seq r Void) s) as HV2 by (by intros r (? & ? & _ & _ & ?%matches_inv)%matches_inv).
  assert (¬ matches Void s) as HV by (by intros ?%matches_inv).
  destruct r1, r2; cbn; rewrite ?HE1, ?HE2; try done;
    split; intros H; exfalso; first [by apply HV in H|by apply HV1 in H|by apply HV2 in H].
Qed.

Lemma alt_spec r1 r2 s : matches (alt r1 r2) s ↔ matches r1 s ∨ matches r2 s.
Proof.
  assert (∀ a b, matches (Alt a b) s ↔ matches a s ∨ matches b s) as H.
  { intros a b. split; [by intros ?%matches_inv|]. intros [?|?]; [by apply m_AltL|by apply m_AltR]. }
  assert (¬ matches Void s) as HV by (by intros ?%matches_inv).
  destruct r1, r2; cbn; rewrite ?H; tauto.
Qed.

(** A non-empty match of a star starts with a non-empty match of its body. *)
Lemma star_cons r c s : matches (Star r) (String c s) →
  ∃ s1 s2, s = s1 +:+ s2 ∧ matches r (String c s1) ∧ matches (Star r) s2.
Proof.
  intros H. remember (Star r) as q eqn:Hq. remember (String c s) as t eqn:Ht.
  revert c s Ht. induction H as [| | | | | |r' s1 s2 H1 _ H2 IH]; intros c0 s0 Ht; try done.
  injection Hq as ->. destruct s1 as [|d s1].
  - rewrite app_nil_s in Ht. by apply IH.
  - rewrite app_cons_s in Ht. injection Ht as -> <-. eauto.
Qed.

Lemma deriv_spec c r s : matches (deriv c r) s ↔ matches r (String c s).
Proof.
  revert s. induction r as [| |f|r1 IH1 r2 IH2|r1 IH1 r2 IH2|r IH]; intros s; cbn [deriv].
  - split; by intros ?%matches_inv.
  - split; by intros ?%matches_inv.
  - destruct (f c) eqn:Hf; split.
    + intros ->%matches_inv. by constructor.
    + intros (d & [= -> ->] & _)%matches_inv. constructor.
    + by intros ?%matches_inv.
    + intros (d & [= -> ->] & ?)%matches_inv. congruence.
  - assert (matches (Seq (deriv c r1) r2) s ↔
      ∃ s1 s2, s = s1 +:+ s2 ∧ matches r1 (String c s1) ∧ matches r2 s2) as Hd.
    { split.
      - intros (s1 & s2 & -> & ?%IH1 & ?)%matches_inv. eauto.
      - intros (s1 & s2 & -> & ? & ?). apply m_Seq; [by apply IH1|done]. }
    assert (matches (Seq r1 r2) (String c s) ↔
      (∃ s1 s2, s = s1 +:+ s2 ∧ matches r1 (String c s1) ∧ matches r2 s2) ∨
      (matches r1 "" ∧ matches r2 (String c s))) as Hs.
    { split.
      - intros ([|d s1] & s2 & E & H1 & H2)%matches_inv.
        + rewrite app_nil_s in E. subst. by right.
        + rewrite app_cons_s in E. injection E as <- ->. left. eauto.
      - intros [(s1 & s2 & -> & H1 & H2)|[H1 H2]].
        + rewrite <- app_cons_s. by apply m_Seq.
        + by apply (m_Seq _ _ "" _). }
    rewrite Hs. destruct (nullable r1) eqn:Hn.
    + apply nullable_spec in Hn. rewrite alt_spec, seq_spec, Hd, IH2. tauto.
    + rewrite seq_spec, Hd. rewrite <- nullable_spec, Hn.
      split; [by left|by intros [?|[? _]]].
  - rewrite alt_spec, IH1, IH2. split.
    + intros [?|?]; [by apply m_AltL|by apply m_AltR].
    + by intros ?%matches_inv.
  - rewrite seq_spec. split.
    + intros (s1 & s2 & -> & ?%IH & ?)%matches_inv. rewrite <- app_cons_s. by constructor.
    + intros (s1 & s2 & -> & ? & ?)%star_cons. apply m_Seq; [by apply IH|done].
Qed.

Lemma MatchString_spec r s : MatchString r s = true ↔ matches r s.
Proof.
  revert r. induction s as [|c s IH]; intros r; cbn; [apply nullable_spec|].
  by rewrite IH, deriv_spec.
Qed.

(** ** What the expressions of the program match *)

Lemma matches_Cls f s : matches (Cls f) s ↔ ∃ c, s = String c "" ∧ f c = true.
Proof. split; [by intros ?%matches_inv|]. intros (c & -> & ?). by constructor. Qed.

Lemma matches_Seq r1 r2 s : matches (Seq r1 r2) s ↔ ∃ s1 s2, s = s1 +:+ s2 ∧ matches r1 s1 ∧ matches r2 s2.
Proof. split; [by intros ?%matches_inv|]. intros (s1 & s2 & -> & ? & ?). by constructor. Qed.

Lemma matches_Opt r s : matches (Opt r) s ↔ s = "" ∨ matches r s.
Proof.
  split.
  - intros [H|H%matches_inv]%matches_inv; [by right|by left].
  - intros [->|H]; [apply m_AltR; constructor|by apply m_AltL].
Qed.

Lemma matches_Star_Cls f s : matches (Star (Cls f)) s ↔ str_forallb f s = true.
Proof.
  induction s as [|c s IH]; [split; [done|constructor]|]. cbn. rewrite andb_true_iff. split.
  - intros (s1 & s2 & -> & (d & [= -> ->] & Hd)%matches_Cls & H)%star_cons.
    rewrite app_nil_s in *. split; [done|]. by apply IH.
  - intros [Hc Hs]. apply (m_StarCons _ (String c "") s); [by constructor|by apply IH].
Qed.

Lemma matches_AtLeast_Cls n f s :
  matches (AtLeast n (Cls f)) s ↔ (n ≤ String.length s)%nat ∧ str_forallb f s = true.
Proof.
  revert s. induction n as [|n IH]; intros s; cbn [AtLeast].
  - rewrite matches_Star_Cls. split; [split; [lia|done]|by intros []].
  - rewrite matches_Seq. setoid_rewrite matches_Cls. split.
    + intros (s1 & s2 & -> & (c & -> & Hc) & [Hl Hs]%IH). rewrite app_cons_s, app_nil_s. cbn. rewrite Hc, Hs. split; [lia|done].
    + intros [Hl Hs]. destruct s as [|c s]; cbn in *; [lia|]. apply andb_true_iff in Hs as [Hc Hs].
      exists (String c ""), s. split; [done|]. split; [by exists c|]. apply IH. split; [lia|done].
Qed.

Lemma matches_UpTo_Cls n f s :
  matches (UpTo n (Cls f)) s ↔ (String.length s ≤ n)%nat ∧ str_forallb f s = true.
Proof.
  revert s. induction n as [|n IH]; intros s; cbn [UpTo].
  - split; [intros ->%matches_inv; by split|]. intros [Hl _]. destruct s; [constructor|cbn in Hl; lia].
  - rewrite matches_Opt, matches_Seq. setoid_rewrite matches_Cls. split.
    + intros [->|(s1 & s2 & -> & (c & -> & Hc) & [Hl Hs]%IH)]; [split; [cbn; lia|done]|].
      rewrite app_cons_s, app_nil_s. cbn. rewrite Hc, Hs. split; [lia|done].
    + destruct s as [|c s]; [by left|]. cbn. rewrite andb_true_iff. intros [Hl [Hc Hs]]. right.
      exists (String c ""), s. split; [done|]. split; [by exists c|]. apply IH. split; [lia|done].
Qed.
