(* ===== verification/GoURL.v ===== *)
(** * The parts of Go's [net/url] the program uses

    [url.Parse], [URL.Query], [url.QueryEscape] and what they call, as in Go
    1.24.  An error is [None]; of a [URL] the fields the program reads are
    kept.  [Values] is the list of pairs in the order of the query. *)
From S2P Require Export GoStrings.
From Stdlib Require Import Lia.

Module url.

Inductive encoding :=
  | encodePath | encodeHost | encodeZone | encodeUserPassword
  | encodeQueryComponent | encodeFragment.
Global Instance encoding_eq_dec : EqDecision encoding.
Proof. solve_decision. Defined.

Definition in_range (lo hi : N) (c : ascii) : bool := ((lo <=? byte c) && (byte c <=? hi))%N.
Definition is_alnum (c : ascii) : bool :=
  in_range 97 122 c || in_range 65 90 c || in_range 48 57 c.
Definition in_chars (set : string) (c : ascii) : bool := str_existsb (is_char c) set.

(** [shouldEscape] for the two groups of modes in which the program reaches it. *)
Definition shouldEscape (c : ascii) (mode : encoding) : bool :=
  if is_alnum c then false else
  if (bool_decide (mode = encodeHost) || bool_decide (mode = encodeZone)) &&
     (in_chars "!$&'()*+,;=:[]<>" c || (byte c =? 34)%N) then false else
  if in_chars "-_.~" c then false else true.

Definition hex_val (c : ascii) : option N :=
  if in_range 48 57 c then Some (byte c - 48)%N
  else if in_range 97 102 c then Some (byte c - 87)%N
  else if in_range 65 70 c then Some (byte c - 55)%N
  else None.

(** [unescape]: the checks of its first loop and the result of its second. *)
Fixpoint unescape (s : string) (mode : encoding) : option string :=
  match s with
  | "" => Some ""
  | String c s1 =>
      if is_char c "%" then
        match s1 with
        | String a (String b s2) =>
            match hex_val a, hex_val b with
            | Some x, Some y =>
                let v := ascii_of_N (16 * x + y) in
                let pct25 := is_char a "2" && is_char b "5" in
                if bool_decide (mode = encodeHost) && (x <? 8)%N && negb pct25 then None else
                if bool_decide (mode = encodeZone) && negb pct25 && negb (is_char v " ")
                   && shouldEscape v encodeHost then None else
                r ← unescape s2 mode; Some (String v r)
            | _, _ => None
            end
        | _ => None
        end
      else if is_char c "+" then
        r ← unescape s1 mode;
        Some (String (if bool_decide (mode = encodeQueryComponent) then " "%char else c) r)
      else
        if (bool_decide (mode = encodeHost) || bool_decide (mode = encodeZone))
           && (byte c <? 128)%N && shouldEscape c mode then None else
        r ← unescape s1 mode; Some (String c r)
  end.

(** [QueryEscape]: upper case hexadecimal digits, a space becomes '+'. *)
Definition upper_hex (x : N) : ascii := ascii_of_N (if (x <? 10)%N then 48 + x else 55 + x).
Fixpoint QueryEscape (s : string) : string :=
  match s with
  | "" => ""
  | String c s =>
      if is_char c " " then String "+" (QueryEscape s)
      else if shouldEscape c encodeQueryComponent
      then String "%" (String (upper_hex (byte c / 16)) (String (upper_hex (byte c mod 16))
             (QueryEscape s)))
      else String c (QueryEscape s)
  end.
Definition QueryUnescape (s : string) : option string := unescape s encodeQueryComponent.

(** [getScheme]: [None] is the error, the flag tells that [i] is 0. *)
Fixpoint getScheme_go (first : bool) (s : string) : option (option (string * string)) :=
  match s with
  | "" => Some None
  | String c s =>
      if in_range 97 122 c || in_range 65 90 c then
        match getScheme_go false s with
        | Some (Some (a, b)) => Some (Some (String c a, b))
        | r => r
        end
      else if in_range 48 57 c || in_chars "+-." c then
        if first then Some None else
        match getScheme_go false s with
        | Some (Some (a, b)) => Some (Some (String c a, b))
        | r => r
        end
      else if is_char c ":" then if first then None else Some (Some ("", s))
      else Some None
  end.
Definition getScheme (rawURL : string) : option (string * string) :=
  r ← getScheme_go true rawURL; Some (default ("", rawURL) r).

(** The text before and from the last [c]. *)
Fixpoint last_index (c : ascii) (s : string) : option (string * string) :=
  match s with
  | "" => None
  | String d s' =>
      match last_index c s' with
      | Some (a, b) => Some (String d a, b)
      | None => if is_char d c then Some ("", s) else None
      end
  end.
(** The text before and from the first occurrence of [p]. *)
Fixpoint index (p s : string) : option (string * string) :=
  if strings.HasPrefix s p then Some ("", s) else
  match s with
  | "" => None
  | String d s' => '(a, b) ← index p s'; Some (String d a, b)
  end.

Definition validOptionalPort (port : string) : bool :=
  match port with
  | "" => true
  | String c p => is_char c ":" && str_forallb (in_range 48 57) p
  end.

Definition parseHost (host : string) : option string :=
  if strings.HasPrefix host "[" then
    '(pre, post) ← last_index "]" host;
    if negb (validOptionalPort (str_drop 1 post)) then None else
    match index "%25" pre with
    | Some (h1, h2) =>
        a ← unescape h1 encodeHost; b ← unescape h2 encodeZone; c ← unescape post encodeHost;
        Some (a +:+ b +:+ c)
    | None => unescape host encodeHost
    end
  else
    match last_index ":" host with
    | Some (_, colonPort) =>
        if negb (validOptionalPort colonPort) then None else unescape host encodeHost
    | None => unescape host encodeHost
    end.

Definition validUserinfo (s : string) : bool :=
  str_forallb (λ c, is_alnum c || in_chars "-._:~!$&'()*+,;=%@" c) s.

(** The host of an authority, when its user information is well formed. *)
Definition parseAuthority (authority : string) : option string :=
  match last_index "@" authority with
  | None => parseHost authority
  | Some (userinfo, at_host) =>
      host ← parseHost (str_drop 1 at_host);
      if negb (validUserinfo userinfo) then None else
      let '(username, password, colon) := strings.Cut userinfo ":" in
      _ ← unescape username encodeUserPassword;
      if colon : bool then _ ← unescape password encodeUserPassword; Some host else Some host
  end.

Record URL := mkURL { Scheme : string; Host : string; Path : string; RawQuery : string }.

Definition is_ctl (c : ascii) : bool := ((byte c <? 32) || (byte c =? 127))%N.

(** The query is cut off before the rest is looked at. *)
Definition cut_query (rest : string) : string * string :=
  let '(a, q, found) := strings.Cut rest "?" in (a, q).

Definition parse_rest (scheme rest query : string) : option URL :=
  if negb (strings.HasPrefix rest "/") && negb (bool_decide (scheme = ""))
  then Some (mkURL scheme "" "" query) else
  if negb (strings.HasPrefix rest "/") &&
     strings.Contains (strings.Cut rest "/").1.1 ":" then None else
  '(host, rest) ←
    (if (negb (bool_decide (scheme = "")) || negb (strings.HasPrefix rest "///"))
        && strings.HasPrefix rest "//"
     then
       let '(authority, path) := default (str_drop 2 rest, "") (index "/" (str_drop 2 rest)) in
       host ← parseAuthority authority; Some (host, path)
     else Some ("", rest));
  path ← unescape rest encodePath;
  Some (mkURL scheme host path query).

Definition parse (rawURL : string) : option URL :=
  if str_existsb is_ctl rawURL then None else
  if bool_decide (rawURL = "*") then Some (mkURL "" "" "*" "") else
  '(scheme, rest) ← getScheme rawURL;
  let '(rest, query) := cut_query rest in
  parse_rest (strings.ToLower scheme) rest query.

Definition Parse (rawURL : string) : option URL :=
  let '(u, frag, _) := strings.Cut rawURL "#" in
  r ← parse u;
  if bool_decide (frag = "") then Some r else
  _ ← unescape frag encodeFragment; Some r.

(** [parseQuery], one segment at a time; malformed segments are skipped. *)
Definition parse_pair (seg : string) : option (string * string) :=
  if strings.Contains seg ";" then None else
  if bool_decide (seg = "") then None else
  let '(k, v, _) := strings.Cut seg "=" in
  k ← QueryUnescape k; v ← QueryUnescape v; Some (k, v).
Definition ParseQuery (query : string) : list (string * string) :=
  omap parse_pair (strings.Split query "&").
Definition Has (v : list (string * string)) (key : string) : bool :=
  existsb (λ p, bool_decide (p.1 = key)) v.

End url.

(** ** Escaping is undone by unescaping *)

Lemma hex_val_upper x : (x < 16)%N → url.hex_val (url.upper_hex x) = Some x.
Proof.
  intros H. assert (x = 0 ∨ x = 1 ∨ x = 2 ∨ x = 3 ∨ x = 4 ∨ x = 5 ∨ x = 6 ∨ x = 7 ∨ x = 8 ∨ x = 9
    ∨ x = 10 ∨ x = 11 ∨ x = 12 ∨ x = 13 ∨ x = 14 ∨ x = 15)%N as Hx by lia.
  by repeat (destruct Hx as [-> | Hx]; [done|]); subst.
Qed.

Lemma byte_bound c : (byte c < 256)%N.
Proof. by destruct c as [[] [] [] [] [] [] [] []]. Qed.

Lemma QueryUnescape_Escape s : url.QueryUnescape (url.QueryEscape s) = Some s.
Proof.
  unfold url.QueryUnescape. induction s as [|c s IH]; [done|]. cbn [url.QueryEscape].
  destruct (is_char c " ") eqn:Hsp.
  { apply is_char_true in Hsp as ->. cbn. by rewrite IH. }
  destruct (url.shouldEscape c url.encodeQueryComponent) eqn:Hesc.
  - cbn [url.unescape]. rewrite is_char_refl. pose proof (byte_bound c).
    rewrite !hex_val_upper by (apply N.Div0.div_lt_upper_bound || apply N.mod_lt; lia).
    rewrite !bool_decide_false by done. cbn [andb]. rewrite IH. cbn [mbind option_bind].
    do 2 f_equal. rewrite <- N.div_mod by lia. apply ascii_N_embedding.
  - cbn [url.unescape]. destruct (is_char c "%") eqn:H1; [by apply is_char_true in H1; subst|].
    destruct (is_char c "+") eqn:H2; [by apply is_char_true in H2; subst|].
    rewrite !bool_decide_false by done. cbn [orb andb]. rewrite IH. done.
Qed.

(** The bytes an escaped string can have. *)
Definition esc_char (c : ascii) : bool :=
  url.is_alnum c || url.in_chars "-_.~%+" c.

Lemma upper_hex_alnum x : (x < 16)%N → esc_char (url.upper_hex x) = true.
Proof.
  intros H. assert (x = 0 ∨ x = 1 ∨ x = 2 ∨ x = 3 ∨ x = 4 ∨ x = 5 ∨ x = 6 ∨ x = 7 ∨ x = 8 ∨ x = 9
    ∨ x = 10 ∨ x = 11 ∨ x = 12 ∨ x = 13 ∨ x = 14 ∨ x = 15)%N as Hx by lia.
  by repeat (destruct Hx as [-> | Hx]; [done|]); subst.
Qed.

Lemma shouldEscape_safe c : url.shouldEscape c url.encodeQueryComponent = false → esc_char c = true.
Proof. destruct c as [[] [] [] [] [] [] [] []]; by vm_compute. Qed.

Lemma QueryEscape_chars s : str_forallb esc_char (url.QueryEscape s) = true.
Proof.
  induction s as [|c s IH]; [done|]. cbn [url.QueryEscape].
  destruct (is_char c " "); [exact IH|].
  destruct (url.shouldEscape c url.encodeQueryComponent) eqn:Hesc; cbn [str_forallb].
  - pose proof (byte_bound c).
    rewrite !upper_hex_alnum by (apply N.Div0.div_lt_upper_bound || apply N.mod_lt; lia).
    by rewrite IH.
  - by rewrite shouldEscape_safe, IH.
Qed.

Lemma QueryEscape_free c s : esc_char c = false → str_free c (url.QueryEscape s) = true.
Proof.
  intros Hc. eapply str_forallb_impl, QueryEscape_chars. intros d Hd.
  apply negb_true_iff, is_char_false. intros ->. congruence.
Qed.

(** ** Queries are parsed segment by segment *)

Lemma Split_app_sep c s t : strings.Split (s +:+ String c t) c = strings.Split s c ++ strings.Split t c.
Proof.
  induction s as [|d s IH].
  - rewrite app_nil_s. cbn. by rewrite is_char_refl.
  - rewrite app_cons_s. cbn. destruct (is_char d c); rewrite IH; [done|].
    destruct (strings.Split s c) eqn:E; [|done]. exfalso. revert E. clear.
    destruct s as [|x s]; cbn; [done|]. destruct (is_char x c); [done|].
    by destruct (strings.Split s c).
Qed.

Lemma ParseQuery_app q r :
  url.ParseQuery (q +:+ String "&" r) = url.ParseQuery q ++ url.ParseQuery r.
Proof. unfold url.ParseQuery. by rewrite Split_app_sep, omap_app. Qed.

Lemma Contains_free c s : str_free c s = true → strings.Contains s (String c "") = false.
Proof.
  induction s as [|d s IH]; intros H; [done|].
  rewrite str_free_cons in H. apply andb_true_iff in H as [H1%negb_true_iff H2].
  cbn. rewrite IH by done. destruct (is_char c d) eqn:E; [|done].
  apply is_char_true in E as ->. by rewrite is_char_refl in H1.
Qed.

Lemma Cut_inv s c : (str_free c s = true ∧ strings.Cut s c = (s, "", false)) ∨
  ∃ a b, s = a +:+ String c b ∧ str_free c a = true ∧ strings.Cut s c = (a, b, true).
Proof.
  induction s as [|d s IH]; [by left|]. destruct (is_char d c) eqn:Hd.
  - right. exists "", s. apply is_char_true in Hd as ->. cbn. by rewrite is_char_refl.
  - rewrite str_free_cons, Hd. cbn. rewrite Hd. destruct IH as [[H ->]|(a & b & -> & Ha & E)].
    + by left.
    + right. exists (String d a), b. rewrite E. rewrite app_cons_s, str_free_cons, Hd. done.
Qed.

(** A query appended to a relative URI: the path is kept, the query grows. *)
Lemma parse_rest_query s r q q' u : url.parse_rest s r q = Some u →
  url.parse_rest s r q' = Some (url.mkURL (url.Scheme u) (url.Host u) (url.Path u) q') ∧ url.RawQuery u = q.
Proof.
  unfold url.parse_rest. case_match; [by intros [= <-]|]. case_match; [done|].
  destruct (if _ && _ then _ else _) as [[h r']|]; [|done]. cbn [mbind option_bind].
  destruct (url.unescape r' url.encodePath) as [p|]; [|done]. cbn [mbind option_bind].
  by intros [= <-].
Qed.

Lemma getScheme_slash t : url.getScheme (String "/" t) = Some ("", String "/" t).
Proof. done. Qed.

Lemma parse_slash t : url.parse (String "/" t) =
  if str_existsb url.is_ctl (String "/" t) then None
  else let '(rest, query) := url.cut_query (String "/" t) in url.parse_rest "" rest query.
Proof. done. Qed.

Lemma existsb_app f s t : str_existsb f (s +:+ t) = str_existsb f s || str_existsb f t.
Proof. unfold str_existsb. rewrite str_forallb_app. by destruct (str_forallb _ s). Qed.

Definition param_char (c : ascii) : bool := esc_char c || url.in_chars "&=" c.

Lemma param_char_ctl c : param_char c = true → negb (url.is_ctl c) = true.
Proof. destruct c as [[] [] [] [] [] [] [] []]; by vm_compute. Qed.
Lemma param_char_hash c : param_char c = true → negb (is_char c "#") = true.
Proof. destruct c as [[] [] [] [] [] [] [] []]; by vm_compute. Qed.

(** The separator [buildAddPath] and [buildRemovePath] choose. *)
Definition query_sep (uri : string) : ascii := if strings.Contains uri "?" then "&" else "?".

Lemma Parse_append t p u :
  let uri := String "/" t in
  str_free "#" uri = true → str_forallb param_char p = true → url.Parse uri = Some u →
  ∃ u', url.Parse (uri +:+ String (query_sep uri) p) = Some u' ∧
    url.Scheme u' = url.Scheme u ∧ url.Host u' = url.Host u ∧ url.Path u' = url.Path u ∧
    url.ParseQuery (url.RawQuery u') = url.ParseQuery (url.RawQuery u) ++ url.ParseQuery p.
Proof.
  intros uri Hh Hp. unfold url.Parse.
  assert (str_free "#" (String (query_sep uri) p) = true) as Hp'.
  { rewrite str_free_cons. unfold query_sep. assert (str_free "#" p = true) as ->
      by (eapply str_forallb_impl, Hp; apply param_char_hash). by destruct (strings.Contains _ _). }
  assert (str_existsb url.is_ctl (String (query_sep uri) p) = false) as Hc.
  { unfold str_existsb. cbn [str_forallb]. assert (str_forallb (λ c, negb (url.is_ctl c)) p = true) as ->
      by (eapply str_forallb_impl, Hp; apply param_char_ctl).
    unfold query_sep. by destruct (strings.Contains _ _). }
  rewrite (Cut_free "#" uri Hh), Cut_free by (by rewrite str_free_app, Hh, Hp').
  rewrite !bool_decide_true by done. intros H.
  assert (url.parse uri = Some u) as Hu by (by destruct (url.parse uri)). clear H.
  unfold uri in *. rewrite app_cons_s. rewrite parse_slash in Hu |- *.
  rewrite <- (app_cons_s "/" t), existsb_app, Hc, orb_false_r.
  destruct (str_existsb url.is_ctl (String "/" t)); [done|].
  unfold url.cut_query in *. unfold query_sep. rewrite Contains_char.
  destruct (Cut_inv (String "/" t) "?") as [[Hf E]|(a & b & Eab & Hf & E)].
  - rewrite Hf. cbn [negb]. rewrite Cut_app by done. rewrite E in Hu.
    apply (parse_rest_query _ _ _ p) in Hu as [-> Hq]. cbn [mbind option_bind].
    eexists. split; [done|]. rewrite Hq. done.
  - assert (str_free "?" (String "/" t) = false) as ->.
    { rewrite Eab, str_free_app, str_free_cons, is_char_refl. apply andb_false_r. }
    cbn [negb]. rewrite E in Hu. rewrite Eab, app_assoc_s, app_cons_s, Cut_app by done.
    apply (parse_rest_query _ _ _ (b +:+ String "&" p)) in Hu as [-> Hq]. cbn [mbind option_bind].
    eexists. split; [done|]. rewrite Hq. cbn [url.RawQuery url.Scheme url.Host url.Path]. by rewrite ParseQuery_app.
Qed.

(** ** Queries of escaped parameters *)

Lemma unescape_plain s : str_free "%" s = true → str_free "+" s = true → url.QueryUnescape s = Some s.
Proof.
  unfold url.QueryUnescape. induction s as [|c s IH]; intros H1 H2; [done|].
  rewrite str_free_cons in H1, H2. apply andb_true_iff in H1 as [Hc1%negb_true_iff H1], H2 as [Hc2%negb_true_iff H2].
  cbn [url.unescape]. rewrite Hc1, Hc2, !bool_decide_false by done. cbn [orb andb]. by rewrite IH.
Qed.

Lemma parse_pair_spec k v dv : k ≠ "" → str_forallb url.is_alnum k = true →
  str_free ";" v = true → url.QueryUnescape v = Some dv →
  url.parse_pair (k +:+ String "=" v) = Some (k, dv).
Proof.
  intros Hne Hk Hv Hd.
  assert (∀ c, url.is_alnum c = false → str_free c k = true) as Hf.
  { intros c Hc. eapply str_forallb_impl, Hk. intros d Hdd. apply negb_true_iff, is_char_false.
    intros ->. congruence. }
  unfold url.parse_pair. rewrite Contains_char, str_free_app, str_free_cons, Hf, Hv by done. cbn [negb andb].
  rewrite bool_decide_false by (by destruct k). rewrite Cut_app by (by apply Hf).
  rewrite (unescape_plain k), Hd by (by apply Hf). done.
Qed.

Lemma ParseQuery_one k v dv : k ≠ "" → str_forallb url.is_alnum k = true →
  str_free ";" v = true → str_free "&" v = true → url.QueryUnescape v = Some dv →
  url.ParseQuery (k +:+ String "=" v) = [(k, dv)].
Proof.
  intros Hne Hk Hv Ha Hd. unfold url.ParseQuery.
  rewrite Split_free.
  - cbn. by rewrite (parse_pair_spec k v dv).
  - rewrite str_free_app, str_free_cons, Ha. cbn.
    assert (str_free "&" k = true) as ->; [|done].
    eapply str_forallb_impl, Hk. intros d Hdd. apply negb_true_iff, is_char_false. by intros ->.
Qed.

Lemma ParseQuery_escaped k s : k ≠ "" → str_forallb url.is_alnum k = true →
  url.ParseQuery (k +:+ String "=" (url.QueryEscape s)) = [(k, s)].
Proof.
  intros. apply ParseQuery_one; try done; try by apply QueryEscape_free. apply QueryUnescape_Escape.
Qed.
