(* ===== verification/GoNet.v ===== *)
(** * The parts of Go's [net] and [net/netip] the program uses

    Addresses are byte slices, here [list Z] with every byte in 0..255; an
    invalid parse is [None].  The functions follow Go 1.24, the version of
    go.mod. *)
From S2P Require Export GoStrings.
From Stdlib Require Import Lia.
Local Open Scope Z_scope.

(** ** netip.ParseAddr *)

Inductive Addr : Type :=
  | Addr4 (bytes : list Z)
  | Addr6 (bytes : list Z) (zone : string).

Definition v4InV6Prefix : list Z := [0; 0; 0; 0; 0; 0; 0; 0; 0; 0; 255; 255].

(** [parseIPv4Fields]: [val] and [digLen] are the value and the number of
    digits of the current field, [pos] the number of fields read (in
    [fields]); [prev] is the byte before [s], if any. *)
Fixpoint parseIPv4Fields_go (prev : option ascii) (val : Z) (digLen : nat)
    (fields : list Z) (s : string) : option (list Z) :=
  match s with
  | "" =>
      if bool_decide (length fields < 3)%nat then None else Some (fields ++ [val])
  | String c s' =>
      match strconv.digit c with
      | Some d =>
          if (bool_decide (digLen = 1%nat) && (val =? 0)) then None else
          let val' := val * 10 + d in
          if 255 <? val' then None
          else parseIPv4Fields_go (Some c) val' (S digLen) fields s'
      | None =>
          if is_char c "." then
            match prev, s' with
            | None, _ | _, "" => None
            | Some p, _ =>
                if is_char p "." then None
                else if bool_decide (length fields = 3%nat) then None
                else parseIPv4Fields_go (Some c) 0 0 (fields ++ [val]) s'
            end
          else None
      end
  end.
Definition parseIPv4Fields (s : string) : option (list Z) :=
  parseIPv4Fields_go None 0 0 [] s.
Definition parseIPv4 (s : string) : option Addr :=
  bs ← parseIPv4Fields s; Some (Addr4 bs).

Definition hex_digit (c : ascii) : option Z :=
  let b := byte c in
  if ((48 <=? b) && (b <=? 57))%N then Some (Z.of_N b - 48)
  else if ((97 <=? b) && (b <=? 102))%N then Some (Z.of_N b - 87)
  else if ((65 <=? b) && (b <=? 70))%N then Some (Z.of_N b - 55)
  else None.

(** One hexadecimal group: its value, the number of digits and the rest;
    [None] when it has more than four digits. *)
Fixpoint hex_group (acc : Z) (off : nat) (s : string) : option (Z * nat * string) :=
  match s with
  | "" => Some (acc, off, s)
  | String c s' =>
      match hex_digit c with
      | None => Some (acc, off, s)
      | Some d =>
          let acc' := acc * 16 + d in
          if bool_decide (3 < off)%nat then None
          else if 65535 <? acc' then None
          else hex_group acc' (S off) s'
      end
  end.

(** The loop of [parseIPv6]: [ip] holds the bytes read so far, [ellipsis] the
    position of "::" in it.  Each turn adds at least two bytes and the loop
    stops at 16, so eight turns are enough. *)
Fixpoint parseIPv6_loop (fuel : nat) (ip : list Z) (ellipsis : option nat) (s : string)
    : option (list Z * option nat * string) :=
  match fuel with
  | O => Some (ip, ellipsis, s)
  | S fuel =>
      if bool_decide (16 <= length ip)%nat then Some (ip, ellipsis, s) else
      '(acc, off, rest) ← hex_group 0 0 s;
      match off with
      | O => None
      | S _ =>
          match rest with
          | String "."%char _ =>
              if (bool_decide (ellipsis = None) && negb (bool_decide (length ip = 12%nat)))
              then None
              else if bool_decide (16 < length ip + 4)%nat then None
              else bs ← parseIPv4Fields s; Some (ip ++ bs, ellipsis, "")
          | "" => Some (ip ++ [acc / 256; acc mod 256], ellipsis, "")
          | String c rest' =>
              let ip' := ip ++ [acc / 256; acc mod 256] in
              if negb (is_char c ":") then None else
              match rest' with
              | "" => None
              | String ":"%char rest'' =>
                  match ellipsis with
                  | Some _ => None
                  | None =>
                      match rest'' with
                      | "" => Some (ip', Some (length ip'), "")
                      | _ => parseIPv6_loop fuel ip' (Some (length ip')) rest''
                      end
                  end
              | _ => parseIPv6_loop fuel ip' ellipsis rest'
              end
          end
      end
  end.

Definition parseIPv6 (s0 : string) : option Addr :=
  let '(s, zone, found) := strings.Cut s0 "%" in
  if found && bool_decide (zone = "") then None else
  let '(ellipsis, s) :=
    if strings.HasPrefix s "::" then (Some 0%nat, str_drop 2 s) else (None, s) in
  match ellipsis, s with
  | Some _, "" => Some (Addr6 (replicate 16 0) zone)
  | _, _ =>
      '(ip, ellipsis, rest) ← parseIPv6_loop 8 [] ellipsis s;
      if negb (bool_decide (rest = "")) then None else
      if bool_decide (length ip < 16)%nat then
        match ellipsis with
        | None => None
        | Some e => Some (Addr6 (take e ip ++ replicate (16 - length ip) 0 ++ drop e ip) zone)
        end
      else match ellipsis with
           | Some _ => None
           | None => Some (Addr6 ip zone)
           end
  end.

(** [ParseAddr] looks for the first of '.', ':' and '%'. *)
Fixpoint ParseAddr_kind (s : string) : option ascii :=
  match s with
  | "" => None
  | String c s => if (is_char c "." || is_char c ":" || is_char c "%") then Some c
                  else ParseAddr_kind s
  end.
Definition ParseAddr (s : string) : option Addr :=
  match ParseAddr_kind s with
  | Some "."%char => parseIPv4 s
  | Some ":"%char => parseIPv6 s
  | _ => None
  end.

Definition Zone (a : Addr) : string :=
  match a with Addr4 _ => "" | Addr6 _ z => z end.
Definition BitLen (a : Addr) : Z :=
  match a with Addr4 _ => 32 | Addr6 _ _ => 128 end.
Definition As16 (a : Addr) : list Z :=
  match a with Addr4 b => v4InV6Prefix ++ b | Addr6 b _ => b end.

(** ** net.IP *)

Definition ParseIP (s : string) : option (list Z) :=
  a ← ParseAddr s;
  if bool_decide (Zone a = "") then Some (As16 a) else None.

(** [IP.To4] and [IP.To16]; [None] is nil. *)
Definition To4 (ip : list Z) : option (list Z) :=
  if bool_decide (length ip = 4%nat) then Some ip
  else if (bool_decide (length ip = 16%nat) && bool_decide (take 12 ip = v4InV6Prefix))
  then Some (drop 12 ip) else None.
Definition To16 (ip : list Z) : option (list Z) :=
  if bool_decide (length ip = 4%nat) then Some (v4InV6Prefix ++ ip)
  else if bool_decide (length ip = 16%nat) then Some ip else None.

(** [CIDRMask(ones, bits)]: [n] bytes are left to write. *)
Fixpoint CIDRMask_go (n : nat) (ones : Z) : list Z :=
  match n with
  | O => []
  | S n => if 8 <=? ones then 255 :: CIDRMask_go n (ones - 8)
           else (255 - Z.shiftr 255 ones) :: CIDRMask_go n 0
  end.
Definition CIDRMask (ones bits : Z) : option (list Z) :=
  if (negb (bits =? 32) && negb (bits =? 128)) || (ones <? 0) || (bits <? ones)
  then None else Some (CIDRMask_go (Z.to_nat (bits / 8)) ones).

Definition and_bytes (a b : list Z) : list Z := zip_with Z.land a b.

(** [IP.Mask]: [None] is nil. *)
Definition Mask (ip mask : list Z) : option (list Z) :=
  let mask :=
    if bool_decide (length mask = 16%nat) && bool_decide (length ip = 4%nat)
       && bool_decide (take 12 mask = replicate 12 255)
    then drop 12 mask else mask in
  let ip :=
    if bool_decide (length mask = 4%nat) && bool_decide (length ip = 16%nat)
       && bool_decide (take 12 ip = v4InV6Prefix)
    then drop 12 ip else ip in
  if bool_decide (length ip = length mask) then Some (and_bytes ip mask) else None.

Record IPNet := { net_IP : option (list Z); net_Mask : list Z }.

(** [dtoi]: the leading decimal number; [None] when it is missing or reaches
    0xFFFFFF. *)
Fixpoint dtoi_go (n : Z) (s : string) : option (Z * string) :=
  match s with
  | "" => Some (n, s)
  | String c s' =>
      match strconv.digit c with
      | None => Some (n, s)
      | Some d => let n' := n * 10 + d in
                  if 16777215 <=? n' then None else dtoi_go n' s'
      end
  end.
Definition dtoi (s : string) : option (Z * string) :=
  match s with
  | String c _ => match strconv.digit c with Some _ => dtoi_go 0 s | None => None end
  | "" => None
  end.

Definition ParseCIDR (s : string) : option (list Z * IPNet) :=
  let '(addr, mask, found) := strings.Cut s "/" in
  if negb found then None else
  ipAddr ← ParseAddr addr;
  if negb (bool_decide (Zone ipAddr = "")) then None else
  '(n, rest) ← dtoi mask;
  if negb (bool_decide (rest = "")) || (BitLen ipAddr <? n) then None else
  m ← CIDRMask n (BitLen ipAddr);
  Some (As16 ipAddr, {| net_IP := Mask (As16 ipAddr) m; net_Mask := m |}).

Definition networkNumberAndMask (n : IPNet) : option (list Z * list Z) :=
  nip ← net_IP n;
  number ← match To4 nip with
           | Some ip => Some ip
           | None => if bool_decide (length nip = 16%nat) then Some nip else None
           end;
  if bool_decide (length (net_Mask n) = 4%nat) then
    if bool_decide (length number = 4%nat) then Some (number, net_Mask n) else None
  else if bool_decide (length (net_Mask n) = 16%nat) then
    Some (number, if bool_decide (length number = 4%nat) then drop 12 (net_Mask n)
                  else net_Mask n)
  else None.

(** [IPNet.Contains]; a nil network number has length 0, and so contains no
    address of 4 or 16 bytes. *)
Definition Contains (n : IPNet) (ip : list Z) : bool :=
  let ip := default ip (To4 ip) in
  match networkNumberAndMask n with
  | None => bool_decide (length ip = 0%nat)
  | Some (nn, m) =>
      bool_decide (length ip = length nn) &&
      bool_decide (and_bytes nn m = and_bytes ip m)
  end.

(** ** IP.String *)

Definition join4 (b : list Z) : string :=
  match b with
  | [b0; b1; b2; b3] =>
      pretty b0 +:+ "." +:+ pretty b1 +:+ "." +:+ pretty b2 +:+ "." +:+ pretty b3
  | _ => ""
  end.

Definition hex_char (d : Z) : ascii :=
  if d <? 10 then ascii_of_N (Z.to_N (48 + d)) else ascii_of_N (Z.to_N (87 + d)).
(** [appendHex]: no leading zeros. *)
Definition append_hex (x : Z) : string :=
  (if 4096 <=? x then String (hex_char (x / 4096)) "" else "") +:+
  (if 256 <=? x then String (hex_char (x / 256 mod 16)) "" else "") +:+
  (if 16 <=? x then String (hex_char (x / 16 mod 16)) "" else "") +:+
  String (hex_char (x mod 16)) "".

Fixpoint v6_groups (b : list Z) : list Z :=
  match b with a :: c :: b => (a * 256 + c) :: v6_groups b | _ => [] end.

Fixpoint zero_run (gs : list Z) : nat :=
  match gs with 0 :: gs => S (zero_run gs) | _ => O end.

(** The first longest run of at least two zero groups: [(start, length)]. *)
Fixpoint longest_zero_run (i : nat) (gs : list Z) (best : option (nat * nat))
    : option (nat * nat) :=
  match gs with
  | [] => best
  | _ :: gs' =>
      let l := zero_run gs in
      let best' :=
        if bool_decide (2 <= l)%nat &&
           bool_decide (match best with Some (_, bl) => bl | None => O end < l)%nat
        then Some (i, l) else best in
      longest_zero_run (S i) gs' best'
  end.

Fixpoint join_groups (gs : list Z) : string :=
  match gs with
  | [] => ""
  | [g] => append_hex g
  | g :: gs => append_hex g +:+ ":" +:+ join_groups gs
  end.

Definition string6 (b : list Z) : string :=
  let gs := v6_groups b in
  match longest_zero_run 0 gs None with
  | None => join_groups gs
  | Some (i, l) => join_groups (take i gs) +:+ "::" +:+ join_groups (drop (i + l) gs)
  end.

(** [IP.String] for slices of 4 and 16 bytes, the only ones the program prints. *)
Definition IP_String (ip : list Z) : string :=
  match To4 ip with Some p4 => join4 p4 | None => string6 ip end.

(** [net.JoinHostPort] and [net.SplitHostPort]. *)
Definition JoinHostPort (host port : string) : string :=
  if strings.Contains host ":" then "[" +:+ host +:+ "]:" +:+ port
  else host +:+ ":" +:+ port.

(** The text before and after the last [c]. *)
Fixpoint cut_last (s : string) (c : ascii) : option (string * string) :=
  match s with
  | "" => None
  | String d s' =>
      match cut_last s' c with
      | Some (a, b) => Some (String d a, b)
      | None => if is_char d c then Some ("", s') else None
      end
  end.

Definition SplitHostPort (hostport : string) : option (string * string) :=
  '(before, port) ← cut_last hostport ":";
  match hostport with
  | String "["%char tl =>
      let '(host, rest, found) := strings.Cut tl "]" in
      if negb found then None else
      (* the first ']' must stand just before the last ':' *)
      if negb (bool_decide (before = "[" +:+ host +:+ "]")) then None else
      if strings.Contains tl "[" then None else
      if strings.Contains rest "]" then None else Some (host, port)
  | _ =>
      if strings.Contains before ":" then None else
      if strings.Contains hostport "[" then None else
      if strings.Contains hostport "]" then None else Some (before, port)
  end.
