(* ===== verification/GoNetFacts.v ===== *)
(** * Facts about addresses, masks and networks

    The algebra of byte-wise conjunction, prefix masks and the networks that
    [ParseCIDR] returns, and the value of a byte slice as an integer. *)
From S2P Require Export GoNet.
From Stdlib Require Import Lia.
Local Open Scope Z_scope.

Definition byte_ok (b : Z) : Prop := 0 <= b < 256.
Abbreviation bytes_ok := (Forall byte_ok).

(** Big-endian value of a byte slice. *)
Definition bytes_val (b : list Z) : Z := foldl (λ acc x, acc * 256 + x) 0 b.

(** ** Parsed addresses are byte slices of the right length *)

Lemma digit_bound c d : strconv.digit c = Some d → 0 <= d <= 9.
Proof. unfold strconv.digit. intros; case_match; simplify_eq. bool_to_N. lia. Qed.

Lemma hex_digit_bound c d : hex_digit c = Some d → 0 <= d <= 15.
Proof. unfold hex_digit. intros; repeat case_match; simplify_eq; bool_to_N; lia. Qed.

Lemma parseIPv4Fields_go_ok s : ∀ prev val dl fs bs,
  parseIPv4Fields_go prev val dl fs s = Some bs →
  byte_ok val → bytes_ok fs → (length fs <= 3)%nat →
  bytes_ok bs ∧ length bs = 4%nat.
Proof.
  induction s as [|c s IH]; intros prev val dl fs bs H Hv Hf Hl; simpl in H.
  - case_bool_decide; simplify_eq. rewrite Forall_app, length_app. simpl.
    split; [|lia]. auto using Forall_cons, Forall_nil.
  - destruct (strconv.digit c) as [d|] eqn:Hd.
    + apply digit_bound in Hd. repeat (case_match; [done|]).
      eapply IH; [done| |done..]. unfold byte_ok in *. lia.
    + destruct (is_char c "."); [|done]. destruct prev as [p|]; [|done].
      destruct s as [|c' s']; [done|]. destruct (is_char p "."); [done|].
      case_bool_decide; [done|]. eapply IH; [done| | |].
      * split; lia.
      * rewrite Forall_app. auto using Forall_cons, Forall_nil.
      * rewrite length_app. simpl. lia.
Qed.

Lemma parseIPv4Fields_ok s bs :
  parseIPv4Fields s = Some bs → bytes_ok bs ∧ length bs = 4%nat.
Proof.
  intros H. eapply parseIPv4Fields_go_ok; [done|split; lia|constructor|simpl; lia].
Qed.

Lemma hex_group_bound s : ∀ acc off v n r,
  hex_group acc off s = Some (v, n, r) → 0 <= acc <= 65535 → 0 <= v <= 65535.
Proof.
  induction s as [|c s IH]; intros acc off v n r H Hb; simpl in H; [by simplify_eq|].
  destruct (hex_digit c) as [d|] eqn:Hd; [|by simplify_eq].
  apply hex_digit_bound in Hd. repeat (case_match; [done|]). eapply IH; [done|lia].
Qed.

Lemma group_bytes_ok v : 0 <= v <= 65535 → bytes_ok [v / 256; v mod 256].
Proof.
  intros Hv. pose proof (Z.mod_pos_bound v 256). pose proof (Z.div_pos v 256).
  pose proof (Z.div_lt_upper_bound v 256 256).
  repeat constructor; lia.
Qed.

(** Even lengths, so that two bytes always fit. *)
Lemma parseIPv6_loop_ok fuel : ∀ ip e s ip' e' r,
  parseIPv6_loop fuel ip e s = Some (ip', e', r) →
  bytes_ok ip → (length ip <= 16)%nat → Nat.even (length ip) = true →
  bytes_ok ip' ∧ (length ip' <= 16)%nat.
Proof.
  induction fuel as [|fuel IH]; intros ip e s ip' e' r H Hok Hl Hev; simpl in H; [by simplify_eq|].
  case_bool_decide as Hlen; [by simplify_eq|].
  destruct (hex_group 0 0 s) as [[[acc off] rest]|] eqn:Hg; [|done]; simpl in H.
  apply hex_group_bound in Hg; [|lia]. apply group_bytes_ok in Hg.
  set (g := [acc / 256; acc mod 256]) in *.
  assert (length ip + 2 <= 16)%nat as Hl2.
  { destruct (decide (length ip = 15)%nat) as [E|]; [by rewrite E in Hev|lia]. }
  assert (bytes_ok (ip ++ g) ∧ (length (ip ++ g) <= 16)%nat ∧
          Nat.even (length (ip ++ g)) = true) as (Hok' & Hl' & Hev').
  { rewrite length_app, Forall_app. simpl. split_and!; [done..|lia|].
    by rewrite Nat.even_add, Hev. }
  destruct off as [|off]; [done|].
  assert (∀ t bs, parseIPv4Fields t = Some bs → (length ip + 4 <= 16)%nat →
    bytes_ok (ip ++ bs) ∧ (length (ip ++ bs) <= 16)%nat) as Hv4.
  { intros t bs (Hbs & Hbl)%parseIPv4Fields_ok ?.
    rewrite Forall_app, length_app, Hbl. auto. }
  repeat (case_match; simplify_eq/=; try done);
    try (eapply IH; [done..]); try (by split).
  all: match goal with H : (parseIPv4Fields ?t ≫= _) = Some _ |- _ =>
         destruct (parseIPv4Fields t) as [bs|] eqn:Hbs; simplify_eq/= end.
  all: eapply Hv4; [done|].
  all: match goal with H : bool_decide (16 < _)%nat = false |- _ =>
         apply bool_decide_eq_false in H; lia end.
Qed.

Lemma As16_ok s a : ParseAddr s = Some a → bytes_ok (As16 a) ∧ length (As16 a) = 16%nat.
Proof.
  unfold ParseAddr. destruct (ParseAddr_kind s) as [c|]; [|done].
  assert (∀ a, parseIPv4 s = Some a → bytes_ok (As16 a) ∧ length (As16 a) = 16%nat) as H4.
  { unfold parseIPv4. intros a' H. destruct (parseIPv4Fields s) as [bs|] eqn:Hbs; simplify_eq/=.
    apply parseIPv4Fields_ok in Hbs as [Hok Hl]. unfold v4InV6Prefix.
    split; [|simpl; by rewrite Hl]. repeat constructor; try lia; done. }
  assert (∀ a, parseIPv6 s = Some a → bytes_ok (As16 a) ∧ length (As16 a) = 16%nat) as H6.
  { unfold parseIPv6. intros a' H. destruct (strings.Cut s "%") as [[s1 z] f].
    case_match; [done|]. destruct (if strings.HasPrefix s1 "::" then _ else _) as [e s2].
    assert (∀ e, ('(ip, ellipsis, rest) ← parseIPv6_loop 8 [] e s2;
      if negb (bool_decide (rest = "")) then None else
      if bool_decide (length ip < 16)%nat then
        match ellipsis with
        | None => None
        | Some e => Some (Addr6 (take e ip ++ replicate (16 - length ip) 0 ++ drop e ip) z)
        end
      else match ellipsis with Some _ => None | None => Some (Addr6 ip z) end) = Some a' →
      bytes_ok (As16 a') ∧ length (As16 a') = 16%nat) as Hloop.
    { clear H. intros e0 H.
      destruct (parseIPv6_loop 8 [] e0 s2) as [[[ip el] r]|] eqn:Hl; [|done]. simpl in H.
      apply parseIPv6_loop_ok in Hl as [Hok Hlen]; [|constructor|simpl; lia|done].
      destruct (negb _); [done|]. case_bool_decide; destruct el as [e'|]; try done.
      - injection H as <-. unfold As16.
        rewrite !Forall_app, !length_app, length_take, length_drop, length_replicate.
        split_and!; [by apply Forall_take|apply Forall_replicate; split; lia|by apply Forall_drop|lia].
      - injection H as <-. split; [done|]. unfold As16. lia. }
    destruct e; [destruct s2|]; [|by apply (Hloop _ H)..].
    injection H as <-. split; [|done]. unfold As16. by apply (Forall_replicate byte_ok 16 0). }
  intros H. clear -H H4 H6. destruct c as [[] [] [] [] [] [] [] []]; try done; eauto.
Qed.

Lemma ParseIP_ok s ip : ParseIP s = Some ip → bytes_ok ip ∧ length ip = 16%nat.
Proof.
  unfold ParseIP. intros H. destruct (ParseAddr s) as [a|] eqn:Ha; [|done]. simpl in H.
  case_bool_decide; simplify_eq. by eapply As16_ok.
Qed.

(** ** Prefix masks *)

Lemma byte_mask_cases k : 0 <= k < 8 →
  k = 0 ∨ k = 1 ∨ k = 2 ∨ k = 3 ∨ k = 4 ∨ k = 5 ∨ k = 6 ∨ k = 7.
Proof. lia. Qed.

Ltac byte_mask_case H :=
  apply byte_mask_cases in H as [-> | [-> | [-> | [-> | [-> | [-> | [-> | -> ] ] ] ] ] ] ].

Lemma length_CIDRMask_go n k : length (CIDRMask_go n k) = n.
Proof. revert k. induction n as [|n IH]; intros k; simpl; [done|]. case_match; simpl; by rewrite IH. Qed.

Lemma and_bytes_comm a b : and_bytes a b = and_bytes b a.
Proof.
  revert b. induction a as [|x a IH]; intros [|y b]; simpl; try done.
  by rewrite Z.land_comm, IH.
Qed.

Lemma and_bytes_assoc a b c : and_bytes a (and_bytes b c) = and_bytes (and_bytes a b) c.
Proof.
  revert b c. induction a as [|x a IH]; intros [|y b] [|z c]; simpl; try done.
  by rewrite Z.land_assoc, IH.
Qed.

Lemma and_bytes_idemp a : and_bytes a a = a.
Proof. induction a as [|x a IH]; simpl; [done|]. by rewrite Z.land_diag, IH. Qed.

Lemma length_and_bytes a b : length a = length b → length (and_bytes a b) = length a.
Proof. intros. unfold and_bytes. rewrite length_zip_with. lia. Qed.

(** The mask of the shorter prefix is contained in the other. *)
Lemma mask_le n : ∀ k1 k2, 0 <= k1 <= k2 →
  and_bytes (CIDRMask_go n k1) (CIDRMask_go n k2) = CIDRMask_go n k1.
Proof.
  induction n as [|n IH]; intros k1 k2 Hk; simpl; [done|].
  destruct (Z.leb_spec 8 k1), (Z.leb_spec 8 k2); simpl; [|lia|..].
  - f_equal. apply IH. lia.
  - f_equal; [|apply IH; lia]. assert (Hk1 : 0 <= k1 < 8) by lia. by byte_mask_case Hk1.
  - f_equal; [|apply IH; lia]. assert (Hk1 : 0 <= k1 < 8) by lia.
    assert (Hk2 : 0 <= k2 < 8) by lia.
    byte_mask_case Hk1; byte_mask_case Hk2; solve [done | exfalso; lia].
Qed.

Lemma mask_bytes_ok n k : 0 <= k → bytes_ok (CIDRMask_go n k).
Proof.
  revert k. induction n as [|n IH]; intros k Hk; simpl; [constructor|].
  destruct (Z.leb_spec 8 k); constructor; [split; lia|apply IH; lia| |apply IH; lia].
  assert (Hk' : 0 <= k < 8) by lia. unfold byte_ok. by byte_mask_case Hk'.
Qed.

Lemma drop_CIDRMask_go d n k : 8 * Z.of_nat d <= k →
  drop d (CIDRMask_go (d + n) k) = CIDRMask_go n (k - 8 * Z.of_nat d).
Proof.
  revert k. induction d as [|d IH]; intros k Hk.
  - by replace (k - 8 * Z.of_nat 0) with k by lia.
  - cbn [Nat.add CIDRMask_go]. destruct (Z.leb_spec 8 k); [|lia].
    cbn [drop]. rewrite IH by lia. f_equal. lia.
Qed.

(** A mask whose byte [i] is all ones has a prefix longer than [i] bytes. *)
Lemma mask_byte_full n : ∀ k i x, 0 <= k → CIDRMask_go n k !! i = Some x →
  Z.land 255 x = 255 → 8 * (Z.of_nat i + 1) <= k.
Proof.
  induction n as [|n IH]; intros k i x Hk Hi Hx; simpl in Hi; [done|].
  destruct (Z.leb_spec 8 k), i as [|i]; simplify_eq/=; [lia|..].
  - apply IH in Hi; [|lia|done]. lia.
  - assert (Hk' : 0 <= k < 8) by lia. exfalso. revert Hx. by byte_mask_case Hk'.
  - apply IH in Hi; [|lia|done]. lia.
Qed.

(** ** The networks ParseCIDR returns *)

(** The 4-byte form of an address when it has one. *)
Definition norm (ip : list Z) : list Z := default ip (To4 ip).

(** [n] is the network of number [nn] and prefix length [k]. *)
Record net_shape (n : IPNet) (nn : list Z) (k : Z) : Prop := {
  ns_len : length nn = 4%nat ∨ length nn = 16%nat;
  ns_prefix : 0 <= k <= 8 * Z.of_nat (length nn);
  ns_number : networkNumberAndMask n = Some (nn, CIDRMask_go (length nn) k);
  ns_masked : and_bytes nn (CIDRMask_go (length nn) k) = nn;
  ns_ip : norm (default [] (net_IP n)) = nn
}.

Lemma dtoi_go_nonneg s : ∀ n v r, dtoi_go n s = Some (v, r) → 0 <= n → 0 <= v.
Proof.
  induction s as [|c s IH]; intros n v r H Hn; simpl in H; [by simplify_eq|].
  destruct (strconv.digit c) as [d|] eqn:Hd; [|by simplify_eq].
  apply digit_bound in Hd. case_match; [done|]. eapply IH; [done|lia].
Qed.

Lemma dtoi_nonneg s v r : dtoi s = Some (v, r) → 0 <= v.
Proof.
  unfold dtoi. intros H. repeat (case_match; try done). eapply dtoi_go_nonneg; [done|lia].
Qed.

Lemma and_bytes_drop d a b : drop d (and_bytes a b) = and_bytes (drop d a) (drop d b).
Proof.
  revert a b. induction d as [|d IH]; intros [|x a] [|y b]; simpl; try done.
  - by destruct (drop d a).
Qed.

Lemma To4_spec ip ip4 : To4 ip = Some ip4 →
  length ip4 = 4%nat ∧ (ip = ip4 ∨ ip = v4InV6Prefix ++ ip4).
Proof.
  unfold To4. case_bool_decide; [intros [= ->]; auto|].
  case_bool_decide; [|done]. case_bool_decide as Hp; [|done]. cbn [andb]. intros [= <-].
  rewrite length_drop. split; [lia|]. right. rewrite <- Hp. by rewrite take_drop.
Qed.

Lemma norm_16_None ip : length ip = 16%nat → To4 ip = None → norm ip = ip.
Proof. intros _ H. unfold norm. by rewrite H. Qed.

Lemma To4_4 ip : length ip = 4%nat → To4 ip = Some ip.
Proof. intros H. unfold To4. by rewrite bool_decide_true. Qed.

Lemma To4_v4in6 ip : length ip = 4%nat → To4 (v4InV6Prefix ++ ip) = Some ip.
Proof.
  intros H. unfold To4. rewrite bool_decide_false by (rewrite length_app; simpl; lia).
  rewrite bool_decide_true by (rewrite length_app, H; done).
  by rewrite bool_decide_true by done.
Qed.

(** An IPv4 network: a 4-byte number and a 4-byte mask. *)
Lemma shape_v4 b k : length b = 4%nat → 0 <= k <= 32 →
  let m := CIDRMask_go 4 k in
  net_shape {| net_IP := Some (and_bytes b m); net_Mask := m |} (and_bytes b m) k.
Proof.
  intros Hb Hk m. assert (Hm : length m = 4%nat) by apply length_CIDRMask_go.
  assert (Hl : length (and_bytes b m) = 4%nat) by (rewrite length_and_bytes; congruence).
  split; [by left|rewrite Hl; simpl; lia| | |].
  - unfold networkNumberAndMask; cbn [net_IP net_Mask mbind option_bind].
    rewrite To4_4 by done. cbn [mbind option_bind]. rewrite Hm, Hl. done.
  - rewrite Hl. fold m. by rewrite <- and_bytes_assoc, and_bytes_idemp.
  - unfold norm. simpl. by rewrite To4_4.
Qed.

(** An IPv6 network; its number is an IPv4 one when the mask keeps the prefix
    of the IPv4-mapped addresses. *)
Lemma shape_v6 b k : length b = 16%nat → 0 <= k <= 128 →
  let m := CIDRMask_go 16 k in
  ∃ nn k', net_shape {| net_IP := Some (and_bytes b m); net_Mask := m |} nn k'.
Proof.
  intros Hb Hk m. assert (Hm : length m = 16%nat) by apply length_CIDRMask_go.
  assert (Hl : length (and_bytes b m) = 16%nat) by (rewrite length_and_bytes; congruence).
  assert (Hid : and_bytes (and_bytes b m) m = and_bytes b m)
    by (by rewrite <- and_bytes_assoc, and_bytes_idemp).
  destruct (To4 (and_bytes b m)) as [ip4|] eqn:H4.
  - pose proof H4 as [Hl4 [E|E]]%To4_spec; [rewrite E in Hl; congruence|].
    assert (96 <= k) as Hk96.
    { destruct (b !! 11%nat) as [x|] eqn:Hx; [|apply lookup_ge_None in Hx; lia].
      destruct (m !! 11%nat) as [y|] eqn:Hy; [|apply lookup_ge_None in Hy; lia].
      assert ((and_bytes b m) !! 11%nat = Some (Z.land x y)) as Hxy
        by (unfold and_bytes; rewrite lookup_zip_with, Hx, Hy; done).
      rewrite E in Hxy. injection Hxy as Hxy.
      apply (mask_byte_full _ _ _ _ (proj1 Hk) Hy). rewrite Hxy at 1.
      by rewrite <- Z.land_assoc, Z.land_diag. }
    exists ip4, (k - 96). assert (drop 12 m = CIDRMask_go 4 (k - 96)) as Hd
      by (apply (drop_CIDRMask_go 12 4); lia).
    assert (ip4 = drop 12 (and_bytes b m)) as Hip by (by rewrite E).
    split; [by left|rewrite Hl4; simpl; lia| | |].
    + unfold networkNumberAndMask; cbn [net_IP net_Mask mbind option_bind].
      rewrite H4. cbn [mbind option_bind]. rewrite Hm, Hl4, Hd. done.
    + rewrite Hl4, <- Hd, Hip, <- and_bytes_drop. by rewrite Hid.
    + unfold norm. simpl. by rewrite H4.
  - exists (and_bytes b m), k. split; [by right|rewrite Hl; simpl; lia| | |].
    + unfold networkNumberAndMask; cbn [net_IP net_Mask mbind option_bind].
      rewrite H4, (bool_decide_true (length (and_bytes b m) = 16%nat)) by done. cbn [mbind option_bind]. by rewrite Hm, !Hl.
    + by rewrite Hl.
    + unfold norm. simpl. by rewrite H4.
Qed.

Lemma CIDRMask_32 k : 0 <= k <= 32 → CIDRMask k 32 = Some (CIDRMask_go 4 k).
Proof. intros. unfold CIDRMask. by destruct (Z.ltb_spec k 0), (Z.ltb_spec 32 k); [lia..|]. Qed.
Lemma CIDRMask_128 k : 0 <= k <= 128 → CIDRMask k 128 = Some (CIDRMask_go 16 k).
Proof. intros. unfold CIDRMask. by destruct (Z.ltb_spec k 0), (Z.ltb_spec 128 k); [lia..|]. Qed.

Lemma Mask_v4in6 b m : length b = 4%nat → length m = 4%nat →
  Mask (v4InV6Prefix ++ b) m = Some (and_bytes b m).
Proof.
  intros Hb Hm. unfold Mask. rewrite (bool_decide_false (length m = 16%nat)) by lia.
  cbn [andb]. rewrite Hm, length_app, Hb. rewrite !bool_decide_true by done. cbn [andb].
  done.
Qed.
Lemma Mask_16 b m : length b = 16%nat → length m = 16%nat → Mask b m = Some (and_bytes b m).
Proof.
  intros Hb Hm. unfold Mask. rewrite Hb, andb_false_r. cbn [andb].
  rewrite Hm, (bool_decide_false (16 = 4)%nat) by done. cbn [andb].
  by rewrite bool_decide_true.
Qed.

Lemma ParseCIDR_shape s a n : ParseCIDR s = Some (a, n) → ∃ nn k, net_shape n nn k.
Proof.
  unfold ParseCIDR. destruct (strings.Cut s "/") as [[ad mk] f]. destruct f; [|done]. cbn [negb].
  destruct (ParseAddr ad) as [addr|] eqn:Ha; [|done]. cbn [mbind option_bind].
  destruct (negb _); [done|]. destruct (dtoi mk) as [[k r]|] eqn:Hd; [|done].
  cbn [mbind option_bind]. destruct (negb (bool_decide (r = ""))); [done|]. cbn [orb].
  destruct (Z.ltb_spec (BitLen addr) k) as [|Hk]; [done|].
  apply dtoi_nonneg in Hd. pose proof (As16_ok _ _ Ha) as [_ Hl16].
  destruct addr as [b|b z]; cbn [BitLen As16] in *.
  - assert (Hb : length b = 4%nat) by (rewrite length_app in Hl16; simpl in Hl16; lia).
    rewrite CIDRMask_32 by lia. cbn [mbind option_bind].
    intros [_ <-]%(inj Some)%pair_equal_spec.
    rewrite Mask_v4in6 by (rewrite ?length_CIDRMask_go; done).
    eexists _, k. by apply shape_v4.
  - rewrite CIDRMask_128 by lia. cbn [mbind option_bind].
    intros [_ <-]%(inj Some)%pair_equal_spec.
    rewrite Mask_16 by (rewrite ?length_CIDRMask_go; done). by apply shape_v6.
Qed.

(** What [Contains] decides on such a network. *)
Lemma Contains_spec n nn k ip : net_shape n nn k →
  Contains n ip = true ↔
  length (norm ip) = length nn ∧
  and_bytes (norm ip) (CIDRMask_go (length nn) k) = nn.
Proof.
  intros [_ _ Hn Hm _]. unfold Contains. fold (norm ip). rewrite Hn, Hm, andb_true_iff.
  rewrite !bool_decide_eq_true. split; intros [? ?]; auto.
Qed.

(** Two networks overlap, by the test of [IsNetworkOverlap], iff some address
    lies in both. *)
Lemma nets_meet n1 nn1 k1 n2 nn2 k2 :
  net_shape n1 nn1 k1 → net_shape n2 nn2 k2 →
  Contains n1 (default [] (net_IP n2)) || Contains n2 (default [] (net_IP n1)) = true ↔
  ∃ ip, Contains n1 ip = true ∧ Contains n2 ip = true.
Proof.
  intros S1 S2. assert (∀ n nn k, net_shape n nn k →
    Contains n (default [] (net_IP n)) = true) as Hself.
  { intros n nn k S. apply (Contains_spec _ _ _ _ S).
    destruct S as [_ _ _ Hm Hip]. rewrite Hip. auto. }
  assert (∀ n1 nn1 k1 n2 nn2 k2 ip, net_shape n1 nn1 k1 → net_shape n2 nn2 k2 →
    k1 <= k2 → Contains n1 ip = true → Contains n2 ip = true →
    Contains n1 (default [] (net_IP n2)) = true) as Hle.
  { clear. intros n1 nn1 k1 n2 nn2 k2 ip S1 S2 Hk H1 H2.
    apply (Contains_spec _ _ _ _ S1) in H1 as [Hl1 H1].
    apply (Contains_spec _ _ _ _ S2) in H2 as [Hl2 H2].
    apply (Contains_spec _ _ _ _ S1). rewrite (ns_ip _ _ _ S2). split; [congruence|].
    rewrite <- H2, <- and_bytes_assoc, (and_bytes_comm (CIDRMask_go (length nn2) k2)).
    replace (length nn2) with (length nn1) by congruence.
    rewrite mask_le; [done|]. destruct S1 as [_ ? _ _ _]; lia. }
  rewrite orb_true_iff. split.
  - intros [H|H]; [exists (default [] (net_IP n2))|exists (default [] (net_IP n1))]; eauto.
  - intros (ip & H1 & H2). destruct (Z.le_ge_cases k1 k2); eauto.
Qed.

(** ** The value of a byte slice *)

Lemma foldl_bytes acc l :
  foldl (λ acc x, acc * 256 + x) acc l = acc * 2 ^ (8 * Z.of_nat (length l)) + bytes_val l.
Proof.
  unfold bytes_val. revert acc. induction l as [|x l IH]; intros acc; cbn [foldl length].
  - rewrite Z.mul_0_r, Z.pow_0_r. lia.
  - rewrite (IH (acc * 256 + x)), (IH (0 * 256 + x)).
    replace (8 * Z.of_nat (S (length l))) with (8 * Z.of_nat (length l) + 8) by lia.
    rewrite Z.pow_add_r by lia. lia.
Qed.

Lemma bytes_val_cons x l :
  bytes_val (x :: l) = x * 2 ^ (8 * Z.of_nat (length l)) + bytes_val l.
Proof. unfold bytes_val at 1. cbn [foldl]. by rewrite foldl_bytes. Qed.

Lemma bytes_val_bound l : bytes_ok l → 0 <= bytes_val l < 2 ^ (8 * Z.of_nat (length l)).
Proof.
  induction 1 as [|x l Hx Hl IH]; [done|]. rewrite bytes_val_cons. cbn [length].
  replace (8 * Z.of_nat (S (length l))) with (8 * Z.of_nat (length l) + 8) by lia.
  rewrite Z.pow_add_r by lia. unfold byte_ok in Hx. nia.
Qed.

(** Bits of a number split at position [k]. *)
Lemma testbit_split a r k i : 0 <= k → 0 <= r < 2 ^ k → 0 <= i →
  Z.testbit (a * 2 ^ k + r) i = if i <? k then Z.testbit r i else Z.testbit a (i - k).
Proof.
  intros Hk Hr Hi. destruct (Z.ltb_spec i k).
  - rewrite <- (Z.mod_pow2_bits_low (a * 2 ^ k + r) k i) by lia.
    by rewrite Z.add_comm, Z.mod_add, Z.mod_small by lia.
  - replace i with ((i - k) + k) at 1 by lia. rewrite <- Z.div_pow2_bits by lia.
    rewrite Z.div_add_l, Z.div_small by lia. f_equal. lia.
Qed.

Lemma bytes_val_testbit_cons x l i : bytes_ok l → 0 <= i →
  Z.testbit (bytes_val (x :: l)) i =
  if i <? 8 * Z.of_nat (length l) then Z.testbit (bytes_val l) i
  else Z.testbit x (i - 8 * Z.of_nat (length l)).
Proof.
  intros Hl Hi. rewrite bytes_val_cons. apply testbit_split; [lia|by apply bytes_val_bound|done].
Qed.

Section bytewise.
Context (op : Z → Z → Z) (bop : bool → bool → bool).
Hypothesis op_spec : ∀ a b i, Z.testbit (op a b) i = bop (Z.testbit a i) (Z.testbit b i).
Hypothesis op_ok : ∀ a b, byte_ok a → byte_ok b → byte_ok (op a b).
Hypothesis bop_false : bop false false = false.

Lemma zip_bytes_ok a b : bytes_ok a → bytes_ok b → bytes_ok (zip_with op a b).
Proof. intros Ha. revert b. induction Ha; intros [|y b] Hb; cbn; inversion Hb; auto. Qed.

Lemma zip_bytes_testbit a b i : bytes_ok a → bytes_ok b → length a = length b → 0 <= i →
  Z.testbit (bytes_val (zip_with op a b)) i =
  bop (Z.testbit (bytes_val a) i) (Z.testbit (bytes_val b) i).
Proof using All.
  intros Ha. revert b. induction Ha as [|x a Hx Ha IH]; intros [|y b] Hb Hl Hi; try done.
  - cbn. by rewrite Z.bits_0, bop_false.
  - inversion Hb; subst. cbn [zip_with]. injection Hl as Hl.
    rewrite !bytes_val_testbit_cons by (try done; by apply zip_bytes_ok).
    rewrite length_zip_with, <- Hl, Nat.min_id.
    destruct (Z.ltb_spec i (8 * Z.of_nat (length a))); [by apply IH|].
    apply op_spec.
Qed.
End bytewise.

Lemma testbit_high v N i : 0 <= v < 2 ^ N → 0 <= N <= i → Z.testbit v i = false.
Proof.
  intros Hv HN. destruct (decide (v = 0)) as [->|]; [apply Z.bits_0|].
  apply Z.bits_above_log2; [lia|]. apply Z.log2_lt_pow2; [lia|].
  apply Z.lt_le_trans with (2 ^ N); [lia|]. apply Z.pow_le_mono_r; lia.
Qed.

Lemma byte_ok_testbit b i : byte_ok b → 8 <= i → Z.testbit b i = false.
Proof. intros Hb Hi. apply (testbit_high b 8); [done|lia]. Qed.

Lemma byte_ok_of_testbit b : 0 <= b → (∀ i, 8 <= i → Z.testbit b i = false) → byte_ok b.
Proof.
  intros Hb H. split; [done|]. destruct (Z.lt_ge_cases b 256) as [|Hge]; [done|].
  exfalso. assert (8 <= Z.log2 b) by (apply Z.log2_le_pow2; lia).
  pose proof (Z.bit_log2 b) as Hbit. rewrite H in Hbit by lia. specialize (Hbit ltac:(lia)). done.
Qed.

Lemma land_ok a b : byte_ok a → byte_ok b → byte_ok (Z.land a b).
Proof.
  intros Ha Hb. apply byte_ok_of_testbit; [apply Z.land_nonneg; left; apply Ha|].
  intros i Hi. by rewrite Z.land_spec, (byte_ok_testbit a).
Qed.
Lemma lor_ok a b : byte_ok a → byte_ok b → byte_ok (Z.lor a b).
Proof.
  intros Ha Hb. apply byte_ok_of_testbit; [apply Z.lor_nonneg; split; [apply Ha|apply Hb]|].
  intros i Hi. by rewrite Z.lor_spec, !byte_ok_testbit.
Qed.
Lemma lxor_ok a b : byte_ok a → byte_ok b → byte_ok (Z.lxor a b).
Proof.
  intros Ha Hb. apply byte_ok_of_testbit.
  - apply Z.lxor_nonneg. destruct Ha, Hb. tauto.
  - intros i Hi. by rewrite Z.lxor_spec, !byte_ok_testbit.
Qed.

(** The mask of prefix length [k] on [n] bytes has its [k] high bits set. *)
Lemma mask_testbit n : ∀ k i, 0 <= k <= 8 * Z.of_nat n → 0 <= i →
  Z.testbit (bytes_val (CIDRMask_go n k)) i =
  (8 * Z.of_nat n - k <=? i) && (i <? 8 * Z.of_nat n).
Proof.
  induction n as [|n IH]; intros k i Hk Hi.
  - cbn. rewrite Z.bits_0. destruct (Z.ltb_spec i 0), (Z.leb_spec (0 - k) i); try done; lia.
  - cbn [CIDRMask_go]. destruct (Z.leb_spec 8 k).
    + rewrite bytes_val_testbit_cons, length_CIDRMask_go by (try apply mask_bytes_ok; lia).
      destruct (Z.ltb_spec i (8 * Z.of_nat n)) as [Hlt|Hge].
      * rewrite IH by lia.
        destruct (Z.leb_spec (8 * Z.of_nat n - (k - 8)) i), (Z.ltb_spec i (8 * Z.of_nat n)),
          (Z.leb_spec (8 * Z.of_nat (S n) - k) i), (Z.ltb_spec i (8 * Z.of_nat (S n))); try done; lia.
      * destruct (Z.leb_spec (8 * Z.of_nat (S n) - k) i); [|lia]. cbn [andb].
        destruct (Z.ltb_spec i (8 * Z.of_nat (S n))).
        -- assert (0 <= i - 8 * Z.of_nat n < 8) as Hb by lia. by byte_mask_case Hb.
        -- apply byte_ok_testbit; [split; lia|lia].
    + rewrite bytes_val_testbit_cons, length_CIDRMask_go by (try apply mask_bytes_ok; lia).
      destruct (Z.ltb_spec i (8 * Z.of_nat n)) as [Hlt|Hge].
      * rewrite IH by lia.
        destruct (Z.leb_spec (8 * Z.of_nat n - 0) i), (Z.ltb_spec i (8 * Z.of_nat n)),
          (Z.leb_spec (8 * Z.of_nat (S n) - k) i); try done; lia.
      * assert (Hk' : 0 <= k < 8) by lia.
        destruct (Z.le_gt_cases 8 (i - 8 * Z.of_nat n)).
        -- destruct (Z.ltb_spec i (8 * Z.of_nat (S n))); [lia|]. rewrite andb_false_r.
           apply byte_ok_testbit; [|lia]. unfold byte_ok. by byte_mask_case Hk'.
        -- destruct (Z.ltb_spec i (8 * Z.of_nat (S n))); [|lia]. rewrite andb_true_r.
           assert (0 <= i - 8 * Z.of_nat n < 8) as Hb by lia.
           replace (8 * Z.of_nat (S n) - k <=? i) with (8 - k <=? i - 8 * Z.of_nat n)
             by (destruct (Z.leb_spec (8 - k) (i - 8 * Z.of_nat n)),
                   (Z.leb_spec (8 * Z.of_nat (S n) - k) i); try done; lia).
           revert Hb. generalize (i - 8 * Z.of_nat n). intros j Hb.
           byte_mask_case Hk'; by byte_mask_case Hb.
Qed.

Lemma cut_last_app c a b : str_free c b = true → cut_last (a +:+ String c b) c = Some (a, b).
Proof.
  intros Hb. assert (∀ s, str_free c s = true → cut_last s c = None) as Hn.
  { induction s as [|d s IH]; intros Hs; [done|]. rewrite str_free_cons in Hs.
    apply andb_true_iff in Hs as [Hd%negb_true_iff Hs]. cbn. by rewrite IH, Hd. }
  induction a as [|d a IH].
  - rewrite app_nil_s. cbn. by rewrite Hn, is_char_refl.
  - rewrite app_cons_s. cbn. by rewrite IH.
Qed.
