(* ===== verification/GoNetRoundtrip.v ===== *)
(** * Printing and parsing addresses

    [ParseIP (IP_String ip) = Some ip] for every address of 16 bytes, IPv4
    (printed in dotted decimal) and IPv6 (printed with the longest run of zero
    groups replaced by "::"). *)
From S2P Require Export GoNetFacts.
From Stdlib Require Import Lia.
Local Open Scope Z_scope.

(** ** Dotted decimal *)

(** The condition of the parser on the digits of one field. *)
Fixpoint octet_digits (val : Z) (dl : nat) (s : string) : option Z :=
  match s with
  | "" => Some val
  | String c s =>
      d ← strconv.digit c;
      if (bool_decide (dl = 1%nat) && (val =? 0)) || (255 <? val * 10 + d) then None
      else octet_digits (val * 10 + d) (S dl) s
  end.

Definition octet_check (b : Z) : bool :=
  bool_decide (octet_digits 0 0 (pretty b) = Some b) && negb (bool_decide (pretty b = "")).

Lemma octet_ok b : byte_ok b → octet_digits 0 0 (pretty b) = Some b ∧ pretty b ≠ "".
Proof.
  intros [H1 H2]. assert (forallb octet_check (seqZ 0 256) = true) as Hall by by vm_compute.
  rewrite forallb_forall in Hall. specialize (Hall b).
  unfold octet_check in Hall. rewrite andb_true_iff, negb_true_iff in Hall.
  rewrite bool_decide_eq_true, bool_decide_eq_false in Hall. apply Hall.
  apply list_elem_of_In, elem_of_seqZ. lia.
Qed.

Lemma digit_not_dot c d : strconv.digit c = Some d → is_char c "." = false.
Proof. intros H. apply is_char_false. by intros ->. Qed.

(** The parser reads the digits of one field. *)
Lemma parse_octet s : ∀ prev val dl fs rest v,
  octet_digits val dl s = Some v → s ≠ "" →
  ∃ c dl', is_char c "." = false ∧
    parseIPv4Fields_go prev val dl fs (s +:+ rest) =
    parseIPv4Fields_go (Some c) v dl' fs rest.
Proof.
  induction s as [|c s IH]; intros prev val dl fs rest v H Hne; [done|]. clear Hne.
  rewrite app_cons_s. cbn [octet_digits parseIPv4Fields_go] in *.
  destruct (strconv.digit c) as [d|] eqn:Hd; [|done]. cbn [mbind option_bind] in H.
  destruct (bool_decide (dl = 1%nat) && (val =? 0)); [done|]. cbn [orb] in H.
  destruct (255 <? val * 10 + d); [done|].
  destruct s as [|c' s'].
  - cbn [octet_digits] in H. injection H as <-. exists c, (S dl).
    split; [by eapply digit_not_dot|done].
  - destruct (IH (Some c) _ _ fs rest v H ltac:(done)) as (e & dl' & ? & E). eauto.
Qed.

Lemma parse_dot c v dl fs rest : is_char c "." = false → (length fs < 3)%nat → rest ≠ "" →
  parseIPv4Fields_go (Some c) v dl fs (String "." rest) =
  parseIPv4Fields_go (Some "."%char) 0 0 (fs ++ [v]) rest.
Proof.
  intros Hc Hl Hr. cbn [parseIPv4Fields_go].
  change (strconv.digit ".") with (@None Z). change (is_char "." ".") with true. rewrite Hc.
  destruct rest; [done|]. by rewrite bool_decide_false by lia.
Qed.

Lemma parse_field prev b fs rest : byte_ok b → (length fs < 3)%nat → rest ≠ "" →
  parseIPv4Fields_go prev 0 0 fs (pretty b +:+ "." +:+ rest) =
  parseIPv4Fields_go (Some "."%char) 0 0 (fs ++ [b]) rest.
Proof.
  intros [Hb Hne]%octet_ok Hl Hr.
  destruct (parse_octet _ prev _ _ fs ("." +:+ rest) _ Hb Hne) as (c & dl & Hc & ->).
  by apply parse_dot.
Qed.

Lemma parse_last_field prev b fs : byte_ok b → length fs = 3%nat →
  parseIPv4Fields_go prev 0 0 fs (pretty b) = Some (fs ++ [b]).
Proof.
  intros [Hb Hne]%octet_ok Hl.
  destruct (parse_octet _ prev _ _ fs "" _ Hb Hne) as (c & dl & Hc & E).
  rewrite app_nil_r_s in E. rewrite E. cbn [parseIPv4Fields_go].
  by rewrite bool_decide_false by lia.
Qed.

Lemma parse_join4 b : length b = 4%nat → bytes_ok b → parseIPv4Fields (join4 b) = Some b.
Proof.
  intros Hl Hok. destruct b as [|b0 [|b1 [|b2 [|b3 [|]]]]]; try done.
  rewrite !list.Forall_cons in Hok. destruct Hok as (H0 & H1 & H2 & H3 & _).
  assert (∀ s t, s ≠ "" → s +:+ t ≠ "") as Hne by (by intros [|]).
  unfold parseIPv4Fields, join4.
  rewrite !parse_field, parse_last_field; try done; try (cbn; lia).
  all: try apply Hne; by apply octet_ok.
Qed.

Lemma ParseAddr_kind_app s c t :
  str_forallb (λ d, negb (is_char d "." || is_char d ":" || is_char d "%")) s = true →
  is_char c "." || is_char c ":" || is_char c "%" = true →
  ParseAddr_kind (s +:+ String c t) = Some c.
Proof.
  intros Hs Hc. induction s as [|d s IH].
  - rewrite app_nil_s. simpl. by rewrite Hc.
  - simpl in Hs. apply andb_true_iff in Hs as [Hd%negb_true_iff Hs].
    rewrite app_cons_s. simpl. rewrite Hd. by apply IH.
Qed.

Lemma ParseAddr_join4 b : length b = 4%nat → bytes_ok b → ParseAddr (join4 b) = Some (Addr4 b).
Proof.
  intros Hl Hok. pose proof (parse_join4 b Hl Hok) as Hp.
  unfold ParseAddr, parseIPv4. destruct b as [|b0 [|b1 [|b2 [|b3 [|]]]]]; try done.
  assert (ParseAddr_kind (join4 [b0; b1; b2; b3]) = Some "."%char) as ->.
  { unfold join4. change ("." +:+ ?x) with (String "." x). apply ParseAddr_kind_app; [|done].
    eapply str_forallb_impl, pretty_Z_chars. intros c Hc.
    apply negb_true_iff, orb_false_iff. rewrite orb_false_iff.
    split_and!; apply is_char_false; intros ->; done. }
  by rewrite Hp.
Qed.

Lemma ParseIP_join4 b : length b = 4%nat → bytes_ok b →
  ParseIP (join4 b) = Some (v4InV6Prefix ++ b).
Proof. intros Hl Hok. unfold ParseIP. by rewrite ParseAddr_join4. Qed.

(** ** IPv6 groups *)

Definition group_ok (g : Z) : Prop := 0 <= g <= 65535.
Definition group_bytes (g : Z) : list Z := [g / 256; g mod 256].

Lemma nibble_cases d : 0 <= d < 16 →
  d = 0 ∨ d = 1 ∨ d = 2 ∨ d = 3 ∨ d = 4 ∨ d = 5 ∨ d = 6 ∨ d = 7 ∨
  d = 8 ∨ d = 9 ∨ d = 10 ∨ d = 11 ∨ d = 12 ∨ d = 13 ∨ d = 14 ∨ d = 15.
Proof. lia. Qed.

Lemma hex_digit_char d : 0 <= d < 16 → hex_digit (hex_char d) = Some d.
Proof.
  intros H%nibble_cases. repeat (destruct H as [-> | H]; [done|]). by subst.
Qed.

(** The text after a group does not start with a hexadecimal digit. *)
Definition hex_stop (s : string) : Prop :=
  match s with "" => True | String c _ => hex_digit c = None end.
Definition hex_start (s : string) : Prop :=
  match s with "" => False | String c _ => is_Some (hex_digit c) end.

Lemma hex_group_step acc off d s :
  0 <= acc → 0 <= d < 16 → (off <= 3)%nat → acc * 16 + d <= 65535 →
  hex_group acc off (String (hex_char d) s) = hex_group (acc * 16 + d) (S off) s.
Proof.
  intros. cbn [hex_group]. rewrite hex_digit_char, bool_decide_false by lia.
  destruct (Z.ltb_spec 65535 (acc * 16 + d)); [lia|done].
Qed.

Lemma hex_group_stop acc off s : hex_stop s → hex_group acc off s = Some (acc, off, s).
Proof. destruct s as [|c s]; [done|]. cbn [hex_stop hex_group]. by intros ->. Qed.

Lemma nibbles g : 0 <= g →
  g = ((g / 4096 * 16 + g / 256 mod 16) * 16 + g / 16 mod 16) * 16 + g mod 16.
Proof. intros. Z.div_mod_to_equations. lia. Qed.

Lemma hex_group_append g rest : group_ok g → hex_stop rest →
  ∃ off, hex_group 0 0 (append_hex g +:+ rest) = Some (g, S off, rest).
Proof.
  intros [Hg1 Hg2] Hr. pose proof (nibbles g Hg1) as Hn. unfold append_hex.
  assert (0 <= g / 4096 < 16) by (split; [apply Z.div_pos|apply Z.div_lt_upper_bound]; lia).
  pose proof (Z.mod_pos_bound (g / 256) 16). pose proof (Z.mod_pos_bound (g / 16) 16).
  pose proof (Z.mod_pos_bound g 16).
  destruct (Z.leb_spec 4096 g), (Z.leb_spec 256 g), (Z.leb_spec 16 g); try lia; str_norm.
  - exists 3%nat. rewrite !hex_group_step, hex_group_stop by (try done; try lia). repeat f_equal. lia.
  - assert (g / 4096 = 0) as Hz by (apply Z.div_small; lia). rewrite Hz in Hn.
    exists 2%nat. rewrite !hex_group_step, hex_group_stop by (try done; try lia). repeat f_equal. lia.
  - assert (g / 4096 = 0) as Hz by (apply Z.div_small; lia). rewrite Hz in Hn.
    assert (g / 256 = 0) as Hz' by (apply Z.div_small; lia). rewrite Hz' in Hn.
    change (0 mod 16) with 0 in Hn.
    exists 1%nat. rewrite !hex_group_step, hex_group_stop by (try done; try lia). repeat f_equal. lia.
  - exists 0%nat. rewrite Z.mod_small by lia.
    rewrite !hex_group_step, hex_group_stop by (try done; try lia). repeat f_equal.
Qed.

Lemma append_hex_start g s : group_ok g → hex_start (append_hex g +:+ s).
Proof.
  intros [Hg1 Hg2]. unfold append_hex.
  assert (0 <= g / 4096 < 16) by (split; [apply Z.div_pos|apply Z.div_lt_upper_bound]; lia).
  pose proof (Z.mod_pos_bound (g / 256) 16). pose proof (Z.mod_pos_bound (g / 16) 16).
  pose proof (Z.mod_pos_bound g 16).
  destruct (4096 <=? g), (256 <=? g), (16 <=? g); str_norm; cbn [hex_start];
    rewrite hex_digit_char by lia; eauto.
Qed.

Lemma join_groups_cons g gs : gs ≠ [] →
  join_groups (g :: gs) = append_hex g +:+ ":" +:+ join_groups gs.
Proof. by destruct gs. Qed.

Lemma join_groups_start gs s : Forall group_ok gs → gs ≠ [] → hex_start (join_groups gs +:+ s).
Proof.
  intros Hok Hne. destruct gs as [|g gs]; [done|]. inversion Hok; subst.
  destruct gs as [|g' gs]; [by apply append_hex_start|].
  rewrite join_groups_cons by done. rewrite app_assoc_s. by apply append_hex_start.
Qed.

(** ** The loop of parseIPv6 on printed groups *)

Section loop.
Context (fuel : nat) (ip : list Z) (e : option nat) (g : Z).
Hypothesis (Hip : (length ip < 16)%nat) (Hg : group_ok g).

Lemma loop_last :
  parseIPv6_loop (S fuel) ip e (append_hex g) = Some (ip ++ group_bytes g, e, "").
Proof using All.
  destruct (hex_group_append g "" Hg I) as [off Hoff]. rewrite app_nil_r_s in Hoff.
  cbn [parseIPv6_loop]. rewrite bool_decide_false by lia. by rewrite Hoff.
Qed.

Lemma loop_colon s : hex_start s →
  parseIPv6_loop (S fuel) ip e (append_hex g +:+ ":" +:+ s) =
  parseIPv6_loop fuel (ip ++ group_bytes g) e s.
Proof using All.
  intros Hs. destruct (hex_group_append g (":" +:+ s) Hg eq_refl) as [off Hoff].
  cbn [parseIPv6_loop]. rewrite bool_decide_false by lia. rewrite Hoff.
  cbn [mbind option_bind]. destruct s as [|c s]; [done|]. cbn [hex_start] in Hs.
  change (":" +:+ String c s) with (String ":" (String c s)).
  destruct c as [[] [] [] [] [] [] [] []]; try done; by destruct Hs.
Qed.

Lemma loop_ellipsis s : e = None →
  parseIPv6_loop (S fuel) ip e (append_hex g +:+ "::" +:+ s) =
  match s with
  | "" => Some (ip ++ group_bytes g, Some (length (ip ++ group_bytes g)), "")
  | _ => parseIPv6_loop fuel (ip ++ group_bytes g) (Some (length (ip ++ group_bytes g))) s
  end.
Proof using All.
  intros ->. destruct (hex_group_append g ("::" +:+ s) Hg eq_refl) as [off Hoff].
  cbn [parseIPv6_loop]. rewrite bool_decide_false by lia. rewrite Hoff.
  cbn [mbind option_bind]. by change ("::" +:+ s) with (String ":" (String ":" s)).
Qed.
End loop.

Definition groups_bytes (gs : list Z) : list Z := gs ≫= group_bytes.

Lemma length_groups_bytes gs : length (groups_bytes gs) = (2 * length gs)%nat.
Proof.
  induction gs as [|g gs IH]; [done|]. unfold groups_bytes in *.
  rewrite bind_cons, length_app, IH. cbn. lia.
Qed.

Lemma loop_groups gs : ∀ fuel ip e, gs ≠ [] → Forall group_ok gs →
  (length gs <= fuel)%nat → (length ip + 2 * length gs <= 16)%nat →
  parseIPv6_loop fuel ip e (join_groups gs) = Some (ip ++ groups_bytes gs, e, "").
Proof.
  induction gs as [|g gs IH]; intros fuel ip e Hne Hok Hf Hl; [done|].
  inversion Hok; subst. destruct fuel as [|fuel]; [cbn in Hf; lia|]. cbn [length] in *.
  destruct gs as [|g' gs].
  - cbn [join_groups]. rewrite loop_last by (done || lia). done.
  - rewrite join_groups_cons by done. rewrite loop_colon; try done; try lia.
    + rewrite IH; try done; [|lia|rewrite length_app; cbn [group_bytes length] in *; lia].
      unfold groups_bytes. by rewrite (bind_cons _ g), app_assoc.
    + rewrite <- (app_nil_r_s (join_groups _)). by apply join_groups_start.
Qed.

Lemma loop_groups_ellipsis gs tail : ∀ fuel ip, gs ≠ [] → Forall group_ok gs → Forall group_ok tail →
  (length gs + length tail <= fuel)%nat → (length ip + 2 * (length gs + length tail) < 16)%nat →
  parseIPv6_loop fuel ip None (join_groups gs +:+ "::" +:+ join_groups tail) =
  Some (ip ++ groups_bytes gs ++ groups_bytes tail, Some (length (ip ++ groups_bytes gs)), "").
Proof.
  induction gs as [|g gs IH]; intros fuel ip Hne Hok Htl Hf Hl; [done|].
  inversion Hok; subst. destruct fuel as [|fuel]; [cbn in Hf; lia|]. cbn [length] in *.
  destruct gs as [|g' gs].
  - cbn [join_groups]. rewrite loop_ellipsis by (done || lia).
    assert (groups_bytes [g] = group_bytes g) as -> by done.
    destruct tail as [|t tail]; [cbn; by rewrite ?app_nil_r|].
    assert (hex_start (join_groups (t :: tail))) as Hs
      by (rewrite <- (app_nil_r_s (join_groups _)); by apply join_groups_start).
    assert (∀ A (a b : A) s, hex_start s → match s with "" => a | _ => b end = b) as Hm
      by (intros A a b [|]; done).
    rewrite Hm by done. rewrite loop_groups; try done.
    + by rewrite app_assoc.
    + cbn [length] in *. lia.
    + rewrite length_app. cbn [length group_bytes] in *. lia.
  - rewrite join_groups_cons by done. rewrite !app_assoc_s.
    rewrite loop_colon; try done; try lia; [|by apply join_groups_start].
    rewrite IH; try done; [|cbn [length] in *; lia|rewrite length_app; cbn [group_bytes length] in *; lia].
    assert (groups_bytes (g :: g' :: gs) = group_bytes g ++ groups_bytes (g' :: gs)) as -> by done.
    by rewrite !app_assoc.
Qed.

(** ** The longest run of zero groups *)

Definition run_ok (gs : list Z) (r : option (nat * nat)) : Prop :=
  match r with
  | None => True
  | Some (i, l) => (2 <= l)%nat ∧ (i + l <= length gs)%nat ∧
                   gs = take i gs ++ replicate l 0 ++ drop (i + l) gs
  end.

Lemma zero_run_spec gs : gs = replicate (zero_run gs) 0 ++ drop (zero_run gs) gs.
Proof. induction gs as [|[] gs IH]; [done|..|done|done]. cbn. by f_equal. Qed.

Lemma zero_run_length gs : (zero_run gs <= length gs)%nat.
Proof. induction gs as [|[] gs IH]; cbn; lia. Qed.

Lemma longest_zero_run_ok gs : ∀ pre best,
  run_ok (pre ++ gs) best →
  run_ok (pre ++ gs) (longest_zero_run (length pre) gs best).
Proof.
  induction gs as [|g gs IH]; intros pre best Hb; [done|]. cbn [longest_zero_run].
  set (best' := if _ && _ then _ else best).
  assert (run_ok (pre ++ g :: gs) best') as Hb'.
  { unfold best'. case_bool_decide as H2; cbn [andb]; [|done].
    case_bool_decide; [|done]. split_and!; [done|rewrite length_app; pose proof (zero_run_length (g :: gs)); lia|].
    rewrite take_app_length, <- drop_drop, drop_app_length. f_equal. apply zero_run_spec. }
  specialize (IH (pre ++ [g]) best'). rewrite <- app_assoc in IH. cbn in IH.
  rewrite length_app in IH. cbn in IH. rewrite Nat.add_comm in IH. by apply IH.
Qed.

(** ** Printed addresses parse back *)

Lemma v6_groups_bytes n b : length b = (2 * n)%nat → bytes_ok b →
  groups_bytes (v6_groups b) = b ∧ length (v6_groups b) = n ∧ Forall group_ok (v6_groups b).
Proof.
  revert b. induction n as [|n IH]; intros [|x [|y b]] Hl Hok; cbn in Hl; try lia; [done|].
  rewrite !list.Forall_cons in Hok. destruct Hok as (Hx & Hy & Hok).
  destruct (IH b ltac:(lia) Hok) as (H1 & H2 & H3). unfold byte_ok in *. cbn [v6_groups]. split_and!.
  - assert (groups_bytes ((x * 256 + y) :: v6_groups b) =
      group_bytes (x * 256 + y) ++ groups_bytes (v6_groups b)) as -> by done.
    rewrite H1. unfold group_bytes. cbn. do 2 f_equal; Z.div_mod_to_equations; lia.
  - cbn. lia.
  - constructor; [|done]. unfold group_ok. lia.
Qed.

Lemma hex_char_plain d : 0 <= d < 16 → ∀ c, hex_digit c = None → is_char (hex_char d) c = false.
Proof. intros Hd c Hc. apply is_char_false. intros <-. by rewrite hex_digit_char in Hc. Qed.

Lemma append_hex_chars f g : group_ok g → (∀ d, 0 <= d < 16 → f (hex_char d) = true) →
  str_forallb f (append_hex g) = true.
Proof.
  intros [Hg1 Hg2] Hf. unfold append_hex.
  assert (0 <= g / 4096 < 16) by (split; [apply Z.div_pos|apply Z.div_lt_upper_bound]; lia).
  pose proof (Z.mod_pos_bound (g / 256) 16). pose proof (Z.mod_pos_bound (g / 16) 16).
  pose proof (Z.mod_pos_bound g 16).
  destruct (4096 <=? g), (256 <=? g), (16 <=? g); str_norm; cbn; by rewrite !Hf by lia.
Qed.

Lemma join_groups_chars f gs : Forall group_ok gs → (∀ d, 0 <= d < 16 → f (hex_char d) = true) →
  f ":"%char = true → str_forallb f (join_groups gs) = true.
Proof.
  intros Hok Hf Hc. induction Hok as [|g gs Hg Hgs IH]; [done|].
  destruct gs as [|g' gs]; [by apply append_hex_chars|].
  rewrite join_groups_cons by done. rewrite !str_forallb_app, append_hex_chars by done.
  cbn. by rewrite Hc.
Qed.

(** A printed IPv6 address and its groups around the ellipsis. *)
Lemma string6_forms b : length b = 16%nat → bytes_ok b →
  ∃ gs tl, Forall group_ok gs ∧ Forall group_ok tl ∧
    ((tl = [] ∧ length gs = 8%nat ∧ b = groups_bytes gs ∧ string6 b = join_groups gs) ∨
     (∃ l, (2 <= l)%nat ∧ (length gs + l + length tl = 8)%nat ∧
        b = groups_bytes gs ++ replicate (2 * l) 0 ++ groups_bytes tl ∧
        string6 b = join_groups gs +:+ "::" +:+ join_groups tl)).
Proof.
  intros Hl Hok. destruct (v6_groups_bytes 8 b Hl Hok) as (Hb & Hn & Hg).
  pose proof (longest_zero_run_ok (v6_groups b) [] None I) as Hr. cbn [app length] in Hr.
  unfold string6. destruct (longest_zero_run 0 (v6_groups b) None) as [[i l]|].
  - destruct Hr as (H2 & Hle & E). exists (take i (v6_groups b)), (drop (i + l) (v6_groups b)).
    split_and!; [by apply Forall_take|by apply Forall_drop|]. right. exists l.
    split_and!; [done|rewrite length_take, length_drop; lia| |done].
    rewrite <- Hb at 1. rewrite E at 1. unfold groups_bytes. rewrite !bind_app. f_equal. f_equal.
    clear. induction l as [|l IH]; [done|]. replace (2 * S l)%nat with (S (S (2 * l))) by lia.
    cbn [replicate]. rewrite <- IH. done.
  - exists (v6_groups b), []. split_and!; [done..|]. left. by rewrite Hb.
Qed.

(** The kind of the printed address is decided by its first colon. *)
Lemma hex_not_punct d : 0 <= d < 16 →
  negb (is_char (hex_char d) "." || is_char (hex_char d) ":" || is_char (hex_char d) "%") = true
  ∧ negb (is_char (hex_char d) "%") = true.
Proof. intros Hd. by rewrite !hex_char_plain. Qed.
Lemma group_kind g s : group_ok g → ParseAddr_kind (append_hex g +:+ String ":" s) = Some ":"%char.
Proof. intros Hg. apply ParseAddr_kind_app; [|done]. apply append_hex_chars; [done|apply hex_not_punct]. Qed.
Lemma string6_kind b : length b = 16%nat → bytes_ok b →
  str_free "%" (string6 b) = true ∧ ParseAddr_kind (string6 b) = Some ":"%char.
Proof.
  intros Hl Hok. destruct (string6_forms b Hl Hok) as (gs & tl & Hgs & Htl & Hform). split.
  - destruct Hform as [(-> & _ & _ & ->)|(l & _ & _ & _ & ->)];
      rewrite ?str_free_app; unfold str_free; rewrite !join_groups_chars; try done; apply hex_not_punct.
  - destruct Hform as [(-> & Hl8 & _ & ->)|(l & _ & _ & _ & ->)].
    + destruct gs as [|g [|g' gs]]; try done. rewrite join_groups_cons by done.
      inversion Hgs; subst. by apply group_kind.
    + destruct gs as [|g [|g' gs]]; [done|..]; inversion Hgs; subst; [by apply group_kind|].
      rewrite join_groups_cons by done. rewrite !app_assoc_s. by apply group_kind.
Qed.

Lemma ParseAddr_string6 b : length b = 16%nat → bytes_ok b →
  ParseAddr (string6 b) = Some (Addr6 b "").
Proof.
  intros Hl Hok. destruct (string6_forms b Hl Hok) as (gs & tl & Hgs & Htl & Hform).
  destruct (string6_kind b Hl Hok) as [Hpct Hk].
  unfold ParseAddr. rewrite Hk. unfold parseIPv6. rewrite (Cut_free _ _ Hpct). cbn [andb].
  assert (Hpre : ∀ s, hex_start s → strings.HasPrefix s "::" = false).
  { intros [|c s]; [done|]. intros Hs. cbn. apply andb_false_iff. left. apply is_char_false.
    intros <-. by destruct Hs. }
  destruct Hform as [(-> & Hl8 & -> & ->)|(l & H2 & Hn & E & ->)].
  - destruct gs as [|g gs]; [done|].
    rewrite Hpre by (rewrite <- (app_nil_r_s (join_groups _)); by apply join_groups_start).
    rewrite loop_groups by (try done; cbn in *; lia). cbn [mbind option_bind app].
    rewrite bool_decide_true by done. cbn [negb].
    by rewrite bool_decide_false by lia.
  - destruct gs as [|g gs].
    + change (join_groups [] +:+ "::" +:+ join_groups tl) with (String ":" (String ":" (join_groups tl))).
      cbn [strings.HasPrefix]. rewrite is_char_refl, HasPrefix_nil. cbn [andb str_drop].
      destruct tl as [|t tl].
      * cbn. rewrite E. cbn in Hn. assert (l = 8%nat) as -> by lia. done.
      * assert (hex_start (join_groups (t :: tl))) as Hs
          by (rewrite <- (app_nil_r_s (join_groups _)); by apply join_groups_start).
        remember (join_groups (t :: tl)) as s eqn:Es. destruct s as [|c s]; [done|]. rewrite Es.
        rewrite loop_groups by (try done; cbn [length] in *; lia).
        cbn [mbind option_bind app]. rewrite bool_decide_true by done. cbn [negb].
        rewrite length_groups_bytes. cbn [length] in *. rewrite bool_decide_true by lia.
        cbn [take drop app]. rewrite E. replace (16 - 2 * S (length tl))%nat with (2 * l)%nat by lia. done.
    + rewrite Hpre by (by apply join_groups_start).
      rewrite loop_groups_ellipsis by (try done; cbn [length] in *; lia).
      cbn [mbind option_bind app]. rewrite bool_decide_true by done. cbn [negb].
      rewrite !length_app, !length_groups_bytes. rewrite bool_decide_true by lia.
      rewrite <- (length_groups_bytes (g :: gs)), take_app_length, drop_app_length, E.
      rewrite length_groups_bytes. replace (16 - (2 * length (g :: gs) + 2 * length tl))%nat with (2 * l)%nat by lia. done.
Qed.

(** Every 16-byte address parses back to itself after printing. *)
Lemma ParseIP_String ip : length ip = 16%nat → bytes_ok ip → ParseIP (IP_String ip) = Some ip.
Proof.
  intros Hl Hok. unfold IP_String. destruct (To4 ip) as [p4|] eqn:H4.
  - apply To4_spec in H4 as [Hl4 [->| ->]]; [lia|].
    apply Forall_app in Hok as [_ Hok]. by apply ParseIP_join4.
  - unfold ParseIP. by rewrite ParseAddr_string6.
Qed.

Lemma ParseIP_String4 ip : length ip = 4%nat → bytes_ok ip →
  ParseIP (IP_String ip) = Some (v4InV6Prefix ++ ip).
Proof. intros Hl Hok. unfold IP_String. rewrite To4_4 by done. by apply ParseIP_join4. Qed.

(** ** Networks printed as "address/prefix length" *)

Lemma digits_mono s : ∀ acc v, strconv.digits acc s = Some v → 0 <= acc → acc <= v.
Proof.
  induction s as [|c s IH]; intros acc v H Ha; cbn in H; [by simplify_eq|].
  destruct (strconv.digit c) as [d|] eqn:Hd; [|done]. cbn in H.
  apply digit_bound in Hd. apply IH in H; lia.
Qed.

Lemma dtoi_go_digits s : ∀ n v, 0 <= n < 16777215 →
  dtoi_go n s = Some (v, "") ↔ strconv.digits n s = Some v ∧ v < 16777215.
Proof.
  induction s as [|c s IH]; intros n v Hn; cbn.
  { split; [intros [= ->]; split; [done|lia]|by intros [[= ->] _]]. }
  destruct (strconv.digit c) as [d|] eqn:Hd; cbn; [|split; [done|by intros [? _]]].
  apply digit_bound in Hd. rewrite (Z.mul_comm 10).
  destruct (Z.leb_spec 16777215 (n * 10 + d)); [|apply IH; lia].
  split; [done|]. intros [H' Hv]. apply digits_mono in H'; lia.
Qed.

(** The mask of a printed network is read back, when it is not negative and
    not above the limit of [dtoi]. *)
Lemma dtoi_pretty (z v : Z) :
  dtoi (pretty z) = Some (v, "") ↔ v = z ∧ 0 <= z < 16777215.
Proof.
  assert (∀ n : N, dtoi (pretty n) = Some (v, "") ↔ v = Z.of_N n ∧ Z.of_N n < 16777215) as HN.
  { intros n. pose proof (digits_pretty_N n) as Hd. pose proof (pretty_N_nonempty n).
    unfold dtoi. destruct (pretty n) as [|c s]; [done|]. pose proof (digits_all _ _ _ Hd) as Hall.
    cbn [str_forallb] in Hall. apply andb_true_iff in Hall as [Hc _]. unfold is_digit in Hc.
    destruct (strconv.digit c) eqn:Hdc; [|done]. rewrite dtoi_go_digits, Hd by lia.
    split; [intros [[= <-] ?]; done|intros [-> ?]; done]. }
  destruct z as [|p|p].
  - rewrite (HN 0%N). lia.
  - change (pretty (Z.pos p)) with (pretty (N.pos p)). rewrite HN. lia.
  - change (pretty (Z.neg p)) with (String "-" (pretty (N.pos p))). split; [done|lia].
Qed.

Lemma parseIPv4Fields_go_free s : ∀ prev val dl fs bs,
  parseIPv4Fields_go prev val dl fs s = Some bs → str_free "/" s = true.
Proof.
  induction s as [|c s IH]; intros prev val dl fs bs H; [done|].
  cbn in H. rewrite str_free_cons. destruct (is_char c "/") eqn:Hc.
  { apply is_char_true in Hc. by subst. }
  destruct (strconv.digit c); [repeat case_match; try done; by eapply IH|].
  repeat (case_match; try done); by eapply IH.
Qed.

Lemma ParseAddr_v4 s b : ParseAddr s = Some (Addr4 b) → parseIPv4Fields s = Some b.
Proof.
  unfold ParseAddr. destruct (ParseAddr_kind s) as [c|]; [|done].
  assert (parseIPv4 s = Some (Addr4 b) → parseIPv4Fields s = Some b) as H4.
  { unfold parseIPv4. destruct (parseIPv4Fields s); [|done]. by intros [= ->]. }
  assert (parseIPv6 s ≠ Some (Addr4 b)) as H6.
  { unfold parseIPv6. destruct (strings.Cut s "%") as [[? ?] ?].
    repeat (case_match; try done); destruct (parseIPv6_loop 8 _ _ _) as [[[? ?] ?]|];
      cbn; repeat case_match; done. }
  destruct c as [[] [] [] [] [] [] [] []]; try done; auto.
Qed.

(** [net.ParseCIDR] of an IPv4 network, for every mask. *)
Lemma ParseCIDR_v4 s b k : ParseAddr s = Some (Addr4 b) →
  ParseCIDR (s +:+ "/" +:+ pretty (k : Z)) =
  if (0 <=? k) && (k <=? 32)
  then Some (v4InV6Prefix ++ b,
             {| net_IP := Some (and_bytes b (CIDRMask_go 4 k)); net_Mask := CIDRMask_go 4 k |})
  else None.
Proof.
  intros Ha. pose proof (ParseAddr_v4 _ _ Ha) as Hf.
  assert (length b = 4%nat) as Hb by (eapply parseIPv4Fields_ok, Hf).
  unfold ParseCIDR. change ("/" +:+ pretty k) with (String "/" (pretty k)).
  rewrite Cut_app by (eapply parseIPv4Fields_go_free, Hf). cbn [negb]. rewrite Ha.
  cbn [mbind option_bind Zone]. rewrite bool_decide_true by done. cbn [negb BitLen].
  destruct (dtoi (pretty k)) as [[v r]|] eqn:Hd; cbn [mbind option_bind].
  - destruct (bool_decide (r = "")) eqn:Hr.
    + apply bool_decide_eq_true in Hr as ->. apply dtoi_pretty in Hd as [-> Hk]. cbn [negb orb].
      rewrite (proj2 (Z.leb_le 0 k)) by lia. cbn [andb]. rewrite Z.leb_antisym.
      destruct (Z.ltb_spec 32 k); [done|]. cbn [negb]. rewrite CIDRMask_32 by lia.
      cbn [mbind option_bind As16]. by rewrite Mask_v4in6 by (rewrite ?length_CIDRMask_go; done).
    + cbn [negb orb]. destruct (Z.leb_spec 0 k), (Z.leb_spec k 32); cbn; try done. exfalso.
      assert (dtoi (pretty k) = Some (k, "")) as Hk by (apply dtoi_pretty; lia).
      rewrite Hd in Hk. injection Hk as -> ->. by rewrite bool_decide_true in Hr.
  - destruct (Z.leb_spec 0 k), (Z.leb_spec k 32); cbn; try done. exfalso.
    assert (dtoi (pretty k) = Some (k, "")) as Hk by (apply dtoi_pretty; lia). congruence.
Qed.

(** The address of a parsed network, printed and read back, is in the same
    networks. *)
Lemma ParseCIDR_ip s a n : ParseCIDR s = Some (a, n) →
  ∃ b, net_IP n = Some b ∧ bytes_ok b ∧ (length b = 4%nat ∨ length b = 16%nat).
Proof.
  unfold ParseCIDR. destruct (strings.Cut s "/") as [[ad mk] f]. destruct f; [|done]. cbn [negb].
  destruct (ParseAddr ad) as [addr|] eqn:Ha; [|done]. cbn [mbind option_bind].
  destruct (negb _); [done|]. destruct (dtoi mk) as [[k r]|] eqn:Hd; [|done].
  cbn [mbind option_bind]. destruct (negb (bool_decide (r = ""))); [done|]. cbn [orb].
  destruct (Z.ltb_spec (BitLen addr) k) as [|Hk]; [done|].
  apply dtoi_nonneg in Hd. pose proof (As16_ok _ _ Ha) as [Hok Hl16].
  destruct addr as [b|b z]; cbn [BitLen As16] in *.
  - assert (Hb : length b = 4%nat) by (rewrite length_app in Hl16; simpl in Hl16; lia).
    apply Forall_app in Hok as [_ Hok]. rewrite CIDRMask_32 by lia. cbn [mbind option_bind].
    intros [_ <-]%(inj Some)%pair_equal_spec.
    rewrite Mask_v4in6 by (rewrite ?length_CIDRMask_go; done). eexists. split; [done|]. split.
    + apply (zip_bytes_ok _ land_ok); [done|apply mask_bytes_ok; lia].
    + left. rewrite length_and_bytes; rewrite ?length_CIDRMask_go; lia.
  - rewrite CIDRMask_128 by lia. cbn [mbind option_bind].
    intros [_ <-]%(inj Some)%pair_equal_spec.
    rewrite Mask_16 by (rewrite ?length_CIDRMask_go; done). eexists. split; [done|]. split.
    + apply (zip_bytes_ok _ land_ok); [done|apply mask_bytes_ok; lia].
    + right. rewrite length_and_bytes; rewrite ?length_CIDRMask_go; lia.
Qed.

Lemma ParseIP_String_norm b : bytes_ok b → length b = 4%nat ∨ length b = 16%nat →
  ∃ ip, ParseIP (IP_String b) = Some ip ∧ norm ip = norm b.
Proof.
  intros Hok [H|H].
  - eexists. split; [by apply ParseIP_String4|]. unfold norm. by rewrite To4_v4in6, To4_4.
  - eexists. split; [by apply ParseIP_String|done].
Qed.

Lemma Contains_norm n ip ip' : norm ip = norm ip' → Contains n ip = Contains n ip'.
Proof. intros H. unfold Contains. fold (norm ip) (norm ip'). by rewrite H. Qed.
