(* ===== verification/Config.v ===== *)
(** * Configuration: internal/domain/config

    The configuration structs, the [LoadBalancerConfig] interface with its two
    implementations, and [ApplyDefaultValues].  Durations are nanoseconds. *)
From S2P Require Export Prelude.
From Stdlib Require Import Lia.
Local Open Scope Z_scope.

Record DefaultBackendConfig := mkDefaultBackend {
  db_IP : string; db_Port : Z; db_Weight : Z
}.

Record AddressConfig := mkAddress { addr_IP : string; addr_Port : Z }.

Record NetConfig := mkNet { nc_Source : string; nc_Target : string; nc_Mask : Z }.
Record IPConfig := mkIP { ic_Source : string; ic_Target : string }.

Record IPReplacementList := mkIPReplacementList {
  rl_Nets : list NetConfig;
  rl_IPs : list IPConfig;
  rl_GlobalNets : list string;
  rl_GlobalIPs : list string
}.

Record GlobalNetReplacement := mkGlobalNet { gn_Name : string; gn_Nets : list NetConfig }.
Record GlobalIPReplacement := mkGlobalIP { gi_Name : string; gi_IPs : list IPConfig }.
Record GlobalIPReplacementList := mkGlobalList {
  gl_Net : list GlobalNetReplacement;
  gl_IP : list GlobalIPReplacement
}.

Record NginxConfig := mkNginx {
  ng_Type : string;
  ng_Name : string;
  ng_IPReplacement : bool;
  ng_IPReplacementList : IPReplacementList;
  ng_Addresses : list AddressConfig;
  ng_ListAPI : string;
  ng_AddAPI : string;
  ng_RemoveAPI : string;
  ng_UpstreamSyncPeriod : Z;
  ng_FailTimeout : Z;
  ng_RequestTimeout : Z;
  ng_Protocol : string;
  ng_Hostname : string;
  ng_CertPath : string;
  ng_KeyPath : string;
  ng_CAPath : string;
  ng_Cert : string;
  ng_Key : string;
  ng_CA : string;
  ng_RequestPoolSize : Z;
  ng_PruneOrphans : bool;
  ng_AllowEmptyUpstream : bool;
  ng_DefaultBackend : option DefaultBackendConfig
}.

Record EnvoyConfig := mkEnvoy {
  en_Type : string;
  en_Name : string;
  en_IPReplacement : bool;
  en_IPReplacementList : IPReplacementList;
  en_Addresses : list AddressConfig;
  en_UpstreamSyncPeriod : Z;
  en_RequestTimeout : Z;
  en_Protocol : string;
  en_Hostname : string;
  en_CertPath : string;
  en_KeyPath : string;
  en_CAPath : string;
  en_Cert : string;
  en_Key : string;
  en_CA : string;
  en_RequestPoolSize : Z;
  en_PruneOrphans : bool;
  en_AllowEmptyUpstream : bool;
  en_DefaultBackend : option DefaultBackendConfig
}.

(** The dynamic types a [LoadBalancerConfig] interface value can have.  The
    pointers are not nil: a method call through a nil pointer panics, and
    every consumer calls a method first. *)
Inductive LoadBalancerConfig :=
  | LBNginx (c : NginxConfig)
  | LBNginxPtr (c : NginxConfig)
  | LBEnvoy (c : EnvoyConfig)
  | LBEnvoyPtr (c : EnvoyConfig).

(** The methods of the interface, dispatched on the dynamic type. *)
Definition lb_get {A} (fn : NginxConfig → A) (fe : EnvoyConfig → A)
    (lb : LoadBalancerConfig) : A :=
  match lb with
  | LBNginx c | LBNginxPtr c => fn c
  | LBEnvoy c | LBEnvoyPtr c => fe c
  end.
Definition GetName := lb_get ng_Name en_Name.
Definition GetAddresses := lb_get ng_Addresses en_Addresses.
Definition GetIPReplacement := lb_get ng_IPReplacement en_IPReplacement.
Definition GetIPReplacementList := lb_get ng_IPReplacementList en_IPReplacementList.
Definition GetType := lb_get ng_Type en_Type.
Definition GetHostName := lb_get ng_Hostname en_Hostname.
Definition GetProtocol := lb_get ng_Protocol en_Protocol.
Definition GetRequestPoolSize := lb_get ng_RequestPoolSize en_RequestPoolSize.
Definition GetRequestTimeOut := lb_get ng_RequestTimeout en_RequestTimeout.
Definition GetUpstreamSyncPeriod := lb_get ng_UpstreamSyncPeriod en_UpstreamSyncPeriod.
Definition GetPruneOrphans := lb_get ng_PruneOrphans en_PruneOrphans.
Definition GetAllowEmptyUpstream := lb_get ng_AllowEmptyUpstream en_AllowEmptyUpstream.
Definition GetDefaultBackend := lb_get ng_DefaultBackend en_DefaultBackend.

Record LeaderElectionConfig := mkLeaderElection {
  le_Enabled : bool;
  le_LeaseName : string;
  le_LeaseNamespace : string;
  le_LeaseDuration : Z;
  le_RenewDeadline : Z;
  le_RetryPeriod : Z
}.
Record LogConfig := mkLog { log_Enabled : bool; log_Level : string; log_Format : string }.
Record MetricsConfig := mkMetrics { mt_Enabled : bool; mt_Port : Z; mt_URI : string }.
Record KubernetesConfig := mkKubernetes { kc_ResyncPeriod : Z; kc_KubernetesConfig : string }.

Record Config := mkConfig {
  cfg_GlobalUpstreamSyncPeriod : Z;
  cfg_LeaderElection : LeaderElectionConfig;
  cfg_Log : LogConfig;
  cfg_Metrics : MetricsConfig;
  cfg_Kubernetes : KubernetesConfig;
  cfg_GlobalIPReplacementList : GlobalIPReplacementList;
  cfg_LoadBalancers : list LoadBalancerConfig;
  cfg_RequestPoolSize : Z;
  cfg_AllowEmptyUpstream : bool;
  cfg_DefaultBackend : option DefaultBackendConfig
}.

(** ** default.go *)
Definition Second : Z := 1000000000.
Definition GlobalUpstreamSyncPeriod := 10 * Second.
Definition LeaderElectionLeaseDuration := 15 * Second.
Definition LeaderElectionRenewDeadline := 10 * Second.
Definition LeaderElectionRetryPeriod := 2 * Second.
Definition LogLevel := "info".
Definition LogFormat := "json".
Definition LeaderElectionLeaseName := "mlb-controller-lease".
Definition LeaderElectionLeaseNamespace := "default".
Definition MetricsPort := 9090.
Definition MetricsURI := "/metrics".
Definition KubernetesResyncPeriod := 30 * Second.
Definition RequestPoolSize := 10.
Definition RequestTimeOut := 30 * Second.
Definition FailTimeout := 60 * Second.

(** [if x == 0 { x = d }] and [if s == "" { s = d }]. *)
Definition or_default (x d : Z) : Z := if x =? 0 then d else x.
Definition or_default_s (s d : string) : string := if bool_decide (s = "") then d else s.
(** [if p == nil && d != nil { p = d }]. *)
Definition or_default_o {A} (p d : option A) : option A :=
  match p with Some _ => p | None => d end.

(** [NginxConfig.SetDefaults] and [EnvoyConfig.SetDefaults]: both have a value
    receiver, so the result is a struct value, never a pointer. *)
Definition NginxConfig_SetDefaults (c : NginxConfig) (period pool : Z) : NginxConfig :=
  let '(mkNginx t n r rl a la aa ra sp ft rt p h cp kp cap cert key ca rps po ae db) := c in
  mkNginx t n r rl a la aa ra (or_default sp period) (or_default ft FailTimeout)
    (or_default rt RequestTimeOut) p h cp kp cap cert key ca (or_default rps pool) po ae db.
Definition EnvoyConfig_SetDefaults (c : EnvoyConfig) (period pool : Z) : EnvoyConfig :=
  let '(mkEnvoy t n r rl a sp rt p h cp kp cap cert key ca rps po ae db) := c in
  mkEnvoy t n r rl a (or_default sp period) (or_default rt RequestTimeOut)
    p h cp kp cap cert key ca (or_default rps pool) po ae db.
Definition SetDefaults (lb : LoadBalancerConfig) (period pool : Z) : LoadBalancerConfig :=
  match lb with
  | LBNginx c | LBNginxPtr c => LBNginx (NginxConfig_SetDefaults c period pool)
  | LBEnvoy c | LBEnvoyPtr c => LBEnvoy (EnvoyConfig_SetDefaults c period pool)
  end.

(** The global [allow_empty_upstream] and [default_backend] a load balancer
    inherits. *)
Definition nginx_inherit (allow : bool) (db : option DefaultBackendConfig) (c : NginxConfig)
    : NginxConfig :=
  let '(mkNginx t n r rl a la aa ra sp ft rt p h cp kp cap cert key ca rps po ae d) := c in
  mkNginx t n r rl a la aa ra sp ft rt p h cp kp cap cert key ca rps po
    (if negb ae && allow then true else ae) (or_default_o d db).
Definition envoy_inherit (allow : bool) (db : option DefaultBackendConfig) (c : EnvoyConfig)
    : EnvoyConfig :=
  let '(mkEnvoy t n r rl a sp rt p h cp kp cap cert key ca rps po ae d) := c in
  mkEnvoy t n r rl a sp rt p h cp kp cap cert key ca rps po
    (if negb ae && allow then true else ae) (or_default_o d db).

(** The body of the loop of [ApplyDefaultValues]. *)
Definition apply_lb_defaults (period pool : Z) (allow : bool)
    (db : option DefaultBackendConfig) (lb : LoadBalancerConfig) : LoadBalancerConfig :=
  match SetDefaults lb period pool with
  | LBNginx c => LBNginx (nginx_inherit allow db c)
  | LBNginxPtr c => LBNginxPtr (nginx_inherit allow db c)
  | LBEnvoy c => LBEnvoy (envoy_inherit allow db c)
  | LBEnvoyPtr c => LBEnvoyPtr (envoy_inherit allow db c)
  end.

Definition ApplyDefaultValues (cfg : Config) : Config :=
  let le := cfg_LeaderElection cfg in
  let period := or_default (cfg_GlobalUpstreamSyncPeriod cfg) GlobalUpstreamSyncPeriod in
  let pool := or_default (cfg_RequestPoolSize cfg) RequestPoolSize in
  {| cfg_GlobalUpstreamSyncPeriod := period;
     cfg_LeaderElection :=
       {| le_Enabled := le_Enabled le;
          le_LeaseName := or_default_s (le_LeaseName le) LeaderElectionLeaseName;
          le_LeaseNamespace := or_default_s (le_LeaseNamespace le) LeaderElectionLeaseNamespace;
          le_LeaseDuration := or_default (le_LeaseDuration le) LeaderElectionLeaseDuration;
          le_RenewDeadline := or_default (le_RenewDeadline le) LeaderElectionRenewDeadline;
          le_RetryPeriod := or_default (le_RetryPeriod le) LeaderElectionRetryPeriod |};
     cfg_Log :=
       {| log_Enabled := log_Enabled (cfg_Log cfg);
          log_Level := or_default_s (log_Level (cfg_Log cfg)) LogLevel;
          log_Format := or_default_s (log_Format (cfg_Log cfg)) LogFormat |};
     cfg_Metrics :=
       {| mt_Enabled := mt_Enabled (cfg_Metrics cfg);
          mt_Port := or_default (mt_Port (cfg_Metrics cfg)) MetricsPort;
          mt_URI := or_default_s (mt_URI (cfg_Metrics cfg)) MetricsURI |};
     cfg_Kubernetes :=
       {| kc_ResyncPeriod := or_default (kc_ResyncPeriod (cfg_Kubernetes cfg)) KubernetesResyncPeriod;
          kc_KubernetesConfig := kc_KubernetesConfig (cfg_Kubernetes cfg) |};
     cfg_GlobalIPReplacementList := cfg_GlobalIPReplacementList cfg;
     cfg_LoadBalancers :=
       apply_lb_defaults period pool (cfg_AllowEmptyUpstream cfg) (cfg_DefaultBackend cfg)
         <$> cfg_LoadBalancers cfg;
     cfg_RequestPoolSize := pool;
     cfg_AllowEmptyUpstream := cfg_AllowEmptyUpstream cfg;
     cfg_DefaultBackend := cfg_DefaultBackend cfg |}.

(** ** Facts *)

Lemma or_default_idem x d : or_default (or_default x d) d = or_default x d.
Proof. unfold or_default. destruct (Z.eqb_spec x 0) as [->|Hx]; [by destruct (d =? 0)|]. by rewrite (proj2 (Z.eqb_neq x 0)). Qed.
Lemma or_default_s_idem x d : or_default_s (or_default_s x d) d = or_default_s x d.
Proof. unfold or_default_s. repeat case_bool_decide; congruence. Qed.
Lemma or_default_o_idem {A} (x d : option A) : or_default_o (or_default_o x d) d = or_default_o x d.
Proof. by destruct x, d. Qed.
Lemma inherit_idem (own all : bool) :
  (if negb (if negb own && all then true else own) && all then true else if negb own && all then true else own) =
  (if negb own && all then true else own).
Proof. by destruct own, all. Qed.

Lemma apply_lb_defaults_idem period pool allow db lb :
  apply_lb_defaults period pool allow db (apply_lb_defaults period pool allow db lb) =
  apply_lb_defaults period pool allow db lb.
Proof.
  destruct lb as [[]|[]|[]|[]]; cbn;
    by rewrite ?or_default_idem, ?or_default_o_idem, ?inherit_idem.
Qed.

Lemma ApplyDefaultValues_idem cfg : ApplyDefaultValues (ApplyDefaultValues cfg) = ApplyDefaultValues cfg.
Proof.
  unfold ApplyDefaultValues. cbn. rewrite !or_default_idem, !or_default_s_idem.
  f_equal. rewrite <- list_fmap_compose. apply list_fmap_ext. intros i lb _. apply apply_lb_defaults_idem.
Qed.

(** ** Properties *)

(** Applying the defaults is idempotent: a configuration that went through
    [ApplyDefaultValues] is a fixed point of it. *)
Theorem ApplyDefaultValues_idempotent (cfg : Config) :
  ApplyDefaultValues (ApplyDefaultValues cfg) = ApplyDefaultValues cfg.
Proof. apply ApplyDefaultValues_idem. Qed.

(** After the defaults, every load balancer is a struct value with its own
    period, pool size and default backend or the inherited ones: the global
    values are used exactly where the load balancer gives none, empty
    upstreams are allowed when either side allows them, and its identity
    (name, type, addresses, rules) is kept. *)
Theorem ApplyDefaultValues_inherit (cfg : Config) (i : nat) (lb : LoadBalancerConfig) :
  cfg_LoadBalancers cfg !! i = Some lb →
  ∃ lb', cfg_LoadBalancers (ApplyDefaultValues cfg) !! i = Some lb' ∧
    ((∃ c, lb' = LBNginx c) ∨ (∃ c, lb' = LBEnvoy c)) ∧
    GetUpstreamSyncPeriod lb' =
      or_default (GetUpstreamSyncPeriod lb) (or_default (cfg_GlobalUpstreamSyncPeriod cfg) GlobalUpstreamSyncPeriod) ∧
    GetRequestPoolSize lb' =
      or_default (GetRequestPoolSize lb) (or_default (cfg_RequestPoolSize cfg) RequestPoolSize) ∧
    GetRequestTimeOut lb' = or_default (GetRequestTimeOut lb) RequestTimeOut ∧
    GetAllowEmptyUpstream lb' = GetAllowEmptyUpstream lb || cfg_AllowEmptyUpstream cfg ∧
    GetDefaultBackend lb' = or_default_o (GetDefaultBackend lb) (cfg_DefaultBackend cfg) ∧
    GetName lb' = GetName lb ∧ GetType lb' = GetType lb ∧ GetAddresses lb' = GetAddresses lb ∧
    GetIPReplacement lb' = GetIPReplacement lb ∧ GetIPReplacementList lb' = GetIPReplacementList lb ∧
    GetPruneOrphans lb' = GetPruneOrphans lb.
Proof.
  intros Hi. eexists. split; [cbn; by rewrite list_lookup_fmap, Hi|].
  assert (∀ a b : bool, (if negb a && b then true else a) = a || b) as Hor by (by intros [] []).
  destruct lb as [[]|[]|[]|[]]; cbn; rewrite ?Hor; split_and!; try done;
    (by left; eexists) || (by right; eexists).
Qed.

Lemma ApplyDefaultValues_inherit_witness :
  ∃ cfg lb lb', cfg_LoadBalancers cfg !! 0%nat = Some lb ∧
    cfg_LoadBalancers (ApplyDefaultValues cfg) !! 0%nat = Some lb' ∧
    GetRequestPoolSize lb' = 25 ∧ GetUpstreamSyncPeriod lb' = 10 * Second ∧
    GetAllowEmptyUpstream lb' = true.
Proof.
  pose (lb := LBEnvoyPtr (mkEnvoy "envoy" "e" false (mkIPReplacementList [] [] [] []) [] 0 0 "grpc"
    "" "" "" "" "" "" "" 25 false false None)).
  pose (cfg := mkConfig 0 (mkLeaderElection false "" "" 0 0 0) (mkLog false "" "") (mkMetrics false 0 "")
    (mkKubernetes 0 "") (mkGlobalList [] []) [lb] 0 true None).
  destruct (ApplyDefaultValues_inherit cfg 0 lb eq_refl) as (lb' & Hl & _ & Hp & Hr & _ & Ha & _).
  exists cfg, lb, lb'. split; [reflexivity|]. split; [exact Hl|].
  split; [rewrite Hr; reflexivity|]. split; [rewrite Hp; reflexivity|]. rewrite Ha. reflexivity.
Defined.

