(* ===== verification/Model.v ===== *)
(** * Domain model: internal/domain/model

    Strings, maps and integers as the Go structs have them: [Port] and
    [NodePort] are [int32] and [Weight] an [int], carried in [Z]. *)
From S2P Require Export Prelude Config.
From Stdlib Require Import Lia.

Record Backend := mkBackend {
  be_IP : string;
  be_Port : Z;
  be_Weight : Z
}.
Global Instance Backend_eq_dec : EqDecision Backend.
Proof. solve_decision. Defined.

Record Node := mkNode {
  node_Name : string;
  node_ClusterIP : string;
  node_InternalIP : string;
  node_ExternalIP : string
}.
Global Instance Node_eq_dec : EqDecision Node.
Proof. solve_decision. Defined.

Record Pod := mkPod {
  pod_Name : string;
  pod_Namespace : string;
  pod_NodeName : string;
  pod_IP : string;
  pod_Status : string;
  pod_Ready : bool;
  pod_Labels : gmap string string
}.
Global Instance Pod_eq_dec : EqDecision Pod.
Proof. solve_decision. Defined.

Record Service := mkService {
  svc_Name : string;
  svc_Namespace : string;
  svc_Labels : gmap string string;
  svc_Selector : gmap string string;
  svc_ServiceType : string;
  svc_NodePort : Z
}.
Global Instance Service_eq_dec : EqDecision Service.
Proof. solve_decision. Defined.

(** Reading a missing key of a Go [map[string]string] yields "". *)
Definition label (m : gmap string string) (k : string) : string := default "" (m !! k).

(** [fmt.Sprintf("%s/%s", a, b)]: the keys of services, pods and upstreams. *)
Definition slash_key (a b : string) : string := a +:+ "/" +:+ b.

Definition svc_key (s : Service) : string := slash_key (svc_Namespace s) (svc_Name s).
Definition pod_key (p : Pod) : string := slash_key (pod_Namespace p) (pod_Name p).
Definition svc_lb (s : Service) : string := label (svc_Labels s) "mlb-loadbalancer-name".
Definition svc_upstream (s : Service) : string := label (svc_Labels s) "mlb-upstream-name".

(** [Config] is an interface value: [None] is a nil one. *)
Record Upstream := mkUpstream {
  up_Name : string;
  up_LoadBalancer : string;
  up_Backends : list Backend;
  up_Type : string;
  up_Config : option LoadBalancerConfig;
  up_PreserveExistingBackends : bool
}.
Definition set_Backends (bs : list Backend) (u : Upstream) : Upstream :=
  mkUpstream (up_Name u) (up_LoadBalancer u) bs (up_Type u) (up_Config u)
    (up_PreserveExistingBackends u).
Definition set_Preserve (p : bool) (u : Upstream) : Upstream :=
  mkUpstream (up_Name u) (up_LoadBalancer u) (up_Backends u) (up_Type u) (up_Config u) p.
Definition set_Weight (w : Z) (b : Backend) : Backend := mkBackend (be_IP b) (be_Port b) w.

Record ControllerState := mkState {
  st_Services : gmap string Service;
  st_Pods : gmap string Pod;
  st_Nodes : gmap string Node;
  st_Upstreams : gmap string Upstream
}.

(** ** Merging backends by key

    The loop both the controller and the NGINX adapter run over a list of
    backends: the weight of a repeated key is added to the first entry.  [key]
    is the map key of a backend and [w] the weight it counts for. *)
Section merging.
Context (key : Backend → string) (w : Backend → Z).

Definition merge_step (m : gmap string Backend) (b : Backend) : gmap string Backend :=
  match m !! key b with
  | Some e => <[key b := set_Weight (int64 (be_Weight e + w b)) e]> m
  | None => <[key b := set_Weight (w b) b]> m
  end.

(** The sum of the weights of a key. *)
Definition key_weight (k : string) (l : list Backend) : Z :=
  foldr (λ b acc, if decide (key b = k) then (w b + acc)%Z else acc) 0%Z l.

Lemma key_weight_cons k b l :
  key_weight k (b :: l) = (if decide (key b = k) then w b + key_weight k l else key_weight k l)%Z.
Proof. done. Qed.

Lemma key_weight_nil k l : k ∉ key <$> l → key_weight k l = 0%Z.
Proof.
  induction l as [|b l IH]; [done|]. rewrite fmap_cons, not_elem_of_cons. intros [H1 H2].
  rewrite key_weight_cons, decide_False by done. by apply IH.
Qed.

Lemma key_weight_perm k l1 l2 : l1 ≡ₚ l2 → key_weight k l1 = key_weight k l2.
Proof.
  induction 1 as [|b l l' _ IH|b c l|l1 l2 l3 _ IH1 _ IH2]; rewrite ?key_weight_cons;
    [done|by rewrite IH| |congruence].
  repeat case_decide; lia.
Qed.

Lemma key_weight_app k l1 l2 : key_weight k (l1 ++ l2) = (key_weight k l1 + key_weight k l2)%Z.
Proof.
  induction l1 as [|b l IH]; [done|]. rewrite <- app_comm_cons, !key_weight_cons, IH. case_decide; lia.
Qed.

(** The entries keep the key they are stored under, if weights do not matter to it. *)
Lemma merge_keyed l m : (∀ x b, key (set_Weight x b) = key b) →
  (∀ k b, m !! k = Some b → key b = k) →
  ∀ k b, foldl merge_step m l !! k = Some b → key b = k.
Proof.
  intros Hw. revert m. induction l as [|x l IH]; intros m Hm; [done|]. cbn [foldl]. apply IH.
  intros k b. unfold merge_step. destruct (m !! key x) as [e|] eqn:E;
    destruct (decide (key x = k)) as [<-|Hne];
    rewrite ?lookup_insert_eq, ?lookup_insert_ne by done; try by apply Hm.
  - intros [= <-]. rewrite Hw. by apply Hm.
  - intros [= <-]. apply Hw.
Qed.

Definition weight_in_range (b : Backend) : Prop := (- 2 ^ 63 ≤ w b < 2 ^ 63)%Z.

Lemma merge_lookup l m k : Forall weight_in_range l →
  be_Weight <$> foldl merge_step m l !! k =
  match m !! k with
  | Some e => Some (if decide (k ∈ key <$> l) then int64 (be_Weight e + key_weight k l) else be_Weight e)
  | None => if decide (k ∈ key <$> l) then Some (int64 (key_weight k l)) else None
  end.
Proof.
  intros Hr. revert m. induction Hr as [|b l Hb Hr IH]; intros m; cbn [foldl]; rewrite ?key_weight_cons.
  - rewrite decide_False by (cbn; set_solver). by destruct (m !! k).
  - rewrite IH. clear IH Hr. unfold merge_step. rewrite fmap_cons.
    destruct (decide (key b = k)) as [<-|Hne].
    + assert (key b ∈ key b :: (key <$> l)) as Hin by constructor.
      destruct (m !! key b) as [e|]; rewrite lookup_insert_eq, (decide_True _ _ Hin);
        cbn [be_Weight set_Weight]; f_equal.
      * case_decide as Hk; [by rewrite wrap_add_l, Z.add_assoc by done|].
        f_equal. rewrite (key_weight_nil _ _ Hk). lia.
      * case_decide as Hk; [done|]. rewrite (key_weight_nil _ _ Hk), Z.add_0_r.
        by rewrite wrap_id by (lia || apply Hb).
    + assert (k ∈ key b :: (key <$> l) ↔ k ∈ key <$> l) as Hiff
        by (rewrite elem_of_cons; naive_solver).
      destruct (m !! key b); rewrite lookup_insert_ne by done;
        destruct (m !! k); by rewrite (decide_ext _ _ _ _ Hiff).
Qed.
End merging.
