(* ===== verification/IPReplacement.v ===== *)
(** * IP replacement: internal/util/ip_replacement.go

    [ApplyIPReplacement] rewrites a node address by the first rule that
    matches it; a network rule keeps the host part of the address and moves it
    to the target network. *)
From S2P Require Export GoNetFacts GoNetRoundtrip Config.
From Stdlib Require Import Lia.
Local Open Scope Z_scope.

(** ** Definitions *)

(** [fmt.Sprintf("%s/%d", netIP, mask)]. *)
Definition cidr (netIP : string) (mask : Z) : string := netIP +:+ "/" +:+ fmt_d mask.

Definition isIPInNet (ip netIP : string) (mask : Z) : bool :=
  match ParseIP ip with
  | None => false
  | Some parsedIP =>
      match ParseCIDR (cidr netIP mask) with
      | None => false
      | Some (_, cidrNet) => Contains cidrNet parsedIP
      end
  end.

(** The two loops of [replaceInNet] over the bytes of the address:
    [host[i] = ip[i] & ^mask[i]] and [result[i] = (dst[i] & mask[i]) | host[i]]. *)
Definition replace_host (ip mask : list Z) : list Z :=
  zip_with (λ x m, Z.land x (Z.lxor m 255)) ip mask.
Definition replace_bytes (ip dst mask : list Z) : list Z :=
  zip_with Z.lor (and_bytes dst mask) (replace_host ip mask).

Definition replaceInNet (ipStr sourceNetStr targetNetStr : string) (mask : Z) : string :=
  match ParseIP ipStr, ParseIP sourceNetStr, ParseIP targetNetStr with
  | Some ip, Some src, Some dst =>
      let fam :=
        match To4 ip, To4 src, To4 dst with
        | Some ip4, Some _, Some dst4 => Some (32, ip4, dst4)
        | _, _, _ =>
            match To16 ip, To16 src, To16 dst with
            | Some ip16, Some _, Some dst16 => Some (128, ip16, dst16)
            | _, _, _ => None
            end
        end in
      match fam with
      | None => ipStr
      | Some (totalBits, ip, dst) =>
          if (mask <? 0) || (totalBits <? mask) then ipStr else
          match CIDRMask mask totalBits with
          | None => ipStr
          | Some maskBytes =>
              if negb (bool_decide (length maskBytes = length ip)) ||
                 negb (bool_decide (length dst = length ip)) then ipStr else
              IP_String (replace_bytes ip dst maskBytes)
          end
      end
  | _, _, _ => ipStr
  end.

(** The bodies of the four groups of loops. *)
Definition replace_ip (nodeIP : string) (ip : IPConfig) : option string :=
  if bool_decide (ic_Source ip = nodeIP) then Some (ic_Target ip) else None.
Definition replace_net (nodeIP : string) (n : NetConfig) : option string :=
  if isIPInNet nodeIP (nc_Source n) (nc_Mask n)
  then Some (replaceInNet nodeIP (nc_Source n) (nc_Target n) (nc_Mask n)) else None.

Definition ApplyIPReplacement (nodeIP : string) (lbConfig : LoadBalancerConfig)
    (globalList : GlobalIPReplacementList) : string :=
  let replacementList := GetIPReplacementList lbConfig in
  match first_some (replace_ip nodeIP) (rl_IPs replacementList) with
  | Some r => r
  | None =>
  match first_some (λ name,
          first_some (λ g, if bool_decide (gi_Name g = name)
                           then first_some (replace_ip nodeIP) (gi_IPs g) else None)
            (gl_IP globalList)) (rl_GlobalIPs replacementList) with
  | Some r => r
  | None =>
  match first_some (replace_net nodeIP) (rl_Nets replacementList) with
  | Some r => r
  | None =>
  match first_some (λ name,
          first_some (λ g, if bool_decide (gn_Name g = name)
                           then first_some (replace_net nodeIP) (gn_Nets g) else None)
            (gl_Net globalList)) (rl_GlobalNets replacementList) with
  | Some r => r
  | None => nodeIP
  end end end end.

(** ** Reference specification: one ordered list of rules *)

Inductive rule := RuleIP (ip : IPConfig) | RuleNet (net : NetConfig).

Definition apply_rule (nodeIP : string) (r : rule) : option string :=
  match r with RuleIP ip => replace_ip nodeIP ip | RuleNet n => replace_net nodeIP n end.

(** The groups of a global list a reference names, in the order of the list. *)
Definition global_ips (g : GlobalIPReplacementList) (name : string) : list IPConfig :=
  List.filter (λ x, bool_decide (gi_Name x = name)) (gl_IP g) ≫= gi_IPs.
Definition global_nets (g : GlobalIPReplacementList) (name : string) : list NetConfig :=
  List.filter (λ x, bool_decide (gn_Name x = name)) (gl_Net g) ≫= gn_Nets.

(** The rules a load balancer uses, in the order they are tried. *)
Definition rules_of (l : IPReplacementList) (g : GlobalIPReplacementList) : list rule :=
  (RuleIP <$> rl_IPs l) ++ (RuleIP <$> (rl_GlobalIPs l ≫= global_ips g)) ++
  (RuleNet <$> rl_Nets l) ++ (RuleNet <$> (rl_GlobalNets l ≫= global_nets g)).

(** ** Specification on values *)

(** A network rule on values: the high [k] bits of the target and the low
    [bits - k] bits of the address. *)
Definition replace_value (bits k dst ip : Z) : Z :=
  dst / 2 ^ (bits - k) * 2 ^ (bits - k) + ip mod 2 ^ (bits - k).

(** The number of leading bits of a 16-byte address a prefix of [mask] bits
    covers: an IPv4 address has 96 bits before it. *)
Definition family_bits (ip src dst : list Z) : Z :=
  match To4 ip, To4 src, To4 dst with Some _, Some _, Some _ => 32 | _, _, _ => 128 end.

(** ** Facts *)

Lemma lxor_255_testbit m i : 0 <= i → Z.testbit (Z.lxor m 255) i =
  xorb (Z.testbit m i) (i <? 8).
Proof.
  intros Hi. rewrite Z.lxor_spec. f_equal. change 255 with (Z.ones 8).
  rewrite Z.testbit_ones by lia.
  destruct (Z.leb_spec 0 i); [done|lia].
Qed.

Lemma replace_host_ok ip m : bytes_ok ip → bytes_ok m → bytes_ok (replace_host ip m).
Proof.
  intros Hip Hm. apply (zip_bytes_ok _); [|done..].
  intros a b Ha Hb. apply land_ok; [done|]. apply lxor_ok; [done|]. split; lia.
Qed.

(** The complement of a byte mask, taken on the bits of a byte. *)
Definition diff_byte (x m : Z) : Z := Z.land x (Z.lxor m 255).

Lemma diff_byte_ldiff x m : byte_ok x → byte_ok m → diff_byte x m = Z.ldiff x m.
Proof.
  intros Hx Hm. apply Z.bits_inj'. intros i Hi. unfold diff_byte.
  rewrite Z.land_spec, lxor_255_testbit, Z.ldiff_spec by done.
  destruct (Z.ltb_spec i 8).
  - by rewrite xorb_true_r.
  - by rewrite (byte_ok_testbit x) by done.
Qed.

Lemma replace_host_ldiff ip m : bytes_ok ip → bytes_ok m →
  replace_host ip m = zip_with Z.ldiff ip m.
Proof.
  intros Hip. revert m. induction Hip as [|x ip Hx Hip IH]; intros [|y m] Hm; try done.
  inversion Hm; subst. cbn. rewrite <- IH by done. f_equal. by apply diff_byte_ldiff.
Qed.

Lemma ldiff_ok a b : byte_ok a → byte_ok b → byte_ok (Z.ldiff a b).
Proof.
  intros Ha Hb. rewrite <- diff_byte_ldiff by done. apply land_ok; [done|].
  apply lxor_ok; [done|]. split; lia.
Qed.

Lemma replace_bytes_ok ip dst m : bytes_ok ip → bytes_ok dst → bytes_ok m →
  bytes_ok (replace_bytes ip dst m).
Proof.
  intros. apply (zip_bytes_ok _ lor_ok); [by apply (zip_bytes_ok _ land_ok)|].
  by apply replace_host_ok.
Qed.

Lemma length_replace_bytes ip dst m : length dst = length ip → length m = length ip →
  length (replace_bytes ip dst m) = length ip.
Proof.
  intros. unfold replace_bytes, replace_host, and_bytes. rewrite !length_zip_with. lia.
Qed.

(** The byte-wise loops compute [replace_value]. *)
Lemma replace_bytes_value ip dst k :
  bytes_ok ip → bytes_ok dst → length dst = length ip →
  0 <= k <= 8 * Z.of_nat (length ip) →
  bytes_val (replace_bytes ip dst (CIDRMask_go (length ip) k)) =
  replace_value (8 * Z.of_nat (length ip)) k (bytes_val dst) (bytes_val ip).
Proof.
  intros Hip Hdst Hl Hk. set (m := CIDRMask_go (length ip) k).
  assert (Hm : bytes_ok m) by (apply mask_bytes_ok; lia).
  assert (Hlm : length m = length ip) by apply length_CIDRMask_go.
  apply Z.bits_inj'. intros i Hi. unfold replace_bytes, and_bytes.
  rewrite replace_host_ldiff by done.
  rewrite (zip_bytes_testbit Z.lor orb Z.lor_spec); auto using lor_ok;
    [|by apply (zip_bytes_ok _ land_ok)|by apply (zip_bytes_ok _ ldiff_ok)
     |rewrite !length_zip_with; lia].
  rewrite (zip_bytes_testbit Z.land andb Z.land_spec) by (auto using land_ok; lia).
  rewrite (zip_bytes_testbit Z.ldiff (λ a b, a && negb b) Z.ldiff_spec)
    by (auto using ldiff_ok; lia).
  unfold m. rewrite mask_testbit by lia. unfold replace_value.
  set (N := 8 * Z.of_nat (length ip)) in *.
  pose proof (bytes_val_bound ip Hip) as Hbi. pose proof (bytes_val_bound dst Hdst) as Hbd.
  rewrite Hl in Hbd. fold N in Hbi, Hbd.
  rewrite testbit_split by (try lia; apply Z.mod_pos_bound, Z.pow_pos_nonneg; lia).
  destruct (Z.ltb_spec i (N - k)).
  - rewrite Z.mod_pow2_bits_low by lia. destruct (Z.leb_spec (N - k) i); [lia|].
    cbn. by rewrite andb_false_r, andb_true_r.
  - rewrite Z.div_pow2_bits by lia. replace (i - (N - k) + (N - k)) with i by lia.
    destruct (Z.leb_spec (N - k) i); [|lia]. destruct (Z.ltb_spec i N); cbn.
    + by rewrite andb_true_r, andb_false_r, orb_false_r.
    + by rewrite andb_false_r, andb_true_r, !(testbit_high _ N) by lia.
Qed.

(** ** The functional specification of [replaceInNet] *)

Lemma bytes_val_app a b : bytes_val (a ++ b) = bytes_val a * 2 ^ (8 * Z.of_nat (length b)) + bytes_val b.
Proof. unfold bytes_val at 1. rewrite foldl_app. apply foldl_bytes. Qed.

Lemma bytes_val_inj a b : length a = length b → bytes_ok a → bytes_ok b →
  bytes_val a = bytes_val b → a = b.
Proof.
  revert b. induction a as [|x a IH]; intros [|y b] Hl Ha Hb E; try done.
  inversion Ha; inversion Hb; subst. rewrite !bytes_val_cons in E.
  injection Hl as Hl. rewrite Hl in E.
  pose proof (bytes_val_bound a ltac:(done)) as Hba. pose proof (bytes_val_bound b ltac:(done)) as Hbb.
  rewrite Hl in Hba. set (B := 2 ^ (8 * Z.of_nat (length b))) in *.
  assert (x = y) as -> by nia. f_equal. apply IH; try done. lia.
Qed.

Lemma To4_16 ip ip4 : length ip = 16%nat → To4 ip = Some ip4 → ip = v4InV6Prefix ++ ip4.
Proof. intros Hl H. apply To4_spec in H as [H4 [->| ->]]; [lia|done]. Qed.

(** Moving an IPv4 prefix is moving the prefix 96 bits longer. *)
Lemma replace_value_v4 P k d x : 0 <= k <= 32 ->
  P * 2 ^ 32 + replace_value 32 k d x = replace_value 128 (96 + k) (P * 2 ^ 32 + d) (P * 2 ^ 32 + x).
Proof.
  intros Hk. unfold replace_value. replace (128 - (96 + k)) with (32 - k) by lia.
  set (B := 2 ^ (32 - k)). assert (0 < B) by (apply Z.pow_pos_nonneg; lia).
  assert (2 ^ 32 = 2 ^ k * B) as -> by (unfold B; rewrite <- Z.pow_add_r by lia; f_equal; lia).
  replace (P * (2 ^ k * B) + d) with (d + (P * 2 ^ k) * B) by lia.
  replace (P * (2 ^ k * B) + x) with (x + (P * 2 ^ k) * B) by lia.
  rewrite Z.div_add, Z_mod_plus_full by lia. lia.
Qed.

Lemma replaceInNet_value ipStr srcStr dstStr mask ip src dst :
  ParseIP ipStr = Some ip → ParseIP srcStr = Some src → ParseIP dstStr = Some dst →
  let bits := family_bits ip src dst in
  0 <= mask <= bits →
  ∃ r, length r = 16%nat ∧ bytes_ok r ∧ ParseIP (replaceInNet ipStr srcStr dstStr mask) = Some r ∧
    bytes_val r = replace_value 128 (128 - bits + mask) (bytes_val dst) (bytes_val ip) ∧
    (bits = 32 ∨ bits = 128) ∧ (replaceInNet ipStr srcStr dstStr mask = IP_String r).
Proof.
  intros Hip Hsrc Hdst bits Hm. unfold replaceInNet. rewrite Hip, Hsrc, Hdst.
  apply ParseIP_ok in Hip as [Hipo Hipl], Hsrc as [Hsrco Hsrcl], Hdst as [Hdsto Hdstl].
  assert (Hl : bits = 128 → 0 <= mask <= 128 → 
    ∃ r, length r = 16%nat ∧ bytes_ok r ∧
    ParseIP (IP_String (replace_bytes ip dst (CIDRMask_go 16 mask))) = Some r ∧
    bytes_val r = replace_value 128 (128 - bits + mask) (bytes_val dst) (bytes_val ip) ∧
    (bits = 32 ∨ bits = 128) ∧ IP_String (replace_bytes ip dst (CIDRMask_go 16 mask)) = IP_String r).
  { intros Hb Hm'. exists (replace_bytes ip dst (CIDRMask_go 16 mask)).
    assert (length (replace_bytes ip dst (CIDRMask_go 16 mask)) = 16%nat) as Hrl
      by (rewrite length_replace_bytes; rewrite ?length_CIDRMask_go; lia).
    assert (bytes_ok (replace_bytes ip dst (CIDRMask_go 16 mask))) as Hro
      by (apply replace_bytes_ok; try done; apply mask_bytes_ok; lia).
    split_and!; try done; [by apply ParseIP_String| |by right].
    rewrite Hb. pose proof (replace_bytes_value ip dst mask) as Hv. rewrite Hipl in Hv.
    rewrite Hv by (done || lia). f_equal; lia. }
  unfold family_bits in bits. destruct (To4 ip) as [ip4|] eqn:H4, (To4 src) as [src4|] eqn:Hs4,
    (To4 dst) as [dst4|] eqn:Hd4; unfold bits in *.
  2-8: unfold To16; rewrite Hipl, Hsrcl, Hdstl; cbn [bool_decide];
    rewrite !(bool_decide_false (16 = 4)%nat), !(bool_decide_true (16 = 16)%nat) by done;
    destruct (Z.ltb_spec mask 0), (Z.ltb_spec 128 mask); try lia; cbn [orb];
    rewrite CIDRMask_128 by lia; rewrite !bool_decide_true by (rewrite ?length_CIDRMask_go; lia);
    cbn [negb orb]; by apply Hl.
  clear Hl. apply To4_16 in H4 as Hip', Hd4 as Hd'; try done.
  apply To4_spec in H4 as [H4 _], Hd4 as [Hd4 _]. subst ip dst.
  apply Forall_app in Hipo as [_ Hipo], Hdsto as [_ Hdsto].
  destruct (Z.ltb_spec mask 0), (Z.ltb_spec 32 mask); try lia. cbn [orb].
  rewrite CIDRMask_32 by lia. rewrite !bool_decide_true by (rewrite ?length_CIDRMask_go; lia).
  cbn [negb orb]. set (r := replace_bytes _ _ _).
  assert (length r = 4%nat) as Hrl
    by (unfold r; rewrite length_replace_bytes; rewrite ?length_CIDRMask_go; lia).
  assert (bytes_ok r) as Hro
    by (unfold r; apply replace_bytes_ok; try done; apply mask_bytes_ok; lia).
  exists (v4InV6Prefix ++ r). split_and!; try (by left).
  - by rewrite length_app, Hrl.
  - apply Forall_app. split; [|done]. repeat (constructor; [split; lia|]). constructor.
  - by apply ParseIP_String4.
  - rewrite !bytes_val_app. unfold r at 2. rewrite Hrl, H4, Hd4.
    pose proof (replace_bytes_value ip4 dst4 mask) as Hv. rewrite H4 in Hv.
    rewrite Hv by (done || lia). change (8 * Z.of_nat 4) with 32.
    rewrite replace_value_v4 by lia. f_equal; lia.
  - unfold IP_String. by rewrite To4_v4in6, To4_4.
Qed.

(** The network number is the value of the leading bits. *)
Lemma and_mask_value b k : bytes_ok b → 0 <= k <= 8 * Z.of_nat (length b) →
  let h := 8 * Z.of_nat (length b) - k in
  bytes_val (and_bytes b (CIDRMask_go (length b) k)) = bytes_val b / 2 ^ h * 2 ^ h.
Proof.
  intros Hb Hk h. apply Z.bits_inj'. intros i Hi. unfold and_bytes.
  pose proof (bytes_val_bound b Hb) as Hbd.
  rewrite (zip_bytes_testbit Z.land andb Z.land_spec)
    by (auto using land_ok; (apply mask_bytes_ok; lia) || (rewrite length_CIDRMask_go; lia)).
  rewrite mask_testbit by lia. fold h. rewrite <- Z.shiftl_mul_pow2, <- Z.shiftr_div_pow2 by lia.
  rewrite Z.shiftl_spec by lia. destruct (Z.leb_spec h i).
  - rewrite Z.shiftr_spec by lia. replace (i - h + h) with i by lia. cbn [andb].
    destruct (Z.ltb_spec i (8 * Z.of_nat (length b))); [by rewrite andb_true_r|].
    by rewrite (testbit_high _ (8 * Z.of_nat (length b))) by lia.
  - cbn [andb]. rewrite andb_false_r, Z.testbit_neg_r by lia. done.
Qed.

Lemma As16_v4_val b : length b = 4%nat →
  bytes_val (As16 (Addr4 b)) = bytes_val v4InV6Prefix * 2 ^ 32 + bytes_val b.
Proof. intros Hb. unfold As16. by rewrite bytes_val_app, Hb. Qed.

Lemma div_add_high A x h : 0 <= h <= 32 →
  (A * 2 ^ 32 + x) / 2 ^ h = A * 2 ^ (32 - h) + x / 2 ^ h.
Proof.
  intros Hh. assert (2 ^ 32 = 2 ^ (32 - h) * 2 ^ h) as ->
    by (rewrite <- Z.pow_add_r by lia; f_equal; lia).
  rewrite Z.add_comm, Z.mul_assoc, Z.div_add by (apply Z.pow_nonzero; lia). lia.
Qed.

Lemma div_high_eq A B x y h : 0 <= h <= 32 → 0 <= x < 2 ^ 32 → 0 <= y < 2 ^ 32 →
  (A * 2 ^ 32 + x) / 2 ^ h = (B * 2 ^ 32 + y) / 2 ^ h → A = B.
Proof.
  intros Hh Hx Hy E. rewrite !div_add_high in E by done.
  assert (2 ^ 32 = 2 ^ h * 2 ^ (32 - h)) as H32
    by (rewrite <- Z.pow_add_r by lia; f_equal; lia). rewrite H32 in Hx, Hy.
  assert (0 < 2 ^ h) by (apply Z.pow_pos_nonneg; lia).
  assert (0 <= x / 2 ^ h < 2 ^ (32 - h)) by (split; [apply Z.div_pos|apply Z.div_lt_upper_bound]; lia).
  assert (0 <= y / 2 ^ h < 2 ^ (32 - h)) by (split; [apply Z.div_pos|apply Z.div_lt_upper_bound]; lia).
  nia.
Qed.

Lemma prefix_value_eq p b k : length p = 4%nat → length b = 4%nat → bytes_ok p → bytes_ok b →
  0 <= k <= 32 →
  and_bytes p (CIDRMask_go 4 k) = and_bytes b (CIDRMask_go 4 k) ↔
  bytes_val (v4InV6Prefix ++ p) / 2 ^ (32 - k) = bytes_val (As16 (Addr4 b)) / 2 ^ (32 - k).
Proof.
  intros Hp Hb Hpo Hbo Hk. pose proof (and_mask_value p k Hpo) as Ep.
  pose proof (and_mask_value b k Hbo) as Eb. rewrite Hp in Ep. rewrite Hb in Eb.
  cbv zeta in Ep, Eb. change (8 * Z.of_nat 4) with 32 in *. specialize (Ep Hk). specialize (Eb Hk).
  unfold As16. rewrite !bytes_val_app, Hp, Hb. change (8 * Z.of_nat 4) with 32.
  rewrite !div_add_high by lia.
  assert (0 < 2 ^ (32 - k)) by (apply Z.pow_pos_nonneg; lia). split; intros E.
  - rewrite E, Eb in Ep. f_equal. apply Z.mul_cancel_r in Ep; lia.
  - apply bytes_val_inj.
    + rewrite !length_and_bytes; rewrite ?length_CIDRMask_go; lia.
    + apply (zip_bytes_ok _ land_ok); [done|apply mask_bytes_ok; lia].
    + apply (zip_bytes_ok _ land_ok); [done|apply mask_bytes_ok; lia].
    + rewrite Ep, Eb. f_equal. lia.
Qed.

(** An address with the leading bits of an IPv4 network is an IPv4 address. *)
Lemma prefix_v4 ip b k : length ip = 16%nat → bytes_ok ip → length b = 4%nat → bytes_ok b →
  0 <= k <= 32 →
  bytes_val ip / 2 ^ (32 - k) = bytes_val (As16 (Addr4 b)) / 2 ^ (32 - k) →
  ∃ p, ip = v4InV6Prefix ++ p ∧ length p = 4%nat.
Proof.
  intros Hil Hio Hb Hbo Hk E. exists (drop 12 ip).
  assert (length (drop 12 ip) = 4%nat) as Hd by (rewrite length_drop; lia). split; [|done].
  rewrite <- (take_drop 12 ip) at 1. f_equal.
  apply bytes_val_inj; [rewrite length_take, Hil; done|by apply Forall_take| |].
  { repeat (constructor; [split; lia|]). constructor. }
  rewrite <- (take_drop 12 ip), As16_v4_val, bytes_val_app, Hd in E by done.
  pose proof (bytes_val_bound (drop 12 ip) (Forall_drop _ _ _ Hio)) as Hdb.
  pose proof (bytes_val_bound b Hbo) as Hbb. rewrite Hb in Hbb. rewrite Hd in Hdb.
  eapply div_high_eq; [|exact Hdb|exact Hbb|exact E]. lia.
Qed.

(** An address is in an IPv4 network when it has its leading bits. *)
Lemma isIPInNet_v4 ipStr netStr mask b : ParseAddr netStr = Some (Addr4 b) →
  isIPInNet ipStr netStr mask = true ↔
  0 <= mask <= 32 ∧ ∃ ip, ParseIP ipStr = Some ip ∧
    bytes_val ip / 2 ^ (32 - mask) = bytes_val (As16 (Addr4 b)) / 2 ^ (32 - mask).
Proof.
  intros Ha. unfold isIPInNet, cidr, fmt_d. rewrite (ParseCIDR_v4 _ _ _ Ha).
  apply ParseAddr_v4, parseIPv4Fields_ok in Ha as [Hbo Hb].
  destruct (ParseIP ipStr) as [ip|] eqn:Hip; [|split; [done|by intros (_ & ? & ? & _)]].
  apply ParseIP_ok in Hip as [Hio Hil].
  destruct (Z.leb_spec 0 mask), (Z.leb_spec mask 32); cbn [andb];
    try (split; [done|intros [? _]; lia]).
  rewrite Contains_spec by (by apply shape_v4). rewrite length_and_bytes, Hb
    by (rewrite length_CIDRMask_go; done).
  split.
  - intros [Hn E]. split; [done|]. exists ip. split; [done|].
    assert (∃ p, To4 ip = Some p) as [p Hp].
    { unfold norm in Hn. destruct (To4 ip); [eauto|]. cbn in Hn. lia. }
    unfold norm in E. rewrite Hp in E. cbn [default from_option id] in E.
    apply To4_16 in Hp as ->; [|done]. apply Forall_app in Hio as [_ Hpo].
    rewrite length_app in Hil. assert (length p = 4%nat) as Hpl by (cbn in Hil; lia).
    by apply prefix_value_eq.
  - intros [_ (ip' & [= <-] & E)].
    destruct (prefix_v4 ip b mask) as (p & -> & Hp); try done.
    apply Forall_app in Hio as [_ Hio].
    unfold norm. rewrite To4_v4in6 by done. cbn [default from_option id].
    split; [done|]. by apply prefix_value_eq.
Qed.

Lemma family_bits_v4 p s d : length p = 4%nat → length s = 4%nat → length d = 4%nat →
  family_bits (v4InV6Prefix ++ p) (As16 (Addr4 s)) (As16 (Addr4 d)) = 32.
Proof. intros. unfold family_bits, As16. by rewrite !To4_v4in6. Qed.

(** Values with the same leading bits are exchanged and exchanged back. *)
Lemma replace_value_high bits k d x : 0 <= bits - k →
  replace_value bits k d x / 2 ^ (bits - k) = d / 2 ^ (bits - k).
Proof.
  intros H. unfold replace_value. assert (0 < 2 ^ (bits - k)) by (apply Z.pow_pos_nonneg; lia).
  rewrite Z.add_comm, Z.div_add, (Z.div_small (_ mod _)); [lia|apply Z.mod_pos_bound; lia|lia].
Qed.
Lemma replace_value_back bits k s d x : 0 <= bits - k →
  x / 2 ^ (bits - k) = s / 2 ^ (bits - k) →
  replace_value bits k s (replace_value bits k d x) = x.
Proof.
  intros H E. unfold replace_value. assert (0 < 2 ^ (bits - k)) by (apply Z.pow_pos_nonneg; lia).
  rewrite Z.add_comm with (n := d / _ * _), Z_mod_plus_full, Z.mod_mod, <- E by lia.
  pose proof (Z.div_mod x (2 ^ (bits - k))). lia.
Qed.

Lemma apply_first (nodeIP : string) (lb : LoadBalancerConfig)
    (g : GlobalIPReplacementList) :
  ApplyIPReplacement nodeIP lb g =
  default nodeIP (first_some (apply_rule nodeIP) (rules_of (GetIPReplacementList lb) g)).
Proof.
  unfold ApplyIPReplacement, rules_of. set (l := GetIPReplacementList lb).
  rewrite !first_some_app, !first_some_fmap, !first_some_bind. cbn [apply_rule].
  unfold global_ips, global_nets.
  rewrite (first_some_ext (λ x, first_some (replace_ip nodeIP)
    (List.filter (λ g, bool_decide (gi_Name g = x)) (gl_IP g) ≫= gi_IPs))
    (λ name, first_some (λ g, if bool_decide (gi_Name g = name)
        then first_some (replace_ip nodeIP) (gi_IPs g) else None) (gl_IP g)))
    by (intros x _; by rewrite first_some_bind, <- first_some_filter).
  rewrite (first_some_ext (λ x, first_some (replace_net nodeIP)
    (List.filter (λ g, bool_decide (gn_Name g = x)) (gl_Net g) ≫= gn_Nets))
    (λ name, first_some (λ g, if bool_decide (gn_Name g = name)
        then first_some (replace_net nodeIP) (gn_Nets g) else None) (gl_Net g)))
    by (intros x _; by rewrite first_some_bind, <- first_some_filter).
  by repeat case_match.
Qed.

(** A mask that does not fit the family leaves the address as it is. *)
Lemma replaceInNet_unchanged ipStr srcStr dstStr mask ip src dst :
  ParseIP ipStr = Some ip → ParseIP srcStr = Some src → ParseIP dstStr = Some dst →
  ¬ (0 <= mask <= family_bits ip src dst) →
  replaceInNet ipStr srcStr dstStr mask = ipStr.
Proof.
  intros Hi Hs Hd Hm. unfold replaceInNet. rewrite Hi, Hs, Hd.
  apply ParseIP_ok in Hi as [_ Hi], Hs as [_ Hs], Hd as [_ Hd].
  assert ((mask <? 0) || (family_bits ip src dst <? mask) = true) as Hout.
  { apply orb_true_iff. rewrite !Z.ltb_lt. lia. }
  unfold family_bits in Hout. unfold To16. rewrite Hi, Hs, Hd.
  rewrite !(bool_decide_false (16 = 4)%nat), !(bool_decide_true (16 = 16)%nat) by done.
  destruct (To4 ip), (To4 src), (To4 dst); by rewrite Hout.
Qed.

Lemma replaceInNet_valid ipStr srcStr dstStr mask :
  is_Some (ParseIP ipStr) → is_Some (ParseIP (replaceInNet ipStr srcStr dstStr mask)).
Proof.
  intros Hv. destruct (ParseIP ipStr) as [ip|] eqn:Hi; [|by destruct Hv].
  destruct (ParseIP srcStr) as [src|] eqn:Hs; [|unfold replaceInNet; by rewrite Hi, Hs, Hi].
  destruct (ParseIP dstStr) as [dst|] eqn:Hd; [|unfold replaceInNet; by rewrite Hi, Hs, Hd, Hi].
  destruct (decide (0 <= mask <= family_bits ip src dst)) as [Hm|Hm].
  - by destruct (replaceInNet_value _ _ _ mask _ _ _ Hi Hs Hd Hm) as (r & _ & _ & -> & _).
  - by rewrite (replaceInNet_unchanged _ _ _ _ _ _ _ Hi Hs Hd Hm), Hi.
Qed.

(** ** Properties *)

(** [replaceInNet] computes on address values: when the three addresses
    parse and the mask fits their family, the result is a valid address that
    has the leading bits of the target and the trailing bits of the node
    address; in every other case the node address is returned unchanged. *)
Theorem replaceInNet_spec (ipStr srcStr dstStr : string) (mask : Z) :
  match ParseIP ipStr, ParseIP srcStr, ParseIP dstStr with
  | Some ip, Some src, Some dst =>
      let bits := family_bits ip src dst in
      if (0 <=? mask) && (mask <=? bits)
      then ∃ r, ParseIP (replaceInNet ipStr srcStr dstStr mask) = Some r ∧
                replaceInNet ipStr srcStr dstStr mask = IP_String r ∧
                bytes_val r = replace_value 128 (128 - bits + mask) (bytes_val dst) (bytes_val ip)
      else replaceInNet ipStr srcStr dstStr mask = ipStr
  | _, _, _ => replaceInNet ipStr srcStr dstStr mask = ipStr
  end.
Proof.
  destruct (ParseIP ipStr) as [ip|] eqn:Hi; [|unfold replaceInNet; by rewrite Hi].
  destruct (ParseIP srcStr) as [src|] eqn:Hs; [|unfold replaceInNet; by rewrite Hi, Hs].
  destruct (ParseIP dstStr) as [dst|] eqn:Hd; [|unfold replaceInNet; by rewrite Hi, Hs, Hd].
  cbv zeta. destruct (_ && _) eqn:Hm.
  - apply andb_true_iff in Hm as [H1%Z.leb_le H2%Z.leb_le].
    destruct (replaceInNet_value _ _ _ mask _ _ _ Hi Hs Hd (conj H1 H2))
      as (r & _ & _ & ? & ? & _ & ?). eauto.
  - eapply replaceInNet_unchanged; [done..|]. intros [H1 H2].
    apply andb_false_iff in Hm as [H%Z.leb_gt|H%Z.leb_gt]; lia.
Qed.

(** C34. A rule between two IPv4 networks moves an address of the source
    network into the target network, and the rule taken backwards moves it
    back: no two addresses of the source network are confused. *)
Theorem replaceInNet_inverse (ipStr srcStr dstStr : string) (mask : Z) (s d : list Z) :
  ParseAddr srcStr = Some (Addr4 s) →
  ParseAddr dstStr = Some (Addr4 d) →
  isIPInNet ipStr srcStr mask = true →
  let moved := replaceInNet ipStr srcStr dstStr mask in
  isIPInNet moved dstStr mask = true ∧
  ∃ ip, ParseIP ipStr = Some ip ∧ replaceInNet moved dstStr srcStr mask = IP_String ip.
Proof.
  intros Hs Hd Hin. pose proof Hin as Hin'.
  apply (isIPInNet_v4 _ _ _ _ Hs) in Hin as [Hm (ip & Hip & E)].
  assert (ParseIP srcStr = Some (As16 (Addr4 s))) as Hps by (unfold ParseIP; by rewrite Hs).
  assert (ParseIP dstStr = Some (As16 (Addr4 d))) as Hpd by (unfold ParseIP; by rewrite Hd).
  pose proof (ParseAddr_v4 _ _ Hs) as Hs4. pose proof (ParseAddr_v4 _ _ Hd) as Hd4.
  apply parseIPv4Fields_ok in Hs4 as [Hso Hsl], Hd4 as [Hdo Hdl].
  pose proof (ParseIP_ok _ _ Hip) as [Hio Hil].
  destruct (prefix_v4 ip s mask) as (p & -> & Hp); try done. set (ip := v4InV6Prefix ++ p) in *.
  destruct (replaceInNet_value ipStr srcStr dstStr mask ip _ _ Hip Hps Hpd)
    as (r & Hrl & Hro & Hr & Vr & _ & Er).
  { unfold ip. rewrite family_bits_v4; done. }
  unfold ip in Vr. rewrite family_bits_v4 in Vr by done. fold ip in Vr.
  set (moved := replaceInNet ipStr srcStr dstStr mask) in *.
  replace (128 - 32 + mask) with (96 + mask) in Vr by lia.
  assert (128 - (96 + mask) = 32 - mask) as Eb by lia.
  assert (isIPInNet moved dstStr mask = true) as Hmv.
  { apply (isIPInNet_v4 _ _ _ _ Hd). split; [done|]. exists r. split; [done|].
    rewrite Vr, <- Eb. apply replace_value_high. lia. }
  split; [done|]. exists ip. split; [done|].
  apply (isIPInNet_v4 _ _ _ _ Hd) in Hmv as [_ (r' & Hr' & E')]. rewrite Hr in Hr'. injection Hr' as <-.
  destruct (prefix_v4 r d mask) as (q & -> & Hq); try done. set (r := v4InV6Prefix ++ q) in *.
  destruct (replaceInNet_value moved dstStr srcStr mask r _ _ Hr Hpd Hps)
    as (b & Hbl & Hbo & Hb & Vb & _ & ->).
  { unfold r. rewrite family_bits_v4; done. }
  f_equal. apply bytes_val_inj; [lia|done..|]. rewrite Vb. unfold r at 1. rewrite family_bits_v4 by done.
  replace (128 - 32 + mask) with (96 + mask) by lia. rewrite Vr. apply replace_value_back; [lia|].
  by rewrite Eb.
Qed.

Lemma replaceInNet_inverse_witness :
  ParseAddr "192.168.10.0" = Some (Addr4 [192; 168; 10; 0]) ∧
  isIPInNet "192.168.11.77" "192.168.10.0" 23 = true ∧
  isIPInNet "10.0.5.77" "10.0.4.0" 23 = true ∧
  ∃ ip, ParseIP "192.168.11.77" = Some ip ∧
    replaceInNet "10.0.5.77" "10.0.4.0" "192.168.10.0" 23 = IP_String ip.
Proof.
  split; [vm_compute; reflexivity|]. split; [vm_compute; reflexivity|].
  apply (replaceInNet_inverse "192.168.11.77" "192.168.10.0" "10.0.4.0" 23
    [192; 168; 10; 0] [10; 0; 4; 0]); vm_compute; reflexivity.
Defined.

(** [ApplyIPReplacement] tries one ordered list of rules - the address
    rules of the load balancer, then those of the global groups it names, then
    its network rules, then those of the global groups - and applies the first
    one that matches; without a match the address is unchanged. *)
Theorem ApplyIPReplacement_first_rule (nodeIP : string) (lb : LoadBalancerConfig)
    (g : GlobalIPReplacementList) :
  ApplyIPReplacement nodeIP lb g =
  default nodeIP (first_some (apply_rule nodeIP) (rules_of (GetIPReplacementList lb) g)).
Proof. apply apply_first. Qed.
