(* ===== verification/Validation.v ===== *)
(** * Validation helpers: internal/util/validation.go

    The predicates on addresses, host names, ports and networks, and
    [ValidateIPReplacementList]. *)
From S2P Require Export IPReplacement GoRegexp.
From Stdlib Require Import Lia.
Local Open Scope Z_scope.
Local Open Scope go_scope.

(** ** Definitions *)

Definition IsValidIP (ip : string) : bool := bool_decide (is_Some (ParseIP ip)).

Definition is_letter (c : ascii) : bool :=
  let b := byte c in (((97 <=? b) && (b <=? 122)) || ((65 <=? b) && (b <=? 90)))%N.
Definition is_alphanum (c : ascii) : bool :=
  let b := byte c in is_letter c || ((48 <=? b) && (b <=? 57))%N.
Definition is_alnum_hyphen (c : ascii) : bool := is_alphanum c || is_char c "-".

(** [^([a-zA-Z0-9]([a-zA-Z0-9\-]{0,61}[a-zA-Z0-9])?\.)+[a-zA-Z]{2,}$] *)
Definition label_re : re :=
  Seq (Cls is_alphanum) (Opt (Seq (UpTo 61 (Cls is_alnum_hyphen)) (Cls is_alphanum))).
Definition domainRegex : re :=
  Seq (Plus (Seq label_re (Cls (λ c, is_char c ".")))) (AtLeast 2 (Cls is_letter)).

Definition IsValidDomain (hostname : string) : bool :=
  if bool_decide (hostname = "") then false else MatchString domainRegex hostname.

Definition IsValidPort (port : Z) : bool := (1 <=? port) && (port <=? 65535).

Definition IsNetworkOverlap (ip1 : string) (mask1 : Z) (ip2 : string) (mask2 : Z) : bool :=
  match ParseCIDR (cidr ip1 mask1) with
  | None => false
  | Some (_, net1) =>
      match ParseCIDR (cidr ip2 mask2) with
      | None => false
      | Some (_, net2) =>
          Contains net1 (default [] (net_IP net2)) || Contains net2 (default [] (net_IP net1))
      end
  end.

(** [maxMask := 32; if parsedIP != nil && parsedIP.To4() == nil { maxMask = 128 }]. *)
Definition max_mask (source : string) : Z :=
  match ParseIP source with
  | Some ip => match To4 ip with None => 128 | Some _ => 32 end
  | None => 32
  end.

(** One network rule, checked against the others of [nets]. *)
Definition validate_net (invalid mask overlap : string) (nets : list NetConfig) (i : nat) (n : NetConfig)
    : option error :=
  fail_if negb (IsValidIP (nc_Source n)) || negb (IsValidIP (nc_Target n))
    with Errorf invalid [FStr (nc_Source n); FStr (nc_Target n)];;
  fail_if (nc_Mask n <? 0) || (max_mask (nc_Source n) <? nc_Mask n)
    with Errorf mask [FInt (max_mask (nc_Source n))];;
  for_eachi (λ j n2,
    if bool_decide (i = j) then None else
    fail_if IsNetworkOverlap (nc_Source n) (nc_Mask n) (nc_Source n2) (nc_Mask n2)
      with Errorf overlap [FStr (nc_Source n); FInt (nc_Mask n); FStr (nc_Source n2); FInt (nc_Mask n2)];;
    None) nets.

(** One address rule; [seen] is the map of the sources read before it. *)
Definition validate_ip (invalid unique : string) (more : list fmt_arg)
    (seen : gset string) (ip : IPConfig) : result (gset string) :=
  if negb (IsValidIP (ic_Source ip)) || negb (IsValidIP (ic_Target ip))
  then Err (Errorf invalid [FStr (ic_Source ip); FStr (ic_Target ip)])
  else if decide (ic_Source ip ∈ seen)
  then Err (Errorf unique (FStr (ic_Source ip) :: more))
  else Ok ({[ic_Source ip]} ∪ seen).

(** A reference to a global group that does not exist. *)
Definition validate_ref (missing : string) (names : list string) (name : string) : option error :=
  if decide (name ∈ (list_to_set names : gset string)) then None
  else Some (Errorf missing [FStr name]).

Definition ValidateIPReplacementList (l : IPReplacementList) (globalList : GlobalIPReplacementList)
    : option error :=
  on_err for_eachi (validate_net
    "invalid IP in nets: source=%s, target=%s" "nets.mask must be between 0 and %d"
    "nets.net source '%s/%d' and '%s/%d' must not overlap" (rl_Nets l)) (rl_Nets l) as (λ e, e);;
  on_err err_of (for_state (validate_ip
    "invalid IP in ips: source=%s, target=%s" "ips source '%s' must be unique" []) ∅ (rl_IPs l))
    as (λ e, e);;
  on_err for_each (validate_ref "global_nets '%s' does not exist in global_ip_replacement_list.net"
    (gn_Name <$> gl_Net globalList)) (rl_GlobalNets l) as (λ e, e);;
  for_each (validate_ref "global_ips '%s' does not exist in global_ip_replacement_list.ip"
    (gi_Name <$> gl_IP globalList)) (rl_GlobalIPs l).

(** ** Specifications *)

(** A label of a host name: letters, digits and hyphens, at most 63, with a
    letter or a digit at both ends. *)
Definition label_ok (l : string) : Prop :=
  str_forallb is_alnum_hyphen l = true ∧ (1 <= String.length l <= 63)%nat ∧
  (∃ c t, l = String c t ∧ is_alphanum c = true) ∧
  (∃ c t, l = t +:+ String c "" ∧ is_alphanum c = true).
Definition tld_ok (l : string) : Prop :=
  str_forallb is_letter l = true ∧ (2 <= String.length l)%nat.

(** Two network rules that no address can match both. *)
Definition nets_disjoint (n1 n2 : NetConfig) : Prop :=
  ∀ ip, isIPInNet ip (nc_Source n1) (nc_Mask n1) = true →
        isIPInNet ip (nc_Source n2) (nc_Mask n2) = false.

Definition net_ok (n : NetConfig) : Prop :=
  is_Some (ParseIP (nc_Source n)) ∧ is_Some (ParseIP (nc_Target n)) ∧
  0 <= nc_Mask n <= max_mask (nc_Source n).
Definition ip_ok (ip : IPConfig) : Prop :=
  is_Some (ParseIP (ic_Source ip)) ∧ is_Some (ParseIP (ic_Target ip)).

(** Distinct positions of the list are related by [R]. *)
Definition pairwise {A} (R : A → A → Prop) (l : list A) : Prop :=
  ∀ i j x y, i ≠ j → l !! i = Some x → l !! j = Some y → R x y.

Record replacement_list_ok (l : IPReplacementList) (g : GlobalIPReplacementList) : Prop := {
  rlo_nets : Forall net_ok (rl_Nets l);
  rlo_disjoint : pairwise nets_disjoint (rl_Nets l);
  rlo_ips : Forall ip_ok (rl_IPs l);
  rlo_sources : NoDup (ic_Source <$> rl_IPs l);
  rlo_global_nets : ∀ name, name ∈ rl_GlobalNets l → name ∈ gn_Name <$> gl_Net g;
  rlo_global_ips : ∀ name, name ∈ rl_GlobalIPs l → name ∈ gi_Name <$> gl_IP g
}.

(** ** Facts *)

Lemma IsValidIP_true s : IsValidIP s = true ↔ is_Some (ParseIP s).
Proof. apply bool_decide_eq_true. Qed.

Lemma ips_valid s t : negb (IsValidIP s) || negb (IsValidIP t) = false ↔
  is_Some (ParseIP s) ∧ is_Some (ParseIP t).
Proof. by rewrite orb_false_iff, !negb_false_iff, !IsValidIP_true. Qed.

(** [IsNetworkOverlap] decides whether some address matches both networks. *)
Lemma overlap_meet s1 m1 s2 m2 :
  IsNetworkOverlap s1 m1 s2 m2 = true ↔
  ∃ ip, isIPInNet ip s1 m1 = true ∧ isIPInNet ip s2 m2 = true.
Proof.
  unfold IsNetworkOverlap, isIPInNet.
  destruct (ParseCIDR (cidr s1 m1)) as [[a1 n1]|] eqn:E1;
    [|split; [done|intros (ip & H & _); by destruct (ParseIP ip)]].
  destruct (ParseCIDR (cidr s2 m2)) as [[a2 n2]|] eqn:E2;
    [|split; [done|intros (ip & _ & H); by destruct (ParseIP ip)]].
  destruct (ParseCIDR_shape _ _ _ E1) as (nn1 & k1 & S1).
  destruct (ParseCIDR_shape _ _ _ E2) as (nn2 & k2 & S2).
  split.
  - assert (∀ b, bytes_ok b ∧ (length b = 4%nat ∨ length b = 16%nat) →
      Contains n1 b = true → Contains n2 b = true →
      ∃ ip, match ParseIP ip with Some p => Contains n1 p | None => false end = true ∧
            match ParseIP ip with Some p => Contains n2 p | None => false end = true) as Hw.
    { intros b [Hok Hl] H1 H2. destruct (ParseIP_String_norm b Hok Hl) as (p & Hp & Hn).
      exists (IP_String b). rewrite Hp, (Contains_norm _ _ _ Hn), (Contains_norm n2 _ _ Hn). done. }
    destruct (ParseCIDR_ip _ _ _ E1) as (b1 & Hb1 & Hok1), (ParseCIDR_ip _ _ _ E2) as (b2 & Hb2 & Hok2).
    rewrite Hb1, Hb2. cbn [default from_option id].
    assert (∀ n nn k b, net_shape n nn k → net_IP n = Some b → Contains n b = true) as Hself.
    { intros n nn k b S Hb. apply (Contains_spec _ _ _ _ S).
      destruct S as [_ _ _ Hm Hip]. rewrite Hb in Hip. cbn in Hip. rewrite Hip. auto. }
    rewrite orb_true_iff. intros [H|H]; [apply (Hw b2)|apply (Hw b1)]; eauto.
  - intros (ip & H1 & H2). destruct (ParseIP ip) as [p|]; [|done].
    apply (nets_meet _ _ _ _ _ _ S1 S2). eauto.
Qed.

Lemma overlap_disjoint n1 n2 :
  IsNetworkOverlap (nc_Source n1) (nc_Mask n1) (nc_Source n2) (nc_Mask n2) = false ↔
  nets_disjoint n1 n2.
Proof.
  rewrite <- not_true_iff_false, overlap_meet. unfold nets_disjoint. split.
  - intros H ip H1. apply not_true_iff_false. intros H2. apply H. eauto.
  - intros H (ip & H1 & H2). rewrite (H ip H1) in H2. done.
Qed.

Lemma validate_net_None a b c nets i n :
  validate_net a b c nets i n = None ↔
  net_ok n ∧ ∀ j n2, i ≠ j → nets !! j = Some n2 → nets_disjoint n n2.
Proof.
  unfold validate_net, net_ok. rewrite !fail_if_None, ips_valid, for_eachi_from_None.
  rewrite orb_false_iff, Z.ltb_ge, Z.ltb_ge. cbn [Nat.add].
  assert (∀ j n2, (if bool_decide (i = j) then None else
      if IsNetworkOverlap (nc_Source n) (nc_Mask n) (nc_Source n2) (nc_Mask n2)
      then Some (Errorf c [FStr (nc_Source n); FInt (nc_Mask n); FStr (nc_Source n2); FInt (nc_Mask n2)])
      else None) = None ↔ (i ≠ j → nets_disjoint n n2)) as Hj.
  { intros j n2. rewrite <- overlap_disjoint. case_bool_decide; [tauto|].
    rewrite fail_if_None. tauto. }
  setoid_rewrite Hj. naive_solver.
Qed.

Lemma validate_nets_None a b c nets :
  for_eachi (validate_net a b c nets) nets = None ↔
  Forall net_ok nets ∧ pairwise nets_disjoint nets.
Proof.
  rewrite for_eachi_from_None, Forall_lookup. cbn [Nat.add]. setoid_rewrite validate_net_None.
  unfold pairwise. split; [intros H; split|intros [H1 H2]].
  - intros i x Hx. by apply (H i x).
  - intros i j x y Hij Hx Hy. by apply (H i x Hx) with j.
  - intros i x Hx. split; [by apply (H1 i)|]. intros j y Hij Hy. by apply (H2 i j).
Qed.

Lemma validate_ip_Ok a b more s x s' :
  validate_ip a b more s x = Ok s' ↔ ip_ok x ∧ (ic_Source x ∉ s) ∧ s' = {[ic_Source x]} ∪ s.
Proof.
  unfold validate_ip, ip_ok. rewrite <- ips_valid.
  destruct (negb _ || negb _); [naive_solver|]. case_decide; naive_solver.
Qed.

Lemma validate_ips_None a b more l :
  err_of (for_state (validate_ip a b more) ∅ l) = None ↔ Forall ip_ok l ∧ NoDup (ic_Source <$> l).
Proof. apply for_state_seen_ok. apply validate_ip_Ok. Qed.

Lemma validate_refs_None m names l :
  for_each (validate_ref m names) l = None ↔ ∀ name, name ∈ l → name ∈ names.
Proof.
  rewrite for_each_None, list.Forall_forall. unfold validate_ref.
  split; intros H x Hx; specialize (H x Hx); case_decide as Hd; try done.
  - by apply elem_of_list_to_set in Hd.
  - destruct Hd. by apply elem_of_list_to_set.
Qed.

(** The labels of a name, read off the expression. *)
Lemma label_re_spec l : matches label_re l ↔ label_ok l.
Proof.
  unfold label_re, label_ok. rewrite matches_Seq. setoid_rewrite matches_Cls.
  setoid_rewrite matches_Opt. setoid_rewrite matches_Seq. setoid_rewrite matches_UpTo_Cls.
  setoid_rewrite matches_Cls.
  assert (∀ c, is_alphanum c = true → is_alnum_hyphen c = true) as Hin
    by (intros c Hc; unfold is_alnum_hyphen; by rewrite Hc).
  split.
  - intros (s1 & s2 & -> & (c & -> & Hc) & [->|(m & e & -> & [Hlm Hm] & (d & -> & Hd))]).
    + rewrite app_cons_s, app_nil_s. cbn. rewrite Hin by done. split_and!; try done; try lia.
      * by exists c, "".
      * by exists c, "".
    + rewrite app_cons_s, app_nil_s. cbn [str_forallb String.length].
      rewrite str_forallb_app, length_app_s, Hin, Hm by done. cbn. rewrite Hin by done.
      split_and!; try done; try lia; [by eexists _, _|]. exists d, (String c m). done.
  - intros (Hall & Hl & (c & t & -> & Hc) & (d & t' & E & Hd)).
    exists (String c ""), t. split; [done|]. split; [by exists c|].
    destruct t' as [|x t'].
    + rewrite app_nil_s in E. injection E as -> ->. by left.
    + rewrite app_cons_s in E. injection E as -> ->. right. exists t', (String d "").
      split; [done|]. split; [|by exists d]. cbn in Hall, Hl.
      rewrite str_forallb_app, length_app_s in *. cbn in *.
      apply andb_true_iff in Hall as [_ [Ht _]%andb_true_iff]. split; [lia|done].
Qed.

Lemma label_free l : label_ok l → str_free "." l = true.
Proof.
  intros [H _]. eapply str_forallb_impl, H. intros c Hc. apply negb_true_iff, is_char_false.
  intros ->. done.
Qed.
Lemma tld_free l : tld_ok l → str_free "." l = true.
Proof.
  intros [H _]. eapply str_forallb_impl, H. intros c Hc. apply negb_true_iff, is_char_false.
  intros ->. done.
Qed.

Lemma dotted_spec s tld : tld_ok tld →
  ∀ pre, matches (Star (Seq label_re (Cls (λ c, is_char c ".")))) pre → s = pre +:+ tld →
  ∃ labels, strings.Split s "." = labels ++ [tld] ∧ Forall label_ok labels.
Proof.
  intros Ht pre H. remember (Star _) as q eqn:Hq. revert s Hq.
  induction H as [| | | | | |r s1 s2 H1 _ H2 IH]; intros u Hu ->; try done; injection Hu as ->.
  - rewrite app_nil_s, Split_free by (by apply tld_free). by exists [].
  - destruct (IH (s2 +:+ tld) eq_refl eq_refl) as (labels & E & Hl).
    apply matches_Seq in H1 as (l & d & -> & Hlab%label_re_spec & (c & -> & ->%is_char_true)%matches_Cls).
    rewrite !app_assoc_s, app_cons_s, app_nil_s, Split_app, E by (by apply label_free).
    exists (l :: labels). split; [done|]. by constructor.
Qed.

Lemma undotted_spec tld labels : ∀ s,
  strings.Split s "." = labels ++ [tld] → Forall label_ok labels →
  ∃ pre, s = pre +:+ tld ∧ matches (Star (Seq label_re (Cls (λ c, is_char c ".")))) pre.
Proof.
  induction labels as [|l labels IH]; intros s E Hl.
  - apply Split_inv in E as [[_ ->]|(t & _ & _ & ?)]; [|done]. exists "". split; [done|constructor].
  - cbn in E. apply Split_inv in E as [[E _]|(t & -> & E & _)]; [by destruct labels|].
    inversion Hl; subst. destruct (IH t E) as (pre & -> & Hp); [done|].
    exists ((l +:+ ".") +:+ pre). split; [by rewrite !app_assoc_s|].
    constructor; [|done]. constructor; [by apply label_re_spec|]. by constructor.
Qed.

Lemma replacement_list_None l g : ValidateIPReplacementList l g = None ↔ replacement_list_ok l g.
Proof.
  unfold ValidateIPReplacementList. rewrite !on_err_None, validate_nets_None, validate_ips_None,
    !validate_refs_None.
  split; [intros ([? ?] & [? ?] & ? & ?); by split|intros []; auto].
Qed.

(** ** Properties *)

(** [IsValidDomain] accepts a host name exactly when its parts between
    dots are at least one label - letters, digits and hyphens, at most 63
    bytes, a letter or a digit at both ends - and then a top level domain of
    two letters or more. *)
Theorem IsValidDomain_spec (s : string) :
  IsValidDomain s = true ↔
  ∃ labels tld, strings.Split s "." = labels ++ [tld] ∧ labels ≠ [] ∧
    Forall label_ok labels ∧ tld_ok tld.
Proof.
  unfold IsValidDomain. case_bool_decide as Hs.
  { subst. split; [done|]. by intros ([|? [|]] & ? & [= ] & ? & _). }
  unfold domainRegex, Plus. rewrite MatchString_spec, matches_Seq. split.
  - intros (p & tld & -> & (s1 & s2 & -> & H1 & H2)%matches_Seq & Ht%matches_AtLeast_Cls).
    assert (tld_ok tld) as Htld by (split; [by destruct Ht|lia]).
    destruct (dotted_spec (s2 +:+ tld) tld Htld s2 H2 eq_refl) as (labels & E & Hl).
    apply matches_Seq in H1 as (l & d & -> & Hlab%label_re_spec & (c & -> & ->%is_char_true)%matches_Cls).
    exists (l :: labels), tld. rewrite !app_assoc_s, app_cons_s, app_nil_s, Split_app, E
      by (by apply label_free). split_and!; try done. by constructor.
  - intros ([|l labels] & tld & E & Hne & Hl & Ht); [done|].
    cbn in E. apply Split_inv in E as [[E _]|(t & -> & E & _)]; [by destruct labels|].
    inversion Hl; subst. destruct (undotted_spec tld labels t E) as (pre & -> & Hp); [done|].
    exists ((l +:+ ".") +:+ pre), tld. split; [by rewrite !app_assoc_s|]. split.
    + constructor; [|done]. constructor; [by apply label_re_spec|]. by constructor.
    + apply matches_AtLeast_Cls. destruct Ht. split; [lia|done].
Qed.

(** [IsNetworkOverlap] decides whether some address string is matched by
    both networks, for all strings and masks. *)
Theorem IsNetworkOverlap_spec (ip1 : string) (mask1 : Z) (ip2 : string) (mask2 : Z) :
  IsNetworkOverlap ip1 mask1 ip2 mask2 = true ↔
  ∃ ip, isIPInNet ip ip1 mask1 = true ∧ isIPInNet ip ip2 mask2 = true.
Proof. apply overlap_meet. Qed.

(** [ValidateIPReplacementList] returns no error exactly on the well formed
    lists: addresses parse, masks fit the family, no two networks share an
    address, no address has two rules, and every referenced group exists. *)
Theorem ValidateIPReplacementList_spec (l : IPReplacementList) (g : GlobalIPReplacementList) :
  ValidateIPReplacementList l g = None ↔ replacement_list_ok l g.
Proof. apply replacement_list_None. Qed.
