(* ===== verification/Validators.v ===== *)
(** * Configuration validators: internal/adapters/validator

    One [Validate] per validator, in the order the composite validator runs
    them, and the well-formedness they establish. *)
From S2P Require Export Validation GoURL.
From Stdlib Require Import Lia.
Local Open Scope Z_scope.
Local Open Scope go_scope.

(** ** validator.go *)


Definition GlobalConfigValidator (cfg : Config) : option error :=
  fail_if (cfg_RequestPoolSize cfg <? 1) || (100 <? cfg_RequestPoolSize cfg)
    with Errorf "request_pool_size must be between 1 and 100, got %d" [FInt (cfg_RequestPoolSize cfg)];;
  fail_if cfg_GlobalUpstreamSyncPeriod cfg <? 0
    with Errorf "global_upstream_sync_period must be non-negative" [];;
  on_err
    match cfg_DefaultBackend cfg with
    | None => None
    | Some db =>
        fail_if negb (IsValidIP (db_IP db))
          with Errorf "global default_backend: invalid IP: %s" [FStr (db_IP db)];;
        fail_if negb (IsValidPort (db_Port db))
          with Errorf "global default_backend: invalid port: %d" [FInt (db_Port db)];;
        None
    end as (λ e, e);;
  for_each (λ lb,
    fail_if (GetRequestPoolSize lb <? 1) || (100 <? GetRequestPoolSize lb)
      with Errorf "loadbalancer '%s': request_pool_size must be between 1 and 100, got: %d"
             [FStr (GetName lb); FInt (GetRequestPoolSize lb)];;
    fail_if GetRequestTimeOut lb <=? 0
      with Errorf "loadbalancer '%s': request_timeout must be non-negative, got: %d"
             [FStr (GetName lb); FInt (GetRequestTimeOut lb)];;
    None) (cfg_LoadBalancers cfg).

(** ** leader_election.go *)

Definition LeaderElectionValidator (cfg : Config) : option error :=
  let le := cfg_LeaderElection cfg in
  if negb (le_Enabled le) then None else
  fail_if bool_decide (le_LeaseName le = "")
    with Errorf "leader_election.lease_name is required when enabled" [];;
  fail_if bool_decide (le_LeaseNamespace le = "")
    with Errorf "leader_election.lease_namespace is required when enabled" [];;
  fail_if le_LeaseDuration le <=? 0
    with Errorf "leader_election.lease_duration must be positive" [];;
  fail_if le_RenewDeadline le <=? 0
    with Errorf "leader_election.renew_deadline must be positive" [];;
  fail_if le_RetryPeriod le <=? 0
    with Errorf "leader_election.retry_period must be positive" [];;
  fail_if le_LeaseDuration le <=? le_RenewDeadline le
    with Errorf "leader_election.lease_duration (%v) must be greater than renew_deadline (%v)"
           [FDur (le_LeaseDuration le); FDur (le_RenewDeadline le)];;
  fail_if le_RenewDeadline le <=? le_RetryPeriod le
    with Errorf "leader_election.renew_deadline (%v) must be greater than retry_period (%v)"
           [FDur (le_RenewDeadline le); FDur (le_RetryPeriod le)];;
  None.

(** ** log.go, metrics.go and kubernetes.go *)

Definition one_of (s : string) (l : list string) : bool := bool_decide (s ∈ l).

Definition LogValidator (cfg : Config) : option error :=
  if negb (log_Enabled (cfg_Log cfg)) then None else
  fail_if negb (one_of (strings.ToLower (log_Level (cfg_Log cfg)))
                  ["debug"; "info"; "warn"; "error"; "fatal"])
    with Errorf "log.level must be one of: debug, info, warn, error, fatal" [];;
  fail_if negb (one_of (strings.ToLower (log_Format (cfg_Log cfg))) ["json"; "console"])
    with Errorf "log.format must be one of: console, json" [];;
  None.

Definition MetricsValidator (cfg : Config) : option error :=
  if negb (mt_Enabled (cfg_Metrics cfg)) then None else
  fail_if (mt_Port (cfg_Metrics cfg) <? 0) || (65535 <? mt_Port (cfg_Metrics cfg))
    with Errorf "metrics.port must be between 0 and 65535" [];;
  fail_if bool_decide (mt_URI (cfg_Metrics cfg) = "")
    with Errorf "metrics.uri is required when enabled" [];;
  None.

Definition KubernetesValidator (cfg : Config) : option error :=
  fail_if kc_ResyncPeriod (cfg_Kubernetes cfg) <? 0
    with Errorf "kubernetes.resync_period must be non-negative" [];;
  None.

(** ** ip_replacement.go *)

(** One turn of the loops that require a name and its uniqueness. *)
Definition unique_name {A} (name : A → string) (required unique : string)
    (seen : gset string) (x : A) : result (gset string) :=
  if bool_decide (name x = "") then Err (Errorf required [])
  else if decide (name x ∈ seen) then Err (Errorf unique [FStr (name x)])
  else Ok ({[name x]} ∪ seen).

Definition GlobalIPReplacementValidator (cfg : Config) : option error :=
  let g := cfg_GlobalIPReplacementList cfg in
  match for_state (unique_name gn_Name
          "global_ip_replacement_list.net.name is required"
          "global_ip_replacement_list.net.name '%s' must be unique") ∅ (gl_Net g) with
  | Err e => Some e
  | Ok names =>
  match for_state (unique_name gi_Name
          "global_ip_replacement_list.ip.name is required"
          "global_ip_replacement_list.ip.name '%s' must be unique") names (gl_IP g) with
  | Err e => Some e
  | Ok _ =>
  on_err for_each (λ netConf,
    for_eachi (validate_net
      "invalid IP in global_ip_replacement_list.net: source=%s, target=%s"
      "global_ip_replacement_list.net.mask must be between 0 and %d"
      "global_ip_replacement_list.net source '%s/%d' and '%s/%d' must not overlap"
      (gn_Nets netConf)) (gn_Nets netConf)) (gl_Net g) as (λ e, e);;
  for_each (λ ip,
    err_of (for_state (validate_ip
      "invalid IP in global_ip_replacement_list.ip: source=%s, target=%s"
      "global_ip_replacement_list.ip source '%s' must be unique in group '%s'"
      [FStr (gi_Name ip)]) ∅ (gi_IPs ip))) (gl_IP g)
  end end.

(** ** loadbalancer.go *)

Definition validateAddresses (addresses : list AddressConfig) (name lbType : string) : option error :=
  for_each (λ addr,
    fail_if negb (IsValidIP (addr_IP addr))
      with Errorf "loadbalancers.%s '%s': invalid IP in addresses: %s"
             [FStr lbType; FStr name; FStr (addr_IP addr)];;
    fail_if negb (IsValidPort (addr_Port addr))
      with Errorf "loadbalancers.%s '%s': port must be between 0 and 65535: %d"
             [FStr lbType; FStr name; FInt (addr_Port addr)];;
    None) addresses.

(** The two loops over the [i]-th referenced global network. *)
Definition check_referenced_net (name : string) (locals all : list NetConfig) (i : nat)
    (n1 : NetConfig) : option error :=
  on_err for_each (λ n2,
    fail_if IsNetworkOverlap (nc_Source n1) (nc_Mask n1) (nc_Source n2) (nc_Mask n2)
      with Errorf "network overlap detected between referenced global nets '%s/%d' and '%s/%d' in load balancer '%s'"
             [FStr (nc_Source n1); FInt (nc_Mask n1); FStr (nc_Source n2); FInt (nc_Mask n2); FStr name];;
    None) (drop (S i) all) as (λ e, e);;
  for_each (λ lNet,
    fail_if IsNetworkOverlap (nc_Source n1) (nc_Mask n1) (nc_Source lNet) (nc_Mask lNet)
      with Errorf "network overlap detected: global_nets '%s/%d' overlaps with nets '%s/%d' in load balancer '%s'"
             [FStr (nc_Source n1); FInt (nc_Mask n1); FStr (nc_Source lNet); FInt (nc_Mask lNet); FStr name];;
    None) locals.

(** One address of a referenced global group. *)
Definition check_referenced_ip (name : string) (locals : list IPConfig)
    (seen : gset string) (gIP : IPConfig) : result (gset string) :=
  if decide (ic_Source gIP ∈ seen)
  then Err (Errorf "duplicate source IP '%s' detected across referenced global_ips in load balancer '%s'"
              [FStr (ic_Source gIP); FStr name])
  else
    match for_each (λ lIP,
            fail_if bool_decide (ic_Source gIP = ic_Source lIP)
              with Errorf "IP overlap detected: global_ips '%s' overlaps with ips '%s' in load balancer '%s'"
                     [FStr (ic_Source gIP); FStr (ic_Source lIP); FStr name];;
            None) locals with
    | Some e => Err e
    | None => Ok ({[ic_Source gIP]} ∪ seen)
    end.

Definition validateIPReplacementList (l : IPReplacementList) (globalList : GlobalIPReplacementList)
    (name lbType : string) : option error :=
  on_err ValidateIPReplacementList l globalList
    as (λ err, Errorf "loadbalancers.%s '%s': %w" [FStr lbType; FStr name; FErr err]);;
  let allReferencedNets :=
    rl_GlobalNets l ≫= λ globalNetName,
      gl_Net globalList ≫= λ globalNet,
        if bool_decide (gn_Name globalNet = globalNetName) then gn_Nets globalNet else [] in
  on_err for_eachi (check_referenced_net name (rl_Nets l) allReferencedNets) allReferencedNets
    as (λ e, e);;
  err_of (for_state (λ seen globalIPName,
    for_state (λ seen globalIP,
      if bool_decide (gi_Name globalIP = globalIPName)
      then for_state (check_referenced_ip name (rl_IPs l)) seen (gi_IPs globalIP)
      else Ok seen) seen (gl_IP globalList)) ∅ (rl_GlobalIPs l)).

(** The checks of one load balancer after the one on its name. *)
Definition validate_lb (g : GlobalIPReplacementList) (lb : LoadBalancerConfig) : option error :=
  let name := GetName lb in
  let ipList := GetIPReplacementList lb in
  fail_if negb (bool_decide (GetHostName lb = "")) && negb (IsValidDomain (GetHostName lb))
    with Errorf "loadbalancers.%s '%s': invalid hostname: %s"
           [FStr (GetType lb); FStr (GetName lb); FStr (GetHostName lb)];;
  on_err validateAddresses (GetAddresses lb) name (GetType lb) as (λ e, e);;
  on_err
    if GetIPReplacement lb then
      fail_if bool_decide (rl_GlobalIPs ipList = []) && bool_decide (rl_GlobalNets ipList = []) &&
              bool_decide (length (rl_Nets ipList) = 0%nat) && bool_decide (length (rl_IPs ipList) = 0%nat)
        with Errorf "loadbalancers.%s '%s': ip_replacement_list is empty; at least one of nets, ips, global_nets, or global_ips must be provided when ip_replacement is enabled"
               [FStr (GetType lb); FStr (GetName lb)];;
      validateIPReplacementList ipList g name (GetType lb)
    else None
    as (λ e, e);;
  match GetDefaultBackend lb with
  | None => None
  | Some db =>
      fail_if negb (IsValidIP (db_IP db))
        with Errorf "loadbalancers.%s '%s': invalid IP in default_backend: %s"
               [FStr (GetType lb); FStr name; FStr (db_IP db)];;
      fail_if negb (IsValidPort (db_Port db))
        with Errorf "loadbalancers.%s '%s': invalid port in default_backend: %d"
               [FStr (GetType lb); FStr name; FInt (db_Port db)];;
      None
  end.

Definition LoadBalancerValidator (cfg : Config) : option error :=
  err_of (for_state (λ names lb,
    let name := GetName lb in
    if bool_decide (name = "") then Err (Errorf "loadbalancers.%s.name is required" [FStr (GetType lb)])
    else if decide (name ∈ names)
    then Err (Errorf "loadbalancers.%s.name '%s' must be unique across all loadbalancers"
                [FStr (GetType lb); FStr name])
    else match validate_lb (cfg_GlobalIPReplacementList cfg) lb with
         | Some e => Err e
         | None => Ok ({[name]} ∪ names)
         end) (∅ : gset string) (cfg_LoadBalancers cfg)).

(** ** nginx.go *)

Definition isValidRelativeURI (s : string) : bool :=
  if negb (strings.HasPrefix s "/") then false else
  match url.Parse s with
  | None => false
  | Some parsed =>
      if negb (bool_decide (url.Scheme parsed = "")) || negb (bool_decide (url.Host parsed = ""))
      then false else
      if bool_decide (url.Path parsed = "") then false else true
  end.

Definition validateNginxConfig (lb : NginxConfig) : option error :=
  fail_if negb (bool_decide (ng_Protocol lb = "http")) && negb (bool_decide (ng_Protocol lb = "https"))
    with Errorf "loadbalancers.%s '%s': protocol must be one of: http, https, got: %s"
           [FStr (ng_Type lb); FStr (ng_Name lb); FStr (ng_Protocol lb)];;
  fail_if bool_decide (ng_Protocol lb = "https") && negb (IsValidDomain (ng_Hostname lb))
    with (if bool_decide (ng_Hostname lb = "")
          then Errorf "loadbalancers.%s '%s': hostname is required for https protocol"
                 [FStr (ng_Type lb); FStr (ng_Name lb)]
          else Errorf "loadbalancers.%s '%s': invalid hostname: %s"
                 [FStr (ng_Type lb); FStr (ng_Name lb); FStr (ng_Hostname lb)]);;
  fail_if bool_decide (ng_ListAPI lb = "") with Errorf "list_api is required" [];;
  fail_if bool_decide (ng_AddAPI lb = "") with Errorf "add_api is required" [];;
  fail_if bool_decide (ng_RemoveAPI lb = "") with Errorf "remove_api is required" [];;
  fail_if negb (isValidRelativeURI (ng_ListAPI lb)) with Errorf "list_api is invalid" [];;
  fail_if negb (isValidRelativeURI (ng_AddAPI lb)) with Errorf "add_api is invalid" [];;
  fail_if negb (isValidRelativeURI (ng_RemoveAPI lb)) with Errorf "remove_api is invalid" [];;
  fail_if ng_UpstreamSyncPeriod lb <? 0 with Errorf "upstream_sync_period must be non-negative" [];;
  fail_if ng_FailTimeout lb <? 0 with Errorf "fail_timeout must be non-negative" [];;
  fail_if ng_RequestTimeout lb <? 0 with Errorf "request_timeout must be non-negative" [];;
  None.

Definition NginxValidator (cfg : Config) : option error :=
  for_each (λ lb,
    match lb with
    | LBNginx c | LBNginxPtr c =>
        on_err validateNginxConfig c as (λ err, Errorf "nginx '%s': %w" [FStr (ng_Name c); FErr err]);;
        None
    | _ => None
    end) (cfg_LoadBalancers cfg).

(** ** envoy.go *)

Definition validateEnvoyConfig (lb : EnvoyConfig) : option error :=
  fail_if negb (bool_decide (en_Protocol lb = "grpc"))
    with Errorf "loadbalancers.%s '%s': protocol must be grpc, got: %s"
           [FStr (en_Type lb); FStr (en_Name lb); FStr (en_Protocol lb)];;
  fail_if en_UpstreamSyncPeriod lb <? 0 with Errorf "upstream_sync_period must be non-negative" [];;
  fail_if en_RequestTimeout lb <? 0 with Errorf "request_timeout must be non-negative" [];;
  None.

Definition EnvoyValidator (cfg : Config) : option error :=
  for_each (λ lb,
    match lb with
    | LBEnvoy c | LBEnvoyPtr c =>
        on_err validateEnvoyConfig c as (λ err, Errorf "envoy '%s': %w" [FStr (en_Name c); FErr err]);;
        None
    | _ => None
    end) (cfg_LoadBalancers cfg).

(** ** The composite validator *)

Definition NewCompositeValidator : list (Config → option error) :=
  [GlobalConfigValidator; LeaderElectionValidator; LogValidator; MetricsValidator;
   KubernetesValidator; GlobalIPReplacementValidator; LoadBalancerValidator; NginxValidator;
   EnvoyValidator].

Definition CompositeValidator_Validate (cfg : Config) : option error :=
  for_each (λ v,
    on_err v cfg as (λ err, Errorf "validation failed: %w" [FErr err]);;
    None) NewCompositeValidator.

(** ** Well-formed configurations *)

Definition all_ips (l : IPReplacementList) (g : GlobalIPReplacementList) : list IPConfig :=
  rl_IPs l ++ (rl_GlobalIPs l ≫= global_ips g).
Definition all_nets (l : IPReplacementList) (g : GlobalIPReplacementList) : list NetConfig :=
  rl_Nets l ++ (rl_GlobalNets l ≫= global_nets g).

(** No address is subject to two address rules or to two network rules. *)
Record rules_ok (l : IPReplacementList) (g : GlobalIPReplacementList) : Prop := {
  ro_list : replacement_list_ok l g;
  ro_nets : pairwise nets_disjoint (all_nets l g);
  ro_ips : NoDup (ic_Source <$> all_ips l g)
}.

(** At least one rule or one reference is given. *)
Definition all_rules_given (l : IPReplacementList) : Prop :=
  ¬ (rl_GlobalIPs l = [] ∧ rl_GlobalNets l = [] ∧ rl_Nets l = [] ∧ rl_IPs l = []).

Definition default_backend_ok (db : option DefaultBackendConfig) : Prop :=
  match db with
  | None => True
  | Some db => is_Some (ParseIP (db_IP db)) ∧ 1 <= db_Port db <= 65535
  end.

Definition nginx_ok (c : NginxConfig) : Prop :=
  (ng_Protocol c = "http" ∨ ng_Protocol c = "https" ∧ IsValidDomain (ng_Hostname c) = true) ∧
  isValidRelativeURI (ng_ListAPI c) = true ∧
  isValidRelativeURI (ng_AddAPI c) = true ∧
  isValidRelativeURI (ng_RemoveAPI c) = true ∧
  0 <= ng_UpstreamSyncPeriod c ∧ 0 <= ng_FailTimeout c.
Definition envoy_ok (c : EnvoyConfig) : Prop :=
  en_Protocol c = "grpc" ∧ 0 <= en_UpstreamSyncPeriod c.

Record lb_ok (g : GlobalIPReplacementList) (lb : LoadBalancerConfig) : Prop := {
  lbo_name : GetName lb ≠ "";
  lbo_host : GetHostName lb = "" ∨ IsValidDomain (GetHostName lb) = true;
  lbo_addresses : Forall (λ a, is_Some (ParseIP (addr_IP a)) ∧ 1 <= addr_Port a <= 65535)
                    (GetAddresses lb);
  lbo_rules : GetIPReplacement lb = true →
    (all_rules_given (GetIPReplacementList lb)) ∧ rules_ok (GetIPReplacementList lb) g;
  lbo_default : default_backend_ok (GetDefaultBackend lb);
  lbo_pool : 1 <= GetRequestPoolSize lb <= 100;
  lbo_timeout : 0 < GetRequestTimeOut lb;
  lbo_kind : match lb with
             | LBNginx c | LBNginxPtr c => nginx_ok c
             | LBEnvoy c | LBEnvoyPtr c => envoy_ok c
             end
}.

Definition leader_election_ok (le : LeaderElectionConfig) : Prop :=
  le_Enabled le = true →
  le_LeaseName le ≠ "" ∧ le_LeaseNamespace le ≠ "" ∧
  0 < le_RetryPeriod le < le_RenewDeadline le ∧ le_RenewDeadline le < le_LeaseDuration le.
Definition log_ok (l : LogConfig) : Prop :=
  log_Enabled l = true →
  strings.ToLower (log_Level l) ∈ ["debug"; "info"; "warn"; "error"; "fatal"] ∧
  strings.ToLower (log_Format l) ∈ ["json"; "console"].
Definition metrics_ok (m : MetricsConfig) : Prop :=
  mt_Enabled m = true → 0 <= mt_Port m <= 65535 ∧ mt_URI m ≠ "".

(** The groups of the global list: names are given and unique over both kinds
    of groups; inside a group rules are valid and do not overlap. *)
Record global_list_ok (g : GlobalIPReplacementList) : Prop := {
  glo_names : NoDup ((gn_Name <$> gl_Net g) ++ (gi_Name <$> gl_IP g));
  glo_named : "" ∉ (gn_Name <$> gl_Net g) ++ (gi_Name <$> gl_IP g);
  glo_nets : Forall (λ n, Forall net_ok (gn_Nets n) ∧ pairwise nets_disjoint (gn_Nets n)) (gl_Net g);
  glo_ips : Forall (λ i, Forall ip_ok (gi_IPs i) ∧ NoDup (ic_Source <$> gi_IPs i)) (gl_IP g)
}.

Record config_ok (cfg : Config) : Prop := {
  co_pool : 1 <= cfg_RequestPoolSize cfg <= 100;
  co_period : 0 <= cfg_GlobalUpstreamSyncPeriod cfg;
  co_default : default_backend_ok (cfg_DefaultBackend cfg);
  co_leader : leader_election_ok (cfg_LeaderElection cfg);
  co_log : log_ok (cfg_Log cfg);
  co_metrics : metrics_ok (cfg_Metrics cfg);
  co_resync : 0 <= kc_ResyncPeriod (cfg_Kubernetes cfg);
  co_global : global_list_ok (cfg_GlobalIPReplacementList cfg);
  co_unique : NoDup (GetName <$> cfg_LoadBalancers cfg);
  co_lbs : Forall (lb_ok (cfg_GlobalIPReplacementList cfg)) (cfg_LoadBalancers cfg)
}.

(** ** Facts *)

Lemma nets_disjoint_sym n1 n2 : nets_disjoint n1 n2 → nets_disjoint n2 n1.
Proof.
  intros H ip H2. apply not_true_iff_false. intros H1. by rewrite (H ip H1) in H2.
Qed.

Lemma pairwise_app {A} (R : A → A → Prop) l1 l2 : (∀ x y, R x y → R y x) →
  pairwise R (l1 ++ l2) ↔
  pairwise R l1 ∧ pairwise R l2 ∧ ∀ x y, x ∈ l1 → y ∈ l2 → R x y.
Proof.
  intros Hsym. unfold pairwise. split.
  - intros H. split_and!.
    + intros i j x y Hij Hx Hy. apply (H i j); [done|by apply lookup_app_l_Some..].
    + intros i j x y Hij Hx Hy. apply (H (length l1 + i)%nat (length l1 + j)%nat); [lia|..];
        rewrite lookup_app_r by lia; by rewrite Nat.add_comm, Nat.add_sub.
    + intros x y [i Hi]%list_elem_of_lookup [j Hj]%list_elem_of_lookup.
      pose proof (lookup_lt_Some _ _ _ Hi). apply (H i (length l1 + j)%nat); [lia|by apply lookup_app_l_Some|].
      rewrite lookup_app_r by lia. by replace (length l1 + j - length l1)%nat with j by lia.
  - intros (H1 & H2 & H12) i j x y Hij [Hx|[Hlx Hx]]%lookup_app_Some [Hy|[Hly Hy]]%lookup_app_Some.
    + by apply (H1 i j).
    + by apply H12; eapply list_elem_of_lookup_2.
    + by apply Hsym, H12; eapply list_elem_of_lookup_2.
    + apply (H2 (i - length l1)%nat (j - length l1)%nat); [lia|done..].
Qed.

(** For a symmetric relation the later elements are enough. *)
Lemma pairwise_later {A} (R : A → A → Prop) l : (∀ x y, R x y → R y x) →
  pairwise R l ↔ ∀ i x k y, l !! i = Some x → drop (S i) l !! k = Some y → R x y.
Proof.
  intros Hsym. unfold pairwise. split.
  - intros H i x k y Hx Hy. rewrite lookup_drop in Hy. apply (H i (S i + k)%nat); [lia|done..].
  - intros H i j x y Hij Hx Hy. destruct (Nat.lt_ge_cases i j).
    + apply (H i x (j - S i)%nat y); [done|]. rewrite lookup_drop. by replace (S i + (j - S i))%nat with j by lia.
    + apply Hsym, (H j y (i - S j)%nat x); [done|]. rewrite lookup_drop.
      by replace (S j + (i - S j))%nat with i by lia.
Qed.

Lemma check_referenced_net_None name locals all :
  for_eachi (check_referenced_net name locals all) all = None ↔
  pairwise nets_disjoint all ∧ ∀ x y, x ∈ all → y ∈ locals → nets_disjoint x y.
Proof.
  rewrite for_eachi_from_None, (pairwise_later _ _ nets_disjoint_sym). cbn [Nat.add].
  assert (∀ i x, check_referenced_net name locals all i x = None ↔
    (∀ k y, drop (S i) all !! k = Some y → nets_disjoint x y) ∧ ∀ y, y ∈ locals → nets_disjoint x y) as Hc.
  { intros i x. unfold check_referenced_net. rewrite on_err_None, !for_each_None, Forall_lookup, list.Forall_forall.
    setoid_rewrite fail_if_None. setoid_rewrite overlap_disjoint. naive_solver. }
  setoid_rewrite Hc. split.
  - intros H. split; [intros i x k y Hx; by apply (H i x Hx)|].
    intros x y [i Hi]%list_elem_of_lookup. by apply (H i x Hi).
  - intros [H1 H2] i x Hx. split; [intros k y; by apply (H1 i x k y)|]. intros y. apply H2. by eapply list_elem_of_lookup_2.
Qed.

Lemma check_referenced_ip_Ok name locals s x s' :
  check_referenced_ip name locals s x = Ok s' ↔
  (ic_Source x ∉ ic_Source <$> locals) ∧ (ic_Source x ∉ s) ∧ s' = {[ic_Source x]} ∪ s.
Proof.
  unfold check_referenced_ip. case_decide as Hd; [naive_solver|].
  assert (∀ e, for_each (λ lIP, if bool_decide (ic_Source x = ic_Source lIP) then Some (e lIP) else None) locals
     = None ↔ ic_Source x ∉ ic_Source <$> locals) as Hl.
  { intros e. rewrite for_each_None, list.Forall_forall. split.
    - intros H (y & E & Hy)%list_elem_of_fmap. specialize (H y Hy). by rewrite bool_decide_true in H.
    - intros H y Hy. rewrite bool_decide_false; [done|]. intros E. apply H, list_elem_of_fmap. eauto. }
  destruct (for_each _ locals) eqn:E.
  - split; [done|]. intros [H _]. exfalso. assert (Some e = None) as [=]. rewrite <- E. by apply Hl.
  - apply Hl in E. naive_solver.
Qed.

Lemma referenced_nets_eq l g :
  (rl_GlobalNets l ≫= λ name, gl_Net g ≫= λ gn,
     if bool_decide (gn_Name gn = name) then gn_Nets gn else []) = rl_GlobalNets l ≫= global_nets g.
Proof. apply list_bind_ext_In. intros name. apply bind_if_filter. Qed.

Lemma referenced_ips_eq f l g :
  for_state (λ seen name,
    for_state (λ seen gi, if bool_decide (gi_Name gi = name)
      then for_state f seen (gi_IPs gi) else Ok seen) seen (gl_IP g)) (∅ : gset string) (rl_GlobalIPs l) =
  for_state f ∅ (rl_GlobalIPs l ≫= global_ips g).
Proof.
  apply for_state_nested. intros s name.
  rewrite (for_state_nested f (λ gi, if bool_decide (gi_Name gi = name) then gi_IPs gi else [])).
  - by rewrite bind_if_filter.
  - intros s' gi. by case_bool_decide.
Qed.

Lemma rules_None l g name ty : validateIPReplacementList l g name ty = None ↔ rules_ok l g.
Proof.
  unfold validateIPReplacementList. rewrite referenced_nets_eq, referenced_ips_eq.
  rewrite !on_err_None, check_referenced_net_None.
  rewrite (for_state_seen_ok ic_Source _ _ _ (check_referenced_ip_Ok name (rl_IPs l))).
  rewrite replacement_list_None.
  split.
  - intros (Hl & [Hp Hx] & Hf & Hn). split; [done|..].
    + apply pairwise_app; [apply nets_disjoint_sym|]. split_and!; [apply Hl|done|].
      intros x y Hx1 Hy. by apply nets_disjoint_sym, Hx.
    + unfold all_ips. rewrite fmap_app, list.NoDup_app. split_and!; [apply Hl| |done].
      intros s Hs (x & -> & Hx')%list_elem_of_fmap.
      rewrite list.Forall_forall in Hf. by apply (Hf x).
  - intros [Hl Hn Hi]. apply pairwise_app in Hn as (_ & Hn & Hx); [|apply nets_disjoint_sym].
    unfold all_ips in Hi. rewrite fmap_app, list.NoDup_app in Hi. destruct Hi as (_ & Hd & Hi).
    split_and!; try done.
    + intros x y Hx1 Hy. by apply nets_disjoint_sym, Hx.
    + apply list.Forall_forall. intros x Hx' Hs. apply (Hd _ Hs). apply list_elem_of_fmap. eauto.
Qed.

Lemma IsValidPort_true p : IsValidPort p = true ↔ 1 <= p <= 65535.
Proof. unfold IsValidPort. rewrite andb_true_iff, !Z.leb_le. done. Qed.

(** Read the checks of a validator as propositions. *)
Ltac checks :=
  repeat (setoid_rewrite fail_if_None || setoid_rewrite on_err_None);
  rewrite ?orb_false_iff, ?andb_false_iff, ?negb_false_iff,
    ?negb_true_iff, ?IsValidIP_true, ?IsValidPort_true, ?bool_decide_eq_false, ?bool_decide_eq_true,
    ?Z.ltb_ge, ?Z.leb_gt, ?Z.leb_le.

Lemma GlobalConfig_None cfg : GlobalConfigValidator cfg = None ↔
  1 <= cfg_RequestPoolSize cfg <= 100 ∧ 0 <= cfg_GlobalUpstreamSyncPeriod cfg ∧
  default_backend_ok (cfg_DefaultBackend cfg) ∧
  Forall (λ lb, 1 <= GetRequestPoolSize lb <= 100 ∧ 0 < GetRequestTimeOut lb) (cfg_LoadBalancers cfg).
Proof.
  unfold GlobalConfigValidator. checks. rewrite for_each_None.
  assert (∀ (P Q : LoadBalancerConfig → Prop) l, (∀ x, P x ↔ Q x) → Forall P l ↔ Forall Q l) as HF.
  { intros P Q l H. by apply Forall_iff. }
  rewrite (HF _ (λ lb, 1 <= GetRequestPoolSize lb <= 100 ∧ 0 < GetRequestTimeOut lb))
    by (intros lb; checks; naive_solver).
  destruct (cfg_DefaultBackend cfg); cbn [default_backend_ok]; checks; naive_solver.
Qed.

Lemma LeaderElection_None cfg : LeaderElectionValidator cfg = None ↔
  leader_election_ok (cfg_LeaderElection cfg).
Proof.
  unfold LeaderElectionValidator, leader_election_ok.
  destruct (le_Enabled (cfg_LeaderElection cfg)); cbn [negb]; [|done].
  checks. split; [intros H _|intros H; specialize (H eq_refl)]; destruct_and?; split_and?; try done; lia.
Qed.

Lemma Log_None cfg : LogValidator cfg = None ↔ log_ok (cfg_Log cfg).
Proof.
  unfold LogValidator, log_ok, one_of. destruct (log_Enabled (cfg_Log cfg)); cbn [negb]; [|done].
  checks. naive_solver.
Qed.

Lemma Metrics_None cfg : MetricsValidator cfg = None ↔ metrics_ok (cfg_Metrics cfg).
Proof.
  unfold MetricsValidator, metrics_ok. destruct (mt_Enabled (cfg_Metrics cfg)); cbn [negb]; [|done].
  checks. naive_solver.
Qed.

Lemma Kubernetes_None cfg : KubernetesValidator cfg = None ↔ 0 <= kc_ResyncPeriod (cfg_Kubernetes cfg).
Proof. unfold KubernetesValidator. checks. tauto. Qed.

Lemma unique_name_Ok {A} (name : A → string) a b s x s' :
  unique_name name a b s x = Ok s' ↔ name x ≠ "" ∧ (name x ∉ s) ∧ s' = {[name x]} ∪ s.
Proof. unfold unique_name. case_bool_decide; [naive_solver|]. case_decide; naive_solver. Qed.

Lemma unique_names_Ok {A} (name : A → string) a b l seen s' :
  for_state (unique_name name a b) seen l = Ok s' ↔
  Forall (λ x, name x ≠ "") l ∧ NoDup (name <$> l) ∧ (∀ x, x ∈ l → name x ∉ seen) ∧
  s' = list_to_set (name <$> l) ∪ seen.
Proof. apply for_state_seen. apply unique_name_Ok. Qed.

Lemma not_empty_name {A} (name : A → string) l :
  Forall (λ x, name x ≠ "") l ↔ "" ∉ name <$> l.
Proof.
  rewrite list.Forall_forall. split.
  - intros H (x & E & Hx)%list_elem_of_fmap. by apply (H x).
  - intros H x Hx E. apply H, list_elem_of_fmap. eauto.
Qed.

Lemma GlobalIPReplacement_None cfg : GlobalIPReplacementValidator cfg = None ↔
  global_list_ok (cfg_GlobalIPReplacementList cfg).
Proof.
  unfold GlobalIPReplacementValidator. set (g := cfg_GlobalIPReplacementList cfg). split.
  - destruct (for_state _ ∅ (gl_Net g)) as [names|] eqn:E1; [|done].
    destruct (for_state _ names (gl_IP g)) as [names'|] eqn:E2; [|done].
    apply unique_names_Ok in E1 as (N1 & D1 & _ & ->), E2 as (N2 & D2 & F2 & _).
    rewrite on_err_None, !for_each_None. intros [Hn Hi]. split.
    + apply list.NoDup_app. split_and!; [done| |done].
      intros s Hs (x & -> & Hx)%list_elem_of_fmap. apply (F2 x Hx).
      apply elem_of_union_l, elem_of_list_to_set. done.
    + apply not_empty_name in N1, N2. rewrite elem_of_app. tauto.
    + eapply Forall_impl; [|exact Hn]. intros n. apply validate_nets_None.
    + eapply Forall_impl; [|exact Hi]. intros i. apply validate_ips_None.
  - intros [Hd Hne Hn Hi]. apply list.NoDup_app in Hd as (D1 & D12 & D2).
    rewrite elem_of_app in Hne.
    assert (for_state (unique_name gn_Name "global_ip_replacement_list.net.name is required"
      "global_ip_replacement_list.net.name '%s' must be unique") ∅ (gl_Net g) =
      Ok (list_to_set (gn_Name <$> gl_Net g) ∪ ∅)) as ->.
    { apply unique_names_Ok. split_and!; [apply not_empty_name; tauto|done|set_solver|done]. }
    assert (for_state (unique_name gi_Name "global_ip_replacement_list.ip.name is required"
      "global_ip_replacement_list.ip.name '%s' must be unique")
      (list_to_set (gn_Name <$> gl_Net g) ∪ ∅) (gl_IP g) =
      Ok (list_to_set (gi_Name <$> gl_IP g) ∪ (list_to_set (gn_Name <$> gl_Net g) ∪ ∅))) as ->.
    { apply unique_names_Ok. split_and!; [apply not_empty_name; tauto|done| |done].
      intros x Hx [H%elem_of_list_to_set|?]%elem_of_union; [|set_solver].
      apply (D12 _ H). apply list_elem_of_fmap. eauto. }
    rewrite on_err_None, !for_each_None. split.
    + eapply Forall_impl; [|exact Hn]. intros n. apply validate_nets_None.
    + eapply Forall_impl; [|exact Hi]. intros i. apply validate_ips_None.
Qed.

(** What [LoadBalancerValidator] checks of one load balancer. *)
Definition lb_common_ok (g : GlobalIPReplacementList) (lb : LoadBalancerConfig) : Prop :=
  (GetHostName lb = "" ∨ IsValidDomain (GetHostName lb) = true) ∧
  Forall (λ a, is_Some (ParseIP (addr_IP a)) ∧ 1 <= addr_Port a <= 65535) (GetAddresses lb) ∧
  (GetIPReplacement lb = true →
    all_rules_given (GetIPReplacementList lb) ∧ rules_ok (GetIPReplacementList lb) g) ∧
  default_backend_ok (GetDefaultBackend lb).

Lemma validateAddresses_None l a b : validateAddresses l a b = None ↔
  Forall (λ a, is_Some (ParseIP (addr_IP a)) ∧ 1 <= addr_Port a <= 65535) l.
Proof.
  unfold validateAddresses. rewrite for_each_None.
  split; intros H; (eapply Forall_impl; [|exact H]); intros x; cbn beta; checks; tauto.
Qed.

Lemma rules_given_spec l :
  bool_decide (rl_GlobalIPs l = []) && bool_decide (rl_GlobalNets l = []) &&
  bool_decide (length (rl_Nets l) = 0%nat) && bool_decide (length (rl_IPs l) = 0%nat) = false ↔
  all_rules_given l.
Proof.
  unfold all_rules_given. rewrite <- not_true_iff_false, !andb_true_iff,
    !bool_decide_eq_true, !length_zero_iff_nil. tauto.
Qed.

Lemma validate_lb_None g lb : validate_lb g lb = None ↔ lb_common_ok g lb.
Proof.
  unfold validate_lb, lb_common_ok. rewrite fail_if_None, !on_err_None, validateAddresses_None.
  assert ((match GetDefaultBackend lb with
    | None => None
    | Some db =>
      if negb (IsValidIP (db_IP db))
      then Some (Errorf "loadbalancers.%s '%s': invalid IP in default_backend: %s"
        [FStr (GetType lb); FStr (GetName lb); FStr (db_IP db)])
      else if negb (IsValidPort (db_Port db))
      then Some (Errorf "loadbalancers.%s '%s': invalid port in default_backend: %d"
        [FStr (GetType lb); FStr (GetName lb); FInt (db_Port db)])
      else None end) = None ↔ default_backend_ok (GetDefaultBackend lb)) as ->
    by (destruct (GetDefaultBackend lb); cbn [default_backend_ok]; checks; tauto).
  rewrite andb_false_iff, !negb_false_iff, bool_decide_eq_true.
  destruct (GetIPReplacement lb).
  - rewrite fail_if_None, rules_given_spec, rules_None. tauto.
  - naive_solver.
Qed.

Lemma LoadBalancer_None cfg : LoadBalancerValidator cfg = None ↔
  Forall (λ lb, GetName lb ≠ "" ∧ lb_common_ok (cfg_GlobalIPReplacementList cfg) lb)
    (cfg_LoadBalancers cfg) ∧ NoDup (GetName <$> cfg_LoadBalancers cfg).
Proof.
  apply for_state_seen_ok. intros s lb s'. rewrite <- validate_lb_None. cbv beta zeta.
  case_bool_decide; [naive_solver|]. case_decide; [naive_solver|].
  destruct (validate_lb _ lb); naive_solver.
Qed.

Lemma isValidRelativeURI_nonempty s : isValidRelativeURI s = true → s ≠ "".
Proof. by intros H ->. Qed.

Lemma nginx_None c : validateNginxConfig c = None ↔ nginx_ok c ∧ 0 <= ng_RequestTimeout c.
Proof.
  unfold validateNginxConfig, nginx_ok. checks.
  pose proof (isValidRelativeURI_nonempty (ng_ListAPI c)).
  pose proof (isValidRelativeURI_nonempty (ng_AddAPI c)).
  pose proof (isValidRelativeURI_nonempty (ng_RemoveAPI c)).
  assert (ng_Protocol c = "http" → ng_Protocol c ≠ "https") by (by intros ->).
  split; intros Hc; destruct_and?; split_and?; try done; try tauto; try lia.
Qed.

Lemma envoy_None c : validateEnvoyConfig c = None ↔ envoy_ok c ∧ 0 <= en_RequestTimeout c.
Proof. unfold validateEnvoyConfig, envoy_ok. checks. tauto. Qed.

(** The validators of the two kinds, joined. *)
Lemma kinds_None cfg : NginxValidator cfg = None ∧ EnvoyValidator cfg = None ↔
  Forall (λ lb, match lb with
                | LBNginx c | LBNginxPtr c => nginx_ok c ∧ 0 <= ng_RequestTimeout c
                | LBEnvoy c | LBEnvoyPtr c => envoy_ok c ∧ 0 <= en_RequestTimeout c
                end) (cfg_LoadBalancers cfg).
Proof.
  unfold NginxValidator, EnvoyValidator. rewrite !for_each_None, <- list.Forall_and.
  apply Forall_iff. intros [c|c|c|c]; rewrite on_err_None, ?nginx_None, ?envoy_None; tauto.
Qed.

Lemma composite_None cfg : CompositeValidator_Validate cfg = None ↔ config_ok cfg.
Proof.
  unfold CompositeValidator_Validate. rewrite for_each_None. unfold NewCompositeValidator.
  rewrite !list.Forall_cons, !on_err_None, GlobalConfig_None, LeaderElection_None, Log_None,
    Metrics_None, Kubernetes_None, GlobalIPReplacement_None, LoadBalancer_None.
  split.
  - intros ([(Hp & Hs & Hd & Hlb1) _] & [Hle _] & [Hl _] & [Hm _] & [Hk _] & [Hg _] & [[Hlb2 Hu] _] & [Hn _] & [He _] & _).
    pose proof (proj1 (kinds_None cfg) (conj Hn He)) as Hkinds. split; try done.
    apply list.Forall_forall. intros lb Hlb. rewrite list.Forall_forall in Hlb1, Hlb2, Hkinds.
    destruct (Hlb1 lb Hlb) as [Hp1 Ht], (Hlb2 lb Hlb) as (Hne & Hh & Ha & Hr & Hdb).
    split; try done. specialize (Hkinds lb Hlb). by destruct lb; destruct Hkinds.
  - intros []. rewrite list.Forall_forall in co_lbs0.
    assert (NginxValidator cfg = None ∧ EnvoyValidator cfg = None) as [Hn He].
    { apply kinds_None, list.Forall_forall. intros lb Hlb. destruct (co_lbs0 lb Hlb) as [].
      destruct lb; (split; [done|]); cbn in lbo_timeout0; lia. }
    assert (Forall (λ lb, 1 <= GetRequestPoolSize lb <= 100 ∧ 0 < GetRequestTimeOut lb)
      (cfg_LoadBalancers cfg)) by (apply list.Forall_forall; intros lb Hlb; by destruct (co_lbs0 lb Hlb)).
    assert (Forall (λ lb, GetName lb ≠ "" ∧ lb_common_ok (cfg_GlobalIPReplacementList cfg) lb)
      (cfg_LoadBalancers cfg)) by (apply list.Forall_forall; intros lb Hlb; by destruct (co_lbs0 lb Hlb)).
    assert (Forall (λ v : Config → option error, match v cfg with
      | Some err => Some (Errorf "validation failed: %w" [FErr err]) | None => None end = None) []) by constructor.
    tauto.
Qed.



Lemma apply_split ip lb g :
  first_some (apply_rule ip) (rules_of (GetIPReplacementList lb) g) =
  match first_some (replace_ip ip) (all_ips (GetIPReplacementList lb) g) with
  | Some r => Some r
  | None => first_some (replace_net ip) (all_nets (GetIPReplacementList lb) g)
  end.
Proof.
  unfold rules_of, all_ips, all_nets.
  rewrite !first_some_app, !first_some_fmap. cbn [apply_rule].
  by repeat case_match.
Qed.

Lemma global_ips_ok g name x : global_list_ok g → x ∈ global_ips g name → ip_ok x.
Proof.
  intros [_ _ _ Hi] (i & Hx & Hin)%list_elem_of_bind.
  apply list_elem_of_In, filter_In in Hin as [Hin _]. apply list_elem_of_In in Hin.
  rewrite list.Forall_forall in Hi. destruct (Hi i Hin) as [H _].
  rewrite list.Forall_forall in H. by apply H.
Qed.

(** ** Properties *)

(** C32. The composite validator returns no error exactly on the well formed
    configurations: pool sizes, periods and ports in range, lease durations
    ordered, names unique, addresses and host names well formed, replacement
    rules without overlaps, and API paths relative. *)
Theorem CompositeValidator_spec (cfg : Config) :
  CompositeValidator_Validate cfg = None ↔ config_ok cfg.
Proof. apply composite_None. Qed.



(** Under a validated configuration the address a valid node address is
    replaced with is a valid address: no rule can hand a malformed server
    address to a load balancer. *)
Theorem validated_replacement_valid (cfg : Config) (lb : LoadBalancerConfig) (nodeIP : string) :
  CompositeValidator_Validate cfg = None →
  lb ∈ cfg_LoadBalancers cfg →
  GetIPReplacement lb = true →
  IsValidIP nodeIP = true →
  IsValidIP (ApplyIPReplacement nodeIP lb (cfg_GlobalIPReplacementList cfg)) = true.
Proof.
  intros [_ _ _ _ _ _ _ Hg _ Hlbs]%composite_None Hlb Hr. rewrite !IsValidIP_true. intros Hip.
  rewrite list.Forall_forall in Hlbs. destruct (Hlbs lb Hlb) as [_ _ _ Hrules _ _ _ _].
  destruct (Hrules Hr) as [_ [Hl _ _]]. rewrite apply_first, apply_split.
  destruct (first_some _ (all_ips _ _)) as [t|] eqn:E1.
  - apply first_some_elem in E1 as (x & Hx & E). unfold replace_ip in E.
    case_bool_decide; [|done]. injection E as <-.
    apply elem_of_app in Hx as [Hx|(name & Hx & _)%list_elem_of_bind].
    + pose proof (rlo_ips _ _ Hl) as Hall. rewrite list.Forall_forall in Hall. by apply (Hall x).
    + by apply (global_ips_ok _ _ _ Hg Hx).
  - destruct (first_some _ (all_nets _ _)) as [t|] eqn:E2; [|done].
    apply first_some_elem in E2 as (x & _ & E). unfold replace_net in E.
    case_match; [|done]. injection E as <-. by apply replaceInNet_valid.
Qed.

Lemma validated_replacement_valid_witness :
  ∃ cfg lb, CompositeValidator_Validate cfg = None ∧ lb ∈ cfg_LoadBalancers cfg ∧
    IsValidIP (ApplyIPReplacement "192.168.1.7" lb (cfg_GlobalIPReplacementList cfg)) = true.
Proof.
  pose (lb := LBNginx (mkNginx "nginx" "edge" true
    (mkIPReplacementList [mkNet "192.168.0.0" "10.9.0.0" 16] [] ["g"] []) [mkAddress "10.0.0.1" 8080]
    "/dynamic?list=" "/dynamic" "/dynamic" 10 60 30 "https" "lb.example.com" "" "" "" "" "" "" 10
    false false None)).
  pose (cfg := mkConfig 10 (mkLeaderElection true "lease" "default" 15 10 2)
    (mkLog true "INFO" "json") (mkMetrics true 9090 "/metrics") (mkKubernetes 30 "")
    (mkGlobalList [mkGlobalNet "g" [mkNet "fd00::" "fd01::" 16]] []) [lb] 10 true
    (Some (mkDefaultBackend "127.0.0.1" 80 1))).
  exists cfg, lb. assert (CompositeValidator_Validate cfg = None) as Hv by (vm_compute; reflexivity).
  assert (lb ∈ cfg_LoadBalancers cfg) as Hl by constructor.
  split; [exact Hv|]. split; [exact Hl|].
  apply (validated_replacement_valid cfg lb "192.168.1.7" Hv Hl); vm_compute; reflexivity.
Defined.
