(* ===== verification/Certificates.v ===== *)
(** * The certificate loader: internal/adapters/certificate/loader.go

    [FileLoader] reads a certificate, its key and a CA from files and checks
    them first.  The file system, the clock and the TLS packages are
    parameters; every access to a file or to the clock is a step of the world,
    so the files may change between the check and the read that follows it. *)
From S2P Require Export Config.
From Stdlib Require Import Lia.
Local Open Scope Z_scope.

(** ** Definitions *)

(** The dynamic types of [x509.Certificate.PublicKey] the loader tells apart,
    with the bit lengths it reads off them. *)
Inductive PublicKey :=
  | RSAKey (bits : Z)
  | ECDSAKey (bits : Z)
  | Ed25519Key
  | OtherKey (type : string).

Record X509Certificate := mkX509 {
  x_Raw : string;
  x_NotBefore : Z;
  x_NotAfter : Z;
  x_PublicKey : PublicKey
}.

(** The packages os, time, crypto/tls and crypto/x509.  A key pair that loads
    has a leaf certificate, [cert.Certificate[0]], and the rest of the chain. *)
Record CertEnv (W : Type) := mkCertEnv {
  os_Stat : string → ST W (option error);
  os_ReadFile : string → ST W (result string);
  time_Now : ST W Z;
  X509KeyPair : string → string → result (string * list string);
  ParseCertificate : string → result X509Certificate;
  VerifyHostname : X509Certificate → string → option error;
  AppendCertsFromPEM : string → bool
}.
Arguments os_Stat {_} _ _ _.
Arguments os_ReadFile {_} _ _ _.
Arguments time_Now {_} _ _.
Arguments X509KeyPair {_} _ _ _.
Arguments ParseCertificate {_} _ _.
Arguments VerifyHostname {_} _ _ _.
Arguments AppendCertsFromPEM {_} _ _.

(** The port internal/ports/certificate. *)
Record CertificateContent := mkCertificateContent { cc_Cert : string; cc_Key : string; cc_CA : string }.
Record CertificateLoader (W : Type) := mkCertificateLoader {
  cert_Load : string → string → string → string → ST W (result CertificateContent)
}.
Arguments cert_Load {_} _ _ _ _ _ _.

(** The strength of the key, the last check of [validateCertKey]. *)
Definition check_key (k : PublicKey) : option error :=
  match k with
  | RSAKey bits =>
      if bits <? 2048
      then Some (Errorf "certificate uses insecure RSA key length: %d bits (minimum 2048 required)" [FInt bits]) else None
  | ECDSAKey bits =>
      if bits <? 256
      then Some (Errorf "certificate uses insecure ECDSA key length: %d bits (minimum 256 required)" [FInt bits]) else None
  | Ed25519Key => None
  | OtherKey type => Some (Errorf "unsupported public key type: %T" [FStr type])
  end.

Section loader.
Context {W : Type} (E : CertEnv W).

Definition IsFileExists (filename : string) : ST W bool := λ w,
  let '(err, w) := os_Stat E filename w in
  (match err with None => true | Some _ => false end, w).

Definition validateCA (caFilePath : string) : ST W (option error) := λ w,
  let '(r, w) := os_ReadFile E caFilePath w in
  match r with
  | Err err => (Some (Errorf "failed to read ca_file '%s': %w" [FStr caFilePath; FErr err]), w)
  | Ok caContent =>
      if negb (AppendCertsFromPEM E caContent)
      then (Some (Errorf "invalid CA certificate in ca_file '%s'" [FStr caFilePath]), w)
      else (None, w)
  end.

Definition validateCertKey (certPath keyPath hostname : string) : ST W (option error) := λ w,
  let '(r, w) := os_ReadFile E certPath w in
  match r with
  | Err err => (Some (Errorf "failed to read cert_file '%s': %w" [FStr certPath; FErr err]), w)
  | Ok certContent =>
  let '(r, w) := os_ReadFile E keyPath w in
  match r with
  | Err err => (Some (Errorf "failed to read key_file '%s': %w" [FStr keyPath; FErr err]), w)
  | Ok keyContent =>
  match X509KeyPair E certContent keyContent with
  | Err err => (Some (Errorf "invalid certificate or key: %w" [FErr err]), w)
  | Ok (leaf, _) =>
  match ParseCertificate E leaf with
  | Err err => (Some (Errorf "failed to parse certificate: %w" [FErr err]), w)
  | Ok x509Cert =>
  let '(now, w) := time_Now E w in
  if x_NotAfter x509Cert <? now
  then (Some (Errorf "certificate %s has expired: NotAfter=%s" [FStr certPath; FInt (x_NotAfter x509Cert)]), w) else
  let '(now, w) := time_Now E w in
  if now <? x_NotBefore x509Cert
  then (Some (Errorf "certificate %s is not yet valid: NotBefore=%s" [FStr certPath; FInt (x_NotBefore x509Cert)]), w) else
  match (if bool_decide (hostname = "") then None else VerifyHostname E x509Cert hostname) with
  | Some err => (Some (Errorf "certificate %s SAN does not match hostname %s: %w"
                  [FStr certPath; FStr hostname; FErr err]), w)
  | None => (check_key (x_PublicKey x509Cert), w)
  end end end end end.

(** [certPath != "" && !util.IsFileExists(certPath)] and its two likes. *)
Definition missing (path : string) : ST W bool := λ w,
  if bool_decide (path = "") then (false, w) else
  let '(b, w) := IsFileExists path w in (negb b, w).

Definition validateCert (certPath keyPath caPath hostname : string) : ST W (option error) := λ w,
  if negb (bool_decide (certPath = "")) && bool_decide (keyPath = "") ||
     bool_decide (certPath = "") && negb (bool_decide (keyPath = ""))
  then (Some (Errorf "both cert_file and key_file must be provided together" []), w) else
  let '(b, w) := missing certPath w in
  if b then (Some (Errorf "cert_file %s does not exist" [FStr certPath]), w) else
  let '(b, w) := missing keyPath w in
  if b then (Some (Errorf "key_file %s does not exist" [FStr keyPath]), w) else
  let '(e, w) := if bool_decide (certPath = "") then (None, w) else validateCertKey certPath keyPath hostname w in
  match e with
  | Some err => (Some (Errorf "invalid certificate: %w" [FErr err]), w)
  | None =>
  if bool_decide (caPath = "") then (None, w) else
  let '(b, w) := missing caPath w in
  if b then (Some (Errorf "ca_file %s does not exist" [FStr caPath]), w) else
  let '(e, w) := validateCA caPath w in
  match e with
  | Some err => (Some (Errorf "invalid ca_file: %w" [FErr err]), w)
  | None => (None, w)
  end end.

(** The two blocks of [Load] that read the files again. *)
Definition read_pair (certPath keyPath : string) : ST W (result (string * string)) := λ w,
  if bool_decide (certPath = "") then (Ok ("", ""), w) else
  let '(r, w) := os_ReadFile E certPath w in
  match r with
  | Err err => (Err (Errorf "failed to read cert file '%s': %w" [FStr certPath; FErr err]), w)
  | Ok certContent =>
  let '(r, w) := os_ReadFile E keyPath w in
  match r with
  | Err err => (Err (Errorf "failed to read key file '%s': %w" [FStr keyPath; FErr err]), w)
  | Ok keyContent => (Ok (certContent, keyContent), w)
  end end.
Definition read_ca (caPath : string) : ST W (result string) := λ w,
  if bool_decide (caPath = "") then (Ok "", w) else
  let '(r, w) := os_ReadFile E caPath w in
  match r with
  | Err err => (Err (Errorf "failed to read ca file '%s': %w" [FStr caPath; FErr err]), w)
  | Ok caContent => (Ok caContent, w)
  end.

Definition FileLoader_Load (certPath keyPath caPath hostname : string) : ST W (result CertificateContent) := λ w,
  let '(e, w) := validateCert certPath keyPath caPath hostname w in
  match e with
  | Some err => (Err err, w)
  | None =>
  let '(r, w) := read_pair certPath keyPath w in
  match r with
  | Err err => (Err err, w)
  | Ok (certContent, keyContent) =>
  let '(r, w) := read_ca caPath w in
  match r with
  | Err err => (Err err, w)
  | Ok caContent => (Ok (mkCertificateContent certContent keyContent caContent), w)
  end end end.

Definition NewFileLoader : CertificateLoader W := {| cert_Load := FileLoader_Load |}.
End loader.

(** ** What is accepted

    While the world is [quiet] the files hold [files] ([None] for a file that
    cannot be read) and the clock shows times between [lo] and [hi]. *)
Class QuietFiles {W} (E : CertEnv W) (files : string → option string) (lo hi : Z) (quiet : W → Prop) : Prop := {
  quiet_stat : ∀ p w, quiet w → ∃ e w', os_Stat E p w = (e, w') ∧ quiet w' ∧ (is_Some (files p) → e = None);
  quiet_read : ∀ p w, quiet w → ∃ r w', os_ReadFile E p w = (r, w') ∧ quiet w' ∧
    match files p with Some s => r = Ok s | None => ∃ e, r = Err e end;
  quiet_now : ∀ w, quiet w → ∃ t w', time_Now E w = (t, w') ∧ quiet w' ∧ lo <= t <= hi
}.

Definition key_strong (k : PublicKey) : Prop :=
  match k with
  | RSAKey bits => 2048 <= bits
  | ECDSAKey bits => 256 <= bits
  | Ed25519Key => True
  | OtherKey _ => False
  end.

(** The key belongs to the certificate, which is valid between [t1] and [t2],
    for the host name if one is given, and strong enough. *)
Definition pair_ok {W} (E : CertEnv W) (t1 t2 : Z) (hostname cert key : string) : Prop :=
  ∃ leaf chain x, X509KeyPair E cert key = Ok (leaf, chain) ∧ ParseCertificate E leaf = Ok x ∧
    x_NotBefore x <= t1 ∧ t2 <= x_NotAfter x ∧
    (hostname = "" ∨ VerifyHostname E x hostname = None) ∧ key_strong (x_PublicKey x).

Definition pair_accepted {W} (E : CertEnv W) (files : string → option string) (t1 t2 : Z)
    (certPath keyPath hostname : string) (c : CertificateContent) : Prop :=
  (certPath = "" ∧ keyPath = "" ∧ cc_Cert c = "" ∧ cc_Key c = "") ∨
  (certPath ≠ "" ∧ keyPath ≠ "" ∧ files certPath = Some (cc_Cert c) ∧ files keyPath = Some (cc_Key c) ∧
   pair_ok E t1 t2 hostname (cc_Cert c) (cc_Key c)).
Definition ca_accepted {W} (E : CertEnv W) (files : string → option string) (caPath : string) (c : CertificateContent) : Prop :=
  (caPath = "" ∧ cc_CA c = "") ∨
  (caPath ≠ "" ∧ files caPath = Some (cc_CA c) ∧ AppendCertsFromPEM E (cc_CA c) = true).

(** ** Facts *)

Lemma check_key_None k : check_key k = None ↔ key_strong k.
Proof.
  destruct k as [b|b| |t]; cbn; [destruct (Z.ltb_spec b 2048)|destruct (Z.ltb_spec b 256)| |];
    split; intros; (done || lia).
Qed.

Section facts.
Context {W : Type} (E : CertEnv W) (files : string → option string) (lo hi : Z) (quiet : W → Prop)
  `{!QuietFiles E files lo hi quiet}.

(** Close a branch in which the loader reports an error. *)
Local Ltac rejected :=
  do 2 eexists; split_and!; [done..|done|];
  let H := fresh in
  intros H; repeat match goal with H : ∃ _, _ |- _ => destruct H | H : _ ∧ _ |- _ => destruct H end;
  simplify_eq;
  repeat match goal with H1 : ?t = Ok _, H2 : ?t = Ok _ |- _ => rewrite H1 in H2; simplify_eq end;
  first [done | congruence | naive_solver congruence | lia].

(** In a quiet world [m] returns a value that satisfies [Q]. *)
Definition returns {A} (m : ST W A) (Q : A → Prop) : Prop :=
  ∀ w, quiet w → ∃ a w', m w = (a, w') ∧ quiet w' ∧ Q a.

Lemma missing_returns p : returns (missing E p) (λ b, p = "" ∨ is_Some (files p) → b = false).
Proof.
  intros w Hw. unfold missing, IsFileExists. case_bool_decide as Hp; [by eauto 6|].
  destruct (quiet_stat p w Hw) as (e & w' & -> & Hw' & He). do 2 eexists. split_and!; [done..|].
  intros [?|H]; [done|]. by rewrite He.
Qed.

Lemma validateCA_returns p :
  returns (validateCA E p) (λ e, e = None ↔ ∃ s, files p = Some s ∧ AppendCertsFromPEM E s = true).
Proof.
  intros w Hw. unfold validateCA. destruct (quiet_read p w Hw) as (r & w' & -> & Hw' & Hr).
  destruct (files p) as [s|]; [subst r|destruct Hr as [e ->]].
  - destruct (AppendCertsFromPEM E s) eqn:Ha; cbn [negb]; do 2 eexists; (split; [done|split; [done|]]).
    + split; [by exists s|done].
    + split; [done|]. intros (s' & [= <-] & ?). congruence.
  - do 2 eexists. split; [done|split; [done|]]. split; [done|]. by intros (s' & ? & _).
Qed.

Lemma validateCertKey_returns c k h :
  returns (validateCertKey E c k h) (λ e,
    (e = None → ∃ cert key, files c = Some cert ∧ files k = Some key ∧ pair_ok E hi lo h cert key) ∧
    ((∃ cert key, files c = Some cert ∧ files k = Some key ∧ pair_ok E lo hi h cert key) → e = None)).
Proof.
  intros w Hw. unfold validateCertKey, pair_ok.
  destruct (quiet_read c w Hw) as (r & w1 & -> & Hw1 & Hr).
  destruct (files c) as [cert|]; [subst r|destruct Hr as [e ->]; rejected].
  destruct (quiet_read k w1 Hw1) as (r & w2 & -> & Hw2 & Hr).
  destruct (files k) as [key|]; [subst r|destruct Hr as [e ->]; rejected].
  destruct (X509KeyPair E cert key) as [[leaf chain]|e] eqn:Hpair;
    [|rejected].
  destruct (ParseCertificate E leaf) as [x|e] eqn:Hparse;
    [|rejected].
  destruct (quiet_now w2 Hw2) as (t & w3 & -> & Hw3 & Ht).
  destruct (Z.ltb_spec (x_NotAfter x) t) as [Ha|Ha].
  { rejected. }
  destruct (quiet_now w3 Hw3) as (t' & w4 & -> & Hw4 & Ht').
  destruct (Z.ltb_spec t' (x_NotBefore x)) as [Hb|Hb].
  { rejected. }
  pose proof (check_key_None (x_PublicKey x)) as Hk.
  destruct (if bool_decide (h = "") then None else VerifyHostname E x h) as [e|] eqn:Hh.
  { case_bool_decide; [done|]. rejected. }
  assert (h = "" ∨ VerifyHostname E x h = None) as Hh' by (case_bool_decide; auto).
  do 2 eexists. split; [done|split; [done|split]].
  - intros Hn. exists cert, key. split_and!; [done..|]. exists leaf, chain, x. split_and!; try done; [lia..|by apply Hk].
  - intros (? & ? & [= <-] & [= <-] & ? & ? & x' & Hp & Hq & _ & _ & _ & Hs). rewrite Hpair in Hp.
    injection Hp as <- <-. rewrite Hparse in Hq. injection Hq as <-. by apply Hk.
Qed.

Lemma read_pair_returns c k :
  returns (read_pair E c k) (λ r, ∀ t1 t2 h cc, pair_accepted E files t1 t2 c k h cc → r = Ok (cc_Cert cc, cc_Key cc)).
Proof.
  intros w Hw. unfold read_pair. case_bool_decide as Hc.
  { do 2 eexists. split_and!; [done..|]. by intros t1 t2 h [] [(_ & _ & -> & ->)|(? & _)]. }
  destruct (quiet_read c w Hw) as (r & w1 & -> & Hw1 & Hr).
  destruct r as [cert|e]; [|do 2 eexists; split_and!; [done..|]; intros t1 t2 h cc [(? & _)|(_ & _ & Hf & _)];
    [done|rewrite Hf in Hr; done]].
  destruct (quiet_read k w1 Hw1) as (r & w2 & -> & Hw2 & Hr2).
  destruct r as [key|e]; do 2 eexists; (split_and!; [done..|]); intros t1 t2 h cc [(? & _)|(_ & _ & Hf & Hf2 & _)];
    try done; rewrite Hf in Hr; rewrite Hf2 in Hr2; by simplify_eq.
Qed.

Lemma read_ca_returns p : returns (read_ca E p) (λ r, ∀ cc, ca_accepted E files p cc → r = Ok (cc_CA cc)).
Proof.
  intros w Hw. unfold read_ca. case_bool_decide as Hp.
  { do 2 eexists. split_and!; [done..|]. by intros [] [[_ ->]|[? _]]. }
  destruct (quiet_read p w Hw) as (r & w1 & -> & Hw1 & Hr).
  destruct r as [ca|e]; do 2 eexists; (split_and!; [done..|]); intros cc [[? _]|(_ & Hf & _)];
    try done; rewrite Hf in Hr; by simplify_eq.
Qed.

(** The checks accept the certificates and a content is determined by them. *)
Definition accepted (t1 t2 : Z) (c k a h : string) (cc : CertificateContent) : Prop :=
  pair_accepted E files t1 t2 c k h cc ∧ ca_accepted E files a cc.

Lemma check_pair_returns c k h : (c = "" ↔ k = "") →
  returns (λ w, if bool_decide (c = "") then (None, w) else validateCertKey E c k h w) (λ e,
    (e = None → ∃ cc, pair_accepted E files hi lo c k h cc) ∧ ((∃ cc, pair_accepted E files lo hi c k h cc) → e = None)).
Proof.
  intros Hck w Hw. unfold pair_accepted. case_bool_decide as Hc.
  - do 2 eexists. split; [done|split; [done|split; [|done]]]. intros _. exists (mkCertificateContent "" "" ""). left. naive_solver.
  - destruct (validateCertKey_returns c k h w Hw) as (e & w' & -> & Hw' & H1 & H2).
    do 2 eexists. split; [done|split; [done|split]].
    + intros (cert & key & Hf & Hf' & Hp)%H1. exists (mkCertificateContent cert key ""). right. cbn. naive_solver.
    + intros (cc & [(? & _)|(_ & _ & ? & ? & ?)]); [done|]. by apply H2; do 2 eexists.
Qed.

Lemma validateCert_returns c k a h :
  returns (validateCert E c k a h) (λ e,
    (e = None → ∃ cc, accepted hi lo c k a h cc) ∧ ((∃ cc, accepted lo hi c k a h cc) → e = None)).
Proof.
  intros w Hw. unfold validateCert, accepted, pair_accepted, ca_accepted.
  destruct (negb (bool_decide (c = "")) && bool_decide (k = "") || bool_decide (c = "") && negb (bool_decide (k = ""))) eqn:Hb.
  { do 2 eexists. split; [done|split; [done|split; [done|]]].
    apply orb_true_iff in Hb. rewrite !andb_true_iff, !negb_true_iff, !bool_decide_eq_true, !bool_decide_eq_false in Hb.
    intros (cc & [(? & ? & _)|(? & ? & _)] & _); naive_solver. }
  assert (c = "" ↔ k = "") as Hck.
  { apply orb_false_iff in Hb. rewrite !andb_false_iff, !negb_false_iff, !bool_decide_eq_true, !bool_decide_eq_false in Hb. naive_solver. }
  clear Hb.
  destruct (missing_returns c w Hw) as (b & w1 & -> & Hw1 & Hm).
  destruct b.
  { do 2 eexists. split; [done|split; [done|split; [done|]]].
    intros (cc & [(-> & _)|(_ & _ & Hf & _)] & _); [naive_solver|]. rewrite Hf in Hm. naive_solver. }
  destruct (missing_returns k w1 Hw1) as (b & w2 & -> & Hw2 & Hm').
  destruct b.
  { do 2 eexists. split; [done|split; [done|split; [done|]]].
    intros (cc & [(_ & -> & _)|(_ & _ & _ & Hf & _)] & _); [naive_solver|]. rewrite Hf in Hm'. naive_solver. }
  clear Hm Hm'.
  destruct (check_pair_returns c k h Hck w2 Hw2) as (e & w3 & -> & Hw3 & H1 & H2). destruct e as [e|].
  { do 2 eexists. split; [done|split; [done|split; [done|]]]. intros (cc & Hp & _). by specialize (H2 (ex_intro _ cc Hp)). }
  destruct (H1 eq_refl) as [cc Hcc]. clear H1 H2.
  case_bool_decide as Ha.
  { do 2 eexists. split; [done|split; [done|split; [|done]]]. intros _.
    exists (mkCertificateContent (cc_Cert cc) (cc_Key cc) ""). split; [exact Hcc|by left]. }
  destruct (missing_returns a w3 Hw3) as (b & w4 & -> & Hw4 & Hm). destruct b.
  { do 2 eexists. split; [done|split; [done|split; [done|]]]. intros (cc' & _ & [[? _]|(_ & Hf & _)]); [done|].
    rewrite Hf in Hm. naive_solver. }
  destruct (validateCA_returns a w4 Hw4) as (e & w5 & -> & Hw5 & He). destruct e as [e|].
  { do 2 eexists. split; [done|split; [done|split; [done|]]]. intros (cc' & _ & [[? _]|(_ & Hf & Hp)]); [done|].
    assert (Some e = None) by (apply He; by eexists). done. }
  do 2 eexists. split; [done|split; [done|split; [|done]]]. intros _. destruct He as [(s & Hf & Hp) _]; [done|].
  exists (mkCertificateContent (cc_Cert cc) (cc_Key cc) s). split; [exact Hcc|by right].
Qed.

Lemma Load_returns c k a h :
  returns (FileLoader_Load E c k a h) (λ r,
    (∀ cc, r = Ok cc → accepted hi lo c k a h cc) ∧ (∀ cc, accepted lo hi c k a h cc → r = Ok cc)).
Proof.
  intros w Hw. unfold FileLoader_Load.
  destruct (validateCert_returns c k a h w Hw) as (e & w1 & -> & Hw1 & H1 & H2). destruct e as [e|].
  { do 2 eexists. split; [done|split; [done|split; [done|]]]. intros cc Hcc. by specialize (H2 (ex_intro _ cc Hcc)). }
  destruct (H1 eq_refl) as [cc [Hp Ha]].
  destruct (read_pair_returns c k w1 Hw1) as (r & w2 & -> & Hw2 & Hr).
  destruct (read_ca_returns a w2 Hw2) as (r' & w3 & Hca & Hw3 & Hr').
  rewrite (Hr _ _ _ _ Hp), Hca, (Hr' _ Ha). do 2 eexists. split; [done|split; [done|split]].
  - intros _ [= <-]. by destruct cc.
  - intros cc' [Hp' Ha']. specialize (Hr _ _ _ _ Hp) as E1. rewrite (Hr _ _ _ _ Hp') in E1.
    specialize (Hr' _ Ha) as E2. rewrite (Hr' _ Ha') in E2. destruct cc, cc'. by simplify_eq/=.
Qed.
End facts.

(** ** The contract of the port

    What the loader promises to its clients: in a quiet world it returns, and
    the content it returns is one that [ok] allows for the paths and the host
    name; no paths mean no content. *)
Class CertContract {W} (L : CertificateLoader W) (quiet : W → Prop)
    (ok : string → string → string → string → CertificateContent → Prop) : Prop := {
  cert_load : ∀ c k a h w, quiet w → ∃ r w', cert_Load L c k a h w = (r, w') ∧ quiet w' ∧ ∀ cc, r = Ok cc → ok c k a h cc;
  cert_none : ∀ h, ok "" "" "" h (mkCertificateContent "" "" "")
}.

Global Instance NewFileLoader_contract {W} (E : CertEnv W) files lo hi quiet :
  QuietFiles E files lo hi quiet → CertContract (NewFileLoader E) quiet (accepted E files hi lo).
Proof.
  intros HQ. split.
  - intros c k a h w Hw. destruct (Load_returns E files lo hi quiet c k a h w Hw) as (r & w' & ? & ? & ? & _). by exists r, w'.
  - intros h. split; by left.
Qed.

(** ** A disk to evaluate the loader on

    The world is the clock and the number of reads made; "edge.pem" and
    "edge.key" hold a pair, and a pair is a certificate with the same letters. *)
Module disk.
Record W := mkW { clock : Z; reads : nat }.
Definition cert : X509Certificate := mkX509 "leaf" 100 900 (RSAKey 4096).
Definition env (files : nat → string → option string) : CertEnv W := {|
  os_Stat := λ p w, (match files (reads w) p with Some _ => None | None => Some (Errorf "no such file" []) end, w);
  os_ReadFile := λ p w,
    (match files (reads w) p with Some s => Ok s | None => Err (Errorf "no such file" []) end, mkW (clock w) (S (reads w)));
  time_Now := λ w, (clock w, mkW (Z.min 500 (clock w + 1)) (reads w));
  X509KeyPair := λ c k, if bool_decide (c = k) then Ok (c, []) else Err (Errorf "private key does not match" []);
  ParseCertificate := λ _, Ok cert;
  VerifyHostname := λ _ h, if bool_decide (h = "edge.example.com") then None else Some (Errorf "not valid for" []);
  AppendCertsFromPEM := λ s, negb (bool_decide (s = ""))
|}.
Definition files (p : string) : option string :=
  if decide (p = "edge.pem") then Some "pair" else
  if decide (p = "edge.key") then Some "pair" else
  if decide (p = "ca.pem") then Some "root" else None.
Definition quiet (w : W) : Prop := 400 <= clock w <= 500.

Global Instance env_quiet : QuietFiles (env (λ _, files)) files 400 500 quiet.
Proof.
  split.
  - intros p w Hw. do 2 eexists. split; [done|split; [done|]]. by intros [s ->].
  - intros p w Hw. do 2 eexists. split; [done|split; [done|]]. cbn. destruct (files p); [done|by eexists].
  - intros w Hw. do 2 eexists. split; [done|]. unfold quiet in *. cbn. lia.
Qed.
End disk.

(** The files are read again after the check: when the key file is replaced
    in between (the fourth read), the loader returns a pair that it has not
    checked and that does not match. *)
Example Load_rereads :
  let E := disk.env (λ n p, if decide (p = "edge.key" ∧ 3 <= n)%nat then Some "other" else disk.files p) in
  (FileLoader_Load E "edge.pem" "edge.key" "" "" (disk.mkW 450 0)).1 = Ok (mkCertificateContent "pair" "other" "") ∧
  X509KeyPair E "pair" "other" = Err (Errorf "private key does not match" []).
Proof. by vm_compute. Qed.

(** ** Properties *)

(** C35. While the files do not change and the clock stays between [lo] and
    [hi], the loader returns exactly the contents of the files, and it does so
    exactly when the configuration of paths makes sense and the files pass the
    checks: both a certificate and a key are named or neither is, the key
    belongs to the certificate, which is in its validity period, matches the
    host name if there is one and has a strong key, and the CA file holds a
    certificate.  The two directions differ only in when validity is read off
    the clock. *)
Theorem FileLoader_Load_spec {W} (E : CertEnv W) (files : string → option string) (lo hi : Z) (quiet : W → Prop)
    `{!QuietFiles E files lo hi quiet} (certPath keyPath caPath hostname : string) (w : W) :
  quiet w →
  ∃ r w', cert_Load (NewFileLoader E) certPath keyPath caPath hostname w = (r, w') ∧ quiet w' ∧
    (∀ cc, r = Ok cc → accepted E files hi lo certPath keyPath caPath hostname cc) ∧
    (∀ cc, accepted E files lo hi certPath keyPath caPath hostname cc → r = Ok cc).
Proof. apply (Load_returns E files lo hi quiet). Qed.

Lemma FileLoader_Load_spec_witness :
  ∃ w', cert_Load (NewFileLoader (disk.env (λ _, disk.files))) "edge.pem" "edge.key" "ca.pem" "edge.example.com" (disk.mkW 450 0)
    = (Ok (mkCertificateContent "pair" "pair" "root"), w').
Proof.
  destruct (FileLoader_Load_spec (disk.env (λ _, disk.files)) disk.files 400 500 disk.quiet
    "edge.pem" "edge.key" "ca.pem" "edge.example.com" (disk.mkW 450 0)) as (r & w' & E & _ & _ & H).
  - unfold disk.quiet. cbn. lia.
  - exists w'. rewrite E. f_equal. apply H. split; right; cbn.
    + split_and!; try done. exists "pair", [], disk.cert. cbn. split_and!; try done; [lia..|by right].
    + done.
Defined.
