(* ===== verification/Logging.v ===== *)
(** * The logger: internal/adapters/logging/zap.go

    The choice of level and encoder, the conversion of fields, and the call of
    zap each method makes.  What zap prints is not modelled. *)
From S2P Require Export Validators.

(** ** Definitions *)

Inductive Level := DebugLevel | InfoLevel | WarnLevel | ErrorLevel | FatalLevel.
Inductive Encoder := NewConsoleEncoder | NewJSONEncoder.

(** A value of a field, by the dynamic types [toZapFields] tells apart. *)
Inductive value := VString (s : string) | VInt (z : Z) | VError (e : error) | VOther (repr : string).
Record Field := mkField { f_Key : string; f_Value : value }.
Inductive zap_field :=
  | zap_String (key s : string)
  | zap_Int (key : string) (z : Z)
  | zap_Error (e : error)
  | zap_Any (key repr : string).

(** The zap logger behind a [zapLogger]: [None] is [zap.NewNop()]; the fields
    are those of [With]. *)
Record zapLogger := mkZap { zap_core : option (Level * Encoder); zap_context : list zap_field }.

Definition parseLevel (level : string) : result Level :=
  let l := strings.ToLower level in
  if bool_decide (l = "debug") then Ok DebugLevel else
  if bool_decide (l = "info") then Ok InfoLevel else
  if bool_decide (l = "warn") then Ok WarnLevel else
  if bool_decide (l = "error") then Ok ErrorLevel else
  if bool_decide (l = "fatal") then Ok FatalLevel else
  Err (Errorf "invalid log level: %s, must be one of: debug, info, warn, error, fatal" [FStr level]).

(** The two fields of [logging.LogConfig] are the arguments. *)
Definition Logging_New (Level Format : string) : result zapLogger :=
  match parseLevel Level with
  | Err err => Err err
  | Ok level =>
      let enc := if bool_decide (strings.ToLower Format = "console") then NewConsoleEncoder else NewJSONEncoder in
      Ok (mkZap (Some (level, enc)) [])
  end.
Definition NewNop : zapLogger := mkZap None [].

Definition toZapFields (fields : list Field) : list zap_field :=
  (λ f, match f_Value f with
        | VString v => zap_String (f_Key f) v
        | VInt v => zap_Int (f_Key f) v
        | VError v => zap_Error v
        | VOther v => zap_Any (f_Key f) v
        end) <$> fields.

(** The methods: each hands the message to the method of zap of its name. *)
Record zap_call := mkCall { call_level : Level; call_msg : string; call_fields : list zap_field }.
Definition Debug (msg : string) (fields : list Field) := mkCall DebugLevel msg (toZapFields fields).
Definition Info (msg : string) (fields : list Field) := mkCall InfoLevel msg (toZapFields fields).
Definition Warn (msg : string) (fields : list Field) := mkCall WarnLevel msg (toZapFields fields).
Definition Error (msg : string) (fields : list Field) := mkCall ErrorLevel msg (toZapFields fields).
Definition Fatal (msg : string) (fields : list Field) := mkCall FatalLevel msg (toZapFields fields).
Definition With (l : zapLogger) (fields : list Field) : zapLogger :=
  mkZap (zap_core l) (zap_context l ++ toZapFields fields).
(** [Sync] ignores the error of zap. *)
Definition Sync (zap_Sync : zapLogger → option error) (l : zapLogger) : option error :=
  let _ := zap_Sync l in None.

(** ** Facts *)

Lemma parseLevel_Ok level :
  strings.ToLower level ∈ ["debug"; "info"; "warn"; "error"; "fatal"] ↔ ∃ l, parseLevel level = Ok l.
Proof.
  unfold parseLevel. rewrite !elem_of_cons. split.
  - intros H. repeat (case_bool_decide; [by eexists|]). destruct_or?; [congruence..|]. by apply not_elem_of_nil in H.
  - intros [l H]. repeat (case_bool_decide; [tauto|]). done.
Qed.

(** A level and a format that the validator accepts make a logger. *)
Lemma New_validated level format :
  strings.ToLower level ∈ ["debug"; "info"; "warn"; "error"; "fatal"] →
  ∃ l enc, Logging_New level format = Ok (mkZap (Some (l, enc)) []) ∧ parseLevel level = Ok l ∧
    (enc = NewConsoleEncoder ↔ strings.ToLower format = "console").
Proof.
  intros [l Hl]%parseLevel_Ok. unfold Logging_New. rewrite Hl. do 2 eexists. split; [done|]. split; [done|].
  by case_bool_decide.
Qed.
