(* ===== verification/Loader.v ===== *)
(** * The configuration loader: internal/adapters/config/viper.go

    [ViperLoader.Load] reads the file with viper, decodes it with mapstructure,
    loads the certificates of each load balancer, applies the defaults and
    validates the result.  Viper and mapstructure are parameters, as functions
    from settings to decoded structs; so is the certificate loader, through its
    port. *)
From S2P Require Export Certificates Validators.
From Stdlib Require Import Lia.
Local Open Scope Z_scope.

(** ** Definitions *)

(** The default values given to viper. *)
Inductive setting := SDuration (d : Z) | SInt (z : Z) | SBool (b : bool) | SString (s : string).
Definition viper_defaults : list (string * setting) := [
  ("global_upstream_sync_period", SDuration GlobalUpstreamSyncPeriod);
  ("request_pool_size", SInt RequestPoolSize);
  ("allow_empty_upstream", SBool false);
  ("leader_election.enabled", SBool false);
  ("leader_election.lease_duration", SDuration LeaderElectionLeaseDuration);
  ("leader_election.renew_deadline", SDuration LeaderElectionRenewDeadline);
  ("leader_election.retry_period", SDuration LeaderElectionRetryPeriod);
  ("leader_election.lease_name", SString LeaderElectionLeaseName);
  ("leader_election.lease_namespace", SString LeaderElectionLeaseNamespace);
  ("log.level", SString LogLevel);
  ("log.format", SString LogFormat);
  ("log.enabled", SBool true);
  ("metrics.port", SInt MetricsPort);
  ("metrics.uri", SString MetricsURI);
  ("metrics.enabled", SBool true);
  ("kubernetes.resync_period", SDuration KubernetesResyncPeriod)].

(** Dynamic data, as the decode hook tells it apart. *)
Inductive dyn := DString (s : string) | DDuration (d : Z) | DOther (repr : string).

(** [StringToDurationHookFunc]: [to_duration] tells whether the target of the
    decoding is a [time.Duration]. *)
Definition StringToDurationHookFunc (ParseDuration : string → result Z) (to_duration : bool) (data : dyn) : result dyn :=
  match data with
  | DString s =>
      if negb to_duration then Ok data else
      match ParseDuration s with Ok d => Ok (DDuration d) | Err err => Err err end
  | _ => Ok data
  end.

(** The struct [rawConfig]; a load balancer is still a map. *)
Record rawConfig (RawLB : Type) := mkRaw {
  raw_GlobalUpstreamSyncPeriod : Z;
  raw_LeaderElection : LeaderElectionConfig;
  raw_Log : LogConfig;
  raw_Metrics : MetricsConfig;
  raw_Kubernetes : KubernetesConfig;
  raw_GlobalIPReplacementList : GlobalIPReplacementList;
  raw_LoadBalancers : list RawLB;
  raw_RequestPoolSize : Z;
  raw_AllowEmptyUpstream : bool;
  raw_DefaultBackend : option DefaultBackendConfig
}.
Arguments mkRaw {_} _ _ _ _ _ _ _ _ _ _.
Arguments raw_GlobalUpstreamSyncPeriod {_} _.
Arguments raw_LeaderElection {_} _.
Arguments raw_Log {_} _.
Arguments raw_Metrics {_} _.
Arguments raw_Kubernetes {_} _.
Arguments raw_GlobalIPReplacementList {_} _.
Arguments raw_LoadBalancers {_} _.
Arguments raw_RequestPoolSize {_} _.
Arguments raw_AllowEmptyUpstream {_} _.
Arguments raw_DefaultBackend {_} _.

(** viper and mapstructure: [ReadInConfig] with the defaults and the environment
    gives the settings; the decoders run with the hook; [lbRaw["type"].(string)]
    is [raw_type]. *)
Record ViperEnv (Settings RawLB : Type) := mkViperEnv {
  ReadInConfig : string → list (string * setting) → result Settings;
  ParseDuration : string → result Z;
  NewDecoder : option error;
  Decode_raw : (bool → dyn → result dyn) → Settings → result (rawConfig RawLB);
  raw_type : RawLB → option string;
  Decode_nginx : (bool → dyn → result dyn) → RawLB → result NginxConfig;
  Decode_envoy : (bool → dyn → result dyn) → RawLB → result EnvoyConfig
}.
Arguments ReadInConfig {_ _} _ _ _.
Arguments ParseDuration {_ _} _ _.
Arguments NewDecoder {_ _} _.
Arguments Decode_raw {_ _} _ _ _.
Arguments raw_type {_ _} _ _.
Arguments Decode_nginx {_ _} _ _ _.
Arguments Decode_envoy {_ _} _ _ _.

(** The contents and the lower-case type stored into a decoded struct. *)
Definition nginx_with (cc : CertificateContent) (typeStr : string) (c : NginxConfig) : NginxConfig :=
  let '(mkNginx _ n r rl a la aa ra sp ft rt p h cp kp cap _ _ _ rps po ae db) := c in
  mkNginx typeStr n r rl a la aa ra sp ft rt p h cp kp cap (cc_Cert cc) (cc_Key cc) (cc_CA cc) rps po ae db.
Definition envoy_with (cc : CertificateContent) (typeStr : string) (c : EnvoyConfig) : EnvoyConfig :=
  let '(mkEnvoy _ n r rl a sp rt p h cp kp cap _ _ _ rps po ae db) := c in
  mkEnvoy typeStr n r rl a sp rt p h cp kp cap (cc_Cert cc) (cc_Key cc) (cc_CA cc) rps po ae db.

Section loader.
Context {W Settings RawLB : Type} (V : ViperEnv Settings RawLB) (certLoader : CertificateLoader W) (path : string).

Definition mapstructureDecode {A} (Decode : (bool → dyn → result dyn) → RawLB → result A) (input : RawLB) : result A :=
  match NewDecoder V with
  | Some err => Err err
  | None => Decode (StringToDurationHookFunc (ParseDuration V)) input
  end.

Definition loadCertificatesForLoadBalancer (configName certPath keyPath caPath hostname : string)
    : ST W (result CertificateContent) := λ w,
  if bool_decide (certPath = "") && bool_decide (keyPath = "") && bool_decide (caPath = "")
  then (Ok (mkCertificateContent "" "" ""), w) else
  let '(r, w) := cert_Load certLoader certPath keyPath caPath hostname w in
  match r with
  | Err err => (Err (Errorf "failed to load certificates for %s '%s': %w"
                 [FStr (strings.ToLower configName); FStr configName; FErr err]), w)
  | Ok certContent => (Ok certContent, w)
  end.

(** One turn of the loop over the load balancers. *)
Definition load_lb (lbRaw : RawLB) : ST W (result LoadBalancerConfig) := λ w,
  match raw_type V lbRaw with
  | None => (Err (Errorf "loadbalancer type is missing or invalid" []), w)
  | Some typeRaw =>
  let typeStr := strings.ToLower typeRaw in
  if bool_decide (typeStr = "nginx") then
    match mapstructureDecode (Decode_nginx V) lbRaw with
    | Err err => (Err (Errorf "unmarshal nginx config: %w" [FErr err]), w)
    | Ok c =>
        let '(r, w) := loadCertificatesForLoadBalancer (ng_Name c) (ng_CertPath c) (ng_KeyPath c) (ng_CAPath c) (ng_Hostname c) w in
        match r with
        | Err err => (Err err, w)
        | Ok certContent => (Ok (LBNginx (nginx_with certContent typeStr c)), w)
        end
    end
  else if bool_decide (typeStr = "envoy") then
    match mapstructureDecode (Decode_envoy V) lbRaw with
    | Err err => (Err (Errorf "unmarshal envoy config: %w" [FErr err]), w)
    | Ok c =>
        let '(r, w) := loadCertificatesForLoadBalancer (en_Name c) (en_CertPath c) (en_KeyPath c) (en_CAPath c) (en_Hostname c) w in
        match r with
        | Err err => (Err err, w)
        | Ok certContent => (Ok (LBEnvoy (envoy_with certContent typeStr c)), w)
        end
    end
  else (Err (Errorf "unsupported loadbalancer type: %s" [FStr typeStr]), w)
  end.

Fixpoint load_lbs (lbs : list LoadBalancerConfig) (raws : list RawLB) : ST W (result (list LoadBalancerConfig)) := λ w,
  match raws with
  | [] => (Ok lbs, w)
  | lbRaw :: raws =>
      let '(r, w) := load_lb lbRaw w in
      match r with
      | Err err => (Err err, w)
      | Ok lb => load_lbs (lbs ++ [lb]) raws w
      end
  end.

Definition assemble (raw : rawConfig RawLB) (lbs : list LoadBalancerConfig) : Config :=
  {| cfg_GlobalUpstreamSyncPeriod := raw_GlobalUpstreamSyncPeriod raw;
     cfg_LeaderElection := raw_LeaderElection raw;
     cfg_Log := raw_Log raw;
     cfg_Metrics := raw_Metrics raw;
     cfg_Kubernetes := raw_Kubernetes raw;
     cfg_GlobalIPReplacementList := raw_GlobalIPReplacementList raw;
     cfg_LoadBalancers := lbs;
     cfg_RequestPoolSize := raw_RequestPoolSize raw;
     cfg_AllowEmptyUpstream := raw_AllowEmptyUpstream raw;
     cfg_DefaultBackend := raw_DefaultBackend raw |}.

(** [ctx_err] is [ctx.Err()]. *)
Definition Load (ctx_err : option error) : ST W (result Config) := λ w,
  match ctx_err with
  | Some err => (Err err, w)
  | None =>
  match ReadInConfig V path viper_defaults with
  | Err err => (Err (Errorf "read config: %w" [FErr err]), w)
  | Ok settings =>
  match NewDecoder V with
  | Some err => (Err (Errorf "create decoder: %w" [FErr err]), w)
  | None =>
  match Decode_raw V (StringToDurationHookFunc (ParseDuration V)) settings with
  | Err err => (Err (Errorf "unmarshal raw config: %w" [FErr err]), w)
  | Ok raw =>
  let '(r, w) := load_lbs [] (raw_LoadBalancers raw) w in
  match r with
  | Err err => (Err err, w)
  | Ok lbs =>
      let cfg := ApplyDefaultValues (assemble raw lbs) in
      match CompositeValidator_Validate cfg with
      | Some err => (Err (Errorf "validate config: %w" [FErr err]), w)
      | None => (Ok cfg, w)
      end
  end end end end end.
End loader.

(** ** Loaded configurations *)

(** The dynamic type of a load balancer is a struct and agrees with its type. *)
Definition typed (lb : LoadBalancerConfig) : Prop :=
  match lb with
  | LBNginx c => ng_Type c = "nginx"
  | LBEnvoy c => en_Type c = "envoy"
  | _ => False
  end.

(** The content of its certificates is what the loader allows for its paths. *)
Definition lb_content : LoadBalancerConfig → CertificateContent :=
  lb_get (λ c, mkCertificateContent (ng_Cert c) (ng_Key c) (ng_CA c)) (λ c, mkCertificateContent (en_Cert c) (en_Key c) (en_CA c)).
Definition certified (ok : string → string → string → string → CertificateContent → Prop) (lb : LoadBalancerConfig) : Prop :=
  ok (lb_get ng_CertPath en_CertPath lb) (lb_get ng_KeyPath en_KeyPath lb) (lb_get ng_CAPath en_CAPath lb)
    (GetHostName lb) (lb_content lb).

Record loaded_ok (ok : string → string → string → string → CertificateContent → Prop) (cfg : Config) : Prop := {
  ld_valid : config_ok cfg;
  ld_typed : Forall typed (cfg_LoadBalancers cfg);
  ld_certified : Forall (certified ok) (cfg_LoadBalancers cfg);
  ld_defaults : ApplyDefaultValues cfg = cfg;
  ld_period : 0 < cfg_GlobalUpstreamSyncPeriod cfg;
  ld_periods : Forall (λ lb, 0 < GetUpstreamSyncPeriod lb) (cfg_LoadBalancers cfg)
}.

(** ** Facts *)

Lemma apply_lb_defaults_typed period pool allow db lb : typed lb → typed (apply_lb_defaults period pool allow db lb).
Proof. by destruct lb as [[]|[]|[]|[]]. Qed.
Lemma apply_lb_defaults_certified ok period pool allow db lb :
  certified ok lb → certified ok (apply_lb_defaults period pool allow db lb).
Proof. by destruct lb as [[]|[]|[]|[]]. Qed.
Lemma apply_lb_defaults_period period pool allow db lb :
  GetUpstreamSyncPeriod (apply_lb_defaults period pool allow db lb) = or_default (GetUpstreamSyncPeriod lb) period.
Proof. by destruct lb as [[]|[]|[]|[]]. Qed.

Lemma or_default_pos x d : 0 < d → 0 <= or_default x d → 0 < or_default x d.
Proof. unfold or_default. destruct (Z.eqb_spec x 0); lia. Qed.

Lemma config_ok_period cfg lb : config_ok cfg → lb ∈ cfg_LoadBalancers cfg → 0 <= GetUpstreamSyncPeriod lb.
Proof.
  intros [_ _ _ _ _ _ _ _ _ H] Hin. rewrite list.Forall_forall in H. destruct (H lb Hin) as [_ _ _ _ _ _ _ Hk].
  destruct lb as [c|c|c|c]; cbn in *; unfold nginx_ok, envoy_ok in Hk; tauto.
Qed.

Section facts.
Context {W Settings RawLB : Type} (V : ViperEnv Settings RawLB) (L : CertificateLoader W) (path : string)
  (quiet : W → Prop) (ok : string → string → string → string → CertificateContent → Prop) `{!CertContract L quiet ok}.

Lemma loadCertificates_ok n c k a h w : quiet w →
  ∃ r w', loadCertificatesForLoadBalancer L n c k a h w = (r, w') ∧ quiet w' ∧ ∀ cc, r = Ok cc → ok c k a h cc.
Proof.
  intros Hw. unfold loadCertificatesForLoadBalancer. destruct (_ && _) eqn:Hb.
  - rewrite !andb_true_iff, !bool_decide_eq_true in Hb. destruct Hb as [[-> ->] ->].
    do 2 eexists. split; [done|]. split; [done|]. intros _ [= <-]. apply cert_none.
  - destruct (cert_load c k a h w Hw) as (r & w' & -> & Hw' & Hok). destruct r; do 2 eexists; by split_and!.
Qed.

Lemma load_lb_ok lbRaw w : quiet w →
  ∃ r w', load_lb V L lbRaw w = (r, w') ∧ quiet w' ∧ ∀ lb, r = Ok lb → typed lb ∧ certified ok lb.
Proof.
  intros Hw. unfold load_lb. destruct (raw_type V lbRaw) as [t|]; [|by do 2 eexists; split_and!].
  case_bool_decide as Hn; [|case_bool_decide as He; [|by do 2 eexists; split_and!]].
  - destruct (mapstructureDecode _ _ _) as [c|e]; [|by do 2 eexists; split_and!].
    destruct (loadCertificates_ok (ng_Name c) (ng_CertPath c) (ng_KeyPath c) (ng_CAPath c) (ng_Hostname c) w Hw)
      as (r & w' & -> & Hw' & Hok). destruct r as [cc|e]; do 2 eexists; (split; [done|split; [done|]]); [|done].
    intros _ [= <-]. destruct c, cc. split; [exact Hn|]. by apply Hok.
  - destruct (mapstructureDecode _ _ _) as [c|e]; [|by do 2 eexists; split_and!].
    destruct (loadCertificates_ok (en_Name c) (en_CertPath c) (en_KeyPath c) (en_CAPath c) (en_Hostname c) w Hw)
      as (r & w' & -> & Hw' & Hok). destruct r as [cc|e]; do 2 eexists; (split; [done|split; [done|]]); [|done].
    intros _ [= <-]. destruct c, cc. split; [exact He|]. by apply Hok.
Qed.

Lemma load_lbs_ok raws lbs w : quiet w → Forall typed lbs → Forall (certified ok) lbs →
  ∃ r w', load_lbs V L lbs raws w = (r, w') ∧ quiet w' ∧
    ∀ lbs', r = Ok lbs' → Forall typed lbs' ∧ Forall (certified ok) lbs'.
Proof.
  revert lbs w. induction raws as [|lbRaw raws IH]; intros lbs w Hw Ht Hc; cbn [load_lbs].
  { do 2 eexists. split; [done|split; [done|]]. by intros _ [= <-]. }
  destruct (load_lb_ok lbRaw w Hw) as (r & w' & -> & Hw' & Hlb). destruct r as [lb|e].
  - destruct (Hlb lb eq_refl). apply IH; [done|apply list.Forall_app; split; [done|by constructor]..].
  - by do 2 eexists; split_and!.
Qed.

Lemma assemble_ok (raw : rawConfig RawLB) lbs :
  let cfg := ApplyDefaultValues (assemble raw lbs) in
  config_ok cfg → Forall typed lbs → Forall (certified ok) lbs → loaded_ok ok cfg.
Proof.
  intros cfg Hok Ht Hc. assert (0 < cfg_GlobalUpstreamSyncPeriod cfg) as Hp.
  { apply or_default_pos; [done|]. apply Hok. }
  split; [done| | |apply ApplyDefaultValues_idem|done|].
  - apply list.Forall_fmap. eapply Forall_impl; [|exact Ht]. intros lb. apply apply_lb_defaults_typed.
  - apply list.Forall_fmap. eapply Forall_impl; [|exact Hc]. intros lb. apply apply_lb_defaults_certified.
  - apply list.Forall_forall. intros lb Hlb. pose proof (config_ok_period _ _ Hok Hlb) as Hlp.
    apply list_elem_of_fmap in Hlb as (lb0 & -> & _). rewrite apply_lb_defaults_period in *. by apply or_default_pos.
Qed.

Lemma Load_ok ctx_err w : quiet w →
  ∃ r w', Load V L path ctx_err w = (r, w') ∧ quiet w' ∧ ∀ cfg, r = Ok cfg → loaded_ok ok cfg.
Proof.
  intros Hw. unfold Load. destruct ctx_err; [by do 2 eexists; split_and!|].
  destruct (ReadInConfig V path viper_defaults) as [settings|]; [|by do 2 eexists; split_and!].
  destruct (NewDecoder V); [by do 2 eexists; split_and!|].
  destruct (Decode_raw V _ settings) as [raw|]; [|by do 2 eexists; split_and!].
  destruct (load_lbs_ok (raw_LoadBalancers raw) [] w Hw) as (r & w' & -> & Hw' & Hlbs); [constructor..|].
  destruct r as [lbs|]; [|by do 2 eexists; split_and!].
  destruct (CompositeValidator_Validate _) eqn:Hv; [by do 2 eexists; split_and!|].
  apply composite_None in Hv. destruct (Hlbs lbs eq_refl). do 2 eexists. split; [done|split; [done|]].
  intros _ [= <-]. by apply assemble_ok.
Qed.
End facts.

(** ** A file to evaluate the loader on

    The settings are the raw configuration itself, with one load balancer map;
    its type is written in capitals. *)
Module file.
Definition nginx : NginxConfig :=
  mkNginx "NGINX" "edge" false (mkIPReplacementList [] [] [] []) [mkAddress "192.0.2.1" 443]
    "/list" "/add" "/remove" 0 0 0 "https" "edge.example.com" "edge.pem" "edge.key" "ca.pem" "" "" "" 0 false false None.
Definition raw : rawConfig NginxConfig :=
  mkRaw 0 (mkLeaderElection false "" "" 0 0 0) (mkLog true "Info" "json") (mkMetrics true 9090 "/metrics")
    (mkKubernetes 0 "") (mkGlobalList [] []) [nginx] 0 false None.
Definition env : ViperEnv (rawConfig NginxConfig) NginxConfig := {|
  ReadInConfig := λ _ _, Ok raw;
  ParseDuration := λ _, Ok 0;
  NewDecoder := None;
  Decode_raw := λ _ s, Ok s;
  raw_type := λ c, Some (ng_Type c);
  Decode_nginx := λ _ c, Ok c;
  Decode_envoy := λ _ _, Err (Errorf "no envoy" [])
|}.
Definition certs : CertificateLoader disk.W := NewFileLoader (disk.env (λ _, disk.files)).
Definition config : Config :=
  ApplyDefaultValues (assemble raw [LBNginx (nginx_with (mkCertificateContent "pair" "pair" "root") "nginx" nginx)]).
Definition run : result Config * disk.W := Load env certs "config.yaml" None (disk.mkW 450 0).
Lemma run_config : run.1 = Ok config.
Proof. vm_compute. reflexivity. Qed.
End file.

(** ** Properties *)

(** C24. A configuration that loads is well-typed and valid: it satisfies every
    validation rule, each load balancer is a struct of the type its type string
    names, in lower case, with certificates its loader allows for its paths and
    host name; the defaults have been applied, and no period is zero.  And when
    the file reads and decodes, loading succeeds exactly when the configuration
    with its defaults satisfies the rules, and is a validation error
    otherwise. *)
Theorem Load_valid {W Settings RawLB} (V : ViperEnv Settings RawLB) (L : CertificateLoader W) (path : string)
    (quiet : W → Prop) (ok : string → string → string → string → CertificateContent → Prop) `{!CertContract L quiet ok}
    (ctx_err : option error) (w : W) :
  quiet w →
  ∃ r w', Load V L path ctx_err w = (r, w') ∧ quiet w' ∧
    (∀ cfg, r = Ok cfg → loaded_ok ok cfg) ∧
    (∀ settings raw lbs w1, ctx_err = None → ReadInConfig V path viper_defaults = Ok settings → NewDecoder V = None →
      Decode_raw V (StringToDurationHookFunc (ParseDuration V)) settings = Ok raw →
      load_lbs V L [] (raw_LoadBalancers raw) w = (Ok lbs, w1) →
      let cfg := ApplyDefaultValues (assemble raw lbs) in
      (config_ok cfg → r = Ok cfg) ∧
      (¬ config_ok cfg → ∃ e, r = Err (Errorf "validate config: %w" [FErr e]))).
Proof.
  intros Hw. destruct (Load_ok V L path quiet ok ctx_err w Hw) as (r & w' & HL & Hw' & Hok).
  exists r, w'. split_and!; [done..|]. intros settings raw lbs w1 -> HR HN HD HB cfg. revert HL.
  unfold Load. rewrite HR, HN, HD, HB. fold cfg. destruct (CompositeValidator_Validate cfg) as [e|] eqn:Hv; intros [= <- <-].
  - split; [|by eexists]. intros Hc%composite_None. congruence.
  - apply composite_None in Hv. by split.
Qed.

Lemma Load_valid_witness :
  ∃ cfg, file.run.1 = Ok cfg ∧ loaded_ok (accepted (disk.env (λ _, disk.files)) disk.files 500 400) cfg ∧
    GetType <$> cfg_LoadBalancers cfg = ["nginx"].
Proof.
  destruct (Load_valid file.env file.certs "config.yaml" disk.quiet
    (accepted (disk.env (λ _, disk.files)) disk.files 500 400) None (disk.mkW 450 0)) as (r & w' & E & _ & H & _).
  - unfold disk.quiet. cbn. lia.
  - exists file.config. pose proof file.run_config as Hr. split; [exact Hr|]. split; [|reflexivity].
    apply H. change (file.run = (r, w')) in E. by rewrite E in Hr.
Defined.
