(* ===== verification/NginxFormat.v ===== *)
(** * What the NGINX adapter writes and reads

    The text functions of internal/adapters/loadbalancer/nginx/nginx.go: keys
    and addresses of backends, the paths of the add and remove requests, and
    the parser of the listing NGINX returns. *)
From S2P Require Export GoNetFacts GoURL Model Config Validators.
From Stdlib Require Import Lia.
Local Open Scope Z_scope.

(** ** Definitions *)

Definition cleanIP (ip : string) : string :=
  strings.Trim (strings.TrimSpace ip) (λ c, is_char c "[" || is_char c "]").

Definition sameBackend (b1 b2 : Backend) : bool :=
  bool_decide (cleanIP (be_IP b1) = cleanIP (be_IP b2)) && (be_Port b1 =? be_Port b2).

Definition backendKey (b : Backend) : string := cleanIP (be_IP b) +:+ ":" +:+ fmt_d (be_Port b).

Definition formatServerAddr (ip : string) (port : Z) : string :=
  let cIP := cleanIP ip in
  if strings.Contains cIP ":" then "[" +:+ cIP +:+ "]:" +:+ fmt_d port
  else cIP +:+ ":" +:+ fmt_d port.

Definition hasQueryParam (rawURL param : string) : bool :=
  match url.Parse rawURL with
  | None => false
  | Some u => url.Has (url.ParseQuery (url.RawQuery u)) param
  end.

Definition buildAddPath (addAPI upstreamName serverAddr : string) (weight : Z) : string :=
  let api := strings.TrimPrefix addAPI "/" in
  let delim := if strings.Contains api "?" then "&" else "?" in
  let path := api +:+ delim +:+ "upstream=" +:+ url.QueryEscape upstreamName +:+
              "&server=" +:+ url.QueryEscape serverAddr +:+ "&weight=" +:+ fmt_d weight in
  if negb (hasQueryParam addAPI "add") then path +:+ "&add=" else path.

Definition buildRemovePath (removeAPI upstreamName serverAddr : string) : string :=
  let api := strings.TrimPrefix removeAPI "/" in
  let delim := if strings.Contains api "?" then "&" else "?" in
  let path := api +:+ delim +:+ "upstream=" +:+ url.QueryEscape upstreamName +:+
              "&server=" +:+ url.QueryEscape serverAddr in
  if negb (hasQueryParam removeAPI "remove") then path +:+ "&remove=" else path.

(** The weight of a server line: the first field with the prefix decides. *)
Fixpoint parse_weight (fields : list string) : Z :=
  match fields with
  | [] => 1
  | f :: fields =>
      if strings.HasPrefix f "weight=" then
        match strconv.Atoi (strings.TrimPrefix f "weight=") with
        | Some w => if 0 <? w then w else 1
        | None => 1
        end
      else parse_weight fields
  end.

(** The body of the branch for a server line; [None] is [continue]. *)
Definition parse_server (line : string) : option Backend :=
  let line := strings.TrimPrefix line "server " in
  let line := strings.TrimSpace line in
  let line := strings.TrimSuffix line ";" in
  match strings.Fields line with
  | [] => None
  | hostPort :: fields =>
      '(host, portStr) ← SplitHostPort hostPort;
      port ← strconv.Atoi portStr;
      let weight := parse_weight fields in
      let ip := if strings.Contains host ":" && strings.HasPrefix hostPort "["
                then "[" +:+ host +:+ "]" else host in
      Some (mkBackend ip (int32 port) weight)
  end.

Definition parse_header (line : string) : string :=
  let trimmed := strings.TrimSuffix line ":" in
  let trimmed := strings.TrimPrefix trimmed "upstream " in
  let trimmed := strings.TrimSuffix trimmed "{" in
  strings.TrimSpace trimmed.

Definition is_comment (line : string) : bool :=
  bool_decide (line = "") || strings.HasPrefix line "#" || strings.HasPrefix line "//".
Definition is_header (line : string) : bool :=
  strings.HasSuffix line ":" || strings.HasPrefix line "upstream " || strings.HasSuffix line "{".

(** The loop over the lines carries [result] and [currentUpstream]. *)
Definition parse_state : Type := gmap string (list Backend) * string.
Definition parse_line (st : parse_state) (line : string) : parse_state :=
  let '(result, currentUpstream) := st in
  let line := strings.TrimSpace line in
  if is_comment line then st
  else if strings.HasPrefix line "server " then
    match parse_server line with
    | None => st
    | Some backend =>
        (<[currentUpstream := default [] (result !! currentUpstream) ++ [backend]]> result,
         currentUpstream)
    end
  else if is_header line then (result, parse_header line)
  else st.

Definition NL : ascii := "010".
Definition parseBulkNginxBackends (response : string) : gmap string (list Backend) :=
  (foldl parse_line (∅, "") (strings.Split response NL)).1.

(** ** The listing NGINX returns, printed *)

(** The backend as the parser reports it: an IPv6 address in brackets. *)
Definition listed (b : Backend) : Backend :=
  mkBackend (if strings.Contains (cleanIP (be_IP b)) ":" then "[" +:+ cleanIP (be_IP b) +:+ "]"
             else cleanIP (be_IP b)) (be_Port b) (be_Weight b).

Definition print_server (b : Backend) : string :=
  "server " +:+ formatServerAddr (be_IP b) (be_Port b) +:+ String " " ("weight=" +:+ fmt_d (be_Weight b) +:+ ";").
Definition print_upstream (u : string * list Backend) : list string :=
  (u.1 +:+ ":") :: (print_server <$> u.2).
(** Lines, each ended by a newline. *)
Fixpoint unlines (ls : list string) : string :=
  match ls with [] => "" | l :: ls => l +:+ String NL (unlines ls) end.
Definition print_listing (ups : list (string * list Backend)) : string :=
  unlines (ups ≫= print_upstream).

(** Bytes of addresses and of the values of Kubernetes labels. *)
Definition addr_char (c : ascii) : bool := url.is_alnum c || is_char c "." || is_char c ":".
Definition name_char (c : ascii) : bool := url.is_alnum c || url.in_chars "-_." c.

Definition backend_ok (b : Backend) : Prop :=
  cleanIP (be_IP b) ≠ "" ∧ str_forallb addr_char (cleanIP (be_IP b)) = true ∧
  0 <= be_Port b < 2 ^ 31 ∧ 1 <= be_Weight b < 2 ^ 63.
Definition upstream_name_ok (n : string) : Prop := n ≠ "" ∧ str_forallb name_char n = true.

(** ** Facts *)

Lemma addr_char_solid c : addr_char c = true → solid c = true.
Proof. destruct c as [[] [] [] [] [] [] [] []]; by vm_compute. Qed.
Lemma addr_char_bracket c : addr_char c = true → is_char c "[" || is_char c "]" = false.
Proof. destruct c as [[] [] [] [] [] [] [] []]; by vm_compute. Qed.
Lemma name_char_solid c : name_char c = true → solid c = true.
Proof. destruct c as [[] [] [] [] [] [] [] []]; by vm_compute. Qed.
Lemma digit_solid c : is_digit c || is_char c "-" = true → solid c = true.
Proof. destruct c as [[] [] [] [] [] [] [] []]; by vm_compute. Qed.

Lemma fmt_d_solid z : str_forallb solid (fmt_d z) = true.
Proof. eapply str_forallb_impl, pretty_Z_chars. apply digit_solid. Qed.
Lemma fmt_d_free c z : is_digit c || is_char c "-" = false → str_free c (fmt_d z) = true.
Proof. apply pretty_Z_free. Qed.

Lemma addr_free c s : str_forallb addr_char s = true → addr_char c = false → str_free c s = true.
Proof.
  intros H Hc. eapply str_forallb_impl, H. intros d Hd. apply negb_true_iff, is_char_false.
  intros ->. congruence.
Qed.

Lemma name_free c s : str_forallb name_char s = true → name_char c = false → str_free c s = true.
Proof.
  intros H Hc. eapply str_forallb_impl, H. intros d Hd. apply negb_true_iff, is_char_false.
  intros ->. congruence.
Qed.

(** Same key, same backend. *)
Lemma backendKey_same b1 b2 : backendKey b1 = backendKey b2 ↔ sameBackend b1 b2 = true.
Proof.
  unfold backendKey, sameBackend. rewrite andb_true_iff, bool_decide_eq_true, Z.eqb_eq. split.
  - intros E. apply (app_last_sep_inj ":") in E as [-> E]; try by apply fmt_d_free.
    split; [done|]. by apply (inj (pretty : Z → string)).
  - by intros [-> ->].
Qed.

Lemma SplitHostPort_plain a p :
  str_free ":" a = true → str_free "[" a = true → str_free "]" a = true →
  a ≠ "" → SplitHostPort (a +:+ ":" +:+ fmt_d p) = Some (a, fmt_d p).
Proof.
  intros H1 H2 H3 Ha. unfold SplitHostPort. change (":" +:+ fmt_d p) with (String ":" (fmt_d p)).
  rewrite cut_last_app by (by apply fmt_d_free). cbn [mbind option_bind].
  assert (∀ c, (c = "["%char ∨ c = "]"%char) → str_free c a = true →
    strings.Contains (a +:+ String ":" (fmt_d p)) (String c "") = false) as Hc.
  { intros c Hc Hf. rewrite Contains_char, str_free_app, str_free_cons, Hf, fmt_d_free;
      by destruct Hc as [-> | ->]. }
  rewrite Contains_char, H1, !Hc by auto. cbn [negb].
  destruct a as [|c a]; [done|]. rewrite app_cons_s. rewrite str_free_cons in H2.
  destruct c as [[] [] [] [] [] [] [] []]; done.
Qed.

Lemma SplitHostPort_bracket a p :
  str_free "[" a = true → str_free "]" a = true →
  SplitHostPort ("[" +:+ a +:+ "]:" +:+ fmt_d p) = Some (a, fmt_d p).
Proof.
  intros H1 H2. unfold SplitHostPort.
  assert ("[" +:+ a +:+ "]:" +:+ fmt_d p = ("[" +:+ a +:+ "]") +:+ String ":" (fmt_d p)) as E
    by (by rewrite !app_assoc_s).
  rewrite E at 1. rewrite cut_last_app by (by apply fmt_d_free). cbn [mbind option_bind].
  change ("[" +:+ a +:+ "]:" +:+ fmt_d p) with (String "[" (a +:+ String "]" (String ":" (fmt_d p)))).
  cbv iota. rewrite Cut_app by done. cbn [negb]. rewrite bool_decide_true by done. cbn [negb].
  rewrite !Contains_char, str_free_app, H1, !str_free_cons, !fmt_d_free by done. done.
Qed.

(** An address and its port are read back from "address:port". *)
Lemma SplitHostPort_format b : backend_ok b →
  SplitHostPort (formatServerAddr (be_IP b) (be_Port b)) = Some (cleanIP (be_IP b), fmt_d (be_Port b)) ∧
  strings.HasPrefix (formatServerAddr (be_IP b) (be_Port b)) "[" =
    strings.Contains (cleanIP (be_IP b)) ":".
Proof.
  intros (Hne & Hc & _). unfold formatServerAddr. set (ip := cleanIP (be_IP b)) in *.
  pose proof (addr_free "[" ip Hc eq_refl) as H1. pose proof (addr_free "]" ip Hc eq_refl) as H2.
  destruct (strings.Contains ip ":") eqn:Hcol.
  - split; [by apply SplitHostPort_bracket|apply HasPrefix_app].
  - rewrite Contains_char in Hcol. apply negb_false_iff in Hcol.
    split; [by apply SplitHostPort_plain|].
    destruct ip as [|c ip]; [done|]. rewrite app_cons_s. cbn. rewrite str_free_cons in H1.
    apply andb_true_iff in H1 as [Hx%negb_true_iff _]. apply is_char_false in Hx.
    by rewrite (proj2 (is_char_false "[" c)) by congruence.
Qed.

Lemma formatServerAddr_solid b : backend_ok b →
  str_forallb solid (formatServerAddr (be_IP b) (be_Port b)) = true ∧
  formatServerAddr (be_IP b) (be_Port b) ≠ "".
Proof.
  intros (Hne & Hc & _). unfold formatServerAddr.
  assert (str_forallb solid (cleanIP (be_IP b)) = true) as Hs
    by (eapply str_forallb_impl, Hc; apply addr_char_solid).
  destruct (strings.Contains _ ":").
  - split; [|done]. rewrite !str_forallb_app, Hs, fmt_d_solid. done.
  - split; [rewrite !str_forallb_app, Hs, fmt_d_solid; done|].
    by destruct (cleanIP (be_IP b)).
Qed.

Lemma parse_weight_print w : 1 <= w < 2 ^ 63 → parse_weight ["weight=" +:+ fmt_d w] = w.
Proof.
  intros Hw. unfold parse_weight. rewrite HasPrefix_app, TrimPrefix_app.
  change (fmt_d w) with (strconv.Itoa w). rewrite Atoi_Itoa by lia.
  by rewrite (proj2 (Z.ltb_lt 0 w)) by lia.
Qed.

(** The text of a server line after its first word. *)
Definition server_words (b : Backend) : string :=
  formatServerAddr (be_IP b) (be_Port b) +:+ String " " ("weight=" +:+ fmt_d (be_Weight b)).

Lemma print_server_eq b : print_server b = "server " +:+ server_words b +:+ ";".
Proof. unfold print_server, server_words. str_norm. done. Qed.

Lemma server_words_trim b : backend_ok b → strings.TrimSpace (server_words b +:+ ";") = server_words b +:+ ";".
Proof.
  intros Hb. destruct (formatServerAddr_solid b Hb) as [Hs Hne].
  unfold server_words. destruct (formatServerAddr _ _) as [|c s] eqn:E; [done|].
  rewrite !app_cons_s. apply (TrimSpace_ends _ _ (String c (s +:+ String " " ("weight=" +:+ fmt_d (be_Weight b)))) ";").
  - cbn in Hs. by apply andb_true_iff in Hs as [? _].
  - done.
  - by rewrite app_cons_s.
Qed.

Lemma parse_server_print b : backend_ok b → parse_server (print_server b) = Some (listed b).
Proof.
  intros Hb. unfold parse_server. rewrite print_server_eq, TrimPrefix_app, server_words_trim by done.
  rewrite TrimSuffix_last. destruct (formatServerAddr_solid b Hb) as [Hs Hne].
  destruct (SplitHostPort_format b Hb) as [Hsplit Hpre]. destruct Hb as (Hip & Hc & Hp & Hw).
  unfold server_words. rewrite Fields_two; try done.
  - cbv iota. rewrite Hsplit. cbn [mbind option_bind].
    change (fmt_d (be_Port b)) with (strconv.Itoa (be_Port b)). rewrite Atoi_Itoa by lia.
    cbn [mbind option_bind]. rewrite parse_weight_print, Hpre by done. unfold listed.
    rewrite wrap_id by lia. by destruct (strings.Contains (cleanIP (be_IP b)) ":").
  - rewrite str_forallb_app, fmt_d_solid. done.
Qed.

Lemma parse_line_server m cur b : backend_ok b →
  parse_line (m, cur) (print_server b) =
  (<[cur := default [] (m !! cur) ++ [listed b]]> m, cur).
Proof.
  intros Hb. unfold parse_line.
  assert (strings.TrimSpace (print_server b) = print_server b) as ->.
  { rewrite print_server_eq.
    apply (TrimSpace_ends "s" ("erver " +:+ server_words b +:+ ";") ("server " +:+ server_words b) ";"); try done. }
  assert (is_comment (print_server b) = false) as -> by done.
  assert (strings.HasPrefix (print_server b) "server " = true) as -> by apply HasPrefix_app.
  by rewrite parse_server_print.
Qed.

Lemma name_head n : upstream_name_ok n → ∃ c t, n = String c t ∧ name_char c = true.
Proof.
  intros [Hne H]. destruct n as [|c t]; [done|]. exists c, t. split; [done|].
  cbn in H. by apply andb_true_iff in H as [? _].
Qed.

Lemma header_solid n : upstream_name_ok n → str_forallb solid (n +:+ ":") = true.
Proof.
  intros [_ Hn]. rewrite str_forallb_app. cbn. rewrite andb_true_r.
  eapply str_forallb_impl, Hn. apply name_char_solid.
Qed.

Lemma parse_header_print n : upstream_name_ok n → parse_header (n +:+ ":") = n.
Proof.
  intros Hn. pose proof Hn as [Hne Hc]. unfold parse_header. rewrite TrimSuffix_last.
  assert (strings.TrimPrefix n "upstream " = n) as ->.
  { unfold strings.TrimPrefix. by rewrite (HasPrefix_free " ") by (done || by apply name_free). }
  destruct (last_byte n Hne) as (t & c & ->).
  rewrite str_forallb_app in Hc. apply andb_true_iff in Hc as [_ Hl]. cbn in Hl.
  rewrite andb_true_r in Hl. rewrite TrimSuffix_last_ne by (by intros ->).
  apply TrimSpace_solid. destruct Hn as [_ Hn]. eapply str_forallb_impl, Hn. apply name_char_solid.
Qed.

Lemma parse_line_header m cur n : upstream_name_ok n →
  parse_line (m, cur) (n +:+ ":") = (m, n).
Proof.
  intros Hn. unfold parse_line. rewrite TrimSpace_solid by (by apply header_solid).
  assert (is_comment (n +:+ ":") = false) as ->.
  { destruct (name_head n Hn) as (c & t & -> & Hc). rewrite app_cons_s. unfold is_comment.
    rewrite bool_decide_false by done. cbn [orb strings.HasPrefix].
    destruct (is_char "#" c) eqn:E1; [apply is_char_true in E1; by subst|].
    destruct (is_char "/" c) eqn:E2; [apply is_char_true in E2; by subst|]. done. }
  rewrite (HasPrefix_free " ") by (done || by apply solid_free, header_solid).
  assert (is_header (n +:+ ":") = true) as -> by (unfold is_header; by rewrite HasSuffix_last).
  by rewrite parse_header_print.
Qed.

Lemma Split_unlines ls : Forall (λ l, str_free NL l = true) ls →
  strings.Split (unlines ls) NL = ls ++ [""].
Proof. induction 1 as [|l ls Hl Hls IH]; [done|]. cbn. by rewrite Split_app, IH. Qed.

Lemma print_upstream_free n bs : upstream_name_ok n → Forall backend_ok bs →
  Forall (λ l, str_free NL l = true) (print_upstream (n, bs)).
Proof.
  intros Hn Hbs. constructor.
  - cbn. rewrite str_free_app. destruct Hn as [_ Hn]. by rewrite (name_free NL n Hn).
  - apply Forall_fmap. eapply Forall_impl; [|exact Hbs]. intros b Hb. change (str_free NL (print_server b) = true).
    rewrite print_server_eq. unfold server_words. change (String " " ("weight=" +:+ fmt_d (be_Weight b))) with (" weight=" +:+ fmt_d (be_Weight b)). rewrite !str_free_app.
    rewrite fmt_d_free by done. destruct (formatServerAddr_solid b Hb) as [Hs _].
    assert (str_free NL (formatServerAddr (be_IP b) (be_Port b)) = true) as ->; [|done].
    eapply str_forallb_impl, Hs. intros c Hc. apply negb_true_iff, is_char_false. by intros ->.
Qed.

(** The lines of one upstream, read after those of other upstreams. *)
Lemma parse_servers m cur bs : Forall backend_ok bs →
  foldl parse_line (m, cur) (print_server <$> bs) =
  (match bs with [] => m | _ => <[cur := default [] (m !! cur) ++ (listed <$> bs)]> m end, cur).
Proof.
  intros Hbs. revert m. induction Hbs as [|b bs Hb Hbs IH]; intros m; [done|].
  rewrite fmap_cons. cbn [foldl]. rewrite parse_line_server, IH by done. f_equal.
  destruct bs as [|b' bs]; [done|]. rewrite lookup_insert_eq. cbn [default from_option id].
  rewrite insert_insert_eq. by rewrite <- app_assoc.
Qed.

(** What the parser returns for a list of upstreams: those with a server. *)
Definition listing_map (ups : list (string * list Backend)) : gmap string (list Backend) :=
  list_to_map (omap (λ u : string * list Backend,
    match u.2 with [] => None | _ => Some (u.1, listed <$> u.2) end) ups).

Lemma listing_map_lookup n bs ups : NoDup ups.*1 → (n, bs) ∈ ups →
  listing_map ups !! n = match bs with [] => None | _ => Some (listed <$> bs) end.
Proof.
  unfold listing_map. induction ups as [|[n' bs'] ups IH]; intros Hd Hin; [set_solver|].
  cbn in Hd. apply list.NoDup_cons in Hd as [Hn Hd].
  assert (∀ x, x ∉ ups.*1 → (list_to_map (omap (λ u : string * list Backend,
    match u.2 with [] => None | _ => Some (u.1, listed <$> u.2) end) ups) : gmap string (list Backend)) !! x = None) as Hno.
  { intros x Hx. apply not_elem_of_list_to_map_1. intros ([k v] & -> & Hkv)%list_elem_of_fmap.
    apply list_elem_of_omap in Hkv as ([a b] & Hab & E). cbn in E. apply Hx, list_elem_of_fmap.
    exists (a, b). by destruct b; simplify_eq/=. }
  cbn [omap list_omap]. apply elem_of_cons in Hin as [[= -> ->]|Hin].
  - destruct bs' as [|b bs']; cbn; [by apply Hno|]. by rewrite lookup_insert_eq.
  - assert (n ≠ n') as Hne by (intros ->; apply Hn, list_elem_of_fmap; by eexists (_, _)).
    destruct bs' as [|b' bs']; cbn; [by apply IH|]. rewrite lookup_insert_ne by done. by apply IH.
Qed.

Lemma parse_upstreams ups : ∀ m cur,
  NoDup ups.*1 → (∀ n, n ∈ ups.*1 → m !! n = None) →
  Forall (λ u, upstream_name_ok u.1 ∧ Forall backend_ok u.2) ups →
  (foldl parse_line (m, cur) (ups ≫= print_upstream)).1 = listing_map ups ∪ m.
Proof.
  induction ups as [|[n bs] ups IH]; intros m cur Hd Hm Hok.
  { cbn. unfold listing_map. cbn. by rewrite (left_id_L ∅ (∪)). }
  cbn in Hd. apply list.NoDup_cons in Hd as [Hn Hd]. apply list.Forall_cons in Hok as [[Hnok Hbs] Hok].
  rewrite bind_cons, foldl_app. change (print_upstream (n, bs)) with ((n +:+ ":") :: (print_server <$> bs)). cbn [foldl].
  rewrite parse_line_header, parse_servers by done.
  assert (m !! n = None) as Hmn by (apply Hm; cbn; set_solver).
  rewrite IH; [|done| |done].
  - unfold listing_map at 2. cbn [omap list_omap]. destruct bs as [|b bs]; cbn [fst snd]; [done|].
    rewrite Hmn. cbn [default from_option id app]. fold (listing_map ups). cbn [list_to_map foldr fst snd].
    rewrite <- insert_union_l, <- insert_union_r; [done|].
    apply not_elem_of_list_to_map_1. intros ([k v] & -> & Hkv)%list_elem_of_fmap.
    apply list_elem_of_omap in Hkv as ([a c] & Hab & E). cbn in E. apply Hn, list_elem_of_fmap.
    exists (a, c). by destruct c; simplify_eq/=.
  - intros x Hx. assert (x ≠ n) by (by intros ->).
    assert (m !! x = None) by (apply Hm; cbn; set_solver).
    destruct bs; [done|]. by rewrite lookup_insert_ne.
Qed.

Lemma print_listing_free ups : Forall (λ u, upstream_name_ok u.1 ∧ Forall backend_ok u.2) ups →
  Forall (λ l, str_free NL l = true) (ups ≫= print_upstream).
Proof.
  induction 1 as [|[n bs] ups [Hn Hb] _ IH]; [constructor|]. rewrite bind_cons.
  apply Forall_app. split; [by apply print_upstream_free|done].
Qed.

Lemma parse_print ups :
  NoDup ups.*1 → Forall (λ u, upstream_name_ok u.1 ∧ Forall backend_ok u.2) ups →
  parseBulkNginxBackends (print_listing ups) = listing_map ups.
Proof.
  intros Hd Hok. unfold parseBulkNginxBackends, print_listing.
  rewrite Split_unlines, foldl_app by (by apply print_listing_free). cbn [foldl].
  assert (∀ st, parse_line st "" = st) as Hempty by (by intros []).
  rewrite Hempty, parse_upstreams by (done || (intros; apply lookup_empty)).
  apply (right_id_L ∅ (∪)).
Qed.

(** Every backend the parser reports is in range, whatever the response. *)
Definition parsed_ok (b : Backend) : Prop :=
  - 2 ^ 31 <= be_Port b < 2 ^ 31 ∧ 1 <= be_Weight b < 2 ^ 63.

Lemma Atoi_bound s z : strconv.Atoi s = Some z → - 2 ^ 63 <= z < 2 ^ 63.
Proof.
  unfold strconv.Atoi, strconv.ParseInt. intros H.
  destruct (match s with
    | String "+" ds => (false, ds) | String "-" ds => (true, ds) | _ => (false, s) end%char) as [neg ds].
  destruct ds as [|c ds]; [done|]. destruct (strconv.digits 0 (String c ds)); [|done].
  cbn [mbind option_bind] in H. case_bool_decide; [|done]. injection H as <-. done.
Qed.

Lemma parse_weight_bound fs : 1 <= parse_weight fs < 2 ^ 63.
Proof.
  induction fs as [|f fs IH]; cbn [parse_weight]; [lia|].
  destruct (strings.HasPrefix f "weight="); [|done].
  destruct (strconv.Atoi _) as [w|] eqn:E; [|lia]. apply Atoi_bound in E.
  destruct (Z.ltb_spec 0 w); lia.
Qed.

Lemma parse_server_ok line b : parse_server line = Some b → parsed_ok b.
Proof.
  unfold parse_server. destruct (strings.Fields _) as [|hp fs]; [done|].
  destruct (SplitHostPort hp) as [[h p]|]; [|done]. cbn [mbind option_bind].
  destruct (strconv.Atoi p) as [port|]; [|done]. cbn [mbind option_bind]. intros [= <-].
  split; [apply (wrap_bound 32); lia|apply parse_weight_bound].
Qed.

Definition parse_inv (st : parse_state) : Prop :=
  ∀ n bs, st.1 !! n = Some bs → bs ≠ [] ∧ Forall parsed_ok bs.

Lemma parse_line_inv st line : parse_inv st → parse_inv (parse_line st line).
Proof.
  destruct st as [m cur]. intros H. unfold parse_line.
  destruct (is_comment _); [done|]. destruct (strings.HasPrefix _ _).
  - destruct (parse_server _) as [b|] eqn:E; [|done]. apply parse_server_ok in E.
    intros n bs Hn. cbn in Hn. destruct (decide (cur = n)) as [->|Hne].
    + rewrite lookup_insert_eq in Hn. injection Hn as <-. split; [by destruct (default [] _)|].
      apply Forall_app. split; [|constructor; [exact E|constructor]].
      destruct (m !! n) as [bs'|] eqn:Hm; cbn; [|constructor]. by apply (H n).
    + rewrite lookup_insert_ne in Hn by done. by apply (H n).
  - by destruct (is_header _).
Qed.

Lemma parse_bulk_inv response n bs :
  parseBulkNginxBackends response !! n = Some bs → bs ≠ [] ∧ Forall parsed_ok bs.
Proof.
  unfold parseBulkNginxBackends. assert (parse_inv (∅, "")) as H0 by (intros ?? Hl; cbn in Hl; by rewrite lookup_empty in Hl).
  revert H0. generalize (∅ : gmap string (list Backend), "") as st.
  induction (strings.Split response NL) as [|l ls IH]; intros st Hst; [apply Hst|].
  cbn [foldl]. apply IH. by apply parse_line_inv.
Qed.

(** Cleaning an address that is clean, with or without brackets. *)
Lemma TrimLeft_id f s : str_forallb (λ c, negb (f c)) s = true → strings.TrimLeft s f = s.
Proof. destruct s as [|c s]; [done|]. cbn. by destruct (f c). Qed.

Lemma Trim_id f s : str_forallb (λ c, negb (f c)) s = true → strings.Trim s f = s.
Proof.
  intros H. unfold strings.Trim. rewrite (TrimLeft_id f s H), TrimLeft_id, rev_rev_s; [done|].
  by rewrite forallb_rev_s.
Qed.

Lemma cleanIP_plain s : str_forallb addr_char s = true → cleanIP s = s.
Proof.
  intros H. unfold cleanIP. rewrite TrimSpace_solid.
  - apply Trim_id. eapply str_forallb_impl, H. intros c Hc. by rewrite addr_char_bracket.
  - eapply str_forallb_impl, H. apply addr_char_solid.
Qed.

Lemma cleanIP_bracket s : str_forallb addr_char s = true → cleanIP ("[" +:+ s +:+ "]") = s.
Proof.
  intros H. unfold cleanIP.
  assert (str_forallb (λ c, negb (is_char c "[" || is_char c "]")) s = true) as Hb
    by (eapply str_forallb_impl, H; intros c Hc; by rewrite addr_char_bracket).
  rewrite TrimSpace_solid.
  - unfold strings.Trim. change ("[" +:+ s +:+ "]") with (String "[" (s +:+ "]")).
    cbn [strings.TrimLeft]. rewrite is_char_refl. cbn [orb].
    assert (strings.TrimLeft (s +:+ "]") (λ c, is_char c "[" || is_char c "]") = match s with "" => "" | _ => s +:+ "]" end) as ->.
    { destruct s as [|c s]; [done|]. rewrite app_cons_s. cbn in Hb |- *. by destruct (is_char c "[" || is_char c "]"). }
    destruct s as [|c s]; [done|]. change "]" with (String "]" ""). rewrite rev_snoc_s.
    cbn [strings.TrimLeft]. rewrite is_char_refl, orb_true_r, TrimLeft_id, rev_rev_s; [done|].
    by rewrite forallb_rev_s.
  - rewrite !str_forallb_app. assert (str_forallb solid s = true) as ->; [|done].
    eapply str_forallb_impl, H. apply addr_char_solid.
Qed.

Lemma listed_key b : backend_ok b → backendKey (listed b) = backendKey b.
Proof.
  intros (_ & H & _). unfold backendKey, listed. cbn [be_IP be_Port].
  destruct (strings.Contains (cleanIP (be_IP b)) ":"); [by rewrite cleanIP_bracket|by rewrite cleanIP_plain].
Qed.

(** ** The paths of the requests *)

Lemma uri_slash s : isValidRelativeURI s = true → ∃ t u, s = String "/" t ∧ url.Parse s = Some u.
Proof.
  unfold isValidRelativeURI. destruct (strings.HasPrefix s "/") eqn:Hp; [|done]. cbn [negb].
  destruct s as [|c t]; [done|]. cbn in Hp. apply andb_true_iff in Hp as [Hc%is_char_true _]. subst c.
  destruct (url.Parse (String "/" t)) as [u|] eqn:E; [|done]. eauto.
Qed.

(** The parameters both requests start with. *)
Definition server_params (name addr : string) : string :=
  "upstream=" +:+ url.QueryEscape name +:+ "&server=" +:+ url.QueryEscape addr.

Lemma esc_param s : str_forallb param_char (url.QueryEscape s) = true.
Proof. eapply str_forallb_impl, QueryEscape_chars. intros c Hc. unfold param_char. by rewrite Hc. Qed.
Lemma fmt_param z : str_forallb param_char (fmt_d z) = true.
Proof.
  eapply str_forallb_impl, pretty_Z_chars. intros c.
  destruct c as [[] [] [] [] [] [] [] []]; by vm_compute.
Qed.

Lemma server_params_chars name addr : str_forallb param_char (server_params name addr) = true.
Proof. unfold server_params. rewrite !str_forallb_app, !esc_param. done. Qed.

Lemma server_params_query name addr rest :
  url.ParseQuery (server_params name addr +:+ String "&" rest) =
  [("upstream", name); ("server", addr)] ++ url.ParseQuery rest.
Proof.
  unfold server_params. rewrite ParseQuery_app.
  change ("upstream=" +:+ url.QueryEscape name +:+ "&server=" +:+ url.QueryEscape addr)
    with (("upstream" +:+ String "=" (url.QueryEscape name)) +:+ String "&" ("server" +:+ String "=" (url.QueryEscape addr))).
  by rewrite ParseQuery_app, !ParseQuery_escaped.
Qed.
Lemma server_params_query' name addr :
  url.ParseQuery (server_params name addr) = [("upstream", name); ("server", addr)].
Proof.
  unfold server_params.
  change ("upstream=" +:+ url.QueryEscape name +:+ "&server=" +:+ url.QueryEscape addr)
    with (("upstream" +:+ String "=" (url.QueryEscape name)) +:+ String "&" ("server" +:+ String "=" (url.QueryEscape addr))).
  by rewrite ParseQuery_app, !ParseQuery_escaped.
Qed.

Lemma delim_sep t : (if strings.Contains t "?" then "&" else "?") = String (query_sep (String "/" t)) "".
Proof. unfold query_sep. rewrite !Contains_char, str_free_cons. cbn. by destruct (str_free "?" t). Qed.

Lemma TrimPrefix_slash t : strings.TrimPrefix (String "/" t) "/" = t.
Proof. apply (TrimPrefix_app "/" t). Qed.

Lemma add_path_eq t name addr w :
  String "/" (buildAddPath (String "/" t) name addr w) =
  String "/" t +:+ String (query_sep (String "/" t))
    (server_params name addr +:+ "&weight=" +:+ fmt_d w +:+
     (if negb (hasQueryParam (String "/" t) "add") then "&add=" else "")).
Proof.
  unfold buildAddPath, server_params. rewrite TrimPrefix_slash, delim_sep.
  destruct (negb _); str_norm; done.
Qed.
Lemma remove_path_eq t name addr :
  String "/" (buildRemovePath (String "/" t) name addr) =
  String "/" t +:+ String (query_sep (String "/" t))
    (server_params name addr +:+ (if negb (hasQueryParam (String "/" t) "remove") then "&remove=" else "")).
Proof.
  unfold buildRemovePath, server_params. rewrite TrimPrefix_slash, delim_sep.
  destruct (negb _); str_norm; done.
Qed.

Lemma weight_query w : url.ParseQuery ("weight=" +:+ fmt_d w) = [("weight", fmt_d w)].
Proof.
  change ("weight=" +:+ fmt_d w) with ("weight" +:+ String "=" (fmt_d w)).
  apply ParseQuery_one; try done; try by apply fmt_d_free.
  apply unescape_plain; by apply fmt_d_free.
Qed.

(** ** Properties *)

(** Two backends have the same key exactly when [sameBackend] identifies
    them, that is when their cleaned addresses and their ports are equal: the
    maps of the adapter, keyed by [backendKey], never merge distinct servers. *)
Theorem backendKey_injective (b1 b2 : Backend) :
  (backendKey b1 = backendKey b2 ↔ sameBackend b1 b2 = true) ∧
  (sameBackend b1 b2 = true ↔ cleanIP (be_IP b1) = cleanIP (be_IP b2) ∧ be_Port b1 = be_Port b2).
Proof.
  split; [apply backendKey_same|]. unfold sameBackend.
  by rewrite andb_true_iff, bool_decide_eq_true, Z.eqb_eq.
Qed.

(** C29. The listing NGINX returns is read back: printing upstreams with their
    servers and weights and parsing the text gives, for every upstream, its
    servers in order (IPv6 addresses in brackets), and nothing else. *)
Theorem parseBulk_print (ups : list (string * list Backend)) :
  NoDup ups.*1 →
  Forall (λ u, upstream_name_ok u.1 ∧ Forall backend_ok u.2) ups →
  let parsed := parseBulkNginxBackends (print_listing ups) in
  (∀ name bs, (name, bs) ∈ ups → default [] (parsed !! name) = listed <$> bs) ∧
  (∀ name, name ∉ ups.*1 → parsed !! name = None) ∧
  (∀ b, backend_ok b → backendKey (listed b) = backendKey b ∧ be_Weight (listed b) = be_Weight b).
Proof.
  intros Hd Hok parsed. unfold parsed. rewrite parse_print by done. split_and!.
  - intros name bs Hin. rewrite (listing_map_lookup name bs) by done. by destruct bs.
  - intros name Hn. apply not_elem_of_list_to_map_1. intros ([k v] & -> & Hkv)%list_elem_of_fmap.
    apply list_elem_of_omap in Hkv as ([a c] & Hab & E). cbn in E. apply Hn, list_elem_of_fmap.
    exists (a, c). by destruct c; simplify_eq/=.
  - intros b Hb. split; [|done]. by apply listed_key.
Qed.

Lemma parseBulk_print_witness :
  let ups := [("web", [mkBackend "10.0.0.1" 8080 2; mkBackend "[fd00::1]" 443 1]); ("empty", [])] in
  NoDup ups.*1 ∧
  parseBulkNginxBackends (print_listing ups) !! "web" =
    Some [mkBackend "10.0.0.1" 8080 2; mkBackend "[fd00::1]" 443 1] ∧
  default [] (parseBulkNginxBackends (print_listing ups) !! "empty") = [].
Proof.
  cbv zeta. set (ups := [("web", _); _]).
  assert (NoDup ups.*1) as Hd by (vm_decide).
  assert (Forall (λ u, upstream_name_ok u.1 ∧ Forall backend_ok u.2) ups) as Hok.
  { repeat constructor; vm_compute; try discriminate; reflexivity. }
  destruct (parseBulk_print ups Hd Hok) as (H & _).
  split; [exact Hd|]. split; [vm_compute; reflexivity|].
  rewrite (H "empty" []); [reflexivity|apply list_elem_of_further; constructor].
Defined.

(** C39. Whatever text NGINX answers, the parser returns no empty upstream and
    only ports in the range of [int32] and weights between 1 and the largest
    [int]. *)
Theorem parseBulk_bounds (response name : string) (bs : list Backend) :
  parseBulkNginxBackends response !! name = Some bs →
  bs ≠ [] ∧ Forall (λ b, - 2 ^ 31 <= be_Port b < 2 ^ 31 ∧ 1 <= be_Weight b < 2 ^ 63) bs.
Proof. apply parse_bulk_inv. Qed.

Lemma parseBulk_bounds_witness :
  Forall (λ b, - 2 ^ 31 <= be_Port b < 2 ^ 31 ∧ 1 <= be_Weight b < 2 ^ 63)
    [mkBackend "1.2.3.4" 80 1].
Proof.
  apply (parseBulk_bounds ("up:" +:+ String NL "server 1.2.3.4:4294967376 weight=-3;") "up").
  vm_compute. reflexivity.
Defined.

(** The query parameters of a request survive the URL: for validated API
    paths without a fragment, the server sees the configured path and
    parameters, then the upstream, the server address and the weight exactly
    as given, whatever bytes they contain, and the action flag once. *)
Theorem request_paths_query (addAPI removeAPI name addr : string) (weight : Z) :
  isValidRelativeURI addAPI = true → str_free "#" addAPI = true →
  isValidRelativeURI removeAPI = true → str_free "#" removeAPI = true →
  (∃ u u', url.Parse addAPI = Some u ∧
    url.Parse (String "/" (buildAddPath addAPI name addr weight)) = Some u' ∧
    url.Path u' = url.Path u ∧ url.Host u' = url.Host u ∧
    url.ParseQuery (url.RawQuery u') =
      url.ParseQuery (url.RawQuery u) ++
      [("upstream", name); ("server", addr); ("weight", fmt_d weight)] ++
      (if hasQueryParam addAPI "add" then [] else [("add", "")])) ∧
  (∃ u u', url.Parse removeAPI = Some u ∧
    url.Parse (String "/" (buildRemovePath removeAPI name addr)) = Some u' ∧
    url.Path u' = url.Path u ∧ url.Host u' = url.Host u ∧
    url.ParseQuery (url.RawQuery u') =
      url.ParseQuery (url.RawQuery u) ++
      [("upstream", name); ("server", addr)] ++
      (if hasQueryParam removeAPI "remove" then [] else [("remove", "")])).
Proof.
  intros (ta & ua & -> & Ea)%uri_slash Ha (tr & ur & -> & Er)%uri_slash Hr. split.
  - rewrite add_path_eq. set (p := server_params _ _ +:+ _).
    assert (str_forallb param_char p = true) as Hp.
    { unfold p. rewrite !str_forallb_app, server_params_chars, fmt_param. by destruct (negb _). }
    destruct (Parse_append ta p ua Ha Hp Ea) as (u' & Eu & _ & Hh & Hpath & Hq).
    exists ua, u'. split_and!; try done. rewrite Hq. f_equal. unfold p.
    change ("&weight=" +:+ ?x) with (String "&" ("weight=" +:+ x)). rewrite server_params_query.
    destruct (hasQueryParam _ "add"); cbn [negb].
    + rewrite app_nil_r_s, weight_query. done.
    + rewrite <- app_assoc_s. change "&add=" with (String "&" "add="). rewrite ParseQuery_app, weight_query. done.
  - rewrite remove_path_eq. set (p := server_params _ _ +:+ _).
    assert (str_forallb param_char p = true) as Hp.
    { unfold p. rewrite !str_forallb_app, server_params_chars. by destruct (negb _). }
    destruct (Parse_append tr p ur Hr Hp Er) as (u' & Eu & _ & Hh & Hpath & Hq).
    exists ur, u'. split_and!; try done. rewrite Hq. f_equal. unfold p.
    destruct (hasQueryParam _ "remove"); cbn [negb].
    + by rewrite app_nil_r_s, server_params_query'.
    + change "&remove=" with (String "&" "remove="). by rewrite server_params_query.
Qed.

Lemma request_paths_query_witness :
  ∃ u', url.Parse (String "/" (buildAddPath "/dynamic?zone=a" "my up&stream" "[::1]:80" 3)) = Some u' ∧
    url.ParseQuery (url.RawQuery u') =
      [("zone", "a"); ("upstream", "my up&stream"); ("server", "[::1]:80"); ("weight", "3"); ("add", "")].
Proof.
  destruct (request_paths_query "/dynamic?zone=a" "/dynamic?remove=" "my up&stream" "[::1]:80" 3)
    as [(u & u' & Hu & Hu' & _ & _ & Hq) _]; try (vm_compute; reflexivity).
  exists u'. split; [exact Hu'|]. rewrite Hq. vm_compute in Hu. injection Hu as <-.
  vm_compute. reflexivity.
Defined.
