(* ===== verification/NginxClient.v ===== *)
(** * The HTTP client of the NGINX adapter: adapters/loadbalancer/nginx/client.go

    [NewNginxClientSet] builds one client per address; [doRequest] sends a
    request with retries.  The network is a parameter: [http_Do] answers a
    request, [http_Wait] is the [select] between the context and the timer of
    the backoff, and both may change the world [W]. *)
From S2P Require Export NginxFormat.
From Stdlib Require Import Lia.
Local Open Scope Z_scope.
Local Open Scope go_scope.

(** ** Data *)

Record NginxClient := mkClient { cl_baseURL : string; cl_host : string }.
Global Instance NginxClient_eq_dec : EqDecision NginxClient.
Proof. solve_decision. Defined.

(** A response; [Body] holds the bytes that can be read before [BodyErr], or
    before the end when [BodyErr] is [None]. *)
Record Response := mkResponse { StatusCode : Z; Body : string; BodyErr : option error }.

(** The two results of [http.Client.Do]; an error may come with a response. *)
Inductive outcome :=
  | Reply (resp : Response)
  | Failed (resp : option Response) (err : error).

(** The request: [req_Host] overrides the host of the URL. *)
Record Request := mkRequest { req_Method : string; req_URL : string; req_Host : option string }.

Record HttpEnv (W : Type) := mkHttpEnv {
  http_Do : Request → W → outcome * W;
  http_Wait : Z → W → option error * W
}.
Arguments http_Do {_} _ _ _.
Arguments http_Wait {_} _ _ _.

(** ** NewNginxClientSet *)

Section client_set.
(** crypto/tls and crypto/x509: the chain of a key pair, the end of validity
    of a certificate, and whether a PEM text holds a certificate. *)
Context (X509KeyPair : string → string → result (list string)).
Context (ParseCertificate : string → result Z).
Context (AppendCertsFromPEM : string → bool).
Context (now : Z).

Definition client_certificate (ngx : NginxConfig) : option error :=
  if bool_decide (ng_Protocol ngx = "https") &&
     (negb (bool_decide (ng_Cert ngx = "")) || negb (bool_decide (ng_Key ngx = ""))) then
    match X509KeyPair (ng_Cert ngx) (ng_Key ngx) with
    | Err err => Some (Errorf "failed to load client certificate/key: %w" [FErr err])
    | Ok [] => Some (Errorf "empty certificate chain for host: %s" [FStr (ng_Hostname ngx)])
    | Ok (cert :: _) =>
        match ParseCertificate cert with
        | Err err => Some (Errorf "failed to parse client certificate: %w" [FErr err])
        | Ok NotAfter =>
            fail_if NotAfter <? now
              with Errorf "certificate %s has expired: NotAfter=%s" [FStr (ng_Hostname ngx); FInt NotAfter];;
            None
        end
    end
  else None.

Definition client_baseURL (ngx : NginxConfig) (addr : AddressConfig) : string :=
  ng_Protocol ngx +:+ "://" +:+ JoinHostPort (addr_IP addr) (strconv.Itoa (addr_Port addr)).

Definition NewNginxClientSet (ngx : NginxConfig) : result (list NginxClient) :=
  match client_certificate ngx with
  | Some err => Err err
  | None =>
      if bool_decide (ng_Protocol ngx = "https") && negb (bool_decide (ng_CA ngx = "")) &&
         negb (AppendCertsFromPEM (ng_CA ngx))
      then Err (Errorf "failed to append CA certificate to pool" [])
      else Ok ((λ addr, mkClient (client_baseURL ngx addr) (ng_Hostname ngx)) <$> ng_Addresses ngx)
  end.
End client_set.

(** ** doRequest *)

(** [io.ReadAll(io.LimitReader(body, n))]. *)
Fixpoint takeZ (n : Z) (s : string) : string :=
  match s with
  | "" => ""
  | String c s => if n <=? 0 then "" else String c (takeZ (n - 1) s)
  end.
Definition ReadAll (n : Z) (r : Response) : string * option error :=
  if n <=? Z.of_nat (String.length (Body r)) then (takeZ n (Body r), None) else (Body r, BodyErr r).

Definition MiB : Z := 1024 * 1024.
Definition maxRetries : nat := 3.

(** [time.Duration(100*(1<<i)) * time.Millisecond], in milliseconds. *)
Definition backoff (i : nat) : Z := 100 * Z.shiftl 1 (Z.of_nat i).

Definition client_error (status : Z) : bool :=
  (400 <=? status) && (status <? 500) && negb (status =? 429).

(** [err == nil && resp.StatusCode == 200]. *)
Definition success (o : outcome) : option Response :=
  match o with Reply r => if StatusCode r =? 200 then Some r else None | Failed _ _ => None end.
Definition resp_of (o : outcome) : option Response :=
  match o with Reply r => Some r | Failed r _ => r end.
(** The error of an attempt without a response. *)
Definition err_only (o : outcome) : option error :=
  match o with Reply _ => None | Failed _ e => Some e end.

Definition status_error (r : Response) : error :=
  Errorf "request failed with status %d: %s" [FInt (StatusCode r); FStr (ReadAll MiB r).1].

Section requests.
Context {W : Type} (env : HttpEnv W).

(** The loop: [n] turns are left, [i] is the loop variable. *)
Fixpoint doRequest_loop (req : Request) (n i : nat) (lastErr : option error)
    : ST W (result string) := λ w,
  match n with
  | O => (Err (Errorf "exhausted retries: %w" (match lastErr with Some e => [FErr e] | None => [] end)), w)
  | S n =>
      match url.Parse (req_URL req) with
      | None => (Err (Errorf "failed to create request: %w" [FStr (req_URL req)]), w)
      | Some _ =>
          let '(o, w) := http_Do env req w in
          match success o with
          | Some r =>
              match ReadAll (10 * MiB) r with
              | (_, Some err) => (Err (Errorf "failed to read response body: %w" [FErr err]), w)
              | (bodyBytes, None) => (Ok bodyBytes, w)
              end
          | None =>
              let retry lastErr :=
                match http_Wait env (backoff i) w with
                | (Some ctxErr, w) => (Err ctxErr, w)
                | (None, w) => doRequest_loop req n (S i) lastErr w
                end in
              match resp_of o with
              | Some r =>
                  if client_error (StatusCode r) then (Err (status_error r), w)
                  else retry (Some (status_error r))
              | None => retry (err_only o)
              end
          end
      end
  end.

Definition request_of (c : NginxClient) (method path : string) : Request :=
  mkRequest method (cl_baseURL c +:+ "/" +:+ strings.TrimPrefix path "/")
    (if bool_decide (cl_host c = "") then None else Some (cl_host c)).

Definition doRequest (c : NginxClient) (method path : string) : ST W (result string) :=
  doRequest_loop (request_of c method path) maxRetries 0 None.
End requests.

(** ** Observing a client

    The environment that also records every request with its answer, and every
    wait with how it ended. *)
Inductive event := EvDo (q : Request) (o : outcome) | EvWait (ms : Z) (e : option error).

Definition traced {W} (env : HttpEnv W) : HttpEnv (W * list event) := {|
  http_Do := λ q '(w, tr), let '(o, w) := http_Do env q w in (o, (w, tr ++ [EvDo q o]));
  http_Wait := λ ms '(w, tr), let '(e, w) := http_Wait env ms w in (e, (w, tr ++ [EvWait ms e]))
|}.

(** The statuses that another attempt cannot change. *)
Definition hopeless (status : Z) : Prop := 400 <= status < 500 ∧ status ≠ 429.
(** An answer after which another attempt is worth making. *)
Definition worth_retrying (o : outcome) : Prop :=
  match o with
  | Reply r => StatusCode r ≠ 200 ∧ ¬ hopeless (StatusCode r)
  | Failed (Some r) _ => ¬ hopeless (StatusCode r)
  | Failed None _ => True
  end.
(** What is wrong with an answer: its status and the first MiB of its body. *)
Definition complaint (r : Response) : error :=
  Errorf "request failed with status %d: %s" [FInt (StatusCode r); FStr (takeZ (1024 * 1024) (Body r))].
Definition blame (o : outcome) : error :=
  match o with Reply r | Failed (Some r) _ => complaint r | Failed None e => e end.

(** Attempts that are repeated, from number [i] on: 100 ms, 200 ms, ... *)
Fixpoint attempts (q : Request) (i : nat) (os : list outcome) : list event :=
  match os with
  | [] => []
  | o :: os => EvDo q o :: EvWait (100 * 2 ^ Z.of_nat i) None :: attempts q (S i) os
  end.

(** The last attempt, number [i], and what [doRequest] returns. *)
Inductive last_attempt (q : Request) (i : nat) : list event → result string → Prop :=
  | last_body r : StatusCode r = 200 → (BodyErr r = None ∨ 10 * MiB <= Z.of_nat (String.length (Body r))) →
      last_attempt q i [EvDo q (Reply r)] (Ok (takeZ (10 * MiB) (Body r)))
  | last_unread r err : StatusCode r = 200 → BodyErr r = Some err → Z.of_nat (String.length (Body r)) < 10 * MiB →
      last_attempt q i [EvDo q (Reply r)] (Err (Errorf "failed to read response body: %w" [FErr err]))
  | last_hopeless o r : (o = Reply r ∨ ∃ err, o = Failed (Some r) err) → hopeless (StatusCode r) →
      last_attempt q i [EvDo q o] (Err (complaint r))
  | last_cancelled o err : worth_retrying o →
      last_attempt q i [EvDo q o; EvWait (100 * 2 ^ Z.of_nat i) (Some err)] (Err err)
  | last_exhausted o : worth_retrying o → i = 2%nat →
      last_attempt q i [EvDo q o; EvWait 400 None] (Err (Errorf "exhausted retries: %w" [FErr (blame o)])).

(** ** Facts *)

Lemma takeZ_all n s : Z.of_nat (String.length s) <= n → takeZ n s = s.
Proof.
  revert n. induction s as [|c s IH]; intros n Hn; [done|]. cbn [takeZ String.length] in *.
  destruct (Z.leb_spec n 0); [lia|]. rewrite IH by lia. done.
Qed.
Lemma ReadAll_fst n r : (ReadAll n r).1 = takeZ n (Body r).
Proof. unfold ReadAll. destruct (Z.leb_spec n (Z.of_nat (String.length (Body r)))); [done|]. by rewrite takeZ_all by lia. Qed.
Lemma status_error_complaint r : status_error r = complaint r.
Proof. unfold status_error, complaint. by rewrite ReadAll_fst. Qed.

Lemma client_error_true st : client_error st = true ↔ hopeless st.
Proof. unfold client_error, hopeless. rewrite !andb_true_iff, negb_true_iff, Z.eqb_neq, Z.leb_le, Z.ltb_lt. tauto. Qed.
Lemma client_error_false st : client_error st = false → ¬ hopeless st.
Proof. intros E Hh%client_error_true. congruence. Qed.

(** One attempt: it is the last, or it is worth repeating. *)
Lemma success_last q i r : StatusCode r = 200 →
  last_attempt q i [EvDo q (Reply r)]
    (match ReadAll (10 * MiB) r with
     | (_, Some err) => Err (Errorf "failed to read response body: %w" [FErr err])
     | (b, None) => Ok b
     end).
Proof.
  intros Hs. pose proof (ReadAll_fst (10 * MiB) r) as Hb. unfold ReadAll in *.
  destruct (Z.leb_spec (10 * MiB) (Z.of_nat (String.length (Body r)))) as [Hl|Hl]; [by constructor; [|right]|].
  cbn in Hb. destruct (BodyErr r) as [err|] eqn:E; [by apply last_unread|]. rewrite Hb at 1. constructor; [done|by left].
Qed.

Section loop_spec.
Context {W : Type} (env : HttpEnv W) (q : Request).

(** The turns from [i] on, with [n] more of them. *)
Definition turns_spec (n i : nat) (w : W) (tr : list event) (lastErr : option error) : Prop :=
  let '(r, (w', tr')) := doRequest_loop (traced env) q (S n) i lastErr (w, tr) in
  doRequest_loop env q (S n) i lastErr w = (r, w') ∧
  ∃ os fin, tr' = tr ++ attempts q i os ++ fin ∧ (length os <= n)%nat ∧ Forall worth_retrying os ∧
    last_attempt q (i + length os) fin r.

Lemma turn_spec n i w tr lastErr : is_Some (url.Parse (req_URL q)) → (i + S n = 3)%nat →
  (∀ w tr lastErr, match n with O => True | S n => turns_spec n (S i) w tr lastErr end) → turns_spec n i w tr lastErr.
Proof.
  intros [u Hu] Hi IH. unfold turns_spec. cbn [doRequest_loop]. rewrite Hu. cbn [http_Do traced].
  destruct (http_Do env q w) as [o w1]. assert (backoff i = 100 * 2 ^ Z.of_nat i) as Hback by (unfold backoff; by rewrite Z.shiftl_1_l).
  assert (worth_retrying o → ∀ le, le = Some (blame o) →
    let '(r, (w', tr')) := (match http_Wait (traced env) (backoff i) (w1, tr ++ [EvDo q o]) with
      | (Some ctxErr, w) => (Err ctxErr, w)
      | (None, w) => doRequest_loop (traced env) q n (S i) le w end) in
    (match http_Wait env (backoff i) w1 with
      | (Some ctxErr, w) => (Err ctxErr, w)
      | (None, w) => doRequest_loop env q n (S i) le w end) = (r, w') ∧
    ∃ os fin, tr' = tr ++ attempts q i os ++ fin ∧ (length os <= n)%nat ∧ Forall worth_retrying os ∧
      last_attempt q (i + length os) fin r) as Hretry.
  { intros Ho le ->. cbn [http_Wait traced]. rewrite Hback. destruct (http_Wait env _ w1) as [[e|] w2].
    - split; [done|]. exists [], [EvDo q o; EvWait (100 * 2 ^ Z.of_nat i) (Some e)]. rewrite <- app_assoc, Nat.add_0_r.
      split_and!; [done|cbn; lia|constructor|by constructor].
    - destruct n as [|n].
      + cbn. split; [done|]. exists [], [EvDo q o; EvWait (100 * 2 ^ Z.of_nat i) None]. rewrite <- app_assoc, Nat.add_0_r.
        split_and!; [done|cbn; lia|constructor|]. assert (i = 2%nat) as -> by lia. by constructor.
      + specialize (IH w2 ((tr ++ [EvDo q o]) ++ [EvWait (100 * 2 ^ Z.of_nat i) None]) (Some (blame o))). unfold turns_spec in IH.
        destruct (doRequest_loop (traced env) _ _ _ _ _) as [r [w3 tr']]. destruct IH as (-> & os & fin & -> & Hl & Hf & Hend).
        split; [done|]. exists (o :: os), fin. rewrite <- !app_assoc. cbn. rewrite Nat.add_succ_r. split_and!; [done|lia|by constructor|done]. }
  destruct o as [r|[r|] err]; cbn [success resp_of err_only] in *.
  - destruct (Z.eqb_spec (StatusCode r) 200) as [H2|H2].
    + pose proof (success_last q i r H2) as Hlast. destruct (ReadAll (10 * MiB) r) as [b [err|]];
        (split; [done|]); exists [], [EvDo q (Reply r)]; rewrite Nat.add_0_r; (split_and!; [done|cbn; lia|constructor|done]).
    + destruct (client_error (StatusCode r)) eqn:Hc.
      * split; [done|]. exists [], [EvDo q (Reply r)]. rewrite Nat.add_0_r, status_error_complaint. split_and!; [done|cbn; lia|constructor|].
        apply (last_hopeless _ _ _ r); [by left|by apply client_error_true].
      * apply Hretry; [split; [done|by apply client_error_false]|]. by rewrite status_error_complaint.
  - destruct (client_error (StatusCode r)) eqn:Hc.
    + split; [done|]. exists [], [EvDo q (Failed (Some r) err)]. rewrite Nat.add_0_r, status_error_complaint.
      split_and!; [done|cbn; lia|constructor|]. apply (last_hopeless _ _ _ r); [right; by eexists|by apply client_error_true].
    + apply Hretry; [by apply client_error_false|]. by rewrite status_error_complaint.
  - by apply Hretry.
Qed.

Lemma loop_spec n i w tr lastErr : is_Some (url.Parse (req_URL q)) → (i + S n = 3)%nat → turns_spec n i w tr lastErr.
Proof.
  intros Hu. revert i w tr lastErr. induction n as [|n IH]; intros i w tr lastErr Hi; apply turn_spec; try done.
  intros ???. apply IH. lia.
Qed.
End loop_spec.

(** A 200 answer that can be read is the result. *)
Lemma loop_ok {W} (env : HttpEnv W) req n i lastErr w resp w' :
  is_Some (url.Parse (req_URL req)) →
  http_Do env req w = (Reply resp, w') → StatusCode resp = 200 →
  doRequest_loop env req (S n) i lastErr w =
  (match ReadAll (10 * MiB) resp with
   | (_, Some err) => Err (Errorf "failed to read response body: %w" [FErr err])
   | (b, None) => Ok b
   end, w').
Proof.
  intros [u Hu] Hd Hs. cbn. rewrite Hu, Hd. cbn. rewrite Hs. cbn.
  by destruct (ReadAll _ _) as [b [e|]].
Qed.

(** ** Properties *)

(** C28. What [doRequest] sends, when it waits and what it returns, for every
    sequence of answers.  When the URL does not parse nothing is sent.  Otherwise
    there are at most three attempts, all with the given method, the path under
    the address of the client and its host name; after an attempt that is not a
    success nor a client error other than 429 it waits 100, 200 and 400 ms, in
    this order.  The last attempt decides the result: the first 10 MiB of the body
    of a 200 answer, the error of reading it, the status of a client error, the
    end of the context during a wait, or the third failure. *)
Theorem doRequest_retries {W} (env : HttpEnv W) (c : NginxClient) (method path : string) (w : W) :
  let q := mkRequest method (cl_baseURL c +:+ "/" +:+ strings.TrimPrefix path "/")
             (if decide (cl_host c = "") then None else Some (cl_host c)) in
  let '(r, (w', tr)) := doRequest (traced env) c method path (w, []) in
  doRequest env c method path w = (r, w') ∧
  match url.Parse (req_URL q) with
  | None => tr = [] ∧ r = Err (Errorf "failed to create request: %w" [FStr (req_URL q)])
  | Some _ => ∃ os fin, tr = attempts q 0 os ++ fin ∧ (length os <= 2)%nat ∧ Forall worth_retrying os ∧
      last_attempt q (length os) fin r
  end.
Proof.
  intros q. assert (request_of c method path = q) as Hq by (unfold request_of, q; by repeat case_decide || case_bool_decide).
  unfold doRequest. rewrite Hq. destruct (url.Parse (req_URL q)) as [u|] eqn:Hu.
  - exact (loop_spec env q 2 0 w [] None (ex_intro _ u Hu) eq_refl).
  - unfold maxRetries. cbn [doRequest_loop]. rewrite Hu. done.
Qed.

(** A server that is busy twice and then answers. *)
Definition busy_env : HttpEnv nat := {|
  http_Do := λ _ n, (match n with
                     | 0%nat => Reply (mkResponse 503 "" None)
                     | 1%nat => Failed None (Errorf "connection refused" [])
                     | _ => Reply (mkResponse 200 "ok" None)
                     end, S n);
  http_Wait := λ _ n, (None, n)
|}.

Lemma doRequest_retries_witness :
  let q := mkRequest "GET" "http://10.0.0.1:8080/list" None in
  let '(r, (w, tr)) := doRequest (traced busy_env) (mkClient "http://10.0.0.1:8080" "") "GET" "/list" (0%nat, []) in
  r = Ok "ok" ∧ tr = [EvDo q (Reply (mkResponse 503 "" None)); EvWait 100 None;
    EvDo q (Failed None (Errorf "connection refused" [])); EvWait 200 None; EvDo q (Reply (mkResponse 200 "ok" None))] ∧
  doRequest busy_env (mkClient "http://10.0.0.1:8080" "") "GET" "/list" 0%nat = (r, w).
Proof.
  pose proof (doRequest_retries busy_env (mkClient "http://10.0.0.1:8080" "") "GET" "/list" 0%nat) as H.
  vm_compute in H |- *. destruct H as [H _]. repeat split.
Defined.
