(* ===== verification/NginxPlan.v ===== *)
(** * The reconciliation plan of the NGINX adapter

    The pure part of [SyncUpstream] (adapters/loadbalancer/nginx/nginx.go): the
    aggregation of duplicate backends, the comparison with the backends NGINX
    lists, and the order of the requests.  [server_state] is what NGINX holds
    for one upstream, as a map from backend keys to weights. *)
From S2P Require Export NginxFormat.
From Stdlib Require Import Lia.
Local Open Scope Z_scope.

(** ** Definitions *)

(** One turn of the loop that aggregates duplicate backends. *)
Definition aggregate (m : gmap string Backend) (db : Backend) : gmap string Backend :=
  let weightToAdd := if be_Weight db <? 1 then 1 else be_Weight db in
  let key := backendKey db in
  match m !! key with
  | Some tmpdb => <[key := set_Weight (int64 (be_Weight tmpdb + weightToAdd)) tmpdb]> m
  | None => <[key := set_Weight weightToAdd db]> m
  end.
Definition desiredBackends (bs : list Backend) : gmap string Backend := foldl aggregate ∅ bs.

(** The backends of this upstream, in the named or in the flat format. *)
Definition currentBackends (all : gmap string (list Backend)) (name : string) : list Backend :=
  let current := default [] (all !! name) in
  if bool_decide (length current = 0%nat) && bool_decide (size all = 1%nat) &&
     bool_decide (0 < length (default [] (all !! "")))%nat
  then default [] (all !! "") else current.

(** The inner loop over the current backends, up to its [break]. *)
Fixpoint find_same (db : Backend) (current : list Backend) : option Backend :=
  match current with
  | [] => None
  | cb :: current => if sameBackend db cb then Some cb else find_same db current
  end.

(** [updateBackends], [removeBackends] and [changed]. *)
Record diff_state := mkDiff {
  updateBackends : gmap string Backend;
  removeBackends : gmap string Backend;
  changed : bool
}.

Definition diff_desired (current : list Backend) (d : diff_state) (kv : string * Backend) : diff_state :=
  let '(key, db) := kv in
  match find_same db current with
  | Some cb =>
      if be_Weight cb =? be_Weight db then d
      else mkDiff (<[key := db]> (updateBackends d)) (removeBackends d) true
  | None => mkDiff (<[key := db]> (updateBackends d)) (removeBackends d) true
  end.
Definition diff_current (desired : gmap string Backend) (d : diff_state) (cb : Backend) : diff_state :=
  let key := backendKey cb in
  match desired !! key with
  | Some _ => d
  | None => mkDiff (updateBackends d) (<[key := cb]> (removeBackends d)) true
  end.

Definition diff `{MapRange} (desired : gmap string Backend) (current : list Backend) : diff_state :=
  foldl (diff_current desired)
    (foldl (diff_desired current) (mkDiff ∅ ∅ false) (map_range desired)) current.

(** [sort.Strings] and the sorted keys of a map. *)
Definition sort_Strings (l : list string) : list string := merge_sort String.le l.
Definition sorted_keys `{MapRange} {A} (m : gmap string A) : list string :=
  sort_Strings (map_range m).*1.

(** The requests, in the order they are sent. *)
Inductive action := Add (b : Backend) | Remove (b : Backend).

Definition plan `{MapRange} (desired : gmap string Backend) (current : list Backend) : list action :=
  let d := diff desired current in
  (Add <$> omap (λ k, updateBackends d !! k) (sorted_keys (updateBackends d))) ++
  (Remove <$> omap (λ k, removeBackends d !! k) (sorted_keys (removeBackends d))).

(** ** Specification *)

(** What a list of backends amounts to: the first entry of a key counts. *)
Definition server_state (bs : list Backend) : gmap string Z :=
  list_to_map ((λ b, (backendKey b, be_Weight b)) <$> bs).

Definition apply_action (s : gmap string Z) (a : action) : gmap string Z :=
  match a with
  | Add b => <[backendKey b := be_Weight b]> s
  | Remove b => delete (backendKey b) s
  end.

(** The weight of a desired backend, summed over its duplicates. *)
Definition desired_weights (bs : list Backend) : gmap string Z := be_Weight <$> desiredBackends bs.

(** ** Facts *)

Definition keyed (m : gmap string Backend) : Prop := ∀ k b, m !! k = Some b → backendKey b = k.

Lemma set_Weight_key w b : backendKey (set_Weight w b) = backendKey b.
Proof. done. Qed.

Lemma keyed_insert m k b : keyed m → backendKey b = k → keyed (<[k := b]> m).
Proof.
  intros Hm Hb k' b' H. destruct (decide (k = k')) as [->|Hne].
  - rewrite lookup_insert_eq in H. by injection H as <-.
  - rewrite lookup_insert_ne in H by done. by apply Hm.
Qed.

Lemma aggregate_keyed m db : keyed m → keyed (aggregate m db).
Proof.
  intros Hm. unfold aggregate. destruct (m !! backendKey db) as [t|] eqn:E;
    apply keyed_insert; try done. rewrite set_Weight_key. by apply Hm.
Qed.

Lemma foldl_inv {A B} (P : A → Prop) (f : A → B → A) l a :
  P a → (∀ a x, P a → P (f a x)) → P (foldl f a l).
Proof. intros Ha Hf. revert a Ha. induction l as [|x l IH]; intros a Ha; [done|]. cbn. auto. Qed.

Lemma desired_keyed bs : keyed (desiredBackends bs).
Proof. apply (foldl_inv keyed); [by intros ?? H; rewrite lookup_empty in H|]. intros; by apply aggregate_keyed. Qed.

Lemma find_same_state db current : 
  be_Weight <$> find_same db current = server_state current !! backendKey db.
Proof.
  induction current as [|cb current IH]; [done|]. cbn [find_same]. unfold server_state.
  rewrite fmap_cons. cbn [list_to_map foldr fst snd]. fold (server_state current).
  destruct (sameBackend db cb) eqn:E.
  - apply backendKey_same in E. rewrite E. by rewrite lookup_insert_eq.
  - rewrite lookup_insert_ne; [done|]. intros H. symmetry in H. apply backendKey_same in H. congruence.
Qed.

(** The update set: desired backends NGINX lacks or holds with another weight. *)
Definition stale (current : list Backend) (kv : string * Backend) : Prop :=
  server_state current !! kv.1 ≠ Some (be_Weight kv.2).
Global Instance stale_dec current kv : Decision (stale current kv).
Proof. unfold stale. apply _. Defined.

Lemma diff_desired_step current d k db : backendKey db = k →
  diff_desired current d (k, db) =
  if decide (stale current (k, db))
  then mkDiff (<[k := db]> (updateBackends d)) (removeBackends d) true else d.
Proof.
  intros Hk. unfold diff_desired, stale. cbn [fst snd]. pose proof (find_same_state db current) as Hf.
  rewrite Hk in Hf. case_decide as Hs; destruct (find_same db current) as [cb|]; cbn in Hf.
  - destruct (Z.eqb_spec (be_Weight cb) (be_Weight db)) as [E|]; [|done].
    destruct Hs. by rewrite <- Hf, E.
  - done.
  - rewrite <- Hf in Hs. injection Hs as ->. by rewrite Z.eqb_refl.
  - congruence.
Qed.

Lemma diff_desired_fold current l d : NoDup l.*1 → Forall (λ kv, backendKey kv.2 = kv.1) l →
  updateBackends (foldl (diff_desired current) d l) =
    list_to_map (filter (stale current) l) ∪ updateBackends d ∧
  removeBackends (foldl (diff_desired current) d l) = removeBackends d.
Proof.
  intros Hd Hk. revert d. induction l as [|[k db] l IH]; intros d; [cbn; by rewrite (left_id_L ∅ (∪))|].
  cbn in Hd. apply list.NoDup_cons in Hd as [Hn Hd]. apply list.Forall_cons in Hk as [Hkb Hk].
  cbn [foldl]. rewrite diff_desired_step by done. destruct (IH Hd Hk (if decide (stale current (k, db))
    then mkDiff (<[k := db]> (updateBackends d)) (removeBackends d) true else d)) as [E1 E2].
  rewrite E1, E2, filter_cons. destruct (decide (stale current (k, db))); [|done]. split; [|done].
  cbn. rewrite <- insert_union_l, <- insert_union_r; [done|].
  apply not_elem_of_list_to_map_1. intros ([k' v] & -> & [_ Hv]%list_elem_of_filter)%list_elem_of_fmap.
  apply Hn, list_elem_of_fmap. by exists (k', v).
Qed.

Lemma diff_current_fold desired l d :
  updateBackends (foldl (diff_current desired) d l) = updateBackends d ∧
  (keyed (removeBackends d) → keyed (removeBackends (foldl (diff_current desired) d l))) ∧
  (∀ k, is_Some (removeBackends (foldl (diff_current desired) d l) !! k) ↔
    is_Some (removeBackends d !! k) ∨ (k ∈ backendKey <$> l ∧ desired !! k = None)).
Proof.
  revert d. induction l as [|cb l IH]; intros d; cbn [foldl].
  { split_and!; [done|done|]. intros k. cbn. set_solver. }
  destruct (IH (diff_current desired d cb)) as (E1 & E2 & E3).
  unfold diff_current in *. destruct (desired !! backendKey cb) as [b|] eqn:E.
  - split_and!; [done|done|]. intros k. rewrite E3, fmap_cons, elem_of_cons.
    split; [naive_solver|]. intros [?|[[->|?] ?]]; [by left|congruence|by right].
  - cbn in *. split_and!; [done|intros; by apply E2, keyed_insert|]. intros k.
    rewrite E3, elem_of_cons, lookup_insert_is_Some. destruct (decide (backendKey cb = k)); naive_solver.
Qed.

Lemma diff_changed_desired current l d :
  (changed d = true ↔ updateBackends d ≠ ∅ ∨ removeBackends d ≠ ∅) →
  let d' := foldl (diff_desired current) d l in
  (changed d' = true ↔ updateBackends d' ≠ ∅ ∨ removeBackends d' ≠ ∅).
Proof.
  intros Hd. apply (foldl_inv (λ d, changed d = true ↔ updateBackends d ≠ ∅ ∨ removeBackends d ≠ ∅)); [done|].
  clear. intros d [k db] Hd. unfold diff_desired.
  assert (<[k := db]> (updateBackends d) ≠ ∅) by apply insert_non_empty.
  repeat case_match; cbn; tauto.
Qed.
Lemma diff_changed_current desired l d :
  (changed d = true ↔ updateBackends d ≠ ∅ ∨ removeBackends d ≠ ∅) →
  let d' := foldl (diff_current desired) d l in
  (changed d' = true ↔ updateBackends d' ≠ ∅ ∨ removeBackends d' ≠ ∅).
Proof.
  intros Hd. apply (foldl_inv (λ d, changed d = true ↔ updateBackends d ≠ ∅ ∨ removeBackends d ≠ ∅)); [done|].
  clear. intros d cb Hd. unfold diff_current.
  assert (<[backendKey cb := cb]> (removeBackends d) ≠ ∅) by apply insert_non_empty.
  repeat case_match; cbn; tauto.
Qed.

Section diff_spec.
Context `{MapRange} (desired : gmap string Backend) (current : list Backend).
Hypothesis Hkeyed : keyed desired.

Lemma diff_updates : updateBackends (diff desired current) = filter (stale current) desired.
Proof.
  unfold diff. destruct (diff_current_fold desired current
    (foldl (diff_desired current) (mkDiff ∅ ∅ false) (map_range desired))) as [-> _].
  destruct (diff_desired_fold current (map_range desired) (mkDiff ∅ ∅ false)) as [-> _].
  - apply map_range_NoDup_keys.
  - apply list.Forall_forall. intros [k b] Hin. apply map_range_elem in Hin. by apply Hkeyed.
  - cbn. rewrite (right_id_L ∅ (∪)), map_filter_alt. apply list_to_map_proper.
    + apply (sublist_NoDup _ (map_range desired).*1); [apply map_range_NoDup_keys|apply fmap_sublist, sublist_filter].
    + by rewrite map_range_perm.
Qed.

Lemma diff_removes k :
  (is_Some (removeBackends (diff desired current) !! k) ↔
   k ∈ backendKey <$> current ∧ desired !! k = None) ∧
  keyed (removeBackends (diff desired current)).
Proof.
  unfold diff. destruct (diff_current_fold desired current
    (foldl (diff_desired current) (mkDiff ∅ ∅ false) (map_range desired))) as (_ & E2 & E3).
  assert (removeBackends (foldl (diff_desired current) (mkDiff ∅ ∅ false) (map_range desired)) = ∅) as E.
  { apply (foldl_inv (λ d, removeBackends d = ∅)); [done|]. intros d [k' db] Hd. unfold diff_desired.
    by repeat case_match. }
  rewrite E in E2, E3. split.
  - rewrite E3, lookup_empty. split; [intros [[? [=]]|?]; done|auto].
  - apply E2. by intros ?? Hl; rewrite lookup_empty in Hl.
Qed.

Lemma diff_changed :
  changed (diff desired current) = true ↔
  updateBackends (diff desired current) ≠ ∅ ∨ removeBackends (diff desired current) ≠ ∅.
Proof.
  unfold diff. apply diff_changed_current, diff_changed_desired. cbn. split; [done|]. by intros [?|?].
Qed.
End diff_spec.

(** The weight a backend counts for. *)
Definition weight_at_least_1 (b : Backend) : Z := if be_Weight b <? 1 then 1 else be_Weight b.

Lemma aggregate_merge m b : aggregate m b = merge_step backendKey weight_at_least_1 m b.
Proof. done. Qed.

Lemma desired_weight_lookup bs k :
  Forall (λ b, - 2 ^ 63 <= be_Weight b < 2 ^ 63) bs →
  desired_weights bs !! k =
  if decide (k ∈ backendKey <$> bs) then Some (int64 (key_weight backendKey weight_at_least_1 k bs))
  else None.
Proof.
  intros Hr. unfold desired_weights, desiredBackends. rewrite lookup_fmap.
  change (foldl aggregate ∅ bs) with (foldl (merge_step backendKey weight_at_least_1) ∅ bs).
  rewrite merge_lookup, lookup_empty; [done|].
  eapply Forall_impl; [|exact Hr]. intros b Hb. cbn beta in Hb. unfold weight_in_range, weight_at_least_1.
  destruct (Z.ltb_spec (be_Weight b) 1); lia.
Qed.

(** Sorted keys. *)
Lemma sort_Strings_perm l : sort_Strings l ≡ₚ l.
Proof. apply merge_sort_Permutation. Qed.
Lemma sort_Strings_sorted l : StronglySorted String.le (sort_Strings l).
Proof. apply (StronglySorted_merge_sort String.le). Qed.

Lemma sort_Strings_unique l1 l2 : l1 ≡ₚ l2 → sort_Strings l1 = sort_Strings l2.
Proof.
  intros Hp. apply (StronglySorted_unique String.le); [apply sort_Strings_sorted..|].
  by rewrite !sort_Strings_perm.
Qed.

Lemma sorted_keys_elem `{MapRange} {A} (m : gmap string A) k : k ∈ sorted_keys m ↔ is_Some (m !! k).
Proof.
  unfold sorted_keys. rewrite sort_Strings_perm, list_elem_of_fmap. split.
  - intros ([k' x] & -> & Hx%map_range_elem). by exists x.
  - intros [x Hx]. exists (k, x). split; [done|]. by apply map_range_elem.
Qed.

Lemma sorted_keys_range {A} (M1 M2 : MapRange) (m : gmap string A) :
  @sorted_keys M1 A m = @sorted_keys M2 A m.
Proof.
  apply sort_Strings_unique. rewrite (@map_range_perm M1), (@map_range_perm M2). done.
Qed.

(** The effect of the requests on the server. *)
Lemma foldl_adds ks upd s k : keyed upd →
  foldl apply_action s (Add <$> omap (λ k, upd !! k) ks) !! k =
  match (if decide (k ∈ ks) then upd !! k else None) with
  | Some b => Some (be_Weight b)
  | None => s !! k
  end.
Proof.
  intros Hk. revert s. induction ks as [|k' ks IH]; intros s.
  { rewrite decide_False by set_solver. done. }
  cbn [omap list_omap]. destruct (upd !! k') as [b|] eqn:E; cbn [fmap list_fmap foldl]; rewrite IH.
  - cbn [apply_action]. rewrite (Hk k' b E). destruct (decide (k' = k)) as [->|Hne].
    + rewrite (decide_True (P := k ∈ k :: ks)) by constructor. rewrite E, lookup_insert_eq.
      by case_decide; rewrite ?E.
    + rewrite lookup_insert_ne by done.
      assert (k ∈ k' :: ks ↔ k ∈ ks) as Hiff by (rewrite elem_of_cons; naive_solver).
      by rewrite (decide_ext _ _ _ _ Hiff).
  - destruct (decide (k' = k)) as [->|Hne].
    + rewrite E. by repeat case_decide.
    + assert (k ∈ k' :: ks ↔ k ∈ ks) as Hiff by (rewrite elem_of_cons; naive_solver).
      by rewrite (decide_ext _ _ _ _ Hiff).
Qed.

Lemma foldl_removes ks rem s k : keyed rem →
  foldl apply_action s (Remove <$> omap (λ k, rem !! k) ks) !! k =
  if decide (k ∈ ks ∧ is_Some (rem !! k)) then None else s !! k.
Proof.
  intros Hk. revert s. induction ks as [|k' ks IH]; intros s.
  { rewrite decide_False by set_solver. done. }
  cbn [omap list_omap]. destruct (rem !! k') as [b|] eqn:E; cbn [fmap list_fmap foldl]; rewrite IH.
  - cbn [apply_action]. rewrite (Hk k' b E). destruct (decide (k' = k)) as [->|Hne].
    + rewrite (decide_True (P := k ∈ k :: ks ∧ is_Some (rem !! k))) by (split; [constructor|eauto]).
      case_decide; [done|]. apply lookup_delete_eq.
    + rewrite lookup_delete_ne by done.
      assert (k ∈ k' :: ks ∧ is_Some (rem !! k) ↔ k ∈ ks ∧ is_Some (rem !! k)) as Hiff
        by (rewrite elem_of_cons; naive_solver).
      by rewrite (decide_ext _ _ _ _ Hiff).
  - assert (k ∈ k' :: ks ∧ is_Some (rem !! k) ↔ k ∈ ks ∧ is_Some (rem !! k)) as Hiff.
    { rewrite elem_of_cons. split; [|naive_solver]. intros [[->|?] ?]; [|done]. rewrite E in *. by destruct_and?; match goal with H : is_Some None |- _ => destruct H end. }
    by rewrite (decide_ext _ _ _ _ Hiff).
Qed.

Lemma server_state_elem bs k : is_Some (server_state bs !! k) ↔ k ∈ backendKey <$> bs.
Proof.
  unfold server_state. induction bs as [|b bs IH].
  - cbn. rewrite lookup_empty. split; [by intros [? ?]|set_solver].
  - rewrite !fmap_cons. cbn [list_to_map foldr fst snd]. rewrite elem_of_cons, <- IH, lookup_insert_is_Some.
    destruct (decide (backendKey b = k)); naive_solver.
Qed.

Lemma plan_effect `{MapRange} desired current : keyed desired →
  foldl apply_action (server_state current) (plan desired current) = be_Weight <$> desired.
Proof.
  intros Hk. unfold plan. set (d := diff desired current).
  assert (keyed (updateBackends d)) as Hu.
  { unfold d. rewrite diff_updates by done. intros k b [? _]%map_lookup_filter_Some. by apply Hk. }
  assert (keyed (removeBackends d)) as Hr by (apply (diff_removes desired current "")).
  apply map_eq. intros k. rewrite foldl_app, foldl_removes, foldl_adds, lookup_fmap by done.
  assert (is_Some (removeBackends d !! k) ↔ k ∈ backendKey <$> current ∧ desired !! k = None) as Hrem
    by (by apply diff_removes).
  assert (k ∈ sorted_keys (removeBackends d) ∧ is_Some (removeBackends d !! k) ↔
    is_Some (removeBackends d !! k)) as Hiff by (rewrite sorted_keys_elem; tauto).
  rewrite (decide_ext _ _ _ _ Hiff). case_decide as Hdec.
  { apply Hrem in Hdec as [_ ->]. done. }
  assert ((if decide (k ∈ sorted_keys (updateBackends d)) then updateBackends d !! k else None) =
    updateBackends d !! k) as ->.
  { case_decide as Hs; [done|]. rewrite sorted_keys_elem in Hs. by apply eq_None_not_Some in Hs. }
  unfold d. rewrite diff_updates by done. rewrite map_lookup_filter.
  destruct (desired !! k) as [b|] eqn:E; cbn.
  - unfold stale; cbn. destruct (decide (server_state current !! k = Some (be_Weight b))) as [Hst|Hst].
    + rewrite option_guard_False by tauto. done.
    + rewrite option_guard_True by done. done.
  - apply eq_None_not_Some. rewrite server_state_elem. intros Hin. apply Hdec, Hrem. done.
Qed.

Lemma plan_nil `{MapRange} desired current : keyed desired →
  plan desired current = [] ↔ server_state current = be_Weight <$> desired.
Proof.
  intros Hk. split.
  - intros E. pose proof (plan_effect desired current Hk) as He. by rewrite E in He.
  - intros E. unfold plan.
    assert (updateBackends (diff desired current) = ∅) as ->.
    { rewrite diff_updates by done. apply map_empty_filter_2. intros k b Hb. unfold stale. cbn.
      rewrite E, lookup_fmap, Hb. tauto. }
    assert (removeBackends (diff desired current) = ∅) as ->.
    { apply map_empty. intros k. apply eq_None_not_Some. intros Hs. apply (diff_removes desired current k) in Hs as [Hin Hn].
      apply server_state_elem in Hin as [w Hw]. rewrite E, lookup_fmap, Hn in Hw. done. }
    unfold sorted_keys. assert (map_range (∅ : gmap string Backend) = []) as ->; [|done].
    apply Permutation_nil. by rewrite map_range_perm, map_to_list_empty.
Qed.

(** The remove set does not depend on the order the map is visited in. *)
Lemma diff_current_removes desired l d1 d2 :
  removeBackends d1 = removeBackends d2 →
  removeBackends (foldl (diff_current desired) d1 l) = removeBackends (foldl (diff_current desired) d2 l).
Proof.
  revert d1 d2. induction l as [|cb l IH]; intros d1 d2 E; [done|]. cbn [foldl]. apply IH.
  unfold diff_current. destruct (desired !! backendKey cb); [done|]. cbn. by rewrite E.
Qed.

Lemma removes_range (M1 M2 : MapRange) desired current :
  removeBackends (@diff M1 desired current) = removeBackends (@diff M2 desired current).
Proof.
  apply diff_current_removes.
  assert (∀ l, removeBackends (foldl (diff_desired current) (mkDiff ∅ ∅ false) l) = ∅) as H.
  { intros l. apply (foldl_inv (λ d, removeBackends d = ∅)); [done|]. intros d [k db] Hd. unfold diff_desired.
    by repeat case_match. }
  by rewrite !H.
Qed.

Lemma plan_changed `{MapRange} desired current : keyed desired →
  changed (diff desired current) = true ↔ plan desired current ≠ [].
Proof.
  intros Hk.
  rewrite diff_changed. unfold plan.
  assert (∀ m : gmap string Backend, m ≠ ∅ ↔ omap (λ k, m !! k) (sorted_keys m) ≠ []) as Hm.
  { intros m. split.
    - intros (k & b & Hb)%map_choose E. assert (b ∈ omap (λ k, m !! k) (sorted_keys m)) as Hin.
      { apply list_elem_of_omap. exists k. split; [apply sorted_keys_elem; eauto|done]. }
      rewrite E in Hin. by apply not_elem_of_nil in Hin.
    - intros Hne ->. destruct (omap _ _) as [|b l] eqn:E; [done|].
      assert (b ∈ omap (λ k, (∅ : gmap string Backend) !! k) (sorted_keys (∅ : gmap string Backend))) as Hin
        by (rewrite E; constructor).
      apply list_elem_of_omap in Hin as (k & _ & Hk'). by rewrite lookup_empty in Hk'. }
  rewrite !Hm. destruct (omap _ _), (omap _ _); cbn; naive_solver.
Qed.

(** A removed backend is one of the listed ones. *)
Lemma diff_removes_from `{MapRange} desired current k b :
  removeBackends (diff desired current) !! k = Some b → b ∈ current.
Proof.
  unfold diff. set (d := foldl (diff_desired current) _ _).
  assert (removeBackends d = ∅) as E.
  { apply (foldl_inv (λ d, removeBackends d = ∅)); [done|]. intros d' [k' db] Hd. unfold diff_desired.
    by repeat case_match. }
  assert (∀ l d, (∀ k b, removeBackends d !! k = Some b → b ∈ current) → (∀ b, b ∈ l → b ∈ current) →
    removeBackends (foldl (diff_current desired) d l) !! k = Some b → b ∈ current) as Hgo.
  { clear. induction l as [|cb l IH]; intros d Hd Hl; [apply Hd|]. cbn [foldl]. apply IH.
    - intros k' b'. unfold diff_current. destruct (desired !! backendKey cb); [apply Hd|]. cbn.
      destruct (decide (backendKey cb = k')) as [->|Hne].
      + rewrite lookup_insert_eq. intros [= <-]. apply Hl. constructor.
      + rewrite lookup_insert_ne by done. apply Hd.
    - intros b' Hb'. apply Hl. by constructor. }
  apply Hgo; [|done]. intros k' b'. by rewrite E, lookup_empty.
Qed.

(** ** Properties *)

(** The desired weight of a server is the sum of the weights of the
    backends that name it, each counted for at least 1 and the sum wrapped at
    64 bits; a server nobody names is not desired. In particular the order of
    the backends does not matter. *)
Theorem desired_weights_spec (bs : list Backend) :
  Forall (λ b, - 2 ^ 63 <= be_Weight b < 2 ^ 63) bs →
  (∀ k, desired_weights bs !! k =
    if decide (k ∈ backendKey <$> bs) then Some (int64 (key_weight backendKey weight_at_least_1 k bs))
    else None) ∧
  (∀ bs', bs ≡ₚ bs' → desired_weights bs' = desired_weights bs).
Proof.
  intros Hr. split; [intros k; by apply desired_weight_lookup|].
  intros bs' Hp. apply map_eq. intros k.
  rewrite !desired_weight_lookup by (done || by rewrite <- Hp).
  rewrite (key_weight_perm _ _ k bs bs') by done.
  apply decide_ext. by rewrite Hp.
Qed.

Lemma desired_weights_spec_witness :
  let bs := [mkBackend "10.0.0.1" 80 1; mkBackend "[10.0.0.1]" 80 2; mkBackend "10.0.0.2" 80 0] in
  Forall (λ b, - 2 ^ 63 <= be_Weight b < 2 ^ 63) bs ∧
  desired_weights bs !! "10.0.0.1:80" = Some 3 ∧ desired_weights bs !! "10.0.0.2:80" = Some 1.
Proof.
  cbv zeta. set (bs := [_; _; _]).
  assert (Forall (λ b, - 2 ^ 63 <= be_Weight b < 2 ^ 63) bs) as H
    by (repeat constructor; vm_compute; (discriminate || reflexivity)).
  destruct (desired_weights_spec bs H) as [Hw _].
  split; [exact H|]. rewrite !Hw. split; vm_compute; reflexivity.
Defined.

(** C25. The plan brings the server from the listed backends to exactly the
    desired servers and weights, and it is empty only if they are there
    already: nothing is sent for an upstream in the desired state. *)
Theorem plan_converges `{MapRange} (bs current : list Backend) :
  let desired := desiredBackends bs in
  foldl apply_action (server_state current) (plan desired current) = desired_weights bs ∧
  (plan desired current = [] ↔ server_state current = desired_weights bs) ∧
  (changed (diff desired current) = true ↔ plan desired current ≠ []).
Proof.
  intros desired. pose proof (desired_keyed bs) as Hk.
  split; [by apply plan_effect|]. split; [by apply plan_nil|]. by apply plan_changed.
Qed.

(** The plan is deterministic: it does not depend on the order in which Go
    visits its maps, additions come before removals, and both are sorted by
    key. *)
Theorem plan_deterministic (M1 M2 : MapRange) (bs current : list Backend) :
  let desired := desiredBackends bs in
  @plan M1 desired current = @plan M2 desired current ∧
  ∃ adds removes, @plan M1 desired current = (Add <$> adds) ++ (Remove <$> removes) ∧
    StronglySorted String.le (backendKey <$> adds) ∧ StronglySorted String.le (backendKey <$> removes).
Proof.
  intros desired. pose proof (desired_keyed bs) as Hk. split.
  - unfold plan. rewrite (diff_updates (H:=M1)), (diff_updates (H:=M2)) by done.
    rewrite (removes_range M1 M2). by rewrite !(sorted_keys_range M1 M2).
  - clear M2. unfold plan. cbv zeta. eexists _, _. split; [done|].
    assert (∀ m : gmap string Backend, keyed m →
      backendKey <$> omap (λ k, m !! k) (sorted_keys m) = sorted_keys m) as Hs.
    { intros m Hm. assert (Forall (λ k, is_Some (m !! k)) (sorted_keys m)) as Hall
        by (apply list.Forall_forall; intros k; apply sorted_keys_elem).
      induction Hall as [|k l [b Hb] _ IH]; [done|]. cbn. rewrite Hb. cbn. by rewrite (Hm k b Hb), IH. }
    assert (keyed (updateBackends (diff desired current))) as Hu.
    { rewrite diff_updates by done. intros k b [? _]%map_lookup_filter_Some. by apply Hk. }
    assert (keyed (removeBackends (diff desired current))) as Hr by apply (diff_removes desired current "").
    split; [rewrite (Hs _ Hu)|rewrite (Hs _ Hr)]; apply sort_Strings_sorted.
Qed.
