(* ===== verification/LoadBalancerPort.v ===== *)
(** * The load balancer port: internal/ports/loadbalancer/loadbalancer.go

    The interface between the controller and its adapters, and the contract
    its comments state.  [S] is the state of the adapter and of the load
    balancer behind it; [view s u] is what the balancer serves for upstream
    [u], a map from server keys to weights per server instance. *)
From S2P Require Export Model.

Record LoadBalancerAdapter (S : Type) := mkAdapter {
  lb_SyncUpstream : Upstream → ST S (option error);
  lb_SyncAllUpstreams : gmap string Upstream → ST S (option error)
}.
Arguments lb_SyncUpstream {_} _ _ _.
Arguments lb_SyncAllUpstreams {_} _ _ _.

(** ** Schedules

    The goroutines a call starts for its clients run in an order the language
    leaves unspecified.  The order is a parameter of the definitions; every
    client is served exactly once. *)
Class Schedule := {
  schedule : ∀ {A}, list A → list A;
  schedule_perm : ∀ {A} (l : list A), schedule l ≡ₚ l
}.
Definition schedule_in_order : Schedule :=
  {| schedule := λ A l, l; schedule_perm := λ A l, reflexivity _ |}.
Program Definition schedule_reverse : Schedule := {| schedule := λ A l, reverse l |}.
Next Obligation. intros A l. apply reverse_Permutation. Qed.

(** [multierror.ErrorOrNil]: the collected errors, if any. *)
Definition ErrorOrNil (errs : list error) : option error :=
  match errs with [] => None | _ => Some (Errorf "multierror" [FErrs errs]) end.

(** Collect what the iterations of a loop return. *)
Fixpoint collect {S A B} (f : A → ST S (list B)) (l : list A) : ST S (list B) :=
  match l with
  | [] => mret []
  | x :: l => λ s, let '(bs, s) := f x s in let '(bs', s) := collect f l s in (bs ++ bs', s)
  end.

(** The contract of the port: [healthy s] is the condition under which the
    balancer answers, [view] what it serves. *)
Record Converges {S} (ad : LoadBalancerAdapter S) (healthy : S → Prop)
    (desired : Upstream → gmap string Z) (ok : Upstream → Prop) (name_ok : string → Prop)
    (prune : bool) {I} (instances : list I) (view : S → I → string → gmap string Z) : Prop := {
  conv_one : ∀ u s, healthy s → ok u →
    let '(e, s') := lb_SyncUpstream ad u s in
    e = None ∧ healthy s' ∧
    ∀ i, i ∈ instances → view s' i (up_Name u) = desired u ∧
      ∀ n, n ≠ up_Name u → view s' i n = view s i n;
  conv_all : ∀ m s, healthy s →
    (∀ k u, m !! k = Some u → up_Name u = k ∧ (up_PreserveExistingBackends u = false → ok u)) →
    let '(e, s') := lb_SyncAllUpstreams ad m s in
    e = None ∧ healthy s' ∧
    ∀ i n, i ∈ instances → name_ok n →
      view s' i n =
      match m !! n with
      | Some u => if up_PreserveExistingBackends u then view s i n else desired u
      | None => if prune then ∅ else view s i n
      end
}.

(** ** Facts *)

Lemma collect_app {S A B} (f : A → ST S (list B)) l1 l2 s :
  collect f (l1 ++ l2) s =
  let '(b1, s1) := collect f l1 s in let '(b2, s2) := collect f l2 s1 in (b1 ++ b2, s2).
Proof.
  revert s. induction l1 as [|x l1 IH]; intros s; cbn.
  - by destruct (collect f l2 s).
  - destruct (f x s) as [b s1]. rewrite IH. destruct (collect f l1 s1) as [b1 s2].
    destruct (collect f l2 s2). by rewrite app_assoc.
Qed.

(** An invariant of a loop whose iterations report no error. *)
Lemma collect_inv {S A B} (f : A → ST S (list B)) (P : list A → S → Prop) l : ∀ done s,
  P done s →
  (∀ pre x post s, l = pre ++ x :: post → P (done ++ pre) s →
     let '(b, s') := f x s in b = [] ∧ P (done ++ pre ++ [x]) s') →
  let '(b, s') := collect f l s in b = [] ∧ P (done ++ l) s'.
Proof.
  induction l as [|x l IH]; intros dn s Hs Hf; cbn.
  { split; [done|]. by rewrite app_nil_r. }
  pose proof (Hf [] x l s eq_refl) as Hx. rewrite app_nil_r in Hx. specialize (Hx Hs).
  destruct (f x s) as [b s1]. destruct Hx as [-> Hs1]. cbn in Hs1.
  specialize (IH (dn ++ [x]) s1 Hs1). destruct (collect f l s1) as [b' s2].
  destruct IH as [-> Hs2].
  - intros pre y post s0 -> Hp. specialize (Hf (x :: pre) y post s0 eq_refl).
    rewrite <- !app_assoc in *. cbn in *. by apply Hf.
  - split; [done|]. by rewrite <- app_assoc in Hs2.
Qed.

(** A property of states that every iteration keeps, errors or not. *)
Lemma collect_keeps {S A B} (f : A → ST S (list B)) (P : S → Prop) l s :
  P s → (∀ x s, x ∈ l → P s → P (f x s).2) → P (collect f l s).2.
Proof.
  revert s. induction l as [|x l IH]; intros s Hs Hf; cbn; [done|].
  pose proof (Hf x s ltac:(constructor) Hs) as Hx. destruct (f x s) as [b s1]. cbn in Hx.
  specialize (IH s1 Hx). destruct (collect f l s1). apply IH. intros y s' Hy. apply Hf. by constructor.
Qed.
