(* ===== verification/NginxSync.v ===== *)
(** * The NGINX adapter: adapters/loadbalancer/nginx/nginx.go

    [SyncUpstream] and [SyncAllUpstreams] over the clients of the adapter, with
    the cache of listings.  The goroutines run one after the other in the
    order of a [Schedule]: they share only the cache, in which each uses the
    entry of its own base URL, and the list of errors. *)
From S2P Require Export LoadBalancerPort NginxClient NginxPlan.
From Stdlib Require Import Lia.
Local Open Scope Z_scope.
Local Open Scope go_scope.

(** ** State *)

(** What the adapter takes from its environment: HTTP, the clock in
    nanoseconds, and the acquisition of its semaphore, which fails when the
    context ends. *)
Record NginxEnv (W : Type) := mkNginxEnv {
  ne_http : HttpEnv W;
  ne_Now : W → Z;
  ne_Acquire : W → option error * W
}.
Arguments ne_http {_} _.
Arguments ne_Now {_} _ _.
Arguments ne_Acquire {_} _ _.

Record NginxAdapter := mkNginxAdapter {
  na_clients : list NginxClient;
  na_config : NginxConfig
}.

Abbreviation Listing := (gmap string (list Backend)).

(** The mutable part of the adapter and the world. *)
Record AdState (W : Type) := mkAdState {
  ad_cache : gmap string Listing;
  ad_cacheExp : gmap string Z;
  ad_world : W
}.
Arguments mkAdState {_} _ _ _.
Arguments ad_cache {_} _.
Arguments ad_cacheExp {_} _.
Arguments ad_world {_} _.

(** [NewNginxAdapter], with the outcome of [NewNginxClientSet]. *)
Definition NewNginxAdapter (clients : NginxConfig → result (list NginxClient)) (cfg : NginxConfig)
    : result NginxAdapter :=
  if negb (bool_decide (ng_Type cfg = "nginx"))
  then Err (Errorf "invalid load balancer type: %s, expected nginx" [FStr (ng_Type cfg)]) else
  match clients cfg with
  | Err err => Err (Errorf "failed to create clients for nginx addresses %s: %w" [FStr (ng_Name cfg); FErr err])
  | Ok cs => Ok (mkNginxAdapter cs cfg)
  end.

(** [CreateLoadBalancerAdapter] (factory.go). *)
Definition CreateLoadBalancerAdapter (clients : NginxConfig → result (list NginxClient))
    (lbConfig : LoadBalancerConfig) : result NginxAdapter :=
  if bool_decide (GetType lbConfig = "nginx") then
    match lbConfig with
    | LBNginx c | LBNginxPtr c => NewNginxAdapter clients c
    | _ => Err (Errorf "failed to cast load balancer config to NginxConfig for %s" [FStr (GetName lbConfig)])
    end
  else if bool_decide (GetType lbConfig = "envoy")
  then Err (Errorf "envoy adapter not implemented" [])
  else Err (Errorf "unsupported load balancer type: %s" [FStr (GetType lbConfig)]).

Section adapter.
Context {W : Type} (env : NginxEnv W) (a : NginxAdapter).

(** Run an action of the world inside the state of the adapter. *)
Definition in_world {A} (f : ST W A) : ST (AdState W) A := λ s,
  let '(x, w) := f (ad_world s) in (x, mkAdState (ad_cache s) (ad_cacheExp s) w).

Definition send (c : NginxClient) (path : string) : ST (AdState W) (result string) :=
  in_world (doRequest (ne_http env) c "GET" path).

Definition TTL : Z := 2 * Second.

(** [defer a.semaphore.Release(1)] is not modelled here (NginxPool counts the
    units that are held): it only lets another
    goroutine go on. *)
Definition refreshCache (c : NginxClient) : ST (AdState W) (result Listing) := λ s,
  let base := cl_baseURL c in
  let fetch : ST (AdState W) (result Listing) := λ s,
    let '(r, s) := send c (strings.TrimPrefix (ng_ListAPI (na_config a)) "/") s in
    match r with
    | Err err => (Err (Errorf "failed to bulk fetch upstreams from %s: %w" [FStr base; FErr err]), s)
    | Ok body =>
        let parsedState := parseBulkNginxBackends body in
        (Ok parsedState,
         mkAdState (<[base := parsedState]> (ad_cache s))
           (<[base := ne_Now env (ad_world s) + TTL]> (ad_cacheExp s)) (ad_world s))
    end in
  match ad_cacheExp s !! base with
  | Some exp =>
      if ne_Now env (ad_world s) <? exp then
        match ad_cache s !! base with
        | Some m => (Ok m, s)
        | None => fetch s
        end
      else fetch s
  | None => fetch s
  end.

Definition invalidateCache (base : string) : ST (AdState W) unit := λ s,
  (tt, mkAdState (delete base (ad_cache s)) (delete base (ad_cacheExp s)) (ad_world s)).

(** Send one add or remove request; the error it adds to the result. *)
Definition run_action (name : string) (c : NginxClient) (act : action) : ST (AdState W) (list error) := λ s,
  match act with
  | Add backend =>
      let serverAddr := formatServerAddr (be_IP backend) (be_Port backend) in
      let '(r, s) := send c (buildAddPath (ng_AddAPI (na_config a)) name serverAddr (be_Weight backend)) s in
      match r with
      | Err err => ([Errorf "client %s add failed: %w" [FStr (cl_baseURL c); FErr err]], s)
      | Ok _ => ([], s)
      end
  | Remove backend =>
      let serverAddr := formatServerAddr (be_IP backend) (be_Port backend) in
      let '(r, s) := send c (buildRemovePath (ng_RemoveAPI (na_config a)) name serverAddr) s in
      match r with
      | Err err => ([Errorf "client %s remove failed: %w" [FStr (cl_baseURL c); FErr err]], s)
      | Ok _ => ([], s)
      end
  end.

(** The goroutine [SyncUpstream] starts for one client. *)
Definition sync_client `{MapRange} (name : string) (desired : gmap string Backend) (c : NginxClient)
    : ST (AdState W) (list error) := λ s,
  let '(acq, s) := in_world (ne_Acquire env) s in
  match acq with
  | Some err => ([Errorf "client %s semaphore error: %w" [FStr (cl_baseURL c); FErr err]], s)
  | None =>
      let '(r, s) := refreshCache c s in
      match r with
      | Err err => ([err], s)
      | Ok allBackends =>
          let current := currentBackends allBackends name in
          let '(errs, s) := collect (run_action name c) (plan desired current) s in
          let s := if changed (diff desired current) then (invalidateCache (cl_baseURL c) s).2 else s in
          (errs, s)
      end
  end.

Definition SyncUpstream `{MapRange, Schedule} (upstream : Upstream) : ST (AdState W) (option error) := λ s,
  let desired := desiredBackends (up_Backends upstream) in
  let '(errs, s) := collect (sync_client (up_Name upstream) desired) (schedule (na_clients a)) s in
  (ErrorOrNil errs, s).

(** Remove one backend of an orphaned upstream: the errors, and whether the
    request succeeded. *)
Definition remove_orphan (name : string) (c : NginxClient) (backend : Backend)
    : ST (AdState W) (list error * bool) := λ s,
  let serverAddr := formatServerAddr (be_IP backend) (be_Port backend) in
  let '(r, s) := send c (buildRemovePath (ng_RemoveAPI (na_config a)) name serverAddr) s in
  match r with
  | Err err => (([Errorf "client %s remove orphaned backend %s from %s failed: %w"
                    [FStr (cl_baseURL c); FStr serverAddr; FStr name; FErr err]], false), s)
  | Ok _ => (([], true), s)
  end.

(** The loop over the orphans, with [changed]. *)
Fixpoint remove_orphans (c : NginxClient) (l : list (string * Backend))
    : ST (AdState W) (list error * bool) := λ s,
  match l with
  | [] => (([], false), s)
  | (name, backend) :: l =>
      let '((e1, c1), s) := remove_orphan name c backend s in
      let '((e2, c2), s) := remove_orphans c l s in
      ((e1 ++ e2, c1 || c2), s)
  end.

(** The backends of the upstreams that are not desired, by sorted name. *)
Definition orphans `{MapRange} (desiredUpstreams : gmap string Upstream) (all : Listing)
    : list (string * Backend) :=
  sorted_keys all ≫= λ upstreamName,
    if bool_decide (upstreamName = "") then [] else
    match desiredUpstreams !! upstreamName with
    | Some _ => []
    | None => (λ backend, (upstreamName, backend)) <$> default [] (all !! upstreamName)
    end.

(** The goroutine [SyncAllUpstreams] starts for one client. *)
Definition prune_client `{MapRange} (desiredUpstreams : gmap string Upstream) (c : NginxClient)
    : ST (AdState W) (list error) := λ s,
  let '(acq, s) := in_world (ne_Acquire env) s in
  match acq with
  | Some err => ([Errorf "client %s semaphore error: %w" [FStr (cl_baseURL c); FErr err]], s)
  | None =>
      let '(r, s) := refreshCache c s in
      match r with
      | Err err => ([err], s)
      | Ok all =>
          let '((errs, changed), s) := remove_orphans c (orphans desiredUpstreams all) s in
          let s := if changed : bool then (invalidateCache (cl_baseURL c) s).2 else s in
          (errs, s)
      end
  end.

(** One turn of the first loop of [SyncAllUpstreams]. *)
Definition sync_desired `{MapRange, Schedule} (kv : string * Upstream) : ST (AdState W) (list error) := λ s,
  let desiredUp := kv.2 in
  if up_PreserveExistingBackends desiredUp then ([], s) else
  let '(r, s) := SyncUpstream desiredUp s in
  match r with
  | Some err => ([Errorf "sync upstream %s failed: %w" [FStr (up_Name desiredUp); FErr err]], s)
  | None => ([], s)
  end.

Definition SyncAllUpstreams `{MapRange, Schedule} (desiredUpstreams : gmap string Upstream)
    : ST (AdState W) (option error) := λ s,
  let '(errs, s) := collect sync_desired (map_range desiredUpstreams) s in
  if negb (ng_PruneOrphans (na_config a)) then (ErrorOrNil errs, s) else
  let '(errs', s) := collect (prune_client desiredUpstreams) (schedule (na_clients a)) s in
  (ErrorOrNil (errs ++ errs'), s).

(** The adapter as an implementation of the port. *)
Definition nginx_adapter `{MapRange, Schedule} : LoadBalancerAdapter (AdState W) := {|
  lb_SyncUpstream := SyncUpstream;
  lb_SyncAllUpstreams := SyncAllUpstreams
|}.
End adapter.
