(* ===== verification/NginxConverge.v ===== *)
(** * The NGINX adapter meets the contract of the port

    Against servers that implement the list, add and remove requests
    ([NginxApi]), [SyncUpstream] and [SyncAllUpstreams] bring every server to
    the desired state and keep the cache coherent with it. *)
From S2P Require Export NginxSync.
From Stdlib Require Import Lia.
Local Open Scope Z_scope.

(** ** The servers *)

Section servers.
Context {W : Type} (env : NginxEnv W) (a : NginxAdapter).
(** [view w base n] is what the server at [base] holds for upstream [n];
    [known n b] tells which servers may appear in upstream [n]. *)
Context (wf : W → Prop) (view : W → string → string → gmap string Z).
Context (known : string → Backend → Prop).

(** One request to a client is answered with status 200. *)
Definition answers_200 (c : NginxClient) (path : string) (w : W) (body : string) (w' : W) : Prop :=
  is_Some (url.Parse (req_URL (request_of c "GET" path))) ∧
  ∃ resp, http_Do (ne_http env) (request_of c "GET" path) w = (Reply resp, w') ∧
    StatusCode resp = 200 ∧ ReadAll (10 * MiB) resp = (body, None).

Definition same_view (w w' : W) : Prop := ∀ base n, view w' base n = view w base n.

(** A listing that tells what the server at [base] holds. *)
Definition agree (m : Listing) (w : W) (base : string) : Prop :=
  m !! "" = None ∧ (∀ n, server_state (default [] (m !! n)) = view w base n) ∧
  (∀ n bs b, m !! n = Some bs → b ∈ bs → known n b).

(** The documented behaviour of the servers and of the semaphore. *)
Record NginxApi : Prop := {
  api_list c w : c ∈ na_clients a → wf w → ∃ body w',
    answers_200 c (strings.TrimPrefix (ng_ListAPI (na_config a)) "/") w body w' ∧
    wf w' ∧ same_view w w' ∧ agree (parseBulkNginxBackends body) w (cl_baseURL c);
  api_add c w n b : c ∈ na_clients a → wf w → known n b → ∃ body w',
    answers_200 c (buildAddPath (ng_AddAPI (na_config a)) n
      (formatServerAddr (be_IP b) (be_Port b)) (be_Weight b)) w body w' ∧ wf w' ∧
    ∀ base n', view w' base n' =
      if decide (base = cl_baseURL c ∧ n' = n) then <[backendKey b := be_Weight b]> (view w base n')
      else view w base n';
  api_remove c w n b : c ∈ na_clients a → wf w → known n b → ∃ body w',
    answers_200 c (buildRemovePath (ng_RemoveAPI (na_config a)) n
      (formatServerAddr (be_IP b) (be_Port b))) w body w' ∧ wf w' ∧
    ∀ base n', view w' base n' =
      if decide (base = cl_baseURL c ∧ n' = n) then delete (backendKey b) (view w base n')
      else view w base n';
  api_acquire w : wf w → ∃ w', ne_Acquire env w = (None, w') ∧ wf w' ∧ same_view w w'
}.

(** Every cached listing of a client agrees with its server. *)
Definition coherent (s : AdState W) : Prop :=
  wf (ad_world s) ∧
  ∀ c m, c ∈ na_clients a → ad_cache s !! cl_baseURL c = Some m → agree m (ad_world s) (cl_baseURL c).

Definition server_view (s : AdState W) (c : NginxClient) (n : string) : gmap string Z :=
  view (ad_world s) (cl_baseURL c) n.

(** The backends of an upstream are ones the servers know. *)
Definition upstream_known (u : Upstream) : Prop :=
  ∀ k b, desiredBackends (up_Backends u) !! k = Some b → known (up_Name u) b.
End servers.

(** ** Facts *)

Section facts.
Context {W : Type} (env : NginxEnv W) (a : NginxAdapter).
Context (wf : W → Prop) (view : W → string → string → gmap string Z).
Context (known : string → Backend → Prop).
Hypothesis api : NginxApi env a wf view known.
Hypothesis bases : NoDup (cl_baseURL <$> na_clients a).

Abbreviation coh := (coherent a wf view known).

Lemma send_200 c path s body w' : answers_200 env c path (ad_world s) body w' →
  send env c path s = (Ok body, mkAdState (ad_cache s) (ad_cacheExp s) w').
Proof.
  intros [Hu (resp & Hd & Hs & Hr)]. unfold send, in_world, doRequest, maxRetries.
  rewrite (loop_ok _ _ _ _ _ _ _ _ Hu Hd Hs). by rewrite Hr.
Qed.

Lemma agree_same m w w' base : same_view view w w' → agree view known m w base → agree view known m w' base.
Proof. intros Hs (H1 & H2 & H3). split; [done|]. split; [|done]. intros n. by rewrite Hs. Qed.

Lemma coherent_world s w' : coh s → wf w' → same_view view (ad_world s) w' →
  coh (mkAdState (ad_cache s) (ad_cacheExp s) w').
Proof. intros [_ Hc] Hw Hs. split; [done|]. intros c m Hin Hm. eapply agree_same; [done|by apply Hc]. Qed.

Lemma acquire_ok s : coh s → ∃ s', in_world (ne_Acquire env) s = (None, s') ∧ coh s' ∧
  same_view view (ad_world s) (ad_world s').
Proof.
  intros Hs. destruct (api_acquire _ _ _ _ _ api (ad_world s)) as (w' & E & Hw & Hv); [apply Hs|].
  unfold in_world. rewrite E. eexists. split; [done|]. split; [by apply coherent_world|done].
Qed.

Lemma refresh_ok c s : c ∈ na_clients a → coh s →
  ∃ m s', refreshCache env a c s = (Ok m, s') ∧ coh s' ∧
    agree view known m (ad_world s') (cl_baseURL c) ∧ same_view view (ad_world s) (ad_world s').
Proof.
  intros Hc Hs. unfold refreshCache.
  assert (∃ m s', (let '(r, s) := send env c (strings.TrimPrefix (ng_ListAPI (na_config a)) "/") s in
    match r with
    | Err err => (Err (Errorf "failed to bulk fetch upstreams from %s: %w" [FStr (cl_baseURL c); FErr err]), s)
    | Ok body =>
        (Ok (parseBulkNginxBackends body),
         mkAdState (<[cl_baseURL c := parseBulkNginxBackends body]> (ad_cache s))
           (<[cl_baseURL c := ne_Now env (ad_world s) + TTL]> (ad_cacheExp s)) (ad_world s))
    end) = (Ok m, s') ∧ coh s' ∧
    agree view known m (ad_world s') (cl_baseURL c) ∧ same_view view (ad_world s) (ad_world s')) as Hfetch.
  { destruct (api_list _ _ _ _ _ api c (ad_world s) Hc) as (body & w' & Hb & Hw & Hv & Ha); [apply Hs|].
    rewrite (send_200 _ _ _ _ _ Hb). eexists _, _. split; [done|].
    assert (agree view known (parseBulkNginxBackends body) w' (cl_baseURL c)) as Ha'
      by (by eapply agree_same).
    split; [|done]. split; [done|]. cbn. intros c' m Hc' Hm.
    destruct (decide (cl_baseURL c = cl_baseURL c')) as [E|Hne].
    - rewrite <- E in Hm |- *. rewrite lookup_insert_eq in Hm. by injection Hm as <-.
    - rewrite lookup_insert_ne in Hm by done. eapply agree_same; [done|]. by apply Hs. }
  destruct (ad_cacheExp s !! cl_baseURL c); [|done]. destruct (_ <? _); [|done].
  destruct (ad_cache s !! cl_baseURL c) as [m|] eqn:Hm; [|done].
  eexists _, _. split; [done|]. split; [done|]. split; [by apply Hs|]. by intros ??.
Qed.

(** The state after requests to one client about one upstream. *)
Definition touched (c : NginxClient) (n : string) (v : gmap string Z) (s s' : AdState W) : Prop :=
  wf (ad_world s') ∧ ad_cache s' = ad_cache s ∧
  view (ad_world s') (cl_baseURL c) n = v ∧
  ∀ base n', ¬ (base = cl_baseURL c ∧ n' = n) → view (ad_world s') base n' = view (ad_world s) base n'.

Definition action_known (n : string) (act : action) : Prop :=
  match act with Add b | Remove b => known n b end.

Lemma run_action_ok c n act s : c ∈ na_clients a → wf (ad_world s) → action_known n act →
  ∃ s', run_action env a n c act s = ([], s') ∧
    touched c n (apply_action (view (ad_world s) (cl_baseURL c) n) act) s s'.
Proof.
  intros Hc Hw Hk. destruct act as [b|b]; cbn [run_action].
  - destruct (api_add _ _ _ _ _ api c (ad_world s) n b Hc Hw Hk) as (body & w' & Hb & Hw' & Hv).
    rewrite (send_200 _ _ _ _ _ Hb). eexists. split; [done|]. split; [done|]. split; [done|]. cbn. split.
    + rewrite Hv. by rewrite decide_True.
    + intros base n' Hne. rewrite Hv. by rewrite decide_False.
  - destruct (api_remove _ _ _ _ _ api c (ad_world s) n b Hc Hw Hk) as (body & w' & Hb & Hw' & Hv).
    rewrite (send_200 _ _ _ _ _ Hb). eexists. split; [done|]. split; [done|]. split; [done|]. cbn. split.
    + rewrite Hv. by rewrite decide_True.
    + intros base n' Hne. rewrite Hv. by rewrite decide_False.
Qed.

Lemma run_actions_ok c n acts : ∀ s, c ∈ na_clients a → wf (ad_world s) → Forall (action_known n) acts →
  ∃ s', collect (run_action env a n c) acts s = ([], s') ∧
    touched c n (foldl apply_action (view (ad_world s) (cl_baseURL c) n) acts) s s'.
Proof.
  induction acts as [|act acts IH]; intros s Hc Hw Hk.
  - exists s. by repeat split.
  - apply list.Forall_cons in Hk as [Hk1 Hk]. cbn [collect].
    destruct (run_action_ok c n act s Hc Hw Hk1) as (s1 & -> & Hw1 & Hca & Hv & Ho).
    destruct (IH s1 Hc Hw1 Hk) as (s2 & -> & Hw2 & Hca2 & Hv2 & Ho2).
    exists s2. split; [done|]. split; [done|]. split; [congruence|]. split.
    + by rewrite Hv2, Hv.
    + intros base n' Hne. by rewrite Ho2, Ho.
Qed.

(** Requests to [c] leave the cached listings of the other clients right;
    its own is dropped, or nothing changed. *)
Lemma coherent_touched c n v s s' : coh s → touched c n v s s' → c ∈ na_clients a →
  coh (mkAdState (delete (cl_baseURL c) (ad_cache s')) (delete (cl_baseURL c) (ad_cacheExp s')) (ad_world s')).
Proof.
  intros [_ Hs] (Hw & Hca & _ & Ho) Hc. split; [done|]. cbn. intros c' m Hc' Hm.
  destruct (decide (cl_baseURL c = cl_baseURL c')) as [E|Hne].
  - rewrite <- E, lookup_delete_eq in Hm. done.
  - rewrite lookup_delete_ne, Hca in Hm by done. destruct (Hs c' m Hc' Hm) as (H1 & H2 & H3).
    split; [done|]. split; [|done]. intros n'. rewrite H2, Ho; [done|]. intros [? _]. congruence.
Qed.

Lemma plan_known `{MapRange} n desired current :
  keyed desired → (∀ k b, desired !! k = Some b → known n b) → (∀ b, b ∈ current → known n b) →
  Forall (action_known n) (plan desired current).
Proof.
  intros Hk Hd Hc. unfold plan. apply Forall_app. split; apply Forall_fmap, list.Forall_forall;
    intros b (k & _ & Hb)%list_elem_of_omap; cbn.
  - rewrite diff_updates in Hb by done. apply map_lookup_filter_Some in Hb as [Hb _]. by eapply Hd.
  - apply Hc. by eapply diff_removes_from.
Qed.

Lemma current_named all n : all !! "" = None → currentBackends all n = default [] (all !! n).
Proof.
  intros H. unfold currentBackends. rewrite H. cbn [default length].
  rewrite (bool_decide_false (0 < 0)%nat) by lia. by rewrite andb_false_r.
Qed.

Lemma sync_client_ok `{MapRange} n desired c s :
  keyed desired → (∀ k b, desired !! k = Some b → known n b) → c ∈ na_clients a → coh s →
  ∃ s', sync_client env a n desired c s = ([], s') ∧ coh s' ∧
    view (ad_world s') (cl_baseURL c) n = be_Weight <$> desired ∧
    ∀ base n', ¬ (base = cl_baseURL c ∧ n' = n) → view (ad_world s') base n' = view (ad_world s) base n'.
Proof.
  intros Hk Hd Hc Hs. unfold sync_client.
  destruct (acquire_ok s Hs) as (s1 & -> & Hs1 & Hv1).
  destruct (refresh_ok c s1 Hc Hs1) as (m & s2 & -> & Hs2 & (Hm0 & Hm & Hmk) & Hv2).
  rewrite current_named by done. set (current := default [] (m !! n)).
  assert (∀ b, b ∈ current → known n b) as Hcur.
  { intros b. unfold current. destruct (m !! n) as [bs|] eqn:E; cbn; [by apply (Hmk n bs)|set_solver]. }
  destruct (run_actions_ok c n (plan desired current) s2 Hc (proj1 Hs2)) as (s3 & -> & Ht).
  { by apply plan_known. }
  rewrite <- (Hm n) in Ht. fold current in Ht. rewrite plan_effect in Ht by done.
  destruct (changed (diff desired current)) eqn:Hch.
  - eexists. split; [done|]. split; [by eapply coherent_touched|]. destruct Ht as (_ & _ & Hv & Ho).
    split; [done|]. intros base n' Hne. cbn. rewrite Ho by done. by rewrite Hv2, Hv1.
  - assert (plan desired current = []) as Hp.
    { destruct (plan desired current) eqn:E; [done|]. exfalso.
      assert (changed (diff desired current) = true) as Ht'; [|congruence].
      apply plan_changed; [done|]. by rewrite E. }
    eexists. split; [done|]. destruct Ht as (Hw & Hca & Hv & Ho). split; [|split; [done|]].
    + split; [done|]. rewrite Hca. intros c' m' Hc' Hm'. destruct (proj2 Hs2 c' m' Hc' Hm') as (H1 & H2 & H3).
      split; [done|]. split; [|done]. intros n'. rewrite H2.
      destruct (decide (cl_baseURL c' = cl_baseURL c ∧ n' = n)) as [[E ->]|Hne]; [|by rewrite Ho].
      rewrite E, Hv, <- (Hm n). fold current. by apply plan_nil.
    + intros base n' Hne. rewrite Ho by done. by rewrite Hv2, Hv1.
Qed.

Abbreviation sview := (server_view view).

Lemma base_inj c c' : c ∈ na_clients a → c' ∈ na_clients a → cl_baseURL c = cl_baseURL c' → c = c'.
Proof.
  intros [i Hi]%list_elem_of_lookup [j Hj]%list_elem_of_lookup E.
  assert (i = j) as ->; [|congruence]. eapply NoDup_lookup; [exact bases|..];
    rewrite list_lookup_fmap, ?Hi, ?Hj; cbn; [done|by rewrite E].
Qed.

Lemma schedule_elem `{Schedule} {A} (l : list A) x : x ∈ schedule l ↔ x ∈ l.
Proof. by rewrite schedule_perm. Qed.

Lemma clients_NoDup : NoDup (na_clients a).
Proof. by eapply NoDup_fmap_1. Qed.

Lemma SyncUpstream_ok `{MapRange, Schedule} u s : coh s → upstream_known known u →
  let '(e, s') := SyncUpstream env a u s in
  e = None ∧ coh s' ∧
  ∀ c, c ∈ na_clients a → sview s' c (up_Name u) = desired_weights (up_Backends u) ∧
    ∀ n, n ≠ up_Name u → sview s' c n = sview s c n.
Proof.
  intros Hs Hu. unfold SyncUpstream. set (n := up_Name u). set (desired := desiredBackends (up_Backends u)).
  pose proof (collect_inv (sync_client env a n desired)
    (λ dn s', coh s' ∧ ∀ c, c ∈ na_clients a →
      sview s' c n = (if decide (c ∈ dn) then be_Weight <$> desired else sview s c n) ∧
      ∀ n', n' ≠ n → sview s' c n' = sview s c n')
    (schedule (na_clients a)) [] s) as Hinv. cbn beta in Hinv.
  assert (NoDup (schedule (na_clients a))) as Hnd by (rewrite schedule_perm; apply clients_NoDup).
  destruct (collect _ _ s) as [errs s']. destruct Hinv as [-> [Hs' Hv]].
  - split; [done|]. intros c Hc. split; [|done]. by rewrite decide_False by set_solver.
  - intros pre x post s1 E [Hs1 Hv1].
    assert (x ∈ na_clients a) as Hx by (apply schedule_elem; rewrite E; set_solver).
    destruct (sync_client_ok n desired x s1) as (s2 & -> & Hs2 & Hvx & Ho); try done; [apply desired_keyed|].
    split; [done|]. split; [done|]. intros c Hc. destruct (Hv1 c Hc) as [Hvc Hoc]. rewrite !app_nil_l in *.
    assert (c ∈ pre ++ [x] ↔ c ∈ pre ∨ c = x) as Hiff by set_solver.
    destruct (decide (c = x)) as [->|Hne].
    + rewrite decide_True by set_solver. split; [exact Hvx|]. intros n' Hn'.
      unfold server_view in *. rewrite Ho by tauto. by apply Hoc.
    + assert (cl_baseURL c ≠ cl_baseURL x) as Hb by (intros Eb; apply Hne; by apply base_inj).
      unfold server_view in *. split.
      * rewrite Ho by tauto. rewrite Hvc. apply decide_ext. rewrite Hiff. tauto.
      * intros n' Hn'. rewrite Ho by tauto. by apply Hoc.
  - split; [done|]. split; [done|]. intros c Hc. destruct (Hv c Hc) as [Hvc Hoc]. split; [|done].
    rewrite decide_True in Hvc; [done|]. rewrite app_nil_l. by apply schedule_elem.
Qed.

(** The first loop of [SyncAllUpstreams]. *)
Definition upstream_target (m : gmap string Upstream) (s : AdState W) (c : NginxClient) (n : string) :=
  match m !! n with
  | Some u => if up_PreserveExistingBackends u then sview s c n else desired_weights (up_Backends u)
  | None => sview s c n
  end.

Lemma sync_desired_ok `{MapRange, Schedule} m s : coh s →
  (∀ k u, m !! k = Some u → up_Name u = k ∧ (up_PreserveExistingBackends u = false → upstream_known known u)) →
  let '(errs, s') := collect (sync_desired env a) (map_range m) s in
  errs = [] ∧ coh s' ∧ ∀ c n, c ∈ na_clients a → sview s' c n = upstream_target m s c n.
Proof.
  intros Hs Hm.
  pose proof (collect_inv (sync_desired env a)
    (λ dn s', coh s' ∧ ∀ c n, c ∈ na_clients a → sview s' c n = upstream_target (list_to_map dn) s c n)
    (map_range m) [] s) as Hinv. cbn beta in Hinv.
  destruct (collect _ _ s) as [errs s']. destruct Hinv as [-> [Hs' Hv]].
  - split; [done|]. intros c n Hc. unfold upstream_target. cbn. by rewrite lookup_empty.
  - intros pre [k u] post s1 E [Hs1 Hv1].
    assert (m !! k = Some u) as Hku by (apply map_range_elem; rewrite E; set_solver).
    destruct (Hm k u Hku) as [Hname Hknown].
    assert (k ∉ pre.*1) as Hk.
    { pose proof (map_range_NoDup_keys m) as Hnd. rewrite E, fmap_app, list.NoDup_app in Hnd.
      intros Hin. apply (proj1 (proj2 Hnd) k Hin). cbn. constructor. }
    assert ((list_to_map pre : gmap string Upstream) !! k = None) as Hpre by (by apply not_elem_of_list_to_map_1).
    assert (∀ n, (list_to_map (pre ++ [(k, u)]) : gmap string Upstream) !! n =
      if decide (n = k) then Some u else (list_to_map pre : gmap string Upstream) !! n) as Happ.
    { intros n. rewrite list_to_map_app.
      change (list_to_map [(k, u)] : gmap string Upstream) with (<[k := u]> (∅ : gmap string Upstream)). destruct (decide (n = k)) as [->|Hn].
      - rewrite lookup_union_r by done. by rewrite lookup_insert_eq.
      - rewrite lookup_union_l; [done|]. by rewrite lookup_insert_ne, lookup_empty. }
    rewrite !app_nil_l in *. unfold sync_desired. cbn [snd].
    destruct (up_PreserveExistingBackends u) eqn:Hp.
    + split; [done|]. split; [done|]. intros c n Hc. rewrite Hv1 by done. unfold upstream_target.
      rewrite Happ. destruct (decide (n = k)) as [->|]; [|done]. by rewrite Hpre, Hp.
    + pose proof (SyncUpstream_ok u s1 Hs1 (Hknown eq_refl)) as Hsync.
      destruct (SyncUpstream env a u s1) as [e s2]. destruct Hsync as (-> & Hs2 & Hv2).
      split; [done|]. split; [done|]. intros c n Hc. destruct (Hv2 c Hc) as [Hn Hother].
      unfold upstream_target. rewrite Happ. destruct (decide (n = k)) as [->|Hne].
      * rewrite Hp, <- Hname. exact Hn.
      * rewrite Hother by congruence. by apply Hv1.
  - split; [done|]. split; [done|]. intros c n Hc. rewrite app_nil_l, list_to_map_range in Hv. by apply Hv.
Qed.

(** Removing orphans, one request each. *)
Lemma remove_orphans_ok c l : ∀ s, c ∈ na_clients a → wf (ad_world s) →
  Forall (λ nb : string * Backend, known nb.1 nb.2) l →
  ∃ s', remove_orphans env a c l s = (([], negb (bool_decide (l = []))), s') ∧
    wf (ad_world s') ∧ ad_cache s' = ad_cache s ∧
    (∀ n k, view (ad_world s') (cl_baseURL c) n !! k =
      if decide ((n, k) ∈ (λ nb : string * Backend, (nb.1, backendKey nb.2)) <$> l) then None
      else view (ad_world s) (cl_baseURL c) n !! k) ∧
    ∀ base n, base ≠ cl_baseURL c → view (ad_world s') base n = view (ad_world s) base n.
Proof.
  induction l as [|[n b] l IH]; intros s Hc Hw Hk.
  - exists s. by split_and!.
  - apply list.Forall_cons in Hk as [Hk1 Hk]. cbn [remove_orphans]. unfold remove_orphan.
    destruct (api_remove _ _ _ _ _ api c (ad_world s) n b Hc Hw Hk1) as (body & w' & Hb & Hw' & Hv).
    rewrite (send_200 _ _ _ _ _ Hb). set (s1 := mkAdState (ad_cache s) (ad_cacheExp s) w').
    destruct (IH s1 Hc Hw' Hk) as (s2 & -> & Hw2 & Hca2 & Hv2 & Ho2).
    exists s2. split; [done|]. split; [done|]. split; [by rewrite Hca2|]. split.
    + intros n' k. rewrite Hv2. cbn [s1 ad_world]. rewrite Hv. rewrite fmap_cons. cbn [fst snd].
      destruct (decide ((n', k) = (n, backendKey b))) as [[= -> ->]|Hne].
      * rewrite (decide_True (P := cl_baseURL c = cl_baseURL c ∧ n = n)) by done.
        rewrite lookup_delete_eq. rewrite (decide_True (P := _ ∈ _ :: _)) by constructor. by case_decide.
      * assert ((n', k) ∈ (n, backendKey b) :: ((λ nb : string * Backend, (nb.1, backendKey nb.2)) <$> l)
          ↔ (n', k) ∈ (λ nb : string * Backend, (nb.1, backendKey nb.2)) <$> l) as Hiff
          by (rewrite elem_of_cons; tauto).
        rewrite (decide_ext _ _ _ _ Hiff). case_decide; [done|].
        case_decide as Hd; [|done]. destruct Hd as [_ ->]. apply lookup_delete_ne. congruence.
    + intros base n' Hne. rewrite Ho2 by done. cbn [s1 ad_world]. rewrite Hv, decide_False; [done|]. tauto.
Qed.

Lemma orphans_elem `{MapRange} (m : gmap string Upstream) (all : Listing) n b :
  (n, b) ∈ orphans m all ↔ n ≠ "" ∧ m !! n = None ∧ b ∈ default [] (all !! n).
Proof.
  unfold orphans. rewrite list_elem_of_bind. split.
  - intros (n' & Hin & Hn'). case_bool_decide; [set_solver|].
    destruct (m !! n') eqn:E; [set_solver|]. apply list_elem_of_fmap in Hin as (b' & [= -> ->] & Hb). done.
  - intros (Hn & Hm & Hb). exists n. rewrite bool_decide_false, Hm by done. split.
    + apply list_elem_of_fmap. by exists b.
    + apply sorted_keys_elem. destruct (all !! n); [eauto|]. cbn in Hb. set_solver.
Qed.

Definition prune_target (m : gmap string Upstream) (n : string) (v : gmap string Z) : gmap string Z :=
  if bool_decide (n = "") then v else match m !! n with Some _ => v | None => ∅ end.

Lemma prune_client_ok `{MapRange} m c s : c ∈ na_clients a → coh s →
  ∃ s', prune_client env a m c s = ([], s') ∧ coh s' ∧
    (∀ n, view (ad_world s') (cl_baseURL c) n = prune_target m n (view (ad_world s) (cl_baseURL c) n)) ∧
    ∀ base n, base ≠ cl_baseURL c → view (ad_world s') base n = view (ad_world s) base n.
Proof.
  intros Hc Hs. unfold prune_client.
  destruct (acquire_ok s Hs) as (s1 & -> & Hs1 & Hv1).
  destruct (refresh_ok c s1 Hc Hs1) as (all & s2 & -> & Hs2 & (Ha0 & Ha & Hak) & Hv2).
  destruct (remove_orphans_ok c (orphans m all) s2 Hc (proj1 Hs2)) as (s3 & -> & Hw3 & Hca & Hv3 & Ho3).
  { apply list.Forall_forall. intros [n b] (Hn & Hm & Hb)%orphans_elem. cbn.
    destruct (all !! n) as [bs|] eqn:E; cbn in Hb; [by apply (Hak n bs)|set_solver]. }
  assert (∀ n, view (ad_world s3) (cl_baseURL c) n = prune_target m n (view (ad_world s2) (cl_baseURL c) n)) as Hv.
  { intros n. apply map_eq. intros k. rewrite Hv3. unfold prune_target. rewrite <- (Ha n).
    assert ((n, k) ∈ (λ nb : string * Backend, (nb.1, backendKey nb.2)) <$> orphans m all ↔
      (n ≠ "" ∧ m !! n = None) ∧ is_Some (server_state (default [] (all !! n)) !! k)) as Hiff.
    { rewrite server_state_elem, !list_elem_of_fmap. split.
      - intros ([n' b] & [= -> ->] & (Hn & Hm & Hb)%orphans_elem). split; [done|]. by exists b.
      - intros ([Hn Hm] & b & -> & Hb). exists (n, b). split; [done|]. by apply orphans_elem. }
    rewrite (decide_ext _ _ _ _ Hiff). case_bool_decide as Hn.
    - rewrite decide_False by tauto. done.
    - destruct (m !! n) eqn:E.
      + rewrite decide_False; [done|]. intros [[_ ?] _]. done.
      + rewrite lookup_empty. case_decide as Hd; [done|]. apply eq_None_not_Some. tauto. }
  assert (same_view view (ad_world s) (ad_world s2)) as Hsv
    by (intros base n; by rewrite Hv2, Hv1).
  assert (∀ s4, ad_world s4 = ad_world s3 → (∀ n, view (ad_world s4) (cl_baseURL c) n =
      prune_target m n (view (ad_world s) (cl_baseURL c) n)) ∧
    ∀ base n, base ≠ cl_baseURL c → view (ad_world s4) base n = view (ad_world s) base n) as Hfin.
  { intros s4 ->. split; [intros n; by rewrite Hv, Hsv|]. intros base n Hne. by rewrite Ho3, Hsv. }
  destruct (bool_decide (orphans m all = [])) eqn:He; cbn [negb].
  - eexists. split; [done|]. split; [|by apply Hfin]. split; [done|].
    rewrite Hca. intros c' m' Hc' Hm'. destruct (proj2 Hs2 c' m' Hc' Hm') as (H1 & H2 & H3).
    split; [done|]. split; [|done]. intros n. rewrite H2.
    destruct (decide (cl_baseURL c' = cl_baseURL c)) as [->|Hne]; [|by rewrite Ho3].
    apply map_eq. intros k. rewrite Hv3. apply bool_decide_eq_true in He. rewrite He.
    rewrite decide_False; [done|]. cbn. set_solver.
  - eexists. split; [done|]. split; [|by apply Hfin]. split; [done|]. cbn. intros c' m' Hc' Hm'.
    destruct (decide (cl_baseURL c = cl_baseURL c')) as [E|Hne].
    + rewrite <- E, lookup_delete_eq in Hm'. done.
    + rewrite lookup_delete_ne, Hca in Hm' by done. destruct (proj2 Hs2 c' m' Hc' Hm') as (H1 & H2 & H3).
      split; [done|]. split; [|done]. intros n. rewrite H2, Ho3; [done|]. congruence.
Qed.

Lemma prune_ok `{MapRange, Schedule} m s : coh s →
  let '(errs, s') := collect (prune_client env a m) (schedule (na_clients a)) s in
  errs = [] ∧ coh s' ∧ ∀ c n, c ∈ na_clients a → sview s' c n = prune_target m n (sview s c n).
Proof.
  intros Hs.
  pose proof (collect_inv (prune_client env a m)
    (λ dn s', coh s' ∧ ∀ c n, c ∈ na_clients a →
      sview s' c n = if decide (c ∈ dn) then prune_target m n (sview s c n) else sview s c n)
    (schedule (na_clients a)) [] s) as Hinv. cbn beta in Hinv.
  destruct (collect _ _ s) as [errs s']. destruct Hinv as [-> [Hs' Hv]].
  - split; [done|]. intros c n Hc. by rewrite decide_False by set_solver.
  - intros pre x post s1 E [Hs1 Hv1]. rewrite !app_nil_l in *.
    assert (x ∈ na_clients a) as Hx by (apply schedule_elem; rewrite E; set_solver).
    assert (x ∉ pre) as Hpre.
    { assert (NoDup (schedule (na_clients a))) as Hnd by (rewrite schedule_perm; apply clients_NoDup).
      rewrite E, list.NoDup_app in Hnd. intros Hin. apply (proj1 (proj2 Hnd) x Hin). constructor. }
    destruct (prune_client_ok m x s1 Hx Hs1) as (s2 & -> & Hs2 & Hvx & Ho).
    split; [done|]. split; [done|]. intros c n Hc.
    destruct (decide (c = x)) as [->|Hne].
    + rewrite decide_True by set_solver. unfold server_view in *. rewrite Hvx, (Hv1 x n) by done.
      by rewrite decide_False.
    + assert (cl_baseURL c ≠ cl_baseURL x) as Hb by (intros Eb; apply Hne; by apply base_inj).
      unfold server_view in *. rewrite Ho by done. rewrite Hv1 by done. apply decide_ext. set_solver.
  - split; [done|]. split; [done|]. intros c n Hc. rewrite Hv by done. rewrite app_nil_l.
    rewrite decide_True; [done|]. by apply schedule_elem.
Qed.

Lemma SyncAllUpstreams_ok `{MapRange, Schedule} m s : coh s →
  (∀ k u, m !! k = Some u → up_Name u = k ∧ (up_PreserveExistingBackends u = false → upstream_known known u)) →
  let '(e, s') := SyncAllUpstreams env a m s in
  e = None ∧ coh s' ∧ ∀ c n, c ∈ na_clients a → n ≠ "" →
    sview s' c n =
    match m !! n with
    | Some u => if up_PreserveExistingBackends u then sview s c n else desired_weights (up_Backends u)
    | None => if ng_PruneOrphans (na_config a) then ∅ else sview s c n
    end.
Proof.
  intros Hs Hm. unfold SyncAllUpstreams. pose proof (sync_desired_ok m s Hs Hm) as H1.
  destruct (collect (sync_desired env a) (map_range m) s) as [errs s1]. destruct H1 as (-> & Hs1 & Hv1).
  destruct (ng_PruneOrphans (na_config a)); cbn [negb].
  - pose proof (prune_ok m s1 Hs1) as H2.
    destruct (collect (prune_client env a m) _ s1) as [errs s2]. destruct H2 as (-> & Hs2 & Hv2).
    split; [done|]. split; [done|]. intros c n Hc Hn. rewrite Hv2, Hv1 by done.
    unfold prune_target, upstream_target. rewrite bool_decide_false by done. by destruct (m !! n).
  - split; [done|]. split; [done|]. intros c n Hc Hn. rewrite Hv1 by done. done.
Qed.
End facts.

(** The adapter keeps the contract of the port. *)
Lemma nginx_adapter_ok `{MapRange, Schedule} {W : Type} (env : NginxEnv W) (a : NginxAdapter)
    (wf : W → Prop) (view : W → string → string → gmap string Z) (known : string → Backend → Prop) :
  NginxApi env a wf view known →
  NoDup (cl_baseURL <$> na_clients a) →
  Converges (nginx_adapter env a) (coherent a wf view known)
    (λ u, desired_weights (up_Backends u)) (upstream_known known) (λ n, n ≠ "")
    (ng_PruneOrphans (na_config a)) (na_clients a) (server_view view).
Proof.
  intros api bases. split.
  - intros u s Hs Hu. cbn. by apply (SyncUpstream_ok env a wf view known api bases).
  - intros m s Hs Hm. cbn. by apply (SyncAllUpstreams_ok env a wf view known api bases).
Qed.

(** ** A deployment to evaluate the adapter on

    Two servers that may hold, for the upstream "web", one backend with weight
    1 or 2, and, for the upstream "old", another one.  They answer the list,
    add and remove requests of the adapter and nothing else. *)
Module sim.

Record server := mkServer { web : option bool; old : bool }.

Definition web_backend (heavy : bool) : Backend := mkBackend "10.1.0.1" 30080 (if heavy then 2 else 1).
Definition old_backend : Backend := mkBackend "10.1.0.9" 30081 1.

Definition upstreams (s : server) : list (string * list Backend) :=
  [("web", match web s with Some heavy => [web_backend heavy] | None => [] end);
   ("old", if old s then [old_backend] else [])].
Definition holds (s : server) (n : string) : gmap string Z :=
  if decide (n = "web") then server_state (match web s with Some heavy => [web_backend heavy] | None => [] end)
  else if decide (n = "old") then server_state (if old s then [old_backend] else []) else ∅.

Definition known (n : string) (b : Backend) : Prop :=
  (n, b) ∈ [("web", web_backend false); ("web", web_backend true); ("old", old_backend)].

Definition add (n : string) (b : Backend) (s : server) : server :=
  if decide (n = "web") then mkServer (Some (be_Weight b =? 2)) (old s) else mkServer (web s) true.
Definition remove (n : string) (s : server) : server :=
  if decide (n = "web") then mkServer None (old s) else mkServer (web s) false.

Definition config : NginxConfig :=
  mkNginx "nginx" "edge" false (mkIPReplacementList [] [] [] [])
    [mkAddress "10.0.0.1" 8080; mkAddress "10.0.0.2" 8080]
    "/dynamic?list=" "/dynamic" "/dynamic" 10 60 30 "http" "" "" "" "" "" "" "" 10 true false None.
Definition c1 : NginxClient := mkClient "http://10.0.0.1:8080" "".
Definition c2 : NginxClient := mkClient "http://10.0.0.2:8080" "".
Definition adapter : NginxAdapter := mkNginxAdapter [c1; c2] config.

(** The action a URL stands for, on the server behind a client. *)
Definition serve (c : NginxClient) (url : string) (s : server) : option (string * server) :=
  let hits path := bool_decide (url = req_URL (request_of c "GET" path)) in
  let addr b := formatServerAddr (be_IP b) (be_Port b) in
  if hits "dynamic?list=" then Some (print_listing (upstreams s), s) else
  first_some (λ '(n, b),
    if hits (buildAddPath "/dynamic" n (addr b) (be_Weight b)) then Some ("", add n b s)
    else if hits (buildRemovePath "/dynamic" n (addr b)) then Some ("", remove n s) else None)
    [("web", web_backend false); ("web", web_backend true); ("old", old_backend)].

Definition W : Type := server * server.
Definition handle (req : Request) (w : W) : outcome * W :=
  match serve c1 (req_URL req) w.1 with
  | Some (body, s) => (Reply (mkResponse 200 body None), (s, w.2))
  | None =>
      match serve c2 (req_URL req) w.2 with
      | Some (body, s) => (Reply (mkResponse 200 body None), (w.1, s))
      | None => (Reply (mkResponse 404 "" None), w)
      end
  end.
Definition env : NginxEnv W := mkNginxEnv W (mkHttpEnv W handle (λ _ w, (None, w))) (λ _, 0) (λ w, (None, w)).
Definition view (w : W) (base n : string) : gmap string Z :=
  if decide (base = cl_baseURL c1) then holds w.1 n
  else if decide (base = cl_baseURL c2) then holds w.2 n else ∅.

(** The server of a client, replaced. *)
Definition set_server (c : NginxClient) (f : server → server) (w : W) : W :=
  if decide (c = c1) then (f w.1, w.2) else (w.1, f w.2).

Lemma known_cases n b : known n b →
  (n = "web" ∧ (b = web_backend false ∨ b = web_backend true)) ∨ (n = "old" ∧ b = old_backend).
Proof. unfold known. rewrite !elem_of_cons, elem_of_nil. naive_solver. Qed.

Lemma client_cases c : c ∈ na_clients adapter → c = c1 ∨ c = c2.
Proof. cbn. rewrite !elem_of_cons, elem_of_nil. naive_solver. Qed.

Lemma holds_add n b s n' : known n b →
  holds (add n b s) n' = if decide (n' = n) then <[backendKey b := be_Weight b]> (holds s n') else holds s n'.
Proof.
  intros [[-> [-> | ->]]|[-> ->]]%known_cases; destruct s as [[[]|] []]; unfold holds;
    (destruct (decide (n' = "web")) as [->|]; [vm_decide|]);
    (destruct (decide (n' = "old")) as [->|]; [vm_decide|]); reflexivity.
Qed.
Lemma holds_remove n b s n' : known n b →
  holds (remove n s) n' = if decide (n' = n) then delete (backendKey b) (holds s n') else holds s n'.
Proof.
  intros [[-> [-> | ->]]|[-> ->]]%known_cases; destruct s as [[[]|] []]; unfold holds;
    (destruct (decide (n' = "web")) as [->|]; [vm_decide|]);
    (destruct (decide (n' = "old")) as [->|]; [vm_decide|]); reflexivity.
Qed.

Lemma do_add c n b w : c ∈ na_clients adapter → known n b →
  answers_200 env c (buildAddPath "/dynamic" n (formatServerAddr (be_IP b) (be_Port b)) (be_Weight b)) w ""
    (set_server c (add n b) w).
Proof.
  intros [-> | ->]%client_cases [[-> [-> | ->]]|[-> ->]]%known_cases;
    (split; [vm_compute; eauto|]); (eexists; split; [vm_compute; reflexivity|vm_compute; auto]).
Qed.
Lemma do_remove c n b w : c ∈ na_clients adapter → known n b →
  answers_200 env c (buildRemovePath "/dynamic" n (formatServerAddr (be_IP b) (be_Port b))) w ""
    (set_server c (remove n) w).
Proof.
  intros [-> | ->]%client_cases [[-> [-> | ->]]|[-> ->]]%known_cases;
    (split; [vm_compute; eauto|]); (eexists; split; [vm_compute; reflexivity|vm_compute; auto]).
Qed.

Definition body_of (c : NginxClient) (w : W) : string :=
  print_listing (upstreams (if decide (c = c1) then w.1 else w.2)).
Lemma do_list c w : c ∈ na_clients adapter →
  answers_200 env c "dynamic?list=" w (body_of c w) w.
Proof.
  intros [-> | ->]%client_cases; (split; [vm_compute; eauto|]);
    destruct w as [[[[]|] []] [[[]|] []]]; (eexists; split; [vm_compute; reflexivity|vm_compute; auto]).
Qed.

Lemma upstreams_ok s : NoDup (upstreams s).*1 ∧
  Forall (λ u, upstream_name_ok u.1 ∧ Forall backend_ok u.2) (upstreams s).
Proof.
  split; [vm_decide|].
  destruct s as [[[]|] []]; repeat constructor; vm_compute; try discriminate; reflexivity.
Qed.

Lemma list_agrees c w : c ∈ na_clients adapter →
  agree view known (parseBulkNginxBackends (body_of c w)) w (cl_baseURL c).
Proof.
  intros Hc. unfold body_of. set (s := if decide (c = c1) then w.1 else w.2).
  destruct (upstreams_ok s) as [Hd Hok]. rewrite parse_print by done.
  assert (∀ n, view w (cl_baseURL c) n = holds s n) as Hview.
  { intros n. by apply client_cases in Hc as [-> | ->]. }
  assert (∀ n, n ≠ "web" → n ≠ "old" → listing_map (upstreams s) !! n = None) as Hnone.
  { intros n H1 H2. apply not_elem_of_list_to_map_1. destruct s as [[[]|] []]; cbn; set_solver. }
  assert (("web", match web s with Some heavy => [web_backend heavy] | None => [] end) ∈ upstreams s) as Hweb by constructor.
  assert (("old", if old s then [old_backend] else []) ∈ upstreams s) as Hold by (do 2 constructor).
  pose proof (listing_map_lookup _ _ _ Hd Hweb) as Lweb.
  pose proof (listing_map_lookup _ _ _ Hd Hold) as Lold.
  split; [by apply Hnone|]. split.
  - intros n. rewrite Hview. unfold holds. destruct (decide (n = "web")) as [->|H1].
    + rewrite Lweb. destruct s as [[[]|] []]; vm_decide.
    + destruct (decide (n = "old")) as [->|H2]; [|by rewrite Hnone].
      rewrite Lold. destruct s as [[[]|] []]; vm_decide.
  - intros n bs b Hn Hb. unfold known. destruct (decide (n = "web")) as [->|H1].
    + rewrite Lweb in Hn. destruct s as [[[]|] []]; try done; injection Hn as <-;
        apply list_elem_of_singleton in Hb as ->; vm_compute; repeat constructor.
    + destruct (decide (n = "old")) as [->|H2]; [|by rewrite Hnone in Hn].
      rewrite Lold in Hn. destruct s as [[[]|] []]; try done; injection Hn as <-;
        apply list_elem_of_singleton in Hb as ->; vm_compute; repeat constructor.
Qed.

Lemma view_set c f w base n : c ∈ na_clients adapter →
  view (set_server c f w) base n =
  if decide (base = cl_baseURL c) then holds (f (if decide (c = c1) then w.1 else w.2)) n else view w base n.
Proof.
  unfold view, set_server. intros [-> | ->]%client_cases; cbn [fst snd]; repeat (case_decide; try done); subst; done.
Qed.

Lemma view_at c w n : c ∈ na_clients adapter →
  view w (cl_baseURL c) n = holds (if decide (c = c1) then w.1 else w.2) n.
Proof. by intros [-> | ->]%client_cases. Qed.

Lemma api : NginxApi env adapter (λ _, True) view known.
Proof.
  split.
  - intros c w Hc _. exists (body_of c w), w. split; [by apply do_list|]. split; [done|].
    split; [by intros ??|by apply list_agrees].
  - intros c w n b Hc _ Hk. eexists _, _. split; [by apply do_add|]. split; [done|].
    intros base n'. rewrite view_set by done. destruct (decide (base = cl_baseURL c)) as [->|Hb].
    + rewrite holds_add, view_at by done. generalize (if decide (c = c1) then w.1 else w.2). intros s. destruct (decide (n' = n)); [by rewrite decide_True by (by split)|].
      rewrite decide_False; [done|tauto].
    + rewrite decide_False; [done|tauto].
  - intros c w n b Hc _ Hk. eexists _, _. split; [by apply do_remove|]. split; [done|].
    intros base n'. rewrite view_set by done. destruct (decide (base = cl_baseURL c)) as [->|Hb].
    + rewrite (holds_remove _ b), view_at by done. generalize (if decide (c = c1) then w.1 else w.2). intros s. destruct (decide (n' = n)); [by rewrite decide_True by (by split)|].
      rewrite decide_False; [done|tauto].
    + rewrite decide_False; [done|tauto].
  - intros w _. exists w. by split_and!.
Qed.

End sim.

(** ** Properties *)

(** C12. The NGINX adapter implements the contract of the load balancer port.
    Against servers that implement the list, add and remove requests, and with
    a cache that agrees with them, [SyncUpstream] returns no error and leaves
    every server with exactly the desired servers and weights of the upstream
    and every other upstream untouched; [SyncAllUpstreams] does so for all the
    desired upstreams, leaves the preserved ones untouched, and empties the
    others exactly when orphans are pruned. The cache agrees again afterwards,
    for every order of the goroutines and of the maps. *)
Theorem nginx_adapter_converges `{MapRange, Schedule} {W : Type} (env : NginxEnv W) (a : NginxAdapter)
    (wf : W → Prop) (view : W → string → string → gmap string Z) (known : string → Backend → Prop) :
  NginxApi env a wf view known →
  NoDup (cl_baseURL <$> na_clients a) →
  Converges (nginx_adapter env a) (coherent a wf view known)
    (λ u, desired_weights (up_Backends u)) (upstream_known known) (λ n, n ≠ "")
    (ng_PruneOrphans (na_config a)) (na_clients a) (server_view view).
Proof. apply nginx_adapter_ok. Qed.

Lemma nginx_adapter_converges_witness :
  let M := map_range_reverse in let S := schedule_reverse in
  let s := mkAdState ∅ ∅ (sim.mkServer None true, sim.mkServer (Some true) false) in
  let web := mkUpstream "web" "edge" [mkBackend "10.1.0.1" 30080 1] "nginx" None false in
  let '(e, s') := SyncAllUpstreams sim.env sim.adapter {["web" := web]} s in
  e = None ∧ ad_world s' = (sim.mkServer (Some false) false, sim.mkServer (Some false) false) ∧
  ∀ c, c ∈ na_clients sim.adapter → server_view sim.view s' c "web" = {["10.1.0.1:30080" := 1]} ∧
    server_view sim.view s' c "old" = ∅.
Proof.
  cbv zeta. set (s := mkAdState _ _ _). set (u := mkUpstream _ _ _ _ _ _).
  assert (NoDup (cl_baseURL <$> na_clients sim.adapter)) as Hb
    by (vm_decide).
  pose proof (@nginx_adapter_converges map_range_reverse schedule_reverse sim.W sim.env sim.adapter
    (λ _, True) sim.view sim.known sim.api Hb) as [_ Hall].
  specialize (Hall {["web" := u]} s). cbn [nginx_adapter lb_SyncAllUpstreams] in Hall.
  assert (coherent sim.adapter (λ _, True) sim.view sim.known s) as Hs.
  { split; [exact I|]. intros c m _ Hm. unfold s in Hm. cbn [ad_cache] in Hm. rewrite lookup_empty in Hm. discriminate. }
  assert (∀ k v, ({["web" := u]} : gmap string Upstream) !! k = Some v →
    up_Name v = k ∧ (up_PreserveExistingBackends v = false → upstream_known sim.known v)) as Hm.
  { intros k v [<- <-]%lookup_singleton_Some. split; [reflexivity|]. intros _ k b Hk.
    change (desiredBackends (up_Backends u)) with
      ({["10.1.0.1:30080" := mkBackend "10.1.0.1" 30080 1]} : gmap string Backend) in Hk.
    apply lookup_singleton_Some in Hk as [_ <-]. constructor. }
  specialize (Hall Hs Hm). assert (ad_world (@SyncAllUpstreams _ sim.env sim.adapter map_range_reverse
    schedule_reverse {["web" := u]} s).2 = (sim.mkServer (Some false) false, sim.mkServer (Some false) false)) as Hw
    by (vm_compute; reflexivity).
  destruct (SyncAllUpstreams _ _ _ _) as [e s']. destruct Hall as (He & _ & Hv).
  split; [exact He|]. split; [exact Hw|]. intros c Hc. split.
  - rewrite (Hv c "web" Hc) by discriminate. vm_compute. reflexivity.
  - rewrite (Hv c "old" Hc) by discriminate. vm_compute. reflexivity.
Defined.
