(* ===== verification/Merge.v ===== *)
(** * Merging backends: [mergeBackends] of internal/controller/controller.go

    Backends with the same address are added up and the result is sorted by
    address, so that it depends on the backends and not on their order. *)
From S2P Require Export GoStrings Model.
From Stdlib Require Import Lia.
Local Open Scope Z_scope.

(** ** Definitions *)

(** [fmt.Sprintf("%s:%d", be.IP, be.Port)]. *)
Definition address_key (be : Backend) : string := be_IP be +:+ ":" +:+ fmt_d (be_Port be).

Definition merge_backend (m : gmap string Backend) (be : Backend) : gmap string Backend :=
  let key := address_key be in
  match m !! key with
  | Some existing => <[key := set_Weight (int64 (be_Weight existing + be_Weight be)) existing]> m
  | None => <[key := be]> m
  end.

(** The order [sort.Slice] sorts by. *)
Definition backend_less (a b : Backend) : bool :=
  if negb (bool_decide (be_IP a = be_IP b)) then String.ltb (be_IP a) (be_IP b)
  else be_Port a <? be_Port b.
Definition backend_le (a b : Backend) : Prop := backend_less b a = false.
Global Instance backend_le_dec a b : Decision (backend_le a b).
Proof. unfold backend_le. apply _. Defined.
Definition sort_backends (l : list Backend) : list Backend := merge_sort backend_le l.

Definition mergeBackends `{MapRange} (a b : list Backend) : list Backend :=
  let m := foldl merge_backend (foldl merge_backend ∅ a) b in
  sort_backends (map_range m).*2.

(** ** Facts *)

Definition in_range (l : list Backend) : Prop := Forall (weight_in_range be_Weight) l.
Abbreviation weight_of := (key_weight address_key be_Weight).

(** The address and the port can be read off the key. *)
Lemma address_key_inj a b : address_key a = address_key b → be_IP a = be_IP b ∧ be_Port a = be_Port b.
Proof.
  unfold address_key. intros E. apply (app_last_sep_inj ":") in E as [H1 H2].
  - split; [done|]. by apply (inj pretty) in H2.
  - by apply pretty_Z_free.
  - by apply pretty_Z_free.
Qed.

Lemma backend_eq a b : address_key a = address_key b → be_Weight a = be_Weight b → a = b.
Proof. intros [H1 H2]%address_key_inj H3. destruct a, b; by simplify_eq/=. Qed.

(** The order is total on addresses: lexicographic in the address and the port. *)
Lemma ltb_leb s t : String.ltb s t = negb (String.leb t s).
Proof. unfold String.ltb, String.leb. rewrite (String.compare_antisym t s). by destruct (String.compare s t). Qed.

Lemma backend_le_iff a b :
  backend_le a b ↔ String.le (be_IP a) (be_IP b) ∧ (be_IP a = be_IP b → be_Port a <= be_Port b).
Proof.
  unfold backend_le, backend_less. case_bool_decide as E; cbn [negb].
  - rewrite Z.ltb_ge, E. split; [|naive_solver]. intros H. split; [reflexivity|done].
  - rewrite ltb_leb, negb_false_iff. split; [|by intros [H _]; apply Is_true_true].
    intros H. split; [by apply Is_true_true|]. intros E'. by destruct E.
Qed.

Global Instance backend_le_trans : Transitive backend_le.
Proof.
  intros a b c. rewrite !backend_le_iff. intros [H1 H2] [H3 H4]. split; [by etrans|].
  intros E. assert (be_IP a = be_IP b) as E1 by (apply (anti_symm String.le); [done|by rewrite E]).
  rewrite <- E1 in H4. specialize (H2 E1). specialize (H4 E). lia.
Qed.
Global Instance backend_le_total : Total backend_le.
Proof.
  intros a b. rewrite !backend_le_iff. destruct (decide (be_IP a = be_IP b)) as [E|E].
  - rewrite E. destruct (Z.le_ge_cases (be_Port a) (be_Port b)); [left|right]; (split; [reflexivity|done || lia]).
  - destruct (total String.le (be_IP a) (be_IP b)); [left|right]; naive_solver.
Qed.
Lemma backend_le_antisymm a b : backend_le a b → backend_le b a → address_key a = address_key b.
Proof.
  rewrite !backend_le_iff. intros [H1 H2] [H3 H4].
  assert (be_IP a = be_IP b) as E by by apply (anti_symm String.le).
  specialize (H2 E). symmetry in E. specialize (H4 E). unfold address_key. by rewrite E, (Z.le_antisymm _ _ H2 H4).
Qed.

Lemma sort_backends_perm l : sort_backends l ≡ₚ l.
Proof. apply merge_sort_Permutation. Qed.
Lemma sort_backends_sorted l : StronglySorted backend_le (sort_backends l).
Proof. apply StronglySorted_merge_sort; apply _. Qed.

(** Merging is the loop of the model on these keys. *)
Lemma merge_backend_step m be : merge_backend m be = merge_step address_key be_Weight m be.
Proof. unfold merge_backend, merge_step. destruct (m !! address_key be); [done|]. by destruct be. Qed.
Definition merge_map (l : list Backend) : gmap string Backend := foldl merge_backend ∅ l.
Lemma merge_map_steps l : merge_map l = foldl (merge_step address_key be_Weight) ∅ l.
Proof.
  unfold merge_map. generalize (∅ : gmap string Backend). induction l as [|b l IH]; intros m; [done|].
  cbn. by rewrite merge_backend_step, IH.
Qed.

Lemma merge_map_keyed l k b : merge_map l !! k = Some b → address_key b = k.
Proof. rewrite merge_map_steps. by apply merge_keyed. Qed.
Lemma merge_map_weight l k : in_range l →
  be_Weight <$> merge_map l !! k =
  if decide (k ∈ address_key <$> l) then Some (int64 (weight_of k l)) else None.
Proof. intros Hl. by rewrite merge_map_steps, merge_lookup, lookup_empty. Qed.

Lemma merge_map_lookup l b : in_range l →
  merge_map l !! address_key b = Some b ↔
  address_key b ∈ address_key <$> l ∧ be_Weight b = int64 (weight_of (address_key b) l).
Proof.
  intros Hl. pose proof (merge_map_weight l (address_key b) Hl) as Hw. split.
  - intros E. rewrite E in Hw. cbn in Hw. case_decide; [|done]. naive_solver.
  - intros [Hin Hb]. rewrite decide_True in Hw by done.
    destruct (merge_map l !! address_key b) as [b'|] eqn:E; [|done]. f_equal.
    apply backend_eq; [by apply merge_map_keyed in E|]. cbn in Hw. congruence.
Qed.

Section merge.
Context `{MapRange}.
Abbreviation merged l := (mergeBackends l []).

Lemma merge_app a b : mergeBackends a b = merged (a ++ b).
Proof. unfold mergeBackends. cbn. by rewrite foldl_app. Qed.

Lemma merged_nil : merged [] = [].
Proof.
  unfold mergeBackends. cbn [foldl]. apply Permutation_nil_r. rewrite sort_backends_perm, map_range_perm.
  by rewrite map_to_list_empty.
Qed.

Lemma merged_elem l b : in_range l →
  b ∈ merged l ↔ address_key b ∈ address_key <$> l ∧ be_Weight b = int64 (weight_of (address_key b) l).
Proof.
  intros Hl. rewrite <- merge_map_lookup by done. unfold mergeBackends. cbn [foldl]. fold (merge_map l).
  rewrite sort_backends_perm, list_elem_of_fmap. split.
  - intros ([k b'] & -> & Hb%map_range_elem). cbn. by rewrite (merge_map_keyed _ _ _ Hb).
  - intros E. exists (address_key b, b). by rewrite map_range_elem.
Qed.

Lemma merged_NoDup l : NoDup (address_key <$> merged l).
Proof.
  unfold mergeBackends. cbn [foldl]. fold (merge_map l). rewrite sort_backends_perm.
  assert (address_key <$> (map_range (merge_map l)).*2 = (map_range (merge_map l)).*1) as ->.
  { rewrite <- list_fmap_compose. apply list_fmap_ext. intros i [k b] Hi. cbn.
    apply (merge_map_keyed l), map_range_elem, list_elem_of_lookup. eauto. }
  apply map_range_NoDup_keys.
Qed.
End merge.

(** Two lists sorted by address are equal when they have the same elements. *)
Lemma sorted_unique l1 l2 : StronglySorted backend_le l1 → StronglySorted backend_le l2 →
  NoDup (address_key <$> l1) → NoDup (address_key <$> l2) → (∀ b, b ∈ l1 ↔ b ∈ l2) → l1 = l2.
Proof.
  intros S1 S2 N1 N2 Hel. apply (StronglySorted_unique_strong backend_le); [|done|done|].
  - intros x y Hx Hy H1 H2. apply backend_le_antisymm in H1 as E; [|done].
    apply Hel in Hy. by apply (NoDup_key_inj address_key l1).
  - apply NoDup_Permutation; [by eapply NoDup_fmap_1..|done].
Qed.

Section canonical.
Context `{MapRange}.
Abbreviation merged l := (mergeBackends l []).

Lemma merged_sorted l : StronglySorted backend_le (merged l).
Proof. apply sort_backends_sorted. Qed.

Lemma weight_of_single k l b : b ∈ l → NoDup (address_key <$> l) → address_key b = k →
  weight_of k l = be_Weight b.
Proof.
  intros Hb. induction l as [|c l IH]; [by apply not_elem_of_nil in Hb|].
  rewrite fmap_cons, list.NoDup_cons, key_weight_cons. intros [Hn Hd] Hk.
  apply elem_of_cons in Hb as [<- |Hb].
  - rewrite decide_True by done. rewrite key_weight_nil by (by rewrite <- Hk). lia.
  - rewrite decide_False; [by apply IH|]. intros E. apply Hn. rewrite E, <- Hk. by apply list_elem_of_fmap_2.
Qed.

Lemma merged_in_range l : in_range l → in_range (merged l).
Proof.
  intros Hl. apply list.Forall_forall. intros b Hb. apply merged_elem in Hb as [_ Hw]; [|done].
  unfold weight_in_range. rewrite Hw. exact (wrap_bound 64 _ eq_refl).
Qed.

Lemma merged_keys l k : in_range l → k ∈ address_key <$> merged l ↔ k ∈ address_key <$> l.
Proof.
  intros Hl. split.
  - intros (b & -> & Hb)%list_elem_of_fmap. by apply merged_elem in Hb as [? _].
  - intros Hk. apply list_elem_of_fmap in Hk as (b & -> & Hb). apply list_elem_of_fmap.
    exists (set_Weight (int64 (weight_of (address_key b) l)) b). split; [done|].
    apply merged_elem; [done|]. split; [|done]. exact (list_elem_of_fmap_2 address_key _ _ Hb).
Qed.

Lemma merged_weight l k : in_range l → int64 (weight_of k (merged l)) = int64 (weight_of k l).
Proof.
  intros Hl. destruct (decide (k ∈ address_key <$> merged l)) as [Hk|Hk].
  - apply list_elem_of_fmap in Hk as (b & -> & Hb). rewrite (weight_of_single _ _ b Hb) by (done || apply merged_NoDup).
    apply merged_elem in Hb as [_ Hw]; [|done]. rewrite Hw. apply wrap_id; [done|]. exact (wrap_bound 64 _ eq_refl).
  - rewrite key_weight_nil by done. rewrite merged_keys in Hk by done. by rewrite key_weight_nil.
Qed.
End canonical.

(** The merge of a list depends only on the keys and on the sums of weights,
    whatever the order of the maps. *)
Lemma merged_ext (M1 M2 : MapRange) l1 l2 : in_range l1 → in_range l2 →
  (∀ k, k ∈ address_key <$> l1 ↔ k ∈ address_key <$> l2) →
  (∀ k, int64 (weight_of k l1) = int64 (weight_of k l2)) →
  @mergeBackends M1 l1 [] = @mergeBackends M2 l2 [].
Proof.
  intros R1 R2 Hk Hw. apply sorted_unique; try apply merged_sorted; try apply merged_NoDup.
  intros b. by rewrite !merged_elem, Hk, Hw.
Qed.

Lemma merged_perm (M1 M2 : MapRange) l1 l2 : in_range l1 → l1 ≡ₚ l2 →
  @mergeBackends M1 l1 [] = @mergeBackends M2 l2 [].
Proof.
  intros R1 Hp. apply merged_ext; [done|unfold in_range; by rewrite <- Hp| |].
  - intros k. by rewrite Hp.
  - intros k. by rewrite (key_weight_perm _ _ _ _ _ Hp).
Qed.

Lemma merge_merged_l `{MapRange} a b : in_range a → in_range b →
  mergeBackends (mergeBackends a []) b = mergeBackends (a ++ b) [].
Proof.
  intros Ra Rb. rewrite merge_app. apply merged_ext.
  - apply Forall_app. split; [by apply merged_in_range|done].
  - by apply Forall_app.
  - intros k. rewrite !fmap_app, !elem_of_app, merged_keys by done. done.
  - intros k. rewrite !key_weight_app. rewrite <- (wrap_add_l 64 (weight_of k a)) by done.
    by rewrite <- (merged_weight a), wrap_add_l.
Qed.

Lemma merge_merged_r `{MapRange} a b : in_range a → in_range b →
  mergeBackends a (mergeBackends b []) = mergeBackends (a ++ b) [].
Proof.
  intros Ra Rb. rewrite merge_app, (merged_perm _ _ _ (mergeBackends b [] ++ a)).
  - rewrite <- merge_app, merge_merged_l by done. apply merged_perm; [by apply Forall_app|]. apply Permutation_app_comm.
  - apply Forall_app. split; [done|by apply merged_in_range].
  - apply Permutation_app_comm.
Qed.

(** ** Properties *)

(** C27. The result of [mergeBackends] is sorted strictly by address and holds,
    for each address of its arguments and no other, one backend, whose weight
    is the sum of the weights of that address in 64-bit arithmetic. *)
Theorem mergeBackends_spec `{MapRange} (a b : list Backend) :
  in_range (a ++ b) →
  StronglySorted backend_le (mergeBackends a b) ∧
  NoDup (address_key <$> mergeBackends a b) ∧
  ∀ be, be ∈ mergeBackends a b ↔
    address_key be ∈ address_key <$> a ++ b ∧
    be_Weight be = int64 (weight_of (address_key be) a + weight_of (address_key be) b).
Proof.
  intros R. rewrite merge_app. split; [apply merged_sorted|]. split; [apply merged_NoDup|].
  intros be. by rewrite merged_elem, key_weight_app.
Qed.

Lemma mergeBackends_spec_witness :
  let M := map_range_reverse in
  let l := mergeBackends [mkBackend "10.0.0.2" 80 1; mkBackend "10.0.0.1" 80 2] [mkBackend "10.0.0.2" 80 3] in
  l = [mkBackend "10.0.0.1" 80 2; mkBackend "10.0.0.2" 80 4] ∧ StronglySorted backend_le l.
Proof.
  cbv zeta. split; [vm_compute; reflexivity|].
  apply (@mergeBackends_spec map_range_reverse). repeat constructor; cbn; lia.
Defined.

(** Merging is commutative and associative, and does not depend on the
    iteration order of the map: the backends of an upstream are the same in
    whatever order the services that share it are merged. *)
Theorem mergeBackends_order (M1 M2 : MapRange) (a b c : list Backend) :
  in_range a → in_range b → in_range c →
  @mergeBackends M1 a b = @mergeBackends M2 b a ∧
  @mergeBackends M1 (@mergeBackends M1 a b) c = @mergeBackends M2 a (@mergeBackends M2 b c).
Proof.
  intros Ra Rb Rc. split.
  - rewrite (@merge_app M1 a b), (@merge_app M2 b a). apply merged_perm; [by apply Forall_app|]. apply Permutation_app_comm.
  - rewrite (@merge_app M1 a b), (@merge_app M2 b c), (@merge_merged_l M1), (@merge_merged_r M2)
      by (try apply Forall_app; done).
    apply merged_perm; [|by rewrite app_assoc]. repeat (apply Forall_app; split); done.
Qed.

Lemma mergeBackends_order_witness :
  let a := [mkBackend "10.0.0.2" 80 1] in
  let b := [mkBackend "10.0.0.1" 80 (2 ^ 63 - 1); mkBackend "10.0.0.2" 80 3] in
  let c := [mkBackend "10.0.0.1" 80 1] in
  @mergeBackends map_range_default (@mergeBackends map_range_default a b) c =
  @mergeBackends map_range_reverse a (@mergeBackends map_range_reverse b c).
Proof. cbv zeta. apply mergeBackends_order; repeat constructor; cbn; lia. Defined.
