(* ===== verification/Kubernetes.v ===== *)
(** * Kubernetes: internal/ports/kubernetes and adapters/kubernetes/client.go

    The objects of the Kubernetes API with the fields the adapter reads, the
    conversion to the domain model, the reads from the informer caches and the
    events the informer handlers send.  The listers of client-go are a
    parameter, the record [Listers]: what they return for the caches in world
    [w]. *)
From S2P Require Export GoStrings Model.
From Stdlib Require Import Lia.
Local Open Scope Z_scope.

(** ** The port: kubernetes.go *)

Inductive EventType := EventTypeAdd | EventTypeUpdate | EventTypeDelete.
Record ServiceEvent := mkServiceEvent { se_Type : EventType; se_Service : Service }.
Record PodEvent := mkPodEvent { pe_Type : EventType; pe_Pod : Pod }.
Record NodeEvent := mkNodeEvent { ne_Type : EventType; ne_Node : Node }.

(** The reads of [KubernetesPort], in a world [w]. *)
Record KubernetesPort (W : Type) := mkKubernetesPort {
  GetPodsForSelector : W → string → gmap string string → result (list Pod);
  GetNodeByName : W → string → result Node;
  GetService : W → string → string → result Service;
  ListServices : W → result (list Service);
  HasSynced : W → bool
}.
Arguments GetPodsForSelector {_} _ _ _ _.
Arguments GetNodeByName {_} _ _ _.
Arguments GetService {_} _ _ _ _.
Arguments ListServices {_} _ _.
Arguments HasSynced {_} _ _.

(** ** API objects

    The fields of [corev1.Service], [corev1.Pod] and [corev1.Node] the
    adapter reads; their named string types are strings. *)
Record V1Service := mkV1Service {
  vs_Name : string;
  vs_Namespace : string;
  vs_Labels : gmap string string;
  vs_Selector : gmap string string;
  vs_Type : string;
  vs_NodePorts : list Z       (** [Spec.Ports[i].NodePort] *)
}.
Record V1Pod := mkV1Pod {
  vp_Name : string;
  vp_Namespace : string;
  vp_Labels : gmap string string;
  vp_DeletionTimestamp : option Z;
  vp_NodeName : string;
  vp_PodIP : string;
  vp_Phase : string;
  vp_Conditions : list (string * string);      (** type and status *)
  vp_ContainersReady : list bool               (** [Status.ContainerStatuses[i].Ready] *)
}.
Record V1Node := mkV1Node {
  vn_Name : string;
  vn_Addresses : list (string * string)        (** type and address *)
}.

Definition PodReady := "Ready".
Definition ConditionTrue := "True".
Definition PodRunning := "Running".
Definition ServiceTypeNodePort := "NodePort".
Definition ServiceTypeLoadBalancer := "LoadBalancer".
Definition NodeInternalIP := "InternalIP".
Definition NodeExternalIP := "ExternalIP".

(** ** Conversion *)

Definition isMLBService (svc : V1Service) : bool :=
  let has k := bool_decide (is_Some (vs_Labels svc !! k)) in
  has "mlb-loadbalancer-name" && has "mlb-upstream-name" && has "mlb-port" &&
  (bool_decide (vs_Type svc = ServiceTypeLoadBalancer) || bool_decide (vs_Type svc = ServiceTypeNodePort)).

(** The loop over the conditions, [None] when none has the type. *)
Fixpoint ready_condition (conds : list (string * string)) : option bool :=
  match conds with
  | [] => None
  | (type, status) :: conds =>
      if bool_decide (type = PodReady) then Some (bool_decide (status = ConditionTrue))
      else ready_condition conds
  end.

Definition isPodReady (pod : V1Pod) : bool :=
  match vp_DeletionTimestamp pod with
  | Some _ => false
  | None =>
      match ready_condition (vp_Conditions pod) with
      | Some ready => ready
      | None =>
          if negb (bool_decide (vp_Phase pod = PodRunning)) then false
          else if bool_decide (length (vp_ContainersReady pod) = 0%nat) then false
          else forallb (λ ready, ready) (vp_ContainersReady pod)
      end
  end.

Definition getNodePort (svc : V1Service) : Z :=
  match vs_Labels svc !! "mlb-port" with
  | Some nodePortStr =>
      match strconv.ParseInt nodePortStr 32 with
      | Some num64 => if (1 <=? num64) && (num64 <=? 65535) then int32 num64 else 0
      | None => 0
      end
  | None =>
      if bool_decide (vs_Type svc = ServiceTypeNodePort) || bool_decide (vs_Type svc = ServiceTypeLoadBalancer) then
        match vs_NodePorts svc with
        | np :: _ => if (1 <=? np) && (np <=? 65535) then np else 0
        | [] => 0
        end
      else 0
  end.

(** The loops of [getNodeInternalIP] and [getNodeExternalIP]. *)
Fixpoint node_address (type : string) (addrs : list (string * string)) : string :=
  match addrs with
  | [] => ""
  | (t, a) :: addrs => if bool_decide (t = type) then a else node_address type addrs
  end.
Definition getNodeInternalIP (node : V1Node) : string := node_address NodeInternalIP (vn_Addresses node).
Definition getNodeExternalIP (node : V1Node) : string := node_address NodeExternalIP (vn_Addresses node).

Definition mapService (svc : V1Service) : Service :=
  mkService (vs_Name svc) (vs_Namespace svc) (vs_Labels svc) (vs_Selector svc) (vs_Type svc) (getNodePort svc).
Definition mapPod (pod : V1Pod) : Pod :=
  mkPod (vp_Name pod) (vp_Namespace pod) (vp_NodeName pod) (vp_PodIP pod) (vp_Phase pod)
    (isPodReady pod) (vp_Labels pod).
Definition mapNode (node : V1Node) : Node :=
  mkNode (vn_Name node) "" (getNodeInternalIP node) (getNodeExternalIP node).

(** ** Informer handlers

    The object an informer hands over: of the expected type, a tombstone that
    wraps one, or anything else. *)
Inductive informer_object (A : Type) :=
  | Object (a : A)
  | DeletedFinalStateUnknown (obj : informer_object A)
  | OtherObject.
Arguments Object {_} _.
Arguments DeletedFinalStateUnknown {_} _.
Arguments OtherObject {_}.

(** The type assertion on the object, and the unwrapping of a tombstone before it. *)
Definition as_object {A} (obj : informer_object A) : option A :=
  match obj with Object a => Some a | _ => None end.
Definition untomb {A} (obj : informer_object A) : informer_object A :=
  match obj with DeletedFinalStateUnknown o => o | o => o end.

(** What an informer tells its handlers. *)
Inductive notification (A : Type) :=
  | OnAdd (obj : informer_object A)
  | OnUpdate (oldObj newObj : informer_object A)
  | OnDelete (obj : informer_object A).
Arguments OnAdd {_} _.
Arguments OnUpdate {_} _ _.
Arguments OnDelete {_} _.

(** The events the handlers of [WatchServices] send. *)
Definition WatchServices (n : notification V1Service) : list ServiceEvent :=
  match n with
  | OnAdd obj =>
      match as_object obj with
      | Some svc => if isMLBService svc then [mkServiceEvent EventTypeAdd (mapService svc)] else []
      | None => []
      end
  | OnUpdate oldObj newObj =>
      match as_object newObj with
      | None => []
      | Some newSvc =>
          let was := match as_object oldObj with
                     | Some oldSvc => if isMLBService oldSvc then Some oldSvc else None
                     | None => None
                     end in
          let isMLB := isMLBService newSvc in
          match was with
          | Some oldSvc =>
              if negb isMLB then [mkServiceEvent EventTypeDelete (mapService oldSvc)]
              else [mkServiceEvent EventTypeUpdate (mapService newSvc)]
          | None => if isMLB then [mkServiceEvent EventTypeUpdate (mapService newSvc)] else []
          end
      end
  | OnDelete obj =>
      match as_object (untomb obj) with
      | Some svc => if isMLBService svc then [mkServiceEvent EventTypeDelete (mapService svc)] else []
      | None => []
      end
  end.

Definition WatchPods (n : notification V1Pod) : list PodEvent :=
  match n with
  | OnAdd obj => match as_object obj with Some pod => [mkPodEvent EventTypeAdd (mapPod pod)] | None => [] end
  | OnUpdate _ newObj =>
      match as_object newObj with Some pod => [mkPodEvent EventTypeUpdate (mapPod pod)] | None => [] end
  | OnDelete obj =>
      match as_object (untomb obj) with Some pod => [mkPodEvent EventTypeDelete (mapPod pod)] | None => [] end
  end.

Definition WatchNodes (n : notification V1Node) : list NodeEvent :=
  match n with
  | OnAdd obj => match as_object obj with Some node => [mkNodeEvent EventTypeAdd (mapNode node)] | None => [] end
  | OnUpdate _ newObj =>
      match as_object newObj with Some node => [mkNodeEvent EventTypeUpdate (mapNode node)] | None => [] end
  | OnDelete obj =>
      match as_object (untomb obj) with Some node => [mkNodeEvent EventTypeDelete (mapNode node)] | None => [] end
  end.

(** ** Start

    [startOnce] and [startErr].  [factory] tells whether the informer factory
    is set; [sync] is the outcome of [cache.WaitForCacheSync]. *)
Record StartState := mkStartState { startOnce : bool; startErr : option error }.

(** [NewKubernetesAdapter]: the informer factory is built when the kubeconfig
    works; the outcomes of client-go are arguments. *)
Record K8sAdapter := mkK8sAdapter { ka_config : KubernetesConfig; ka_factory : bool; ka_start : StartState }.
Definition NewKubernetesAdapter (BuildConfigFromFlags : string → option error) (NewForConfig : option error)
    (k8sCfg : KubernetesConfig) : result K8sAdapter :=
  match BuildConfigFromFlags (kc_KubernetesConfig k8sCfg) with
  | Some err => Err (Errorf "failed to build kubernetes config: %w" [FErr err])
  | None =>
      match NewForConfig with
      | Some err => Err (Errorf "failed to create kubernetes client: %w" [FErr err])
      | None => Ok (mkK8sAdapter k8sCfg true (mkStartState false None))
      end
  end.

Definition Start (factory sync : bool) : ST StartState (option error) := λ s,
  if negb factory then (Some (Errorf "informerFactory is nil" []), s) else
  if startOnce s then (startErr s, s) else
  let e := if negb sync then Some (Errorf "failed to sync kubernetes informers" []) else startErr s in
  (e, mkStartState true e).

(** [sendServiceEvent] and its two likes select between the channel, if it has
    room, and the end of the context: what the channel holds afterwards. *)
Definition sendEvent {A} (room ctx_done : bool) (events : list A) (event : A) : list (list A) :=
  (if room then [events ++ [event]] else []) ++ (if ctx_done then [events] else []).

(** What [WatchServices], [WatchPods] and [WatchNodes] return, with the outcome
    of [AddEventHandler]: they start the informers themselves. *)
Definition watch_returns (AddEventHandler : option error) (factory sync : bool) : ST StartState (option error) := λ s,
  match AddEventHandler with Some err => (Some err, s) | None => Start factory sync s end.

(** ** Reads *)

Record Listers (W : Type) := mkListers {
  services_List : W → result (list V1Service);
  services_Get : W → string → string → result V1Service;
  pods_List : W → string → gmap string string → result (list V1Pod);
  nodes_Get : W → string → result V1Node;
  services_HasSynced : W → bool;
  pods_HasSynced : W → bool;
  nodes_HasSynced : W → bool
}.
Arguments services_List {_} _ _.
Arguments services_Get {_} _ _ _ _.
Arguments pods_List {_} _ _ _ _.
Arguments nodes_Get {_} _ _ _.
Arguments services_HasSynced {_} _ _.
Arguments pods_HasSynced {_} _ _.
Arguments nodes_HasSynced {_} _ _.

Section reads.
Context {W : Type} (k : Listers W).

Definition k_GetPodsForSelector (w : W) (namespace : string) (selector : gmap string string)
    : result (list Pod) :=
  if bool_decide (size selector = 0%nat) then Ok [] else
  match pods_List k w namespace selector with
  | Err err => Err (Errorf "failed to list pods from cache: %w" [FErr err])
  | Ok pods => Ok (mapPod <$> pods)
  end.

Definition k_GetService (w : W) (namespace name : string) : result Service :=
  match services_Get k w namespace name with
  | Err err => Err err
  | Ok svc =>
      if negb (isMLBService svc)
      then Err (Errorf "service %s/%s is not an MLB service" [FStr namespace; FStr name])
      else Ok (mapService svc)
  end.

Definition k_ListServices (w : W) : result (list Service) :=
  match services_List k w with
  | Err err => Err (Errorf "failed to list services: %w" [FErr err])
  | Ok svcs => Ok (mapService <$> List.filter isMLBService svcs)
  end.

Definition k_GetNodeByName (w : W) (name : string) : result Node :=
  match nodes_Get k w name with
  | Err err => Err (Errorf "failed to get node %s from cache: %w" [FStr name; FErr err])
  | Ok node => Ok (mapNode node)
  end.

Definition k_HasSynced (w : W) : bool :=
  services_HasSynced k w && pods_HasSynced k w && nodes_HasSynced k w.

(** The adapter as an implementation of the port. *)
Definition KubernetesAdapter : KubernetesPort W := {|
  GetPodsForSelector := k_GetPodsForSelector;
  GetNodeByName := k_GetNodeByName;
  GetService := k_GetService;
  ListServices := k_ListServices;
  HasSynced := k_HasSynced
|}.
End reads.

(** ** Contracts

    What the adapter relies on, the documented behaviour of the informers and
    their listers, is [ListersLaws]; what the port documents is [ServesInformers],
    field by field; and what the controller relies on is its consequence
    [PortContract]. *)

(** What the three informers hold, and whether they have synced. *)
Record Informers := mkInformers {
  in_Services : list V1Service; in_Pods : list V1Pod; in_Nodes : list V1Node;
  in_ServicesSynced : bool; in_PodsSynced : bool; in_NodesSynced : bool
}.

(** A service for the controller: it has the three labels, and a node port. *)
Definition mlb (v : V1Service) : Prop :=
  is_Some (vs_Labels v !! "mlb-loadbalancer-name") ∧ is_Some (vs_Labels v !! "mlb-upstream-name") ∧
  is_Some (vs_Labels v !! "mlb-port") ∧ (vs_Type v = "LoadBalancer" ∨ vs_Type v = "NodePort").
Global Instance mlb_dec v : Decision (mlb v).
Proof. unfold mlb. apply _. Defined.
(** The label [mlb-port] holds a port. *)
Definition port_label (v : V1Service) (n : Z) : Prop :=
  ∃ l, vs_Labels v !! "mlb-port" = Some l ∧ strconv.ParseInt l 32 = Some n ∧ 1 <= n <= 65535.
Record service_of (v : V1Service) (s : Service) : Prop := {
  so_names : svc_Name s = vs_Name v ∧ svc_Namespace s = vs_Namespace v;
  so_labels : svc_Labels s = vs_Labels v ∧ svc_Selector s = vs_Selector v ∧ svc_ServiceType s = vs_Type v;
  so_port : port_label v (svc_NodePort s) ∨ svc_NodePort s = 0 ∧ ∀ n, ¬ port_label v n
}.

(** A pod that takes traffic: it is not being deleted and either its first
    readiness condition is true, or it has none, runs, and has containers that are
    all ready. *)
Definition takes_traffic (v : V1Pod) : Prop :=
  vp_DeletionTimestamp v = None ∧
  ((∃ l1 l2, vp_Conditions v = l1 ++ ("Ready", "True") :: l2 ∧ Forall (λ c, c.1 ≠ "Ready") l1) ∨
   (Forall (λ c, c.1 ≠ "Ready") (vp_Conditions v) ∧ vp_Phase v = "Running" ∧
    vp_ContainersReady v ≠ [] ∧ Forall (λ ready, ready = true) (vp_ContainersReady v))).
Record pod_of (v : V1Pod) (p : Pod) : Prop := {
  po_names : pod_Name p = vp_Name v ∧ pod_Namespace p = vp_Namespace v ∧ pod_Labels p = vp_Labels v;
  po_where : pod_NodeName p = vp_NodeName v ∧ pod_IP p = vp_PodIP v ∧ pod_Status p = vp_Phase v;
  po_ready : pod_Ready p = true ↔ takes_traffic v
}.
Definition carries (ns : string) (sel : gmap string string) (v : V1Pod) : Prop :=
  vp_Namespace v = ns ∧ sel ⊆ vp_Labels v.
Global Instance carries_dec ns sel v : Decision (carries ns sel v).
Proof. unfold carries. apply _. Defined.

(** The first address of a type, or none. *)
Definition first_address (type : string) (addrs : list (string * string)) (a : string) : Prop :=
  (∃ l1 l2, addrs = l1 ++ (type, a) :: l2 ∧ Forall (λ x, x.1 ≠ type) l1) ∨
  a = "" ∧ Forall (λ x, x.1 ≠ type) addrs.
Record node_of (v : V1Node) (n : Node) : Prop := {
  no_name : node_Name n = vn_Name v ∧ node_ClusterIP n = "";
  no_internal : first_address "InternalIP" (vn_Addresses v) (node_InternalIP n);
  no_external : first_address "ExternalIP" (vn_Addresses v) (node_ExternalIP n)
}.

(** The port answers from the informers [i]: all the MLB services, the services
    and nodes by their name, all the pods that carry a selector, and none when it is
    empty. *)
Record ServesInformers {W} (k : KubernetesPort W) (w : W) (i : Informers) : Prop := {
  sv_list : ∃ l svcs, ListServices k w = Ok svcs ∧ l ≡ₚ filter mlb (in_Services i) ∧ Forall2 service_of l svcs;
  sv_get : ∀ ns n,
    match GetService k w ns n with
    | Ok s => ∃ v, v ∈ in_Services i ∧ vs_Namespace v = ns ∧ vs_Name v = n ∧ mlb v ∧ service_of v s
    | Err _ => ∀ v, v ∈ in_Services i → vs_Namespace v = ns → vs_Name v = n → ¬ mlb v
    end;
  sv_pods : ∀ ns sel, sel ≠ ∅ →
    ∃ l pods, GetPodsForSelector k w ns sel = Ok pods ∧ l ≡ₚ filter (carries ns sel) (in_Pods i) ∧ Forall2 pod_of l pods;
  sv_no_pods : ∀ ns, GetPodsForSelector k w ns ∅ = Ok [];
  sv_node : ∀ n,
    match GetNodeByName k w n with
    | Ok node => ∃ v, v ∈ in_Nodes i ∧ vn_Name v = n ∧ node_of v node
    | Err _ => ∀ v, v ∈ in_Nodes i → vn_Name v ≠ n
    end;
  sv_synced : HasSynced k w = true ↔ in_ServicesSynced i = true ∧ in_PodsSynced i = true ∧ in_NodesSynced i = true
}.

Definition selected (ns : string) (sel : gmap string string) (p : Pod) : Prop :=
  pod_Namespace p = ns ∧ ∀ k v, sel !! k = Some v → pod_Labels p !! k = Some v.

Definition service_ok (s : Service) : Prop :=
  str_free "/" (svc_Namespace s) = true ∧ str_free "/" (svc_Name s) = true ∧
  is_Some (svc_Labels s !! "mlb-loadbalancer-name") ∧ is_Some (svc_Labels s !! "mlb-upstream-name") ∧
  0 <= svc_NodePort s <= 65535.

Class PortContract {W} (k : KubernetesPort W) (w : W) : Prop := {
  port_services : ∀ svcs, ListServices k w = Ok svcs →
    NoDup (svc_key <$> svcs) ∧ Forall service_ok svcs;
  port_get : ∀ ns n s, GetService k w ns n = Ok s ↔
    ∃ svcs, ListServices k w = Ok svcs ∧ s ∈ svcs ∧ svc_Namespace s = ns ∧ svc_Name s = n;
  port_pods : ∀ ns sel pods, GetPodsForSelector k w ns sel = Ok pods →
    Forall (selected ns sel) pods ∧ (sel = ∅ → pods = [])
}.

(** The informers hold one object per namespace and name, which hold no slash,
    and the listers read all of them from memory. *)
Class ListersLaws {W} (k : Listers W) (w : W) (i : Informers) : Prop := {
  lister_unique : NoDup ((λ s, (vs_Namespace s, vs_Name s)) <$> in_Services i);
  lister_named : Forall (λ s, str_free "/" (vs_Namespace s) = true ∧ str_free "/" (vs_Name s) = true) (in_Services i);
  lister_services : ∃ l, services_List k w = Ok l ∧ l ≡ₚ in_Services i;
  lister_get : ∀ ns n s, services_Get k w ns n = Ok s ↔ s ∈ in_Services i ∧ vs_Namespace s = ns ∧ vs_Name s = n;
  lister_pods : ∀ ns sel, ∃ l, pods_List k w ns sel = Ok l ∧ l ≡ₚ filter (carries ns sel) (in_Pods i);
  lister_node : ∀ n,
    match nodes_Get k w n with
    | Ok v => v ∈ in_Nodes i ∧ vn_Name v = n
    | Err _ => ∀ v, v ∈ in_Nodes i → vn_Name v ≠ n
    end;
  lister_synced : services_HasSynced k w = in_ServicesSynced i ∧ pods_HasSynced k w = in_PodsSynced i ∧
    nodes_HasSynced k w = in_NodesSynced i
}.

(** ** Facts *)

(** The first condition of type [PodReady], read as a position in the list. *)
Lemma ready_condition_Some conds b : ready_condition conds = Some b ↔
  ∃ l1 status l2, conds = l1 ++ (PodReady, status) :: l2 ∧ Forall (λ c, c.1 ≠ PodReady) l1 ∧
    b = bool_decide (status = ConditionTrue).
Proof.
  induction conds as [|[t st] conds IH]; cbn [ready_condition].
  - split; [done|]. intros ([|? l1] & ? & ? & ? & _); done.
  - case_bool_decide as Ht.
    + subst. split.
      * intros [= <-]. by exists [], st, conds.
      * intros ([|[t' s'] l1] & st' & l2 & [= -> ->] & Hall & ->); [by simplify_eq|].
        apply list.Forall_cons in Hall as [H _]. done.
    + rewrite IH. split.
      * intros (l1 & st' & l2 & -> & Hall & ->). exists ((t, st) :: l1), st', l2. by split_and!; [|constructor|].
      * intros ([|[t' s'] l1] & st' & l2 & [= -> ->] & Hall & ->); [done|].
        apply list.Forall_cons in Hall as [_ Hall]. simplify_eq. eauto 10.
Qed.

Lemma ready_condition_None conds : ready_condition conds = None ↔ Forall (λ c, c.1 ≠ PodReady) conds.
Proof.
  induction conds as [|[t st] conds IH]; cbn [ready_condition]; [by split|].
  rewrite list.Forall_cons. cbn. case_bool_decide; rewrite ?IH; naive_solver.
Qed.

Lemma node_address_spec type addrs : 
  (∃ l1 l2, addrs = l1 ++ (type, node_address type addrs) :: l2 ∧ Forall (λ a, a.1 ≠ type) l1) ∨
  (node_address type addrs = "" ∧ Forall (λ a, a.1 ≠ type) addrs).
Proof.
  induction addrs as [|[t a] addrs IH]; cbn [node_address]; [by right|].
  case_bool_decide as Ht; [subst; left; by exists [], addrs|].
  destruct IH as [(l1 & l2 & He & Hl)|[-> Hl]]; [left|right; by split; [|constructor]].
  exists ((t, a) :: l1), l2. split; [by rewrite <- app_comm_cons; f_equal|by constructor].
Qed.

Lemma getNodePort_bounds svc : 0 <= getNodePort svc <= 65535.
Proof.
  unfold getNodePort. destruct (vs_Labels svc !! "mlb-port") as [v|].
  - destruct (strconv.ParseInt v 32) as [n|]; [|lia].
    destruct ((1 <=? n) && (n <=? 65535)) eqn:E; [|lia]. rewrite wrap_id by lia. lia.
  - destruct (_ || _); [|lia]. destruct (vs_NodePorts svc) as [|np ?]; [lia|].
    destruct ((1 <=? np) && (np <=? 65535)) eqn:E; lia.
Qed.

Lemma isMLBService_labels svc : isMLBService svc = true →
  is_Some (vs_Labels svc !! "mlb-loadbalancer-name") ∧ is_Some (vs_Labels svc !! "mlb-upstream-name") ∧
  is_Some (vs_Labels svc !! "mlb-port").
Proof.
  unfold isMLBService. intros H. apply andb_true_iff in H as [H _].
  apply andb_true_iff in H as [H H3]. apply andb_true_iff in H as [H1 H2].
  apply bool_decide_eq_true in H1, H2, H3. done.
Qed.

(** A key determines the namespace and the name when they hold no slash. *)
Lemma slash_key_inj a b c d : str_free "/" a = true → str_free "/" c = true →
  slash_key a b = slash_key c d → a = c ∧ b = d.
Proof.
  unfold slash_key. intros Ha Hc E. pose proof (Cut_app "/" a b Ha) as H1. pose proof (Cut_app "/" c d Hc) as H2.
  change (a +:+ "/" +:+ b) with (a +:+ String "/" b) in E. change (c +:+ "/" +:+ d) with (c +:+ String "/" d) in E.
  rewrite E in H1. rewrite H1 in H2. by simplify_eq.
Qed.

(** *** Conversion *)

Lemma isMLBService_mlb v : isMLBService v = true ↔ mlb v.
Proof.
  unfold isMLBService, mlb. rewrite !andb_true_iff, orb_true_iff, !bool_decide_eq_true.
  unfold ServiceTypeLoadBalancer, ServiceTypeNodePort. tauto.
Qed.
Lemma filter_mlb l : List.filter isMLBService l = filter mlb l.
Proof.
  induction l as [|v l IH]; [done|]. rewrite filter_cons, <- IH. cbn. pose proof (isMLBService_mlb v) as Hv.
  destruct (isMLBService v); case_decide; naive_solver.
Qed.

Lemma mapService_of v : mlb v → service_of v (mapService v).
Proof.
  intros (_ & _ & [l Hl] & _). split; [done..|]. cbn [mapService svc_NodePort]. unfold getNodePort, port_label. rewrite Hl.
  destruct (strconv.ParseInt l 32) as [n|] eqn:E; [|right; split; [done|]; naive_solver].
  destruct ((1 <=? n) && (n <=? 65535)) eqn:Eb.
  - left. exists l. split; [done|]. rewrite wrap_id by lia. split; [done|lia].
  - right. split; [done|]. intros m (l' & [= <-] & Hm & ?). rewrite E in Hm. injection Hm as <-. lia.
Qed.
Lemma service_of_fun v s s' : service_of v s → service_of v s' → s = s'.
Proof.
  intros [[A1 A2] (A3 & A4 & A5) A6] [[B1 B2] (B3 & B4 & B5) B6]. destruct s, s'. cbn in *. subst. f_equal.
  destruct A6 as [A6|[-> HA]], B6 as [B6|[-> HB]]; [|by destruct (HB _ A6)|by destruct (HA _ B6)|done].
  destruct A6 as (l & E1 & E2 & _), B6 as (l' & E1' & E2' & _). congruence.
Qed.

Lemma isPodReady_traffic v : isPodReady v = true ↔ takes_traffic v.
Proof.
  unfold isPodReady, takes_traffic. destruct (vp_DeletionTimestamp v); [naive_solver|].
  destruct (ready_condition (vp_Conditions v)) as [b|] eqn:E.
  - split.
    + intros ->. apply ready_condition_Some in E as (l1 & status & l2 & He & Hl1 & Hb).
      symmetry in Hb. apply bool_decide_eq_true in Hb as ->. split; [done|]. left. eauto.
    + intros [_ [(l1 & l2 & Hk & Hl1)|(Hall%ready_condition_None & _)]]; [|congruence].
      assert (ready_condition (vp_Conditions v) = Some true); [|congruence].
      apply ready_condition_Some. exists l1, ConditionTrue, l2. by rewrite bool_decide_true.
  - pose proof E as Hall%ready_condition_None.
    assert (¬ ∃ l1 l2, vp_Conditions v = l1 ++ (PodReady, ConditionTrue) :: l2 ∧ Forall (λ c, c.1 ≠ PodReady) l1) as Hno.
    { intros (l1 & l2 & He & _). rewrite He, Forall_app, list.Forall_cons in Hall. naive_solver. }
    change "Ready" with PodReady. change "True" with ConditionTrue. change "Running" with PodRunning.
    case_bool_decide as Hp; cbn [negb]; [|naive_solver].
    case_bool_decide as Hc; [apply nil_length_inv in Hc; naive_solver|].
    rewrite forallb_forall, (list.Forall_forall _ (vp_ContainersReady v)). setoid_rewrite list_elem_of_In. split.
    + intros Hr. split; [done|]. right. split; [done|]. split; [done|]. split; [intros Hn; apply Hc; by rewrite Hn|done].
    + intros [_ [?|(_ & _ & _ & Hr)]]; done.
Qed.
Lemma mapPod_of v : pod_of v (mapPod v).
Proof. split; [done..|]. apply isPodReady_traffic. Qed.
Lemma mapNode_of v : node_of v (mapNode v).
Proof. split; [done|apply node_address_spec..]. Qed.

Lemma Forall2_map {A B} (R : A → B → Prop) (f : A → B) l : (∀ x, x ∈ l → R x (f x)) → Forall2 R l (f <$> l).
Proof. induction l as [|x l IH]; intros Hf; constructor; [apply Hf; constructor|]. apply IH. intros y Hy. apply Hf. by constructor. Qed.

(** *** The adapter answers from the informers *)

Lemma adapter_serves {W} (k : Listers W) (w : W) i : ListersLaws k w i → ServesInformers (KubernetesAdapter k) w i.
Proof.
  intros laws. split; cbn [KubernetesAdapter ListServices GetService GetPodsForSelector GetNodeByName HasSynced].
  - destruct lister_services as (l & E & Hl). unfold k_ListServices. rewrite E, filter_mlb.
    eexists (filter mlb l), _. split; [done|]. split; [by rewrite Hl|].
    apply Forall2_map. intros v [Hv _]%list_elem_of_filter. by apply mapService_of.
  - intros ns n. unfold k_GetService. destruct (services_Get k w ns n) as [v|] eqn:E.
    + apply lister_get in E as (Hin & <- & <-). pose proof (isMLBService_mlb v) as Hm. destruct (isMLBService v); cbn [negb].
      * exists v. split_and!; try done; [by apply Hm|by apply mapService_of, Hm].
      * intros v' Hin' E1 E2. replace v' with v; [by intros Hv%Hm|].
        assert (services_Get k w (vs_Namespace v) (vs_Name v) = Ok v) as Ev by (by apply lister_get).
        assert (services_Get k w (vs_Namespace v) (vs_Name v) = Ok v') as Ev' by (by apply lister_get). congruence.
    + intros v Hin E1 E2. by rewrite (proj2 (lister_get ns n v)) in E.
  - intros ns sel Hsel. unfold k_GetPodsForSelector. rewrite bool_decide_false by (by rewrite map_size_empty_iff).
    destruct (lister_pods ns sel) as (l & -> & Hl). eexists l, _. split; [done|]. split; [done|]. apply Forall2_map. intros v _. apply mapPod_of.
  - intros ns. done.
  - intros n. unfold k_GetNodeByName. pose proof (lister_node n) as Hn. destruct (nodes_Get k w n) as [v|]; [|done].
    exists v. destruct Hn. split_and!; [done..|apply mapNode_of].
  - unfold k_HasSynced. destruct lister_synced as (-> & -> & ->). rewrite !andb_true_iff. tauto.
Qed.

(** *** What the controller relies on *)

Lemma service_of_ok v s : mlb v → str_free "/" (vs_Namespace v) = true → str_free "/" (vs_Name v) = true →
  service_of v s → service_ok s.
Proof.
  intros (H1 & H2 & _) Hns Hn [[E1 E2] [E3 _] Hp]. unfold service_ok. rewrite E1, E2, E3. split_and!; try done;
    destruct Hp as [(l & _ & _ & ?)|[-> _]]; lia.
Qed.

Lemma listed_keys l svcs : NoDup ((λ v, (vs_Namespace v, vs_Name v)) <$> l) →
  Forall (λ v, str_free "/" (vs_Namespace v) = true ∧ str_free "/" (vs_Name v) = true) l →
  Forall2 service_of l svcs → NoDup (svc_key <$> svcs).
Proof.
  intros Hd Hf H2. revert Hd Hf. induction H2 as [|v s l svcs Hvs H2 IH]; [constructor|]. intros [Hn Hd]%list.NoDup_cons [[F1 _] Hf]%list.Forall_cons.
  apply list.NoDup_cons. split; [|by apply IH]. intros (s' & Hk & Hs')%list_elem_of_fmap.
  apply list_elem_of_lookup in Hs' as [j Hj]. destruct (Forall2_lookup_r _ _ _ _ _ H2 Hj) as (v' & Hv' & Hof).
  apply list_elem_of_lookup_2 in Hv'. pose proof (proj1 (list.Forall_forall _ _) Hf v' Hv') as [F1' _].
  destruct Hvs as [[A1 A2] _ _], Hof as [[B1 B2] _ _]. unfold svc_key in Hk. rewrite A1, A2, B1, B2 in Hk.
  apply slash_key_inj in Hk as [E1 E2]; [|done..]. apply Hn, list_elem_of_fmap. exists v'. by rewrite E1, E2.
Qed.

Lemma serves_contract {W} (k : KubernetesPort W) (w : W) i :
  NoDup ((λ v, (vs_Namespace v, vs_Name v)) <$> in_Services i) →
  Forall (λ v, str_free "/" (vs_Namespace v) = true ∧ str_free "/" (vs_Name v) = true) (in_Services i) →
  ServesInformers k w i → PortContract k w.
Proof.
  intros Hd Hf [(l & svcs & El & Hl & H2) Hget Hpods Hnone _ _].
  assert (∀ v, v ∈ l ↔ mlb v ∧ v ∈ in_Services i) as Hin by (intros v; by rewrite Hl, list_elem_of_filter).
  assert (∀ v, v ∈ in_Services i → str_free "/" (vs_Namespace v) = true ∧ str_free "/" (vs_Name v) = true) as Hfree
    by (by apply list.Forall_forall).
  assert (∀ s, s ∈ svcs ↔ ∃ v, v ∈ in_Services i ∧ mlb v ∧ service_of v s) as Hlisted.
  { intros s. split.
    - intros [j Hj]%list_elem_of_lookup. destruct (Forall2_lookup_r _ _ _ _ _ H2 Hj) as (v & Hv%list_elem_of_lookup_2%Hin & Hof).
      exists v. naive_solver.
    - intros (v & Hv & Hm & Hof). assert (v ∈ l) as [j Hj]%list_elem_of_lookup by (by apply Hin).
      destruct (Forall2_lookup_l _ _ _ _ _ H2 Hj) as (s' & Hs' & Hof'). rewrite (service_of_fun v s s') by done. by eapply list_elem_of_lookup_2. }
  split.
  - rewrite El. intros ? [= <-]. split.
    + apply (listed_keys l); [rewrite Hl; eapply sublist_NoDup; [exact Hd|]; apply fmap_sublist, sublist_filter| |done].
      apply list.Forall_forall. intros v [_ Hv]%Hin. by apply Hfree.
    + apply list.Forall_forall. intros s (v & Hv & Hm & Hof)%Hlisted. destruct (Hfree v Hv). by apply (service_of_ok v).
  - intros ns n s. rewrite El. specialize (Hget ns n). split.
    + intros E. rewrite E in Hget. destruct Hget as (v & Hv & <- & <- & Hm & Hof). exists svcs.
      split; [done|]. split; [apply Hlisted; eauto|]. by destruct Hof as [[-> ->] _ _].
    + intros (? & [= <-] & (v & Hv & Hm & Hof)%Hlisted & <- & <-). pose proof Hof as [[E1 E2] _ _]. rewrite E1, E2 in Hget |- *.
      destruct (GetService k w (vs_Namespace v) (vs_Name v)) as [s'|]; [|by edestruct Hget].
      destruct Hget as (v' & Hv' & F1 & F2 & Hm' & Hof'). f_equal. apply (service_of_fun v'); [done|].
      by rewrite (NoDup_key_inj (λ v, (vs_Namespace v, vs_Name v)) (in_Services i) v' v) by (done || congruence).
  - intros ns sel pods Hp. destruct (decide (sel = ∅)) as [->|Hne].
    + rewrite Hnone in Hp. injection Hp as <-. split; [constructor|done].
    + destruct (Hpods ns sel Hne) as (lp & ps & E & Hlp & H2p). rewrite E in Hp. injection Hp as ->. split; [|done].
      apply list.Forall_forall. intros p [j Hj]%list_elem_of_lookup.
      destruct (Forall2_lookup_r _ _ _ _ _ H2p Hj) as (v & Hv%list_elem_of_lookup_2 & [(_ & E1 & E2) _ _]).
      rewrite Hlp, list_elem_of_filter in Hv. destruct Hv as [[Hns Hsub] _]. split; [congruence|].
      intros x y Hx. rewrite E2. by eapply lookup_weaken.
Qed.

Lemma KubernetesAdapter_laws {W} (k : Listers W) (w : W) i : ListersLaws k w i → PortContract (KubernetesAdapter k) w.
Proof. intros laws. apply (serves_contract _ _ i); [apply lister_unique|apply lister_named|by apply adapter_serves]. Qed.

(** ** Caches to evaluate the adapter on

    Listers over a list of services, pods and nodes. *)
Module caches.
Record cluster := mkCluster {
  services : list V1Service; pods : list V1Pod; nodes : list V1Node; synced : bool
}.

Definition has_name (ns n : string) (s : V1Service) : bool :=
  bool_decide (vs_Namespace s = ns) && bool_decide (vs_Name s = n).
Definition find_one {A} (p : A → bool) (name : string) (l : list A) : result A :=
  match first_some (λ x, if p x then Some x else None) l with
  | Some x => Ok x
  | None => Err (Errorf "%s not found" [FStr name])
  end.
Definition labelled (ns : string) (sel : gmap string string) (p : V1Pod) : bool :=
  bool_decide (vp_Namespace p = ns) &&
  forallb (λ '(k, v), bool_decide (vp_Labels p !! k = Some v)) (map_to_list sel).

Definition listers : Listers cluster := {|
  services_List := λ c, Ok (services c);
  services_Get := λ c ns n, find_one (has_name ns n) n (services c);
  pods_List := λ c ns sel, Ok (List.filter (labelled ns sel) (pods c));
  nodes_Get := λ c n, find_one (λ v, bool_decide (vn_Name v = n)) n (nodes c);
  services_HasSynced := synced;
  pods_HasSynced := synced;
  nodes_HasSynced := synced
|}.

Lemma has_name_true ns n s : has_name ns n s = true ↔ vs_Namespace s = ns ∧ vs_Name s = n.
Proof. unfold has_name. by rewrite andb_true_iff, !bool_decide_eq_true. Qed.

Lemma find_one_Ok {A} (p : A → bool) name l x : find_one p name l = Ok x → x ∈ l ∧ p x = true.
Proof.
  unfold find_one. induction l as [|y l IH]; cbn; [done|]. destruct (p y) eqn:E.
  - intros [= <-]. by split; [constructor|].
  - intros [H1 H2]%IH. by split; [constructor|].
Qed.

Definition informers (c : cluster) : Informers :=
  mkInformers (services c) (pods c) (nodes c) (synced c) (synced c) (synced c).

Lemma find_one_Err {A} (p : A → bool) name l e : find_one p name l = Err e → ∀ x, x ∈ l → p x = false.
Proof.
  unfold find_one. induction l as [|y l IH]; cbn; intros E x Hx; [by apply not_elem_of_nil in Hx|].
  destruct (p y) eqn:Ey; [done|]. apply elem_of_cons in Hx as [-> |Hx]; [done|by apply IH].
Qed.
Lemma labelled_carries ns sel l : List.filter (labelled ns sel) l = filter (carries ns sel) l.
Proof.
  induction l as [|v l IH]; [done|]. rewrite filter_cons, <- IH. cbn.
  assert (labelled ns sel v = true ↔ carries ns sel v) as Hv.
  { unfold labelled, carries. rewrite andb_true_iff, bool_decide_eq_true, forallb_forall, map_subseteq_spec.
    split; intros [E Hs]; (split; [done|]).
    - intros k x Hk. specialize (Hs (k, x)). cbn in Hs. rewrite bool_decide_eq_true in Hs. by apply Hs, list_elem_of_In, elem_of_map_to_list.
    - intros [k x] Hk%list_elem_of_In%elem_of_map_to_list. apply bool_decide_eq_true. by apply Hs. }
  destruct (labelled ns sel v); case_decide; naive_solver.
Qed.

Lemma listers_laws c :
  NoDup ((λ s, (vs_Namespace s, vs_Name s)) <$> services c) →
  Forall (λ s, str_free "/" (vs_Namespace s) = true ∧ str_free "/" (vs_Name s) = true) (services c) →
  ListersLaws listers c (informers c).
Proof.
  intros Hd Hf. split; cbn [listers services_List services_Get pods_List nodes_Get informers in_Services in_Pods in_Nodes]; [done|done|by eexists| | | |done].
  - intros ns n s. split.
    + by intros [Hin [<- <-]%has_name_true]%find_one_Ok.
    + intros (Hin & <- & <-). destruct (find_one _ _ (services c)) as [t|e] eqn:E.
      * apply find_one_Ok in E as [Ht [E1 E2]%has_name_true]. f_equal.
        apply (NoDup_key_inj (λ s, (vs_Namespace s, vs_Name s)) (services c)); [done..|congruence].
      * pose proof (find_one_Err _ _ _ _ E s Hin) as Hs. by rewrite (proj2 (has_name_true _ _ _)) in Hs.
  - intros ns sel. rewrite labelled_carries. by eexists.
  - intros n. destruct (find_one _ _ (nodes c)) as [v|e] eqn:E.
    + by apply find_one_Ok in E as [Hin Hv%bool_decide_eq_true].
    + intros v Hin. by apply (find_one_Err _ _ _ _ E), bool_decide_eq_false in Hin.
Qed.
End caches.

(** ** Properties *)

(** A pod takes traffic exactly when it is not being deleted and either its
    first readiness condition is true, or it has none, runs, and has containers
    that are all ready. *)
Theorem isPodReady_spec (pod : V1Pod) : isPodReady pod = true ↔ takes_traffic pod.
Proof. apply isPodReady_traffic. Qed.

(** The port of a service is 0 or a valid port. The [mlb-port] label decides
    alone: a number in range is the port, anything else gives 0 and never the
    node port of the specification. *)
Theorem getNodePort_spec (svc : V1Service) :
  0 <= getNodePort svc <= 65535 ∧
  (∀ n, vs_Labels svc !! "mlb-port" = Some (strconv.Itoa n) → 1 <= n <= 65535 → getNodePort svc = n) ∧
  (∀ v, vs_Labels svc !! "mlb-port" = Some v →
    (∀ n, strconv.ParseInt v 32 = Some n → 1 <= n <= 65535 → False) → getNodePort svc = 0) ∧
  (∀ ports, isMLBService svc = true →
    getNodePort svc = getNodePort (mkV1Service (vs_Name svc) (vs_Namespace svc) (vs_Labels svc) (vs_Selector svc)
      (vs_Type svc) ports)).
Proof.
  split; [apply getNodePort_bounds|]. unfold getNodePort. split_and!.
  - intros n -> Hn. unfold strconv.Itoa. rewrite ParseInt_pretty by lia.
    destruct ((1 <=? n) && (n <=? 65535)) eqn:E; [by rewrite wrap_id by lia|lia].
  - intros v -> Hv. destruct (strconv.ParseInt v 32) as [n|]; [|done].
    destruct ((1 <=? n) && (n <=? 65535)) eqn:E; [|done]. exfalso. apply (Hv n); [done|lia].
  - intros ports (_ & _ & [v Hv])%isMLBService_labels. cbn [vs_Labels]. by rewrite Hv.
Qed.

(** C38. The adapter implements the port.  From what the informers hold, it lists
    all the MLB services and no others, each once and with its fields and the port
    of its label (0 when it is not one); it finds a service exactly when it is one
    of these, the pods of a selector exactly once each, with the readiness of
    Kubernetes, and none for an empty selector, and a node with its first
    addresses; it has synced when the three informers have.  So it keeps the
    contract the controller relies on. *)
Theorem KubernetesAdapter_contract {W} (k : Listers W) (w : W) (i : Informers) :
  ListersLaws k w i → ServesInformers (KubernetesAdapter k) w i ∧ PortContract (KubernetesAdapter k) w.
Proof. intros laws. split; [by apply adapter_serves|by eapply KubernetesAdapter_laws]. Qed.

Lemma KubernetesAdapter_contract_witness :
  let labels := list_to_map [("mlb-loadbalancer-name", "edge"); ("mlb-upstream-name", "web"); ("mlb-port", "30080")] in
  let svc := mkV1Service "web" "default" labels {["app" := "web"]} "NodePort" [31000] in
  let other := mkV1Service "db" "default" ∅ {["app" := "db"]} "ClusterIP" [] in
  let pod name app := mkV1Pod name "default" {["app" := app]} None "n1" "10.2.0.1" "Running" [("Ready", "True")] [] in
  let c := caches.mkCluster [other; svc] [pod "p1" "web"; pod "p2" "db"] [] true in
  let k := KubernetesAdapter caches.listers in
  ListServices k c = Ok [mkService "web" "default" labels {["app" := "web"]} "NodePort" 30080] ∧
  GetService k c "default" "web" = Ok (mkService "web" "default" labels {["app" := "web"]} "NodePort" 30080) ∧
  (∃ l pods, GetPodsForSelector k c "default" {["app" := "web"]} = Ok pods ∧ l ≡ₚ [pod "p1" "web"] ∧ Forall2 pod_of l pods) ∧
  HasSynced k c = true.
Proof.
  cbv zeta. set (c := caches.mkCluster _ _ _ _).
  assert (ListersLaws caches.listers c (caches.informers c)) as laws by (apply caches.listers_laws; vm_decide).
  destruct (KubernetesAdapter_contract caches.listers c (caches.informers c) laws) as [serves contract].
  assert (ListServices (KubernetesAdapter caches.listers) c = Ok [mkService "web" "default"
    (list_to_map [("mlb-loadbalancer-name", "edge"); ("mlb-upstream-name", "web"); ("mlb-port", "30080")])
    {["app" := "web"]} "NodePort" 30080]) as E by (vm_compute; reflexivity).
  split; [exact E|]. split; [|split].
  - apply (port_get (PortContract := contract)). eexists. split; [exact E|]. split; [constructor|]. split; reflexivity.
  - destruct (sv_pods _ _ _ serves "default" {["app" := "web"]} ltac:(vm_decide)) as (l & pods & Ep & Hl & H2).
    exists l, pods. split; [exact Ep|]. split; [|exact H2]. etransitivity; [exact Hl|]. vm_compute. reflexivity.
  - apply (sv_synced _ _ _ serves). repeat split.
Defined.
