(* ===== verification/Controller.v ===== *)
(** * The controller: internal/controller/controller.go

    Every handler of [ControllerImpl] as a state transformer over [Ctrl]: the
    state behind [stateMutex], the calls made on the work queue and on the
    metrics, and the world that the Kubernetes port reads and the adapters
    change.  Handlers run one at a time; the caches do not change during a
    handler except through the adapters. *)
From S2P Require Export Kubernetes Merge LoadBalancerPort IPReplacement.
From Stdlib Require Import Lia.
Local Open Scope Z_scope.

(** ** State *)

(** The calls on the rate limiting queue and on the metrics port.  Durations
    are not modelled. *)
Inductive queue_op := QAdd (key : string) | QAddRateLimited (key : string) | QForget (key : string) | QDone (key : string).
Inductive metric :=
  | UpdateBackendsTotal (upstream : string) (count : Z)
  | IncrementSyncErrors (upstream : string)
  | ObserveSyncDuration (upstream : string)
  | SyncUpstreamCtrInc.

Record Ctrl (W : Type) := mkCtrl {
  ct_state : ControllerState;
  ct_last : gmap string Service;       (** [lastKnownServices] *)
  ct_queue : list queue_op;
  ct_metrics : list metric;
  ct_world : W
}.
Arguments mkCtrl {_} _ _ _ _ _.
Arguments ct_state {_} _.
Arguments ct_last {_} _.
Arguments ct_queue {_} _.
Arguments ct_metrics {_} _.
Arguments ct_world {_} _.

(** [NewController] in world [w]. *)
Definition NewController {W} (w : W) : Ctrl W := mkCtrl (mkState ∅ ∅ ∅ ∅) ∅ [] [] w.

Definition set_Services (f : gmap string Service → gmap string Service) (s : ControllerState) : ControllerState :=
  mkState (f (st_Services s)) (st_Pods s) (st_Nodes s) (st_Upstreams s).
Definition set_Pods (f : gmap string Pod → gmap string Pod) (s : ControllerState) : ControllerState :=
  mkState (st_Services s) (f (st_Pods s)) (st_Nodes s) (st_Upstreams s).
Definition set_Nodes (f : gmap string Node → gmap string Node) (s : ControllerState) : ControllerState :=
  mkState (st_Services s) (st_Pods s) (f (st_Nodes s)) (st_Upstreams s).
Definition set_Upstreams (f : gmap string Upstream → gmap string Upstream) (s : ControllerState) : ControllerState :=
  mkState (st_Services s) (st_Pods s) (st_Nodes s) (f (st_Upstreams s)).

Section setters.
Context {W : Type}.
Definition upd_state (f : ControllerState → ControllerState) (c : Ctrl W) : Ctrl W :=
  mkCtrl (f (ct_state c)) (ct_last c) (ct_queue c) (ct_metrics c) (ct_world c).
Definition upd_last (f : gmap string Service → gmap string Service) (c : Ctrl W) : Ctrl W :=
  mkCtrl (ct_state c) (f (ct_last c)) (ct_queue c) (ct_metrics c) (ct_world c).
Definition enqueue (o : queue_op) (c : Ctrl W) : Ctrl W :=
  mkCtrl (ct_state c) (ct_last c) (ct_queue c ++ [o]) (ct_metrics c) (ct_world c).
Definition emit (m : metric) (c : Ctrl W) : Ctrl W :=
  mkCtrl (ct_state c) (ct_last c) (ct_queue c) (ct_metrics c ++ [m]) (ct_world c).
(** Call an adapter: it changes the world. *)
Definition call {A} (f : ST W A) : ST (Ctrl W) A := λ c,
  let '(x, w) := f (ct_world c) in
  (x, mkCtrl (ct_state c) (ct_last c) (ct_queue c) (ct_metrics c) w).
End setters.

(** ** Configuration lookups *)

Definition getLoadBalancerConfig (cfg : Config) (lbName : string) : option LoadBalancerConfig :=
  first_some (λ lb, if bool_decide (GetName lb = lbName) then Some lb else None) (cfg_LoadBalancers cfg).
Definition getLoadBalancerType (cfg : Config) (lbName : string) : string :=
  default "" (first_some (λ lb, if bool_decide (GetName lb = lbName) then Some (GetType lb) else None)
                (cfg_LoadBalancers cfg)).

(** The choice of the fallback backend of an empty upstream, and of whether an
    empty upstream may be pushed. *)
Definition defBackend (cfg : Config) (lbConfig : option LoadBalancerConfig) : option DefaultBackendConfig :=
  match lbConfig ≫= GetDefaultBackend with
  | Some d => Some d
  | None => cfg_DefaultBackend cfg
  end.
Definition fallback (cfg : Config) (lbConfig : option LoadBalancerConfig) : option (list Backend) :=
  match defBackend cfg lbConfig with
  | Some d =>
      if bool_decide (db_IP d = "") then None else
      let w := if db_Weight d <=? 0 then 1 else db_Weight d in
      Some [mkBackend (db_IP d) (db_Port d) w]
  | None => None
  end.
Definition allowEmpty (cfg : Config) (lbConfig : option LoadBalancerConfig) : bool :=
  let allowEmpty := cfg_AllowEmptyUpstream cfg in
  match lbConfig with
  | Some lb => if GetAllowEmptyUpstream lb then true else allowEmpty
  | None => allowEmpty
  end.

(** The period of the ticker [runPeriodicSync] starts for a load balancer. *)
Definition sync_period (cfg : Config) (lbName : string) : Z :=
  let period := cfg_GlobalUpstreamSyncPeriod cfg in
  let period := match getLoadBalancerConfig cfg lbName with
                | Some lb => if 0 <? GetUpstreamSyncPeriod lb then GetUpstreamSyncPeriod lb else period
                | None => period
                end in
  if period <=? 0 then 30 * Second else period.

Definition matchLabels `{MapRange} (podLabels svcSelector : gmap string string) : bool :=
  if bool_decide (size svcSelector = 0%nat) then false
  else forallb (λ '(k, v), bool_decide (label podLabels k = v)) (map_range svcSelector).

Section controller.
Context `{MapRange} {W : Type} (k8s : KubernetesPort W)
  (adapters : gmap string (LoadBalancerAdapter W)) (cfg : Config).

(** ** Building an upstream *)

(** One turn of the loop over the pods; [None] is [continue]. *)
Definition pod_backend (w : W) (svc : Service) (pod : Pod) : result (option Backend) :=
  if negb (pod_Ready pod) || bool_decide (pod_NodeName pod = "") then Ok None else
  match GetNodeByName k8s w (pod_NodeName pod) with
  | Err err => Err (Errorf "failed to get node %s for pod %s: %w" [FStr (pod_NodeName pod); FStr (pod_Name pod); FErr err])
  | Ok node =>
      let nodeIP := node_InternalIP node in
      let nodeIP := if bool_decide (nodeIP = "") then node_ExternalIP node else nodeIP in
      if bool_decide (nodeIP = "") then Ok None else
      let nodeIP :=
        match getLoadBalancerConfig cfg (svc_lb svc) with
        | Some lbConfig =>
            if GetIPReplacement lbConfig
            then ApplyIPReplacement nodeIP lbConfig (cfg_GlobalIPReplacementList cfg) else nodeIP
        | None => nodeIP
        end in
      Ok (Some (mkBackend nodeIP (svc_NodePort svc) 1))
  end.

Definition pod_backends (w : W) (svc : Service) (pods : list Pod) : result (list Backend) :=
  for_state (λ backends pod,
    match pod_backend w svc pod with
    | Err err => Err err
    | Ok None => Ok backends
    | Ok (Some b) => Ok (backends ++ [b])
    end) [] pods.

Definition buildUpstream (w : W) (svc : Service) (pods : list Pod) : result (option Upstream) :=
  let lbName := svc_lb svc in
  let upstreamName := svc_upstream svc in
  if (svc_NodePort svc =? 0) || bool_decide (lbName = "") || bool_decide (upstreamName = "") then Ok None else
  match pod_backends w svc pods with
  | Err err => Err err
  | Ok backends =>
      Ok (Some (mkUpstream upstreamName lbName (mergeBackends backends [])
        (getLoadBalancerType cfg lbName) (getLoadBalancerConfig cfg lbName) false))
  end.

(** ** The event path *)

Definition syncLoadBalancerUpstream (upstream : Upstream) : ST (Ctrl W) (option error) := λ c,
  match adapters !! up_LoadBalancer upstream with
  | None => (Some (Errorf "load balancer adapter not found: %s" [FStr (up_LoadBalancer upstream)]), c)
  | Some adapter =>
      let '(r, c) := call (lb_SyncUpstream adapter upstream) c in
      match r with
      | Some err => (Some (Errorf "failed to sync upstream %s/%s: %w"
          [FStr (up_LoadBalancer upstream); FStr (up_Name upstream); FErr err]), c)
      | None => (None, c)
      end
  end.

(** The loop that merges the backends of the other services with the same
    load balancer and upstream. *)
Definition merge_other (w : W) (svc : Service) (bs : list Backend) (otherSvc : Service) : result (list Backend) :=
  if bool_decide (svc_Namespace otherSvc = svc_Namespace svc) && bool_decide (svc_Name otherSvc = svc_Name svc)
  then Ok bs else
  if bool_decide (svc_lb otherSvc = svc_lb svc) && bool_decide (svc_upstream otherSvc = svc_upstream svc) then
    match GetPodsForSelector k8s w (svc_Namespace otherSvc) (svc_Selector otherSvc) with
    | Err err => Err (Errorf "failed to get pods for shared service %s/%s: %w"
        [FStr (svc_Namespace otherSvc); FStr (svc_Name otherSvc); FErr err])
    | Ok otherPods =>
        match buildUpstream w otherSvc otherPods with
        | Err err => Err (Errorf "failed to build upstream for shared service %s/%s: %w"
            [FStr (svc_Namespace otherSvc); FStr (svc_Name otherSvc); FErr err])
        | Ok None => Ok bs
        | Ok (Some otherUp) => Ok (mergeBackends bs (up_Backends otherUp))
        end
    end
  else Ok bs.

(** The part of [syncUpstreamsForService] that reads the caches: the
    upstream of the service with the backends of all the services that share
    it, or nothing to do. *)
Definition gather (w : W) (svc : Service) : result (option Upstream) :=
  match GetPodsForSelector k8s w (svc_Namespace svc) (svc_Selector svc) with
  | Err err => Err (Errorf "failed to get pods for service %s/%s: %w"
      [FStr (svc_Namespace svc); FStr (svc_Name svc); FErr err])
  | Ok pods =>
  match buildUpstream w svc pods with
  | Err err => Err (Errorf "failed to build upstream for service %s/%s: %w"
      [FStr (svc_Namespace svc); FStr (svc_Name svc); FErr err])
  | Ok None => Ok None
  | Ok (Some upstream) =>
  match ListServices k8s w with
  | Err err => Err (Errorf "failed to list services for upstream merge (%s/%s): %w"
      [FStr (svc_lb svc); FStr (svc_upstream svc); FErr err])
  | Ok allServices =>
  match for_state (merge_other w svc) (up_Backends upstream) allServices with
  | Err err => Err err
  | Ok bs => Ok (Some (set_Backends bs upstream))
  end end end end.

(** The safety net: [None] when the upstream must be left alone. *)
Definition fill_empty (upstream : Upstream) : option Upstream :=
  let lbConfig := getLoadBalancerConfig cfg (up_LoadBalancer upstream) in
  if negb (bool_decide (length (up_Backends upstream) = 0%nat)) then Some upstream else
  match fallback cfg lbConfig with
  | Some bs => Some (set_Backends bs upstream)
  | None => if negb (allowEmpty cfg lbConfig) then None else Some upstream
  end.

Definition syncUpstreamsForService (svc : Service) : ST (Ctrl W) (option error) := λ c,
  let upstreamName := svc_upstream svc in
  let lbName := svc_lb svc in
  if bool_decide (lbName = "") || bool_decide (upstreamName = "") then (None, c) else
  match gather (ct_world c) svc with
  | Err err => (Some err, emit (IncrementSyncErrors upstreamName) c)
  | Ok None => (None, c)
  | Ok (Some upstream) =>
  match fill_empty upstream with
  | None => (None, c)
  | Some upstream =>
      let c := emit (UpdateBackendsTotal upstreamName (Z.of_nat (length (up_Backends upstream)))) c in
      let c := upd_state (set_Upstreams (insert (slash_key lbName upstreamName) upstream)) c in
      let '(r, c) := syncLoadBalancerUpstream upstream c in
      match r with
      | Some err => (Some err, emit (IncrementSyncErrors upstreamName) c)
      | None => (None, emit (ObserveSyncDuration upstreamName) c)
      end
  end end.

(** The other service that still targets the upstream. *)
Definition find_other (key lbName upstreamName : string) (services : list Service) : option Service :=
  first_some (λ s,
    if negb (bool_decide (svc_key s = key)) && bool_decide (svc_lb s = lbName) &&
       bool_decide (svc_upstream s = upstreamName) then Some s else None) services.

Definition emptyUpstream (lbName upstreamName : string) : Upstream :=
  mkUpstream upstreamName lbName [] (getLoadBalancerType cfg lbName) (getLoadBalancerConfig cfg lbName) false.

Definition handleServiceDeletion (key : string) (svc : Service) : ST (Ctrl W) (option error) := λ c,
  let lbName := svc_lb svc in
  let upstreamName := svc_upstream svc in
  if bool_decide (lbName = "") || bool_decide (upstreamName = "") then (None, c) else
  match ListServices k8s (ct_world c) with
  | Err err => (Some (Errorf "failed to list services during service deletion check for %s: %w" [FStr key; FErr err]), c)
  | Ok services =>
      match find_other key lbName upstreamName services with
      | Some otherSvc => syncUpstreamsForService otherSvc c
      | None =>
          let c := upd_state (set_Upstreams (delete (slash_key lbName upstreamName))) c in
          let c := emit (UpdateBackendsTotal upstreamName 0) c in
          let '(r, c) := syncLoadBalancerUpstream (emptyUpstream lbName upstreamName) c in
          match r with
          | Some err => (Some err, emit (IncrementSyncErrors upstreamName) c)
          | None => (None, c)
          end
      end
  end.

(** The labels the service was last synced with no longer hold. *)
Definition labels_moved (lastSvc svc : Service) : bool :=
  (negb (bool_decide (svc_lb lastSvc = svc_lb svc)) ||
   negb (bool_decide (svc_upstream lastSvc = svc_upstream svc))) &&
  (negb (bool_decide (svc_lb lastSvc = "")) && negb (bool_decide (svc_upstream lastSvc = ""))).

Definition syncHandler (key : string) : ST (Ctrl W) (option error) := λ c,
  match strings.Split key "/" with
  | [namespace; name] =>
      match GetService k8s (ct_world c) namespace name with
      | Err _ =>
          match ct_last c !! key with
          | None => (None, c)
          | Some lastSvc =>
              let '(r, c) := handleServiceDeletion key lastSvc c in
              match r with
              | Some err => (Some err, c)
              | None => (None, upd_state (set_Services (delete key)) (upd_last (delete key) c))
              end
          end
      | Ok svc =>
          let '(r, c) :=
            match ct_last c !! key with
            | Some lastSvc => if labels_moved lastSvc svc then handleServiceDeletion key lastSvc c else (None, c)
            | None => (None, c)
            end in
          match r with
          | Some err => (Some err, c)
          | None =>
              let c := upd_state (set_Services (insert key svc)) (upd_last (insert key svc) c) in
              syncUpstreamsForService svc c
          end
      end
  | _ => (Some (Errorf "invalid resource key: %s" [FStr key]), c)
  end.

(** [processNextItem], with the item [queue.Get] returns: [None] is [quit],
    [Some None] an object that is not a string: none is ever added, and its
    [Forget] and [Done] are not recorded. *)
Definition processNextItem (item : option (option string)) : ST (Ctrl W) bool := λ c,
  match item with
  | None => (false, c)
  | Some None => (true, c)
  | Some (Some key) =>
      let '(err, c) := syncHandler key c in
      let c := match err with
               | None => enqueue (QForget key) c
               | Some _ => enqueue (QAddRateLimited key) c
               end in
      (true, enqueue (QDone key) c)
  end.

(** ** Events *)

Definition handleServiceEvent (event : ServiceEvent) (c : Ctrl W) : Ctrl W :=
  let svc := se_Service event in
  let key := svc_key svc in
  let c :=
    match se_Type event with
    | EventTypeAdd =>
        let c := upd_state (set_Services (insert key svc)) c in
        match ct_last c !! key with
        | Some _ => c
        | None => upd_last (insert key svc) c
        end
    | EventTypeUpdate => upd_state (set_Services (insert key svc)) c
    | EventTypeDelete => upd_state (set_Services (delete key)) c
    end in
  enqueue (QAdd key) c.

Definition enqueueUpstreamsForPod (pod : Pod) (c : Ctrl W) : Ctrl W :=
  foldl (λ c '(_, svc),
    if bool_decide (svc_Namespace svc = pod_Namespace pod) && matchLabels (pod_Labels pod) (svc_Selector svc)
    then enqueue (QAdd (svc_key svc)) c else c) c (map_range (st_Services (ct_state c))).

Definition handlePodEvent (event : PodEvent) (c : Ctrl W) : Ctrl W :=
  let pod := pe_Pod event in
  let key := pod_key pod in
  let oldPod := st_Pods (ct_state c) !! key in
  let c :=
    match pe_Type event with
    | EventTypeAdd | EventTypeUpdate => upd_state (set_Pods (insert key pod)) c
    | EventTypeDelete => upd_state (set_Pods (delete key)) c
    end in
  let c :=
    match oldPod, pe_Type event with
    | Some oldPod, EventTypeUpdate => enqueueUpstreamsForPod oldPod c
    | _, _ => c
    end in
  enqueueUpstreamsForPod pod c.

Definition enqueueUpstreamsForNode (node : Node) (c : Ctrl W) : Ctrl W :=
  let affectedPods :=
    List.filter (λ pod, bool_decide (pod_NodeName pod = node_Name node)) (map_range (st_Pods (ct_state c))).*2 in
  foldl (λ c pod, enqueueUpstreamsForPod pod c) c affectedPods.

Definition handleNodeEvent (event : NodeEvent) (c : Ctrl W) : Ctrl W :=
  let node := ne_Node event in
  let key := node_Name node in
  let c :=
    match ne_Type event with
    | EventTypeAdd | EventTypeUpdate => upd_state (set_Nodes (insert key node)) c
    | EventTypeDelete => upd_state (set_Nodes (delete key)) c
    end in
  enqueueUpstreamsForNode node c.

(** ** The periodic path *)

(** The first critical section of [syncSingleLoadBalancer]. *)
Definition track_service (lbName : string) (st : gset string * Ctrl W) (svc : Service) : gset string * Ctrl W :=
  let '(currentSvcKeys, c) := st in
  if negb (bool_decide (svc_lb svc = lbName)) then st else
  let key := svc_key svc in
  let c := upd_state (set_Services (insert key svc)) c in
  ({[key]} ∪ currentSvcKeys,
   match ct_last c !! key with
   | Some _ => c
   | None => upd_last (insert key svc) c
   end).
Definition forget_service (lbName : string) (currentSvcKeys : gset string) (c : Ctrl W) (kv : string * Service) : Ctrl W :=
  let '(key, svc) := kv in
  if bool_decide (svc_lb svc = lbName) && negb (bool_decide (key ∈ currentSvcKeys))
  then upd_state (set_Services (delete key)) c else c.
Definition track_services (lbName : string) (services : list Service) (c : Ctrl W) : Ctrl W :=
  let '(currentSvcKeys, c) := foldl (track_service lbName) (∅, c) services in
  foldl (forget_service lbName currentSvcKeys) c (map_range (st_Services (ct_state c))).

(** The upstream that keeps what the balancer has, after a failed read. *)
Definition preserveUp (upstreams : gmap string Upstream) (lbName upstreamName : string) : Upstream :=
  mkUpstream upstreamName lbName
    (match upstreams !! slash_key lbName upstreamName with Some oldUp => up_Backends oldUp | None => [] end)
    "" None true.

(** One turn of the loop that builds [desiredState]; [upstreams] is
    [state.Upstreams]. *)
Definition desire (w : W) (upstreams : gmap string Upstream) (lbName : string)
    (desiredState : gmap string Upstream) (svc : Service) : gmap string Upstream :=
  if negb (bool_decide (svc_lb svc = lbName)) then desiredState else
  let upstreamName := svc_upstream svc in
  if bool_decide (upstreamName = "") then desiredState else
  match GetPodsForSelector k8s w (svc_Namespace svc) (svc_Selector svc) with
  | Err _ => <[upstreamName := preserveUp upstreams lbName upstreamName]> desiredState
  | Ok pods =>
      match buildUpstream w svc pods with
      | Err _ => <[upstreamName := preserveUp upstreams lbName upstreamName]> desiredState
      | Ok None => desiredState
      | Ok (Some upstream) =>
          match desiredState !! up_Name upstream with
          | Some existingUp =>
              if negb (up_PreserveExistingBackends existingUp)
              then <[up_Name upstream :=
                      set_Backends (mergeBackends (up_Backends existingUp) (up_Backends upstream)) existingUp]>
                     desiredState
              else desiredState
          | None => <[up_Name upstream := upstream]> desiredState
          end
      end
  end.

(** One turn of the loop that applies the fallback or the safety net. *)
Definition secure_up (upstreams : gmap string Upstream) (lbName upName : string) (up : Upstream) : Upstream :=
  let lbConfig := getLoadBalancerConfig cfg lbName in
  if up_PreserveExistingBackends up then up else
  if negb (bool_decide (length (up_Backends up) = 0%nat)) then up else
  match fallback cfg lbConfig with
  | Some bs => set_Backends bs up
  | None =>
      if negb (allowEmpty cfg lbConfig) then
        let up :=
          match upstreams !! slash_key lbName upName with
          | Some oldUp =>
              if bool_decide (0 < length (up_Backends oldUp))%nat then set_Backends (up_Backends oldUp) up else up
          | None => up
          end in
        set_Preserve true up
      else up
  end.
Definition secure (upstreams : gmap string Upstream) (lbName : string)
    (desiredState : gmap string Upstream) (kv : string * Upstream) : gmap string Upstream :=
  let '(upName, up) := kv in <[upName := secure_up upstreams lbName upName up]> desiredState.

Definition desired_state (w : W) (upstreams : gmap string Upstream) (lbName : string) (services : list Service)
    : gmap string Upstream :=
  let desiredState := foldl (desire w upstreams lbName) ∅ services in
  foldl (secure upstreams lbName) desiredState (map_range desiredState).

(** The second critical section: [state.Upstreams] and the metrics. *)
Definition unpublish (lbName : string) (desiredState : gmap string Upstream) (c : Ctrl W) (kv : string * Upstream) : Ctrl W :=
  let k := kv.1 in
  let prefix := lbName +:+ "/" in
  if strings.HasPrefix k prefix then
    let upName := strings.TrimPrefix k prefix in
    match desiredState !! upName with
    | Some _ => c
    | None => emit (UpdateBackendsTotal upName 0) (upd_state (set_Upstreams (delete k)) c)
    end
  else c.
Definition publish (lbName : string) (c : Ctrl W) (kv : string * Upstream) : Ctrl W :=
  let '(upName, up) := kv in
  if negb (up_PreserveExistingBackends up) then
    emit (UpdateBackendsTotal upName (Z.of_nat (length (up_Backends up))))
      (upd_state (set_Upstreams (insert (slash_key lbName upName) up)) c)
  else c.
Definition publish_all (lbName : string) (desiredState : gmap string Upstream) (c : Ctrl W) : Ctrl W :=
  let c := foldl (unpublish lbName desiredState) c (map_range (st_Upstreams (ct_state c))) in
  foldl (publish lbName) c (map_range desiredState).

Definition syncSingleLoadBalancer (lbName : string) (adapter : LoadBalancerAdapter W) : ST (Ctrl W) (option error) := λ c,
  if negb (HasSynced k8s (ct_world c)) then (None, c) else
  match ListServices k8s (ct_world c) with
  | Err err => (Some (Errorf "failed to list services from lister for LB %s: %w" [FStr lbName; FErr err]), c)
  | Ok services =>
      let c := track_services lbName services c in
      let desiredState := desired_state (ct_world c) (st_Upstreams (ct_state c)) lbName services in
      let c := publish_all lbName desiredState c in
      let '(r, c) := call (lb_SyncAllUpstreams adapter desiredState) c in
      match r with
      | Some err => (Some (Errorf "reconciliation failed for LB %s: %w" [FStr lbName; FErr err]),
                     emit (IncrementSyncErrors lbName) c)
      | None => (None, emit (ObserveSyncDuration ("reconciliation_" +:+ lbName)) (emit SyncUpstreamCtrInc c))
      end
  end.

Definition SyncUpstreams : ST (Ctrl W) (option error) := λ c,
  let '(errs, c) := collect (λ '(lbName, adapter) c,
    let '(r, c) := syncSingleLoadBalancer lbName adapter c in
    (match r with Some err => [err] | None => [] end, c)) (map_range adapters) c in
  (match errs with [] => None | _ => Some (Errorf "drift reconciliation errors: %v" [FErrs errs]) end, c).

(** [GetState] copies the maps, [HasSynced] asks the port. *)
Definition GetState (c : Ctrl W) : ControllerState := ct_state c.
Definition Controller_HasSynced (c : Ctrl W) : bool := HasSynced k8s (ct_world c).
End controller.
