(* ===== verification/Metrics.v ===== *)
(** * The metrics adapter: internal/adapters/metrics/prometheus.go

    The Prometheus registry and [http.ServeMux] are parameters with the laws
    their documentation states; a registration or a pattern that panics is
    [None].  The readiness checker and the leadership it asks for are functions
    of the world. *)
From S2P Require Export GoStrings Config Controller Validators.
From Stdlib Require Import Lia.
Local Open Scope Z_scope.

(** ** The libraries *)

(** [float64] and [prometheus.Registry] with the values of its metrics.
    [MustRegister] panics when the name is taken, [Counter.Add] on a negative
    number.  A metric is known by its name, a child of a vector by its name and
    its label. *)
Record PromEnv (R : Type) := mkPromEnv {
  float64 : Type;
  float64_of : Z → float64;
  NewRegistry : R;
  MustRegister : R → string → option R;
  Vec_Set : string → string → float64 → R → R;
  Vec_Inc : string → string → R → R;
  Vec_Observe : string → string → float64 → R → R;
  Counter_Inc : string → R → R;
  Counter_Add : string → float64 → R → option R;
  Gauge_Set : string → float64 → R → R;
  Gauge_Inc : string → R → R;
  Gauge_Dec : string → R → R;
  Gauge_Add : string → float64 → R → R;
  Gauge_Sub : string → float64 → R → R;
  Histogram_Observe : string → float64 → R → R
}.
Arguments float64 {_} _.
Arguments float64_of {_} _ _.
Arguments NewRegistry {_} _.
Arguments MustRegister {_} _ _ _.
Arguments Vec_Set {_} _ _ _ _ _.
Arguments Vec_Inc {_} _ _ _ _.
Arguments Vec_Observe {_} _ _ _ _ _.
Arguments Counter_Inc {_} _ _ _.
Arguments Counter_Add {_} _ _ _ _.
Arguments Gauge_Set {_} _ _ _ _.
Arguments Gauge_Inc {_} _ _ _.
Arguments Gauge_Dec {_} _ _ _.
Arguments Gauge_Add {_} _ _ _ _.
Arguments Gauge_Sub {_} _ _ _ _.
Arguments Histogram_Observe {_} _ _ _ _.

(** What is behind a pattern, and [http.ServeMux]: [Handle] panics on a pattern
    that conflicts with one already registered. *)
Inductive endpoint := EpMetrics | EpHealthz | EpReadyz.
Record MuxEnv (M : Type) := mkMuxEnv {
  NewServeMux : M;
  Handle : M → string → endpoint → option M;
  mux_find : M → string → option endpoint
}.
Arguments NewServeMux {_} _.
Arguments Handle {_} _ _ _ _.
Arguments mux_find {_} _ _ _.

(** ** The port: internal/ports/metrics/metrics.go

    [W] is the state of the metrics and [F] the type [float64]; a call that
    panics is [None]. *)
Record Counter (F W : Type) := mkCounter { Counter_port_Inc : W → W; Counter_port_Add : F → W → option W }.
Arguments mkCounter {_ _} _ _.
Arguments Counter_port_Inc {_ _} _ _.
Arguments Counter_port_Add {_ _} _ _ _.
Record Gauge (F W : Type) := mkGauge {
  Gauge_port_Set : F → W → W; Gauge_port_Inc : W → W; Gauge_port_Dec : W → W; Gauge_port_Add : F → W → W; Gauge_port_Sub : F → W → W
}.
Arguments mkGauge {_ _} _ _ _ _ _.
Arguments Gauge_port_Set {_ _} _ _ _.
Arguments Gauge_port_Inc {_ _} _ _.
Arguments Gauge_port_Dec {_ _} _ _.
Arguments Gauge_port_Add {_ _} _ _ _.
Arguments Gauge_port_Sub {_ _} _ _ _.
Record Histogram (F W : Type) := mkHistogram { Histogram_port_Observe : F → W → W }.
Arguments mkHistogram {_ _} _.
Arguments Histogram_port_Observe {_ _} _ _ _.

(** The interface [Metrics]; [C] is the world the readiness checker asks. *)
Record Metrics (F C W : Type) := mkMetricsPort {
  port_NewCounter : string → string → list string → W → option (Counter F W * W);
  port_NewGauge : string → string → list string → W → option (Gauge F W * W);
  port_NewHistogram : string → string → list string → W → option (Histogram F W * W);
  port_Start : W → option (option error * W);
  port_Stop : W → option error;
  port_ProxyToLeader : W → option error;
  port_SetReadyChecker : (C → bool) → W → W;
  port_SetLeader : bool → W → W;
  port_UpdateBackendsTotal : string → F → W → W;
  port_IncrementSyncErrors : string → W → W;
  port_ObserveSyncDuration : string → F → W → W
}.

(** ** Definitions *)

Record Prometheus (R M W : Type) := mkPrometheus {
  pm_registry : R;
  pm_httpServer : option (string * M);     (** its address and its handler *)
  pm_leaderElection : option (W → bool);
  pm_metricsConfig : MetricsConfig;
  pm_readyChecker : option (W → bool);
  pm_isLeader : bool
}.
Arguments mkPrometheus {_ _ _} _ _ _ _ _ _.
Arguments pm_registry {_ _ _} _.
Arguments pm_httpServer {_ _ _} _.
Arguments pm_leaderElection {_ _ _} _.
Arguments pm_metricsConfig {_ _ _} _.
Arguments pm_readyChecker {_ _ _} _.
Arguments pm_isLeader {_ _ _} _.

(** The metrics [NewPrometheusAdapter] registers, in this order. *)
Definition core_metrics : list string :=
  ["go_build_info"; "mlb_backends_total"; "mlb_sync_errors_total"; "mlb_sync_duration_seconds"; "mlb_is_leader"].

(** [mux.Handle] of the three patterns: the configured URI, with a slash in
    front, then the two probes. *)
Definition metricsURI (c : MetricsConfig) : string :=
  let metricsURI := if bool_decide (mt_URI c = "") then "/metrics" else mt_URI c in
  if negb (strings.HasPrefix metricsURI "/") then "/" +:+ metricsURI else metricsURI.

Record reply := mkReply { rp_status : Z; rp_body : string }.

Section adapter.
Context {R M W : Type} (PE : PromEnv R) (ME : MuxEnv M).
Implicit Types p : Prometheus R M W.

Fixpoint register (names : list string) (r : R) : option R :=
  match names with
  | [] => Some r
  | n :: names => match MustRegister PE r n with Some r => register names r | None => None end
  end.

Definition NewPrometheusAdapter (leaderElection : option (W → bool)) (metricsConfig : MetricsConfig)
    : option (Prometheus R M W) :=
  match register core_metrics (NewRegistry PE) with
  | None => None
  | Some reg => Some (mkPrometheus reg None leaderElection metricsConfig None false)
  end.

Definition set_registry (r : R) p : Prometheus R M W :=
  mkPrometheus r (pm_httpServer p) (pm_leaderElection p) (pm_metricsConfig p) (pm_readyChecker p) (pm_isLeader p).
Definition SetReadyChecker (checker : W → bool) p : Prometheus R M W :=
  mkPrometheus (pm_registry p) (pm_httpServer p) (pm_leaderElection p) (pm_metricsConfig p) (Some checker) (pm_isLeader p).
Definition SetLeader (isLeader : bool) p : Prometheus R M W :=
  mkPrometheus (pm_registry p) (pm_httpServer p) (pm_leaderElection p) (pm_metricsConfig p) (pm_readyChecker p) isLeader.

(** The registration of one metric by [NewCounter], [NewGauge], [NewHistogram]. *)
Definition NewMetric (name : string) p : option (Prometheus R M W) :=
  match MustRegister PE (pm_registry p) name with Some r => Some (set_registry r p) | None => None end.

(** The objects they return keep their metric; the labels are not used. *)
Definition on_registry (f : R → R) p : Prometheus R M W := set_registry (f (pm_registry p)) p.
Definition prometheusCounter (promCounter : string) : Counter (float64 PE) (Prometheus R M W) := {|
  Counter_port_Inc := on_registry (Counter_Inc PE promCounter);
  Counter_port_Add := λ delta p, (λ r, set_registry r p) <$> Counter_Add PE promCounter delta (pm_registry p)
|}.
Definition prometheusGauge (promGauge : string) : Gauge (float64 PE) (Prometheus R M W) := {|
  Gauge_port_Set := λ value, on_registry (Gauge_Set PE promGauge value);
  Gauge_port_Inc := on_registry (Gauge_Inc PE promGauge);
  Gauge_port_Dec := on_registry (Gauge_Dec PE promGauge);
  Gauge_port_Add := λ delta, on_registry (Gauge_Add PE promGauge delta);
  Gauge_port_Sub := λ delta, on_registry (Gauge_Sub PE promGauge delta)
|}.
Definition prometheusHistogram (promHistogram : string) : Histogram (float64 PE) (Prometheus R M W) := {|
  Histogram_port_Observe := λ value, on_registry (Histogram_Observe PE promHistogram value)
|}.
Definition NewCounter (name help : string) (labels : list string) p : option (Counter (float64 PE) (Prometheus R M W) * Prometheus R M W) :=
  match NewMetric name p with Some p => Some (prometheusCounter name, p) | None => None end.
Definition NewGauge (name help : string) (labels : list string) p : option (Gauge (float64 PE) (Prometheus R M W) * Prometheus R M W) :=
  match NewMetric name p with Some p => Some (prometheusGauge name, p) | None => None end.
Definition NewHistogram (name help : string) (labels : list string) p : option (Histogram (float64 PE) (Prometheus R M W) * Prometheus R M W) :=
  match NewMetric name p with Some p => Some (prometheusHistogram name, p) | None => None end.

(** The function behind mlb_is_leader. *)
Definition mlb_is_leader p (w : W) : Z :=
  if pm_isLeader p then 1 else
  match pm_leaderElection p with
  | Some IsLeader => if IsLeader w then 1 else 0
  | None => 0
  end.

Definition Handler (c : MetricsConfig) : option M :=
  match Handle ME (NewServeMux ME) (metricsURI c) EpMetrics with
  | None => None
  | Some mux =>
      match Handle ME mux "/healthz" EpHealthz with
      | None => None
      | Some mux => Handle ME mux "/readyz" EpReadyz
      end
  end.

(** The replies of the handlers; [gather] is what promhttp prints. *)
Definition serve_endpoint (gather : Prometheus R M W → W → reply) (e : endpoint) p (w : W) : reply :=
  match e with
  | EpMetrics => gather p w
  | EpHealthz => mkReply 200 "ok"
  | EpReadyz =>
      match pm_readyChecker p with
      | Some checker => if negb (checker w) then mkReply 503 "informers not synced" else mkReply 200 "ok"
      | None => mkReply 200 "ok"
      end
  end.

(** [Start] builds the handler, which may panic, and never returns an error:
    [ListenAndServe] runs in a goroutine. *)
Definition Metrics_Start p : option (option error * Prometheus R M W) :=
  match Handler (pm_metricsConfig p) with
  | None => None
  | Some mux =>
      let addr := ":" +:+ fmt_d (mt_Port (pm_metricsConfig p)) in
      Some (None, mkPrometheus (pm_registry p) (Some (addr, mux)) (pm_leaderElection p)
                    (pm_metricsConfig p) (pm_readyChecker p) (pm_isLeader p))
  end.
Definition Metrics_Stop (Shutdown : string * M → option error) p : option error :=
  match pm_httpServer p with None => None | Some srv => Shutdown srv end.
Definition ProxyToLeader p : option error := None.

Definition PM_UpdateBackendsTotal (upstream : string) (count : float64 PE) : Prometheus R M W → Prometheus R M W :=
  on_registry (Vec_Set PE "mlb_backends_total" upstream count).
Definition PM_IncrementSyncErrors (upstream : string) : Prometheus R M W → Prometheus R M W :=
  on_registry (Vec_Inc PE "mlb_sync_errors_total" upstream).
Definition PM_ObserveSyncDuration (upstream : string) (duration : float64 PE) : Prometheus R M W → Prometheus R M W :=
  on_registry (Vec_Observe PE "mlb_sync_duration_seconds" upstream duration).

(** The adapter implements the port; [Shutdown] is [http.Server.Shutdown]. *)
Definition PrometheusAdapter (Shutdown : string * M → option error) : Metrics (float64 PE) W (Prometheus R M W) := {|
  port_NewCounter := NewCounter;
  port_NewGauge := NewGauge;
  port_NewHistogram := NewHistogram;
  port_Start := Metrics_Start;
  port_Stop := Metrics_Stop Shutdown;
  port_ProxyToLeader := ProxyToLeader;
  port_SetReadyChecker := SetReadyChecker;
  port_SetLeader := SetLeader;
  port_UpdateBackendsTotal := PM_UpdateBackendsTotal;
  port_IncrementSyncErrors := PM_IncrementSyncErrors;
  port_ObserveSyncDuration := PM_ObserveSyncDuration
|}.

(** The calls the controller makes, on the port and on its counter; [seconds] is
    the duration an observation measured. *)
Definition run_metric (m : metric) (seconds : float64 PE) : Prometheus R M W → Prometheus R M W :=
  match m with
  | UpdateBackendsTotal upstream count => PM_UpdateBackendsTotal upstream (float64_of PE count)
  | IncrementSyncErrors upstream => PM_IncrementSyncErrors upstream
  | ObserveSyncDuration upstream => PM_ObserveSyncDuration upstream seconds
  | SyncUpstreamCtrInc => Counter_port_Inc (prometheusCounter "mlb_sync_upstreams_total")
  end.
Definition run_metrics (ms : list (metric * float64 PE)) p : Prometheus R M W :=
  foldl (λ p '(m, seconds), run_metric m seconds p) p ms.
End adapter.

(** What the server answers to a request for a path, if a handler matches. *)
Definition reply_at {R M W} (ME : MuxEnv M) (gather : Prometheus R M W → W → reply) (p : Prometheus R M W)
    (path : string) (w : W) : option reply :=
  pm_httpServer p ≫= λ srv, (λ e, serve_endpoint gather e p w) <$> mux_find ME srv.2 path.

(** ** Laws of the libraries *)

(** A name that is not taken can be registered, and only the registered ones
    are taken. *)
Class RegistryLaws {R} (PE : PromEnv R) (names : R → list string) : Prop := {
  reg_new : names (NewRegistry PE) = [];
  reg_fresh : ∀ r n, n ∉ names r → ∃ r', MustRegister PE r n = Some r' ∧ names r' = n :: names r;
  reg_taken : ∀ r n, n ∈ names r → MustRegister PE r n = None
}.

(** What the calls do to the values: a value is the one set last, a counter
    counts, and whole numbers are exact up to 2^53. *)
Class ValueLaws {R} (PE : PromEnv R) (value : R → string → string → float64 PE) : Prop := {
  val_set : ∀ m l v r m' l', value (Vec_Set PE m l v r) m' l' = if decide (m' = m ∧ l' = l) then v else value r m' l';
  val_inc : ∀ m l r n, value r m l = float64_of PE n → 0 <= n < 2 ^ 53 → value (Vec_Inc PE m l r) m l = float64_of PE (n + 1);
  val_inc_other : ∀ m l r m' l', ¬ (m' = m ∧ l' = l) → value (Vec_Inc PE m l r) m' l' = value r m' l';
  val_observe : ∀ m l v r m' l', m' ≠ m → value (Vec_Observe PE m l v r) m' l' = value r m' l';
  val_counter : ∀ m r n, value r m "" = float64_of PE n → 0 <= n < 2 ^ 53 → value (Counter_Inc PE m r) m "" = float64_of PE (n + 1);
  val_counter_other : ∀ m r m' l', ¬ (m' = m ∧ l' = "") → value (Counter_Inc PE m r) m' l' = value r m' l'
}.

(** A pattern that is a plain path: it has no method, no host, no wildcard, no
    escape, and is its own clean form. *)
Definition plain (s : string) : bool :=
  strings.HasPrefix s "/" && str_forallb (λ c, url.is_alnum c || is_char c "/" || is_char c "-" || is_char c "_") s &&
  negb (strings.Contains s "//").

(** Registering the same pattern twice panics, distinct plain paths do not
    conflict, and a request for a registered path that is not a subtree reaches
    its handler. *)
Class MuxLaws {M} (ME : MuxEnv M) (routes : M → gmap string endpoint) : Prop := {
  mux_new : routes (NewServeMux ME) = ∅;
  mux_taken : ∀ m p e, is_Some (routes m !! p) → Handle ME m p e = None;
  mux_fresh : ∀ m p e, plain p = true → map_Forall (λ q _, plain q = true) (routes m) → routes m !! p = None →
    ∃ m', Handle ME m p e = Some m' ∧ routes m' = <[p := e]> (routes m);
  mux_exact : ∀ m p e, plain p = true → routes m !! p = Some e → mux_find ME m p = Some e
}.

(** ** Facts *)

Section facts.
Context {R M W : Type} (PE : PromEnv R) (ME : MuxEnv M) (names : R → list string)
  (routes : M → gmap string endpoint) `{!RegistryLaws PE names, !MuxLaws ME routes}.

Lemma register_ok l r : NoDup l → Forall (λ n, n ∉ names r) l →
  ∃ r', register PE l r = Some r' ∧ names r' = reverse l ++ names r.
Proof.
  revert r. induction l as [|n l IH]; intros r Hl Hr; cbn [register]; [by exists r|].
  apply list.NoDup_cons in Hl as [Hn Hl]. apply list.Forall_cons in Hr as [Hnr Hr].
  destruct (reg_fresh r n Hnr) as (r' & -> & Hr'). destruct (IH r' Hl) as (r'' & -> & Hr'').
  - rewrite list.Forall_forall in *. intros x Hx. rewrite Hr', not_elem_of_cons. split; [congruence|by apply Hr].
  - exists r''. split; [done|]. by rewrite Hr'', Hr', reverse_cons, <- app_assoc.
Qed.

(** The adapter and the counter the controller adds never panic. *)
Lemma NewPrometheusAdapter_ok (le : option (W → bool)) (c : MetricsConfig) :
  ∃ p p' : Prometheus R M W, NewPrometheusAdapter PE le c = Some p ∧
    pm_metricsConfig p = c ∧ pm_isLeader p = false ∧ pm_readyChecker p = None ∧
    NewMetric PE "mlb_sync_upstreams_total" p = Some p'.
Proof.
  unfold NewPrometheusAdapter, NewMetric.
  destruct (register_ok core_metrics (NewRegistry PE)) as (r & -> & Hr).
  - vm_decide.
  - rewrite reg_new. apply list.Forall_forall. intros x _. apply not_elem_of_nil.
  - rewrite reg_new, app_nil_r in Hr. destruct (reg_fresh r "mlb_sync_upstreams_total") as (r' & Hm & _).
    { rewrite Hr. vm_decide. }
    eexists (mkPrometheus r None le c None false), _. split_and!; [done..|]. cbn. by rewrite Hm.
Qed.

Lemma add_routes m p e : plain p = true → map_Forall (λ q _, plain q = true) (routes m) → routes m !! p = None →
  ∃ m', Handle ME m p e = Some m' ∧ map_Forall (λ q _, plain q = true) (routes m') ∧ routes m' = <[p := e]> (routes m).
Proof.
  intros Hp Hm Hn. destruct (mux_fresh m p e Hp Hm Hn) as (m' & ? & E). exists m'. split; [done|]. split; [|done].
  rewrite E. by apply map_Forall_insert_2.
Qed.

Lemma Handler_panics c : metricsURI c = "/healthz" ∨ metricsURI c = "/readyz" → Handler ME c = None.
Proof.
  intros Hu. unfold Handler.
  assert (plain (metricsURI c) = true) as Hp by (by destruct Hu as [-> | ->]).
  destruct (add_routes (NewServeMux ME) (metricsURI c) EpMetrics) as (m & -> & Hm & E); [done|by rewrite mux_new..|].
  rewrite mux_new in E. destruct Hu as [Hu|Hu]; rewrite Hu in *.
  - rewrite (mux_taken m); [done|]. rewrite E. by eexists.
  - destruct (add_routes m "/healthz" EpHealthz) as (m' & -> & _ & E'); [done|done|by rewrite E|].
    apply mux_taken. rewrite E', E. by eexists.
Qed.

Lemma Handler_routes c : metricsURI c ≠ "/healthz" → metricsURI c ≠ "/readyz" → plain (metricsURI c) = true →
  ∃ m, Handler ME c = Some m ∧
    mux_find ME m (metricsURI c) = Some EpMetrics ∧ mux_find ME m "/healthz" = Some EpHealthz ∧
    mux_find ME m "/readyz" = Some EpReadyz.
Proof.
  intros Hh Hr Hp. unfold Handler.
  destruct (add_routes (NewServeMux ME) (metricsURI c) EpMetrics) as (m1 & -> & H1 & E1); [done|by rewrite mux_new..|].
  destruct (add_routes m1 "/healthz" EpHealthz) as (m2 & -> & H2 & E2);
    [done|done|by rewrite E1, lookup_insert_ne, mux_new by congruence|].
  destruct (add_routes m2 "/readyz" EpReadyz) as (m3 & -> & H3 & E3);
    [done|done|by rewrite E2, E1, !lookup_insert_ne, mux_new by congruence|].
  exists m3. split_and!; [done|apply mux_exact; [done|rewrite E3, E2, E1]..].
  - by rewrite !lookup_insert_ne, lookup_insert_eq by congruence.
  - by rewrite lookup_insert_ne, lookup_insert_eq by congruence.
  - by rewrite lookup_insert_eq.
Qed.
End facts.

(** ** What the metrics show *)

(** The number of backends last reported for an upstream, and how often an error
    was. *)
Definition last_total (n : string) (ms : list metric) : option Z :=
  foldl (λ o m, match m with UpdateBackendsTotal n' count => if decide (n' = n) then Some count else o | _ => o end) None ms.
Global Instance metric_eq_dec : EqDecision metric.
Proof. solve_decision. Defined.
Definition times (m : metric) (ms : list metric) : Z := Z.of_nat (length (filter (m =.) ms)).

Section report.
Context {R M W : Type} (PE : PromEnv R) (value : R → string → string → float64 PE) `{!ValueLaws PE value}.
Implicit Types p : Prometheus R M W.
Abbreviation reads p := (value (pm_registry p)).

Lemma last_total_snoc n ms m : last_total n (ms ++ [m]) =
  match m with UpdateBackendsTotal n' count => if decide (n' = n) then Some count else last_total n ms | _ => last_total n ms end.
Proof. unfold last_total. by rewrite foldl_app. Qed.
Lemma times_snoc m ms m' : times m (ms ++ [m']) = times m ms + if decide (m = m') then 1 else 0.
Proof.
  unfold times. rewrite list.filter_app, length_app, list.filter_cons, list.filter_nil. case_decide; cbn; lia.
Qed.
Lemma times_nonneg m ms : 0 <= times m ms.
Proof. unfold times. lia. Qed.

Lemma run_metrics_snoc ms m t p : run_metrics PE (ms ++ [(m, t)]) p = run_metric PE m t (run_metrics PE ms p).
Proof. unfold run_metrics. by rewrite foldl_app. Qed.

Lemma total_ok ms p n : reads (run_metrics PE ms p) "mlb_backends_total" n =
  match last_total n ms.*1 with Some count => float64_of PE count | None => reads p "mlb_backends_total" n end.
Proof.
  induction ms as [|[m t] ms IH] using rev_ind; [done|]. rewrite run_metrics_snoc, fmap_app.
  cbn [fmap list_fmap fst]. rewrite last_total_snoc.
  destruct m; cbn [run_metric prometheusCounter Counter_port_Inc];
    unfold PM_UpdateBackendsTotal, PM_IncrementSyncErrors, PM_ObserveSyncDuration, on_registry; cbn [set_registry pm_registry].
  - rewrite val_set. case_decide as E; [destruct E as [_ ->]; by rewrite decide_True|].
    by rewrite decide_False by (intros ->; by destruct E).
  - rewrite val_inc_other; [done|by intros [? _]].
  - by rewrite val_observe.
  - rewrite val_counter_other; [done|by intros [? _]].
Qed.
(** A counter that starts at a whole number and is incremented by the calls [m]. *)
Lemma times_ok (m : metric) (name label : string) ms p k :
  (∀ m' t p, m' ≠ m → reads (run_metric PE m' t p) name label = reads p name label) →
  (∀ t p j, reads p name label = float64_of PE j → 0 <= j < 2 ^ 53 → reads (run_metric PE m t p) name label = float64_of PE (j + 1)) →
  reads p name label = float64_of PE k → 0 <= k → k + times m ms.*1 <= 2 ^ 53 →
  reads (run_metrics PE ms p) name label = float64_of PE (k + times m ms.*1).
Proof.
  intros Hother Hm Hk Hk0. induction ms as [|[m' t] ms IH] using rev_ind; intros Hb.
  { by replace (k + times m [].*1) with k by (unfold times; cbn; lia). }
  rewrite run_metrics_snoc. rewrite fmap_app in Hb |- *. cbn [fmap list_fmap fst] in Hb |- *. rewrite times_snoc in Hb |- *.
  pose proof (times_nonneg m ms.*1). destruct (decide (m = m')) as [<-|Hne].
  - rewrite (Hm t _ (k + times m ms.*1)); [by rewrite Z.add_assoc|apply IH; lia|lia].
  - rewrite Hother by congruence. rewrite Z.add_0_r. apply IH. lia.
Qed.
End report.

(** ** Libraries to evaluate the adapter on: a list of names, a map of routes *)
Module lists.
Definition prom : PromEnv (list string) := {|
  NewRegistry := [];
  MustRegister := λ r n, if decide (n ∈ r) then None else Some (n :: r);
  float64 := Z; float64_of := id;
  Vec_Set := λ _ _ _ r, r; Vec_Inc := λ _ _ r, r; Vec_Observe := λ _ _ _ r, r; Counter_Inc := λ _ r, r;
  Counter_Add := λ _ _ r, Some r; Gauge_Set := λ _ _ r, r; Gauge_Inc := λ _ r, r; Gauge_Dec := λ _ r, r;
  Gauge_Add := λ _ _ r, r; Gauge_Sub := λ _ _ r, r; Histogram_Observe := λ _ _ r, r
|}.
Definition mux : MuxEnv (gmap string endpoint) := {|
  NewServeMux := ∅;
  Handle := λ m p e, match m !! p with Some _ => None | None => Some (<[p := e]> m) end;
  mux_find := λ m p, m !! p
|}.
Global Instance prom_laws : RegistryLaws prom id.
Proof.
  split; [done| |]; intros r n Hn; cbn; [rewrite decide_False by done; by eexists|by rewrite decide_True].
Qed.
Global Instance mux_laws : MuxLaws mux id.
Proof.
  split; [done| | |done]; cbn.
  - by intros m p e [x ->].
  - intros m p e _ _ ->. by eexists.
Qed.
(** A metrics section with this URI. *)
Definition at_uri (u : string) : MetricsConfig := mkMetrics true 9090 u.
Definition config (u : string) : Config :=
  mkConfig 0 (mkLeaderElection false "" "" 0 0 0) (mkLog false "" "") (at_uri u)
    (mkKubernetes 0 "") (mkGlobalList [] []) [] 10 false None.
End lists.

(** A registry that keeps the values of its metrics. *)
Module values.
Definition value (r : gmap (string * string) Z) (m l : string) : Z := default 0 (r !! (m, l)).
Definition change (m l : string) (f : Z → Z) (r : gmap (string * string) Z) : gmap (string * string) Z := <[(m, l) := f (value r m l)]> r.
Definition prom : PromEnv (gmap (string * string) Z) := {|
  float64 := Z; float64_of := id; NewRegistry := ∅; MustRegister := λ r _, Some r;
  Vec_Set := λ m l v, change m l (λ _, v); Vec_Inc := λ m l, change m l (Z.add 1); Vec_Observe := λ m l v, change m l (Z.add v);
  Counter_Inc := λ m, change m "" (Z.add 1); Counter_Add := λ m d r, if d <? 0 then None else Some (change m "" (Z.add d) r);
  Gauge_Set := λ m v, change m "" (λ _, v); Gauge_Inc := λ m, change m "" (Z.add 1); Gauge_Dec := λ m, change m "" (Z.add (-1));
  Gauge_Add := λ m d, change m "" (Z.add d); Gauge_Sub := λ m d, change m "" (Z.add (- d));
  Histogram_Observe := λ m v, change m "" (Z.add v)
|}.
Lemma change_value m l f r m' l' : value (change m l f r) m' l' = if decide (m' = m ∧ l' = l) then f (value r m l) else value r m' l'.
Proof.
  unfold value at 1, change. case_decide as E; [destruct E as [-> ->]; by rewrite lookup_insert_eq|].
  rewrite lookup_insert_ne; [done|]. intros [= -> ->]. by destruct E.
Qed.
Global Instance prom_values : ValueLaws prom value.
Proof.
  split; cbn [prom Vec_Set Vec_Inc Vec_Observe Counter_Inc float64_of id].
  - intros. apply change_value.
  - intros m l r n Hn _. rewrite change_value, decide_True, Hn by done. unfold id. lia.
  - intros m l r m' l' Hne. by rewrite change_value, decide_False.
  - intros m l v r m' l' Hne. rewrite change_value, decide_False; [done|naive_solver].
  - intros m r n Hn _. rewrite change_value, decide_True, Hn by done. unfold id. lia.
  - intros m r m' l' Hne. by rewrite change_value, decide_False.
Qed.
End values.

(** The objects of the port ignore the labels they are asked for. *)
Example labels_ignored : ∀ name help labels (p : Prometheus (gmap (string * string) Z) unit unit),
  NewCounter values.prom name help labels p = NewCounter values.prom name help [] p.
Proof. done. Qed.

(** The validator accepts a metrics URI that takes the path of a probe, and then
    [Handler] panics. *)
Example healthz_uri_panics :
  CompositeValidator_Validate (lists.config "healthz") = None ∧ Handler lists.mux (cfg_Metrics (lists.config "healthz")) = None.
Proof. split; [by vm_compute|]. apply (Handler_panics lists.mux id). by left. Qed.

(** ** Properties *)

(** C36. Starting the metrics server.  When the URI of the metrics is a plain
    path, [Start] panics exactly if it is the path of one of the two probes;
    otherwise it returns no error, and the server answers the metrics at the
    URI, 200 at /healthz, and at /readyz 200 or, exactly while the readiness
    checker says no, 503. *)
Theorem metrics_server_spec {R M W} (ME : MuxEnv M) (routes : M → gmap string endpoint) `{!MuxLaws ME routes}
    (gather : Prometheus R M W → W → reply) (p : Prometheus R M W) :
  let uri := metricsURI (pm_metricsConfig p) in
  plain uri = true →
  (Metrics_Start ME p = None ↔ uri = "/healthz" ∨ uri = "/readyz") ∧
  (∀ e p', Metrics_Start ME p = Some (e, p') → e = None ∧ ∀ w,
    reply_at ME gather p' uri w = Some (gather p' w) ∧
    reply_at ME gather p' "/healthz" w = Some (mkReply 200 "ok") ∧
    ∃ body, reply_at ME gather p' "/readyz" w =
      Some (mkReply (if default (λ _, true) (pm_readyChecker p) w then 200 else 503) body)).
Proof.
  intros uri Hp. unfold Metrics_Start.
  destruct (decide (uri = "/healthz" ∨ uri = "/readyz")) as [Hu|[Hh Hr]%Decidable.not_or].
  { rewrite (Handler_panics ME routes) by exact Hu. split; [by split|done]. }
  destruct (Handler_routes ME routes (pm_metricsConfig p) Hh Hr Hp) as (m & -> & E1 & E2 & E3).
  split; [split; [done|by intros [?|?]]|]. intros e p' [= <- <-]. split; [done|]. intros w.
  unfold reply_at. cbn [pm_httpServer mbind option_bind snd]. fold uri in E1. rewrite E1, E2, E3. cbn.
  split_and!; [done..|]. destruct (pm_readyChecker p) as [check|]; cbn; [destruct (check w)|]; by eexists.
Qed.

Lemma metrics_server_spec_witness :
  let p := SetReadyChecker (λ b : bool, b) (mkPrometheus (M := gmap string endpoint) ([] : list string) None None (lists.at_uri "stats") None false) in
  ∃ p' b, Metrics_Start lists.mux p = Some (None, p') ∧
    reply_at lists.mux (λ _ _, mkReply 200 "stats") p' "/readyz" false = Some (mkReply 503 b).
Proof.
  intros p.
  pose proof (metrics_server_spec lists.mux id (λ _ _, mkReply 200 "stats") p eq_refl) as [_ H].
  eexists. cbn in H. destruct (H None _ eq_refl) as [_ Hw]. destruct (Hw false) as (_ & _ & b & Hb).
  exists b. split; [reflexivity|exact Hb].
Defined.

(** C37. What the metrics show.  Whatever calls the controller has made, the
    backends reported for an upstream are those of the last call for it, however
    many other calls came in between, and the counters of errors and of syncs
    have gone up by the number of calls; the calls change neither the leadership
    flag nor the readiness checker nor the server. *)
Theorem metrics_report {R M W} (PE : PromEnv R) (value : R → string → string → float64 PE) `{!ValueLaws PE value}
    (ms : list (metric * float64 PE)) (p : Prometheus R M W) :
  let p' := run_metrics PE ms p in
  let reads p := value (pm_registry p) in
  (∀ n, reads p' "mlb_backends_total" n =
    match last_total n ms.*1 with Some count => float64_of PE count | None => reads p "mlb_backends_total" n end) ∧
  (∀ n k, reads p "mlb_sync_errors_total" n = float64_of PE k → 0 <= k → k + times (IncrementSyncErrors n) ms.*1 <= 2 ^ 53 →
    reads p' "mlb_sync_errors_total" n = float64_of PE (k + times (IncrementSyncErrors n) ms.*1)) ∧
  (∀ k, reads p "mlb_sync_upstreams_total" "" = float64_of PE k → 0 <= k → k + times SyncUpstreamCtrInc ms.*1 <= 2 ^ 53 →
    reads p' "mlb_sync_upstreams_total" "" = float64_of PE (k + times SyncUpstreamCtrInc ms.*1)) ∧
  pm_isLeader p' = pm_isLeader p ∧ pm_readyChecker p' = pm_readyChecker p ∧ pm_httpServer p' = pm_httpServer p.
Proof.
  intros p' reads. split; [intros n; by apply total_ok|]. split; [|split; [|]].
  - intros n k. apply (times_ok PE value (IncrementSyncErrors n)).
    + intros m t p0 Hne. destruct m; cbn [run_metric prometheusCounter Counter_port_Inc];
        unfold PM_UpdateBackendsTotal, PM_IncrementSyncErrors, PM_ObserveSyncDuration, on_registry; cbn [set_registry pm_registry].
      * rewrite val_set. rewrite decide_False; [done|by intros [? _]].
      * apply val_inc_other. intros [_ ->]. by destruct Hne.
      * by apply val_observe.
      * apply val_counter_other. by intros [? _].
    + intros t p0 j Hj Hb. cbn [run_metric]. unfold PM_IncrementSyncErrors, on_registry. cbn [set_registry pm_registry].
      by apply val_inc.
  - intros k. apply (times_ok PE value SyncUpstreamCtrInc).
    + intros m t p0 Hne. destruct m; cbn [run_metric prometheusCounter Counter_port_Inc];
        unfold PM_UpdateBackendsTotal, PM_IncrementSyncErrors, PM_ObserveSyncDuration, on_registry; cbn [set_registry pm_registry].
      * rewrite val_set. rewrite decide_False; [done|by intros [? _]].
      * apply val_inc_other. by intros [? _].
      * by apply val_observe.
      * by destruct Hne.
    + intros t p0 j Hj Hb. cbn [run_metric prometheusCounter Counter_port_Inc]. unfold on_registry. cbn [set_registry pm_registry].
      by apply val_counter.
  - subst p'. induction ms as [|[m t] ms IH] using rev_ind; [done|]. rewrite run_metrics_snoc. by destruct m.
Qed.

Lemma metrics_report_witness :
  let calls := (λ m, (m, 1)) <$> [UpdateBackendsTotal "web" 3; IncrementSyncErrors "web"; UpdateBackendsTotal "api" 1;
    UpdateBackendsTotal "web" 2; SyncUpstreamCtrInc; ObserveSyncDuration "web"; IncrementSyncErrors "web"] in
  let p' := run_metrics (M := gmap string endpoint) (W := bool) values.prom calls (mkPrometheus ∅ None None (lists.at_uri "stats") None true) in
  let reads := values.value (pm_registry p') in
  reads "mlb_backends_total" "web" = 2 ∧ reads "mlb_backends_total" "api" = 1 ∧
  reads "mlb_sync_errors_total" "web" = 2 ∧ reads "mlb_sync_errors_total" "api" = 0 ∧ pm_isLeader p' = true.
Proof.
  cbv zeta. set (calls := _ <$> _). set (p := mkPrometheus _ _ _ _ _ _).
  destruct (metrics_report values.prom values.value calls p) as (H1 & H2 & _ & H4 & _).
  rewrite !H1, H4. rewrite (H2 "web" 0), (H2 "api" 0); try (vm_compute; congruence || reflexivity). split_and!; reflexivity.
Defined.
