(* ===== verification/LeaderElection.v ===== *)
(** * Leader election: internal/adapters/leaderelection/kubernetes.go

    The state behind the mutex, its critical sections, the configuration of the
    elector and the results of [Run].  The elector of client-go runs the two
    callbacks; how its goroutines interleave with the application is the
    transition system of [App].  [K] is the type of a callback. *)
From S2P Require Export GoStrings Config.
From Stdlib Require Import Lia.
Local Open Scope Z_scope.

(** ** Definitions *)

(** The port internal/ports/leaderelection: a callback may be nil. *)
Record Callbacks (K : Type) := mkCallbacks { OnStartedLeading : option K; OnStoppedLeading : option K }.
Arguments mkCallbacks {_} _ _.
Arguments OnStartedLeading {_} _.
Arguments OnStoppedLeading {_} _.

(** [kl_client] tells whether the client of the API server was built. *)
Record KubernetesLeaderElection (K : Type) := mkKLE {
  kl_client : bool;
  kl_config : LeaderElectionConfig;
  kl_isLeader : bool;
  kl_callbacks : Callbacks K
}.
Arguments mkKLE {_} _ _ _ _.
Arguments kl_client {_} _.
Arguments kl_config {_} _.
Arguments kl_isLeader {_} _.
Arguments kl_callbacks {_} _.

(** [BuildConfigFromFlags] and [NewForConfig] are the outcomes of client-go. *)
Definition NewKubernetesLeaderElection {K} (BuildConfigFromFlags : string → option error) (NewForConfig : option error)
    (leaderCfg : LeaderElectionConfig) (k8sCfg : KubernetesConfig) : result (KubernetesLeaderElection K) :=
  if negb (le_Enabled leaderCfg) then Ok (mkKLE false leaderCfg false (mkCallbacks None None)) else
  match BuildConfigFromFlags (kc_KubernetesConfig k8sCfg) with
  | Some err => Err (Errorf "failed to build kubernetes config: %w" [FErr err])
  | None =>
      match NewForConfig with
      | Some err => Err (Errorf "failed to create kubernetes client: %w" [FErr err])
      | None => Ok (mkKLE true leaderCfg false (mkCallbacks None None))
      end
  end.

Section operations.
Context {K : Type}.
Implicit Types k : KubernetesLeaderElection K.

Definition IsLeader k : bool := kl_isLeader k.
Definition SetCallbacks (callbacks : Callbacks K) k : KubernetesLeaderElection K :=
  mkKLE (kl_client k) (kl_config k) (kl_isLeader k) callbacks.
Definition set_isLeader (b : bool) k : KubernetesLeaderElection K :=
  mkKLE (kl_client k) (kl_config k) b (kl_callbacks k).

(** The critical sections around [isLeader] and the callback that follows them,
    the same in [Run] and in the callbacks given to the elector. *)
Definition start_section : ST (KubernetesLeaderElection K) (option K) := λ k,
  (OnStartedLeading (kl_callbacks k), set_isLeader true k).
Definition stop_section : ST (KubernetesLeaderElection K) (option K) := λ k,
  (OnStoppedLeading (kl_callbacks k), set_isLeader false k).

(** The configuration of the elector and of its lock. *)
Record elector_config := mkElector {
  el_Name : string; el_Namespace : string; el_Identity : string;
  el_LeaseDuration : Z; el_RenewDeadline : Z; el_RetryPeriod : Z; el_ReleaseOnCancel : bool
}.
Definition identity (Hostname : result string) (UnixNano : Z) : string :=
  let host := match Hostname with Ok host => host | Err _ => "mlb-controller" end in
  host +:+ "_" +:+ fmt_d UnixNano.
Definition leConfig (id : string) k : elector_config :=
  mkElector (le_LeaseName (kl_config k)) (le_LeaseNamespace (kl_config k)) id
    (le_LeaseDuration (kl_config k)) (le_RenewDeadline (kl_config k)) (le_RetryPeriod (kl_config k)) true.

(** What [Run] returns: when the elector could not be created, and after it
    returned, with [ctx_done] the state of the context then. *)
Definition create_failed (err : error) : error := Errorf "failed to create leader elector: %w" [FErr err].
Definition run_returns (ctx_done : bool) : option error :=
  if ctx_done then None else Some (Errorf "leader election lease lost" []).

(** [Hostname] is [os.Hostname()], [lease] the holder in the Lease object. *)
Definition GetLeaderAddr (Hostname : result string) (lease : result (option string)) k : string :=
  if negb (le_Enabled (kl_config k)) then match Hostname with Ok id => id | Err _ => "" end else
  if IsLeader k then match Hostname with Ok id => id | Err _ => "" end else
  match lease with
  | Err _ => ""
  | Ok None => ""
  | Ok (Some holder) => holder
  end.
End operations.

(** ** Facts *)

(** Where the kubeconfig works, the adapter is built; without leader election
    it needs no cluster. *)
Lemma NewKubernetesLeaderElection_ok {K} build new le kc :
  (le_Enabled le = true → build (kc_KubernetesConfig kc) = None ∧ new = None) →
  @NewKubernetesLeaderElection K build new le kc = Ok (mkKLE (le_Enabled le) le false (mkCallbacks None None)).
Proof.
  unfold NewKubernetesLeaderElection. intros H. destruct (le_Enabled le); [|done]. by destruct H as [-> ->].
Qed.

(** The identity a leader writes into the lease starts with its host name, but
    only on the leader does [GetLeaderAddr] give the bare host name: a standby
    sees the identity with its time stamp. *)
Example leader_addr_differs :
  let k := mkKLE (K := unit) true (mkLeaderElection true "lease" "default" 15 10 2) false (mkCallbacks None None) in
  let lease := Ok (Some (identity (Ok "pod-1") 1700)) in
  GetLeaderAddr (Ok "pod-1") lease (set_isLeader true k) = "pod-1" ∧ GetLeaderAddr (Ok "pod-2") lease k = "pod-1_1700".
Proof. split; reflexivity. Qed.
