(* ===== verification/App.v ===== *)
(** * The application: internal/application/app.go

    [App.Start] with the goroutines it starts, as a transition system: the
    application, the goroutine of [leaderElection.Run] with the callbacks of the
    elector, and the controller.  A step is one critical section or one blocking
    operation of a goroutine.  The elector of client-go may acquire the lease at
    any time, and lose it at any later time; it runs [OnStartedLeading] in a
    goroutine of its own, and calls [OnStoppedLeading] when it exits, even if it
    never led.  The arguments of [NewApp] are not nil, as in [NewContainer]. *)
From S2P Require Import Metrics.
From S2P Require Export Steps LeaderElection.
From Stdlib Require Import Lia.
Local Open Scope nat_scope.

(** ** State *)

(** The two closures [Start] registers. *)
Inductive closure := AppStarted | AppStopped.

(** The data shared by the goroutines: the leader election adapter, the
    leadership flag and the readiness checker of the metrics, the context of
    [Start] and the [cancel] of [appCtx], and the context the elector gives to
    [OnStartedLeading]. *)
Record Shared := mkShared {
  sy_le : KubernetesLeaderElection closure;
  sy_metricsLeader : bool;
  sy_readyChecker : bool;
  sy_ctxDone : bool;
  sy_cancelled : bool;
  sy_leadDone : bool
}.
Definition upd_le (le : KubernetesLeaderElection closure) (s : Shared) : Shared :=
  mkShared le (sy_metricsLeader s) (sy_readyChecker s) (sy_ctxDone s) (sy_cancelled s) (sy_leadDone s).
Definition metrics_SetLeader (b : bool) (s : Shared) : Shared :=
  mkShared (sy_le s) b (sy_readyChecker s) (sy_ctxDone s) (sy_cancelled s) (sy_leadDone s).
Definition metrics_SetReadyChecker (s : Shared) : Shared :=
  mkShared (sy_le s) (sy_metricsLeader s) true (sy_ctxDone s) (sy_cancelled s) (sy_leadDone s).
Definition cancel (s : Shared) : Shared :=
  mkShared (sy_le s) (sy_metricsLeader s) (sy_readyChecker s) (sy_ctxDone s) true (sy_leadDone s).
Definition cancel_parent (s : Shared) : Shared :=
  mkShared (sy_le s) (sy_metricsLeader s) (sy_readyChecker s) true (sy_cancelled s) (sy_leadDone s).
Definition end_leading (s : Shared) : Shared :=
  mkShared (sy_le s) (sy_metricsLeader s) (sy_readyChecker s) (sy_ctxDone s) (sy_cancelled s) true.

(** [appCtx] is a child of the context of [Start]. *)
Definition appDone (s : Shared) : bool := sy_ctxDone s || sy_cancelled s.
Definition enabled (s : Shared) : bool := le_Enabled (kl_config (sy_le s)).

(** Where the goroutine of [Run] is: at its entry; about to call
    [OnStartedLeading] or waiting for the context, without leader election; in
    the elector, acquiring, holding or leaving; about to call
    [OnStoppedLeading]; reading [ctx.Err()]; and at the end, with the error. *)
Inductive run_pc :=
  | REnter
  | RCallStart (cb : option closure)
  | RWait
  | RAcquire
  | RHold
  | RExit
  | RCallStop (cb : option closure)
  | RCheck
  | RResult (e : option error).
(** The goroutine of the elector that runs [OnStartedLeading]. *)
Inductive starter_pc := SSection | SCall (cb : option closure).

Inductive thread :=
  | Main                                    (** at [<-appCtx.Done()] *)
  | Returned (e : option error)             (** [Start] has returned *)
  | Informers                               (** [controller.StartInformers] *)
  | Run (pc : run_pc)
  | Starter (pc : starter_pc)
  | Controller                              (** [controller.Start] *)
  | ControllerEnded (e : option error).

Abbreviation system := (Shared * list thread)%type.

(** ** Steps *)

Section app.
(** The outcome of [NewLeaderElector], the outcomes of [controller.Start]
    before its context ends, and the error it returns after it ([ctx.Err()]). *)
Context (NewLeaderElector : option error) (controller_errors : list error) (ctx_Err : error).

(** The bodies of the closures. *)
Definition call_closure (cb : option closure) (s : Shared) : Shared * list thread :=
  match cb with
  | None => (s, [])
  | Some AppStarted => (metrics_SetLeader true s, [Controller])
  | Some AppStopped => (cancel (metrics_SetLeader false s), [])
  end.

Definition enter_start (s : Shared) : option closure * Shared :=
  let '(cb, le) := start_section (sy_le s) in (cb, upd_le le s).
Definition enter_stop (s : Shared) : option closure * Shared :=
  let '(cb, le) := stop_section (sy_le s) in (cb, upd_le le s).

(** The steps a goroutine can take: what becomes of the shared data and of the
    goroutine, with the ones it starts.  No steps: it is blocked. *)
Definition run_steps (s : Shared) (pc : run_pc) : list (Shared * list thread) :=
  match pc with
  | REnter =>
      if negb (enabled s) then let '(cb, s) := enter_start s in [(s, [Run (RCallStart cb)])]
      else match NewLeaderElector with
           | Some err => [(s, [Run (RResult (Some (create_failed err)))])]
           | None => [(s, [Run RAcquire])]
           end
  | RCallStart cb => let '(s, ts) := call_closure cb s in [(s, Run RWait :: ts)]
  | RWait => if appDone s then let '(cb, s) := enter_stop s in [(s, [Run (RCallStop cb)])] else []
  | RAcquire => (s, [Run RHold; Starter SSection]) :: if appDone s then [(s, [Run RExit])] else []
  | RHold => [(end_leading s, [Run RExit])]
  | RExit => let '(cb, s) := enter_stop s in [(s, [Run (RCallStop cb)])]
  | RCallStop cb => let '(s, ts) := call_closure cb s in [(s, Run RCheck :: ts)]
  | RCheck => [(s, [Run (RResult (if enabled s then run_returns (appDone s) else None))])]
  | RResult e => [(match e with Some _ => cancel s | None => s end, [])]
  end.
Definition thread_steps (s : Shared) (t : thread) : list (Shared * list thread) :=
  match t with
  | Main => if appDone s then [(cancel s, [Returned None])] else []
  | Returned _ => []
  | Informers => [(s, [])]
  | Run pc => run_steps s pc
  | Starter SSection => let '(cb, s) := enter_start s in [(s, [Starter (SCall cb)])]
  | Starter (SCall cb) => [call_closure cb s]
  | Controller =>
      ((λ e, (s, [ControllerEnded (Some e)])) <$> controller_errors) ++
      if appDone s || enabled s && sy_leadDone s then [(s, [ControllerEnded (Some ctx_Err)])] else []
  | ControllerEnded _ => []
  end.

(** A goroutine takes a step, or a signal ends the context of [Start]. *)
Inductive step : system → system → Prop :=
  | step_thread s l1 t l2 s' ts : (s', ts) ∈ thread_steps s t → step (s, l1 ++ t :: l2) (s', l1 ++ ts ++ l2)
  | step_signal s l : sy_ctxDone s = false → step (s, l) (cancel_parent s, l).

(** [Start] up to its blocking read: an error of the metrics server, or the
    system with its three goroutines.  [metrics_Start] is the outcome of
    [a.metrics.Start()]. *)
Definition callbacks : Callbacks closure := mkCallbacks (Some AppStarted) (Some AppStopped).
Definition Start (cfg : Config) (metrics_Start : option error) (le : KubernetesLeaderElection closure)
    (ctxDone : bool) : option error * system :=
  let s := mkShared le false false ctxDone false false in
  let s := metrics_SetReadyChecker s in
  let s := metrics_SetLeader (IsLeader (sy_le s)) s in
  match (if mt_Enabled (cfg_Metrics cfg) then metrics_Start else None) with
  | Some err => (Some err, (cancel s, [Returned (Some err); Informers]))
  | None =>
      let s := upd_le (SetCallbacks callbacks (sy_le s)) s in
      (None, (s, [Main; Informers; Run REnter]))
  end.

(** [Stop]: the errors of the logger and of the metrics server. *)
Definition Stop (cfg : Config) (logger_Sync metrics_Stop : option error) : option error :=
  let errs := match logger_Sync with Some e => [e] | None => [] end ++
              (if mt_Enabled (cfg_Metrics cfg)
               then match metrics_Stop with Some e => [e] | None => [] end else []) in
  match errs with [] => None | _ => Some (Errorf "multierror" [FErrs errs]) end.
End app.

(** ** Vocabulary of the properties *)

(** The controller was started; it is about to be started. *)
Definition is_controller (t : thread) : bool :=
  match t with Controller | ControllerEnded _ => true | _ => false end.
Definition is_starting (t : thread) : bool :=
  match t with Starter _ | Run (RCallStart _) => true | _ => false end.
Definition controllers (l : list thread) : nat := length (List.filter is_controller l).

(** The process is a standby: it has not got the lease yet. *)
Definition standby (x : system) : Prop := Run RAcquire ∈ x.2 ∨ Run REnter ∈ x.2.

(** It leads, or is about to: the lease is held or [isLeader] is set. *)
Definition leads (x : system) : Prop := kl_isLeader (sy_le x.1) = true ∨ Run RHold ∈ x.2.

(** Nothing is left to lead for: the context is done, the elector is leaving, or
    could not be created. *)
Definition leaving (NewLeaderElector : option error) (s : Shared) (pc : run_pc) : Prop :=
  match pc with
  | RExit | RCallStop _ | RResult (Some _) => True
  | REnter => enabled s = true ∧ is_Some NewLeaderElector
  | _ => False
  end.
Definition leadership_over (NewLeaderElector : option error) (x : system) : Prop :=
  appDone x.1 = true ∨ ∃ pc, Run pc ∈ x.2 ∧ leaving NewLeaderElector x.1 pc.

(** What mlb_is_leader shows: the metrics adapter has the leader election adapter. *)
Definition leader_gauge (s : Shared) : Z :=
  mlb_is_leader (mkPrometheus (M := unit) tt None (Some (λ s, IsLeader (sy_le s))) (mkMetrics true 0 "") None (sy_metricsLeader s)) s.

(** ** Facts *)

Definition weight (t : thread) : nat :=
  match t with
  | Main | Informers | Controller => 1
  | Returned _ | ControllerEnded _ => 0
  | Starter SSection => 3
  | Starter (SCall _) => 2
  | Run pc =>
      match pc with
      | REnter => 11 | RCallStart _ => 7 | RWait => 5 | RAcquire => 10 | RHold => 6 | RExit => 5
      | RCallStop _ => 4 | RCheck => 2 | RResult _ => 1
      end
  end.
Definition total (x : system) : nat := sum_list_with weight x.2 + if sy_ctxDone x.1 then 0 else 1.

(** Who can still start a controller. *)
Definition potential (t : thread) : nat :=
  match t with
  | Controller | ControllerEnded _ | Starter _ | Run REnter | Run RAcquire | Run (RCallStart _) => 1
  | _ => 0
  end.

(** What holds of a goroutine in every reachable state. *)
Definition thread_ok (s : Shared) (t : thread) : Prop :=
  match t with
  | Returned e => e = None
  | Run (RCallStart cb) | Starter (SCall cb) => cb = Some AppStarted
  | Run (RCallStop cb) => cb = Some AppStopped
  | Run RCheck | Run (RResult None) => sy_cancelled s = true
  | _ => True
  end.
Definition is_main (t : thread) : bool := match t with Main | Returned _ => true | _ => false end.

Record app_ok (x : system) : Prop := {
  ao_callbacks : kl_callbacks (sy_le x.1) = callbacks;
  ao_main : ∃ t, t ∈ x.2 ∧ is_main t = true;
  ao_threads : Forall (thread_ok x.1) x.2;
  ao_potential : sum_list_with potential x.2 <= 1;
  ao_standby : standby x → kl_isLeader (sy_le x.1) = false ∧ sy_metricsLeader x.1 = false;
  ao_leads : leads x → ∃ t, t ∈ x.2 ∧ (is_controller t || is_starting t) = true
}.

Section facts.
Context (NewLeaderElector : option error) (controller_errors : list error) (ctx_Err : error).
Abbreviation app_step := (step NewLeaderElector controller_errors ctx_Err).
Abbreviation app_steps := (thread_steps NewLeaderElector controller_errors ctx_Err).

Lemma appDone_cancel s : appDone (cancel s) = true.
Proof. unfold appDone. cbn. apply orb_true_r. Qed.

(** Take a step of a goroutine apart. *)
Ltac thread_cases H :=
  repeat match type of H with
  | _ ∈ thread_steps _ _ _ _ ?t => destruct t as [|e| |pc|pc| |e]; cbn [thread_steps] in H
  | _ ∈ run_steps _ _ ?pc => destruct pc as [|cb| | | | |cb| |e]; cbn [run_steps] in H
  | _ ∈ match ?pc with SSection => _ | SCall _ => _ end => destruct pc as [|cb]
  | _ ∈ [call_closure ?cb _] => destruct cb as [[|]|]; cbn [call_closure] in H
  | context [call_closure ?cb _] => destruct cb as [[|]|]; cbn [call_closure] in H
  | _ ∈ (if ?b then _ else _) => let E := fresh "Hb" in destruct b eqn:E
  | _ ∈ match ?o with Some _ => _ | None => _ end => let E := fresh "He" in destruct o eqn:E
  | _ ∈ [] => by apply not_elem_of_nil in H
  | _ ∈ [_] => apply list_elem_of_singleton in H
  | _ ∈ _ :: _ => apply elem_of_cons in H as [H|H]
  | _ ∈ _ ++ _ => apply elem_of_app in H as [H|H]
  | _ ∈ _ <$> _ => apply list_elem_of_fmap in H as (? & H & ?)
  | _ ∈ let '(_, _) := _ in _ => cbn [enter_start enter_stop start_section stop_section] in H
  | (_, _) = (_, _) => injection H as -> ->
  end.

(** Every step decreases the weight: executions are finite. *)
Lemma thread_steps_weight s t s' ts : (s', ts) ∈ app_steps s t →
  sum_list_with weight ts < weight t ∧ sy_ctxDone s' = sy_ctxDone s ∧ enabled s' = enabled s ∧
  (appDone s = true → appDone s' = true) ∧ (sy_cancelled s = true → sy_cancelled s' = true).
Proof.
  intros H. assert (∀ s, appDone s = sy_ctxDone s || sy_cancelled s) as HD by done. rewrite !HD.
  thread_cases H; try (destruct e); cbn; (split_and!; [lia|done|done|by rewrite ?orb_true_r|done]).
Qed.

Lemma step_weight x y : app_step x y → total y < total x.
Proof.
  intros [s l1 t l2 s' ts H|s l H]; unfold total; cbn [fst snd].
  - apply thread_steps_weight in H as (Hw & -> & _). rewrite !sum_list_with_app. cbn. lia.
  - rewrite H. cbn. lia.
Qed.

(** What a step of a goroutine does to the shared data and to the goroutines. *)
Record effect (s : Shared) (t : thread) (s' : Shared) (ts : list thread) : Prop := {
  ef_callbacks : kl_callbacks (sy_le s') = kl_callbacks (sy_le s);
  ef_threads : Forall (thread_ok s') ts;
  ef_potential : sum_list_with potential ts <= potential t;
  ef_main : is_main t = true → ∃ u, u ∈ ts ∧ is_main u = true;
  ef_started : is_controller t || is_starting t = true → ∃ u, u ∈ ts ∧ (is_controller u || is_starting u) = true;
  ef_leader : kl_isLeader (sy_le s') = true → kl_isLeader (sy_le s) = true ∨ ∃ u, u ∈ ts ∧ is_starting u = true;
  ef_metrics : sy_metricsLeader s' = true → sy_metricsLeader s = true ∨ ∃ u, u ∈ ts ∧ is_controller u = true;
  ef_hold : Run RHold ∈ ts → ∃ u, u ∈ ts ∧ is_starting u = true;
  ef_standby : Run RAcquire ∈ ts ∨ Run REnter ∈ ts → t = Run REnter ∧ s' = s
}.

Ltac find_thread :=
  first [ by (eexists; split; [apply elem_of_cons; left; reflexivity|reflexivity])
        | by (eexists; split; [apply elem_of_cons; right; apply elem_of_cons; left; reflexivity|reflexivity]) ].
Ltac no_thread :=
  let H := fresh in
  intros H; repeat match type of H with _ ∨ _ => destruct H as [H|H] end;
  rewrite ?elem_of_cons in H; repeat match type of H with _ ∨ _ => destruct H as [H|H] end;
  try (by apply not_elem_of_nil in H); try discriminate H.

Lemma thread_steps_effect s t s' ts :
  kl_callbacks (sy_le s) = callbacks → thread_ok s t → (s', ts) ∈ app_steps s t → effect s t s' ts.
Proof.
  intros Hcb Ht H.
  thread_cases H; cbn [thread_ok] in Ht; try discriminate Ht; rewrite ?Hcb in *; split; cbn;
    try done; try lia; try (by auto); try (by intros _; find_thread); try (by intros _; right; find_thread);
    try (by no_thread); repeat constructor; rewrite ?Hcb; try done.
  all: try (by destruct e).
  - unfold run_returns. by destruct (enabled s), (appDone s).
Qed.

Lemma thread_ok_mono s s' t : (sy_cancelled s = true → sy_cancelled s' = true) → thread_ok s t → thread_ok s' t.
Proof. intros Hc. destruct t as [|e| |[|cb| | | | |cb| |[e|]]|[|cb]| |e]; cbn; auto. Qed.

Lemma elem_of_middle {A} (u : A) l1 ts l2 : u ∈ l1 ++ ts ++ l2 ↔ u ∈ ts ∨ u ∈ l1 ++ l2.
Proof. rewrite !elem_of_app. tauto. Qed.
Lemma elem_of_middle_1 {A} (u t : A) l1 l2 : u ∈ l1 ++ t :: l2 ↔ u = t ∨ u ∈ l1 ++ l2.
Proof. rewrite !elem_of_app, elem_of_cons. tauto. Qed.

(** A goroutine of the list survives the step of another, or is replaced. *)
Lemma survives (P : thread → bool) l1 t l2 ts :
  (P t = true → ∃ u, u ∈ ts ∧ P u = true) →
  (∃ u, u ∈ l1 ++ t :: l2 ∧ P u = true) → ∃ u, u ∈ l1 ++ ts ++ l2 ∧ P u = true.
Proof.
  intros Ht (u & [-> | Hu]%elem_of_middle_1 & Hp).
  - destruct (Ht Hp) as (v & ? & ?). exists v. rewrite elem_of_middle. auto.
  - exists u. rewrite elem_of_middle. auto.
Qed.

Lemma potential_elem t l : t ∈ l → potential t <= sum_list_with potential l.
Proof. intros (l1 & l2 & ->)%list_elem_of_split. rewrite sum_list_with_app. cbn. lia. Qed.

Lemma started_potential t : is_controller t || is_starting t = true → potential t = 1.
Proof. by destruct t as [|e| |[]|[]| |e]. Qed.

(** The flags stay down while a standby goroutine elsewhere holds the only
    potential. *)
Lemma standby_elsewhere s l1 t l2 s' ts :
  effect s t s' ts → sum_list_with potential (l1 ++ t :: l2) <= 1 →
  Run RAcquire ∈ l1 ++ l2 ∨ Run REnter ∈ l1 ++ l2 →
  kl_isLeader (sy_le s) = false → sy_metricsLeader s = false →
  kl_isLeader (sy_le s') = false ∧ sy_metricsLeader s' = false.
Proof.
  intros He Hp Hin Hl Hm. rewrite sum_list_with_app in Hp. cbn in Hp.
  assert (1 <= sum_list_with potential (l1 ++ l2)) as H1
    by (destruct Hin as [H|H]; by apply potential_elem in H).
  rewrite sum_list_with_app in H1. pose proof (ef_potential _ _ _ _ He) as Hts.
  assert (∀ u, u ∈ ts → is_controller u || is_starting u = false) as Hno.
  { intros u Hu. apply not_true_is_false. intros E%started_potential. apply potential_elem in Hu. lia. }
  split; apply not_true_is_false; intros E.
  - destruct (ef_leader _ _ _ _ He E) as [?|(u & Hu & Hs)]; [congruence|]. specialize (Hno u Hu). by rewrite Hs, orb_true_r in Hno.
  - destruct (ef_metrics _ _ _ _ He E) as [?|(u & Hu & Hs)]; [congruence|]. specialize (Hno u Hu). by rewrite Hs in Hno.
Qed.

Lemma step_app_ok x y : app_ok x → app_step x y → app_ok y.
Proof.
  intros Hok Hst. revert Hok. destruct Hst as [s l1 t l2 s' ts H|s l H]; intros [Hcb Hmain Hth Hpot Hstand Hlead]; cbn [fst snd] in *.
  2:{ split; cbn [fst snd]; [done..| |done|done|done]. eapply Forall_impl; [|exact Hth]. intros u. by apply thread_ok_mono. }
  rewrite list.Forall_app, list.Forall_cons in Hth. destruct Hth as (Hth1 & Ht & Hth2).
  pose proof (thread_steps_effect _ _ _ _ Hcb Ht H) as He.
  apply thread_steps_weight in H as (_ & _ & _ & _ & Hmono).
  assert (∀ l, Forall (thread_ok s) l → Forall (thread_ok s') l) as Hkeep.
  { intros l. apply Forall_impl. intros u. by apply thread_ok_mono. }
  split; cbn [fst snd].
  - rewrite (ef_callbacks _ _ _ _ He). exact Hcb.
  - apply (survives is_main l1 t); [apply (ef_main _ _ _ _ He)|done].
  - rewrite !list.Forall_app. split_and!; [by apply Hkeep|apply (ef_threads _ _ _ _ He)|by apply Hkeep].
  - pose proof (ef_potential _ _ _ _ He). rewrite !sum_list_with_app in *. cbn in Hpot. lia.
  - unfold standby. cbn [snd]. rewrite !elem_of_middle. intros Hs.
    assert ((Run RAcquire ∈ ts ∨ Run REnter ∈ ts) ∨ (Run RAcquire ∈ l1 ++ l2 ∨ Run REnter ∈ l1 ++ l2)) as [Hin|Hin] by tauto.
    + destruct (ef_standby _ _ _ _ He Hin) as [-> ->]. apply Hstand. right. apply elem_of_middle_1. by left.
    + assert (standby (s, l1 ++ t :: l2)) as Hst by (unfold standby; cbn [snd]; rewrite !elem_of_middle_1; tauto).
      destruct (Hstand Hst). by eapply standby_elsewhere.
  - intros Hl. unfold leads in *. cbn [fst snd] in *. rewrite elem_of_middle in Hl.
    destruct Hl as [Hl|[Hl|Hl]].
    + destruct (ef_leader _ _ _ _ He Hl) as [Hl'|(u & Hu & Hs)].
      * apply (survives (λ u, is_controller u || is_starting u) l1 t); [apply (ef_started _ _ _ _ He)|auto].
      * exists u. rewrite elem_of_middle, Hs, orb_true_r. auto.
    + destruct (ef_hold _ _ _ _ He Hl) as (u & Hu & Hs). exists u. rewrite elem_of_middle, Hs, orb_true_r. auto.
    + apply (survives (λ u, is_controller u || is_starting u) l1 t); [apply (ef_started _ _ _ _ He)|].
      apply Hlead. right. rewrite elem_of_middle_1. auto.
Qed.

Lemma Start_app_ok cfg metrics_Start le ctxDone s0 :
  kl_isLeader le = false → Start cfg metrics_Start le ctxDone = (None, s0) → app_ok s0.
Proof.
  intros Hle. unfold Start. destruct (if mt_Enabled (cfg_Metrics cfg) then metrics_Start else None); [done|].
  intros [= <-]. split; cbn; [done|by exists Main; split; [constructor|]|by repeat constructor|lia|by auto|].
  intros [H|H]; [cbn in H; congruence|]. cbn in H. revert H; by no_thread.
Qed.

Lemma reachable_app_ok cfg metrics_Start le ctxDone s0 x :
  kl_isLeader le = false → Start cfg metrics_Start le ctxDone = (None, s0) → rtc app_step s0 x → app_ok x.
Proof. intros Hle HS Hr. eapply reachable_inv; [exact Hr|by eapply Start_app_ok|]. intros; by eapply step_app_ok. Qed.

(** ** Progress *)

Lemma thread_step_exists s l t s' ts : t ∈ l → (s', ts) ∈ app_steps s t → ∃ y, app_step (s, l) y.
Proof. intros (l1 & l2 & ->)%list_elem_of_split H. eexists. by constructor. Qed.

(** Once leadership is over it stays so, and a step is possible until [Start]
    returns. *)
Lemma over_step x y : app_ok x → leadership_over NewLeaderElector x → app_step x y → leadership_over NewLeaderElector y.
Proof.
  intros Hok Hover Hst. revert Hok Hover. destruct Hst as [s l1 t l2 s' ts H|s l H]; intros Hok Hover; unfold leadership_over in *; cbn [fst snd] in *; [|by left].
  pose proof (ao_threads _ Hok) as Hth. cbn in Hth. rewrite list.Forall_app, list.Forall_cons in Hth. destruct Hth as (_ & Ht & _).
  pose proof (thread_steps_weight _ _ _ _ H) as (_ & _ & Hen & Hdone & _).
  destruct Hover as [Hd|(pc & Hpc & Hl)]; [by left; auto|].
  apply elem_of_middle_1 in Hpc as [<-|Hpc].
  2:{ right. exists pc. rewrite elem_of_middle. split; [by right|].
      destruct pc as [| | | | | | | |[e|]]; cbn in *; try done. by rewrite Hen. }
  destruct pc as [| | | | | |cb| |[e|]]; cbn in Hl; try done; cbn [thread_steps run_steps] in H.
  - destruct Hl as [He [err Herr]]. rewrite He in H. cbn [negb] in H. rewrite Herr in H.
    apply list_elem_of_singleton in H. injection H as -> ->. right. eexists. rewrite elem_of_middle.
    split; [left; by constructor|done].
  - cbn in H. apply list_elem_of_singleton in H. injection H as -> ->. right. eexists. rewrite elem_of_middle.
    split; [left; by constructor|done].
  - cbn in Ht. subst cb. cbn in H. apply list_elem_of_singleton in H. injection H as -> ->. left. apply appDone_cancel.
  - apply list_elem_of_singleton in H. injection H as -> ->. left. apply appDone_cancel.
Qed.

Lemma over_progress x : app_ok x → leadership_over NewLeaderElector x →
  Returned None ∈ x.2 ∨ ∃ y, app_step x y.
Proof.
  destruct x as [s l]. intros Hok [Hd|(pc & Hpc & Hl)]; cbn [fst snd] in *.
  - destruct (ao_main _ Hok) as (t & Ht & Hm). cbn [snd] in Ht. destruct t; try done.
    + right. eapply thread_step_exists; [exact Ht|]. cbn. rewrite Hd. by constructor.
    + left. pose proof (ao_threads _ Hok) as Hth. rewrite list.Forall_forall in Hth. specialize (Hth _ Ht). cbn in Hth. by subst e.
  - right. destruct pc as [| | | | | |cb| |[e|]]; cbn in Hl; try done.
    + destruct Hl as [He [err Herr]]. eapply thread_step_exists; [exact Hpc|]. cbn. rewrite He, Herr. by constructor.
    + eapply thread_step_exists; [exact Hpc|]. cbn. by constructor.
    + destruct (call_closure cb s) as [s' ts] eqn:E. eapply thread_step_exists; [exact Hpc|]. cbn. rewrite E. by constructor.
    + eapply thread_step_exists; [exact Hpc|]. cbn. by constructor.
Qed.

(** A goroutine that is about to start the controller can always run. *)
Lemma start_progress x : (∃ t, t ∈ x.2 ∧ (is_controller t || is_starting t) = true) →
  (∃ t, t ∈ x.2 ∧ is_controller t = true) ∨ ∃ y, app_step x y.
Proof.
  destruct x as [s l]. intros (t & Ht & Hs). cbn [snd] in *.
  destruct (is_controller t) eqn:Hc; [left; by exists t|]. right.
  destruct t as [|e| |[|cb| | | | | | |]|[|cb]| |e]; try done.
  - destruct (call_closure cb s) as [s' ts] eqn:E. eapply thread_step_exists; [exact Ht|]. cbn. rewrite E. by constructor.
  - eapply thread_step_exists; [exact Ht|]. cbn. by constructor.
  - destruct (call_closure cb s) as [s' ts] eqn:E. eapply thread_step_exists; [exact Ht|]. cbn. rewrite E. by constructor.
Qed.

Lemma starting_step x y : app_ok x → (∃ t, t ∈ x.2 ∧ (is_controller t || is_starting t) = true) → app_step x y →
  ∃ t, t ∈ y.2 ∧ (is_controller t || is_starting t) = true.
Proof.
  intros Hok Hs Hst. revert Hok Hs. destruct Hst as [s l1 t l2 s' ts H|s l H]; intros Hok Hs; cbn [snd] in *; [|done].
  pose proof (ao_threads _ Hok) as Hth. cbn in Hth. rewrite list.Forall_app, list.Forall_cons in Hth. destruct Hth as (_ & Ht & _).
  pose proof (thread_steps_effect _ _ _ _ (ao_callbacks _ Hok) Ht H) as He.
  apply (survives (λ u, is_controller u || is_starting u) l1 t); [apply (ef_started _ _ _ _ He)|done].
Qed.

Lemma controllers_potential l : controllers l <= sum_list_with potential l.
Proof. unfold controllers. induction l as [|t l IH]; [done|]. cbn. destruct t as [|e| |pc|pc| |e]; cbn; lia. Qed.
End facts.

Lemma standby_potential l : Run RAcquire ∈ l ∨ Run REnter ∈ l → 1 + controllers l <= sum_list_with potential l.
Proof.
  intros [(l1 & l2 & ->)%list_elem_of_split|(l1 & l2 & ->)%list_elem_of_split]; unfold controllers;
    rewrite List.filter_app, length_app, sum_list_with_app; cbn;
    pose proof (controllers_potential l1); pose proof (controllers_potential l2); unfold controllers in *; lia.
Qed.

(** ** A replica to evaluate the application on *)
Module replica.
Definition config : Config :=
  mkConfig 0 (mkLeaderElection true "lease" "default" 15 10 2) (mkLog false "" "") (mkMetrics true 9090 "/metrics")
    (mkKubernetes 0 "") (mkGlobalList [] []) [] 10 false None.
Definition le (on : bool) : KubernetesLeaderElection closure :=
  mkKLE on (mkLeaderElection on "lease" "default" 15 10 2) false (mkCallbacks None None).
Definition start (on : bool) : system := (Start config None (le on) false).2.
Definition failed : error := Errorf "failed to register pod watcher: %w" [].
Abbreviation step := (step None [failed] (Errorf "context canceled" [])).

(** The step of the goroutine at position [i], the [j]-th it can take. *)
Definition run (i j : nat) (x : system) : option system :=
  t ← x.2 !! i;
  o ← thread_steps None [failed] (Errorf "context canceled" []) x.1 t !! j;
  Some (o.1, take i x.2 ++ o.2 ++ drop (S i) x.2).
Definition runs (l : list (nat * nat)) (x : system) : option system := foldl (λ o '(i, j), o ≫= run i j) (Some x) l.

Lemma run_step i j x y : run i j x = Some y → step x y.
Proof.
  destruct x as [s l]. unfold run. cbn [fst snd]. destruct (l !! i) as [t|] eqn:Ht; [|done]. cbn.
  destruct (thread_steps None [failed] _ s t !! j) as [[s' ts]|] eqn:Ho; [|done]. intros [= <-]. cbn [fst snd].
  rewrite <- (take_drop_middle l i t Ht) at 1. constructor. by eapply list_elem_of_lookup_2.
Qed.
Lemma runs_rtc l x y : runs l x = Some y → rtc step x y.
Proof.
  revert x. unfold runs. induction l as [|[i j] l IH]; intros x; cbn; [by intros [= <-]|].
  destruct (run i j x) as [z|] eqn:E; [|by clear; induction l as [|[i j] l IH]].
  intros H. eapply rtc_l; [by eapply run_step|by apply IH].
Qed.
End replica.

(** Without leader election, a controller that fails, for instance to register a
    watcher, is only logged: the process stays a leader by all its reports and
    none of its goroutines can move before a signal comes. *)
Example failed_controller_keeps_leading :
  ∃ x, rtc replica.step (replica.start false) x ∧ ControllerEnded (Some replica.failed) ∈ x.2 ∧
    IsLeader (sy_le x.1) = true ∧ leader_gauge x.1 = 1%Z ∧ appDone x.1 = false ∧
    ∀ t, t ∈ x.2 → thread_steps None [replica.failed] (Errorf "context canceled" []) x.1 t = [].
Proof.
  destruct (replica.runs [(2, 0); (2, 0); (3, 0); (1, 0)] (replica.start false)) as [x|] eqn:E; [|discriminate E].
  exists x. split; [by apply (replica.runs_rtc _ _ _ E)|].
  vm_compute in E. injection E as <-. split; [by repeat constructor|]. split_and!; [done..|].
  intros t Ht. cbn in Ht. rewrite !elem_of_cons in Ht. by destruct Ht as [->|[->|[->|?%not_elem_of_nil]]].
Qed.

(** ** Properties *)

(** C18. A replica that loses leadership exits.  From every state [Start] can
    reach, once the context ended, the elector stopped (the lease was lost) or
    could not be created, [Start] inevitably returns, however its goroutines are
    scheduled, and what it returns is nil; in no state has it returned an
    error. *)
Theorem lost_leadership_exits (NewLeaderElector : option error) (controller_errors : list error) (ctx_Err : error)
    (cfg : Config) (metrics_Start : option error) (le : KubernetesLeaderElection closure) (ctxDone : bool) (s0 x : system) :
  kl_isLeader le = false → Start cfg metrics_Start le ctxDone = (None, s0) →
  rtc (step NewLeaderElector controller_errors ctx_Err) s0 x →
  (∀ e, Returned e ∈ x.2 → e = None) ∧
  (leadership_over NewLeaderElector x →
   inevitably (step NewLeaderElector controller_errors ctx_Err) (λ y, Returned None ∈ y.2) x).
Proof.
  intros Hle HS Hr. pose proof (reachable_app_ok _ _ _ _ _ _ _ _ _ Hle HS Hr) as Hok. split.
  - intros e He. pose proof (ao_threads _ Hok) as Hth. rewrite list.Forall_forall in Hth. by apply (Hth _ He).
  - intros Ho. eapply (inevitably_measure _ (λ y, app_ok y ∧ leadership_over NewLeaderElector y)); [| |by split].
    + intros y z [H1 H2] Hs. split; [split; [by eapply step_app_ok|by eapply over_step]|by apply (step_weight _ _ _ _ _ Hs)].
    + intros y [H1 H2]. by apply over_progress.
Qed.

Lemma lost_leadership_exits_witness :
  ∃ x, rtc replica.step (replica.start true) x ∧ IsLeader (sy_le x.1) = true ∧
    inevitably replica.step (λ y, Returned None ∈ y.2) x.
Proof.
  destruct (replica.runs [(2, 0); (2, 0); (3, 0); (2, 0)] (replica.start true)) as [x|] eqn:E; [|discriminate E].
  pose proof (replica.runs_rtc _ _ _ E) as Hr. exists x.
  destruct (lost_leadership_exits None [replica.failed] (Errorf "context canceled" []) replica.config None (replica.le true) false
    (replica.start true) x eq_refl eq_refl Hr) as [_ H].
  vm_compute in E. injection E as <-. split; [exact Hr|]. split; [reflexivity|]. apply H.
  right. exists RExit. split; [|exact I]. cbn. do 2 (apply elem_of_cons; right). apply elem_of_cons. by left.
Defined.

(** C22. A leader runs the controller.  From every state [Start] can reach in
    which the lease is held or [IsLeader] answers yes, the controller has been
    started or inevitably will be, however the goroutines are scheduled. *)
Theorem leader_runs_controller (NewLeaderElector : option error) (controller_errors : list error) (ctx_Err : error)
    (cfg : Config) (metrics_Start : option error) (le : KubernetesLeaderElection closure) (ctxDone : bool) (s0 x : system) :
  kl_isLeader le = false → Start cfg metrics_Start le ctxDone = (None, s0) →
  rtc (step NewLeaderElector controller_errors ctx_Err) s0 x → leads x →
  inevitably (step NewLeaderElector controller_errors ctx_Err) (λ y, 0 < controllers y.2) x.
Proof.
  intros Hle HS Hr Hl. pose proof (reachable_app_ok _ _ _ _ _ _ _ _ _ Hle HS Hr) as Hok.
  eapply inevitably_mono.
  - eapply (inevitably_measure _ (λ y, app_ok y ∧ ∃ t, t ∈ y.2 ∧ (is_controller t || is_starting t) = true)
      (λ y, ∃ t, t ∈ y.2 ∧ is_controller t = true)); [| |split; [exact Hok|by apply (ao_leads _ Hok)]].
    + intros y z [H1 H2] Hs. split; [split; [by eapply step_app_ok|by eapply starting_step]|by apply (step_weight _ _ _ _ _ Hs)].
    + intros y [H1 H2]. by apply start_progress.
  - intros y (t & Ht & Hc). unfold controllers. apply list_elem_of_In in Ht.
    assert (In t (List.filter is_controller y.2)) as Hin by (by apply filter_In). by destruct (List.filter is_controller y.2); [|cbn; lia].
Qed.

Lemma leader_runs_controller_witness :
  ∃ x, rtc replica.step (replica.start true) x ∧ controllers x.2 = 0 ∧
    inevitably replica.step (λ y, 0 < controllers y.2) x.
Proof.
  destruct (replica.runs [(2, 0); (2, 0)] (replica.start true)) as [x|] eqn:E; [|discriminate E].
  pose proof (replica.runs_rtc _ _ _ E) as Hr. exists x.
  pose proof (leader_runs_controller None [replica.failed] (Errorf "context canceled" []) replica.config None (replica.le true) false
    (replica.start true) x eq_refl eq_refl Hr) as H.
  vm_compute in E. injection E as <-. split; [exact Hr|]. split; [reflexivity|]. apply H.
  right. cbn. do 2 (apply elem_of_cons; right). apply elem_of_cons. by left.
Defined.

(** C21. In every state [Start] can reach at most one controller has been
    started, and a standby, which has not got the lease, has started none, does
    not report itself as the leader and shows 0 in mlb_is_leader. *)
Theorem standby_is_passive (NewLeaderElector : option error) (controller_errors : list error) (ctx_Err : error)
    (cfg : Config) (metrics_Start : option error) (le : KubernetesLeaderElection closure) (ctxDone : bool) (s0 x : system) :
  kl_isLeader le = false → Start cfg metrics_Start le ctxDone = (None, s0) →
  rtc (step NewLeaderElector controller_errors ctx_Err) s0 x →
  controllers x.2 <= 1 ∧
  (standby x → controllers x.2 = 0 ∧ IsLeader (sy_le x.1) = false ∧ leader_gauge x.1 = 0%Z).
Proof.
  intros Hle HS Hr. pose proof (reachable_app_ok _ _ _ _ _ _ _ _ _ Hle HS Hr) as [_ _ _ Hp Hs _].
  split; [etrans; [apply controllers_potential|done]|]. intros Hst. split_and!.
  - pose proof (standby_potential x.2 Hst). lia.
  - by destruct (Hs Hst).
  - destruct (Hs Hst) as [H1 H2]. unfold leader_gauge, mlb_is_leader, IsLeader. cbn. by rewrite H1, H2.
Qed.

Lemma standby_is_passive_witness :
  ∃ x, rtc replica.step (replica.start true) x ∧ standby x ∧ controllers x.2 = 0 ∧ leader_gauge x.1 = 0%Z.
Proof.
  destruct (replica.runs [(2, 0)] (replica.start true)) as [x|] eqn:E; [|discriminate E].
  pose proof (replica.runs_rtc _ _ _ E) as Hr. exists x.
  destruct (standby_is_passive None [replica.failed] (Errorf "context canceled" []) replica.config None (replica.le true) false
    (replica.start true) x eq_refl eq_refl Hr) as [_ H].
  vm_compute in E. injection E as <-.
  assert (∀ s, standby (s, [Main; Informers; Run RAcquire])) as Hs by (intros s; left; cbn; do 2 (apply elem_of_cons; right); apply elem_of_cons; by left).
  split; [exact Hr|]. destruct (H (Hs _)) as (H1 & _ & H2). split; [apply Hs|]. split; [exact H1|exact H2].
Defined.
