(* ===== verification/WorkQueue.v ===== *)
(** * The work queue of the controller

    The rate limiting queue comes from client-go.  [WorkQueue] is what the
    controller calls, and [WorkQueueLaws] relates it to the queue its
    documentation describes, [queue]: items are handed out in the order in which
    they were added, an item is not handed out twice at a time and waits only
    once, an item added while it is processed waits again afterwards, an item
    added with a rate limit is added after a delay, and a queue that shuts down
    takes no more items, gives out the remaining ones, and then tells its
    consumers to quit. *)
From S2P Require Export Prelude.
From Stdlib Require Import Lia.

(** ** The documented queue *)

Record queue := mkQueue {
  q_waiting : list string;
  q_processing : gset string;
  q_again : gset string;         (** added while they are processed *)
  q_delayed : gset string;       (** to be added after their delay *)
  q_closed : bool
}.

Inductive got (Q : Type) := Item (key : string) (q : Q) | Quit | Wait.
Arguments Item {_} _ _.
Arguments Quit {_}.
Arguments Wait {_}.

Definition add (k : string) (q : queue) : queue :=
  if q_closed q then q else
  if decide (k ∈ q_waiting q) then q else
  if decide (k ∈ q_processing q)
  then mkQueue (q_waiting q) (q_processing q) ({[k]} ∪ q_again q) (q_delayed q) (q_closed q)
  else mkQueue (q_waiting q ++ [k]) (q_processing q) (q_again q) (q_delayed q) (q_closed q).
Definition get (q : queue) : got queue :=
  match q_waiting q with
  | k :: l => Item k (mkQueue l ({[k]} ∪ q_processing q) (q_again q) (q_delayed q) (q_closed q))
  | [] => if q_closed q then Quit else Wait
  end.
Definition done_with (k : string) (q : queue) : queue :=
  if decide (k ∈ q_again q)
  then mkQueue (q_waiting q ++ [k]) (q_processing q ∖ {[k]}) (q_again q ∖ {[k]}) (q_delayed q) (q_closed q)
  else mkQueue (q_waiting q) (q_processing q ∖ {[k]}) (q_again q) (q_delayed q) (q_closed q).
Definition add_rate_limited (k : string) (q : queue) : queue :=
  if q_closed q then q
  else mkQueue (q_waiting q) (q_processing q) (q_again q) ({[k]} ∪ q_delayed q) (q_closed q).
Definition expire (k : string) (q : queue) : queue :=
  if decide (k ∈ q_delayed q)
  then add k (mkQueue (q_waiting q) (q_processing q) (q_again q) (q_delayed q ∖ {[k]}) (q_closed q)) else q.
Definition shut_down (q : queue) : queue :=
  mkQueue (q_waiting q) (q_processing q) (q_again q) (q_delayed q) true.

(** ** The interface *)

Record WorkQueue (Q : Type) := mkWorkQueue {
  wq_Add : string → Q → Q;
  wq_Get : Q → got Q;
  wq_Done : string → Q → Q;
  wq_Forget : string → Q → Q;
  wq_AddRateLimited : string → Q → Q;
  wq_expire : string → Q → Q;       (** the delay of an item ends *)
  wq_ShutDown : Q → Q
}.
Arguments wq_Add {_} _ _ _.
Arguments wq_Get {_} _ _.
Arguments wq_Done {_} _ _ _.
Arguments wq_Forget {_} _ _ _.
Arguments wq_AddRateLimited {_} _ _ _.
Arguments wq_expire {_} _ _ _.
Arguments wq_ShutDown {_} _ _.

Class WorkQueueLaws {Q} (WQ : WorkQueue Q) (abs : Q → queue) : Prop := {
  abs_Add : ∀ k q, abs (wq_Add WQ k q) = add k (abs q);
  abs_Get : ∀ q, match wq_Get WQ q with
                 | Item k q' => get (abs q) = Item k (abs q')
                 | Quit => get (abs q) = Quit
                 | Wait => get (abs q) = Wait
                 end;
  abs_Done : ∀ k q, abs (wq_Done WQ k q) = done_with k (abs q);
  abs_Forget : ∀ k q, abs (wq_Forget WQ k q) = abs q;
  abs_AddRateLimited : ∀ k q, abs (wq_AddRateLimited WQ k q) = add_rate_limited k (abs q);
  abs_expire : ∀ k q, abs (wq_expire WQ k q) = expire k (abs q);
  abs_ShutDown : ∀ q, abs (wq_ShutDown WQ q) = shut_down (abs q)
}.

(** The documented queue is one. *)
Definition documented : WorkQueue queue := {|
  wq_Add := add; wq_Get := get; wq_Done := done_with; wq_Forget := λ _ q, q;
  wq_AddRateLimited := add_rate_limited; wq_expire := expire; wq_ShutDown := shut_down
|}.
Global Instance documented_laws : WorkQueueLaws documented id.
Proof. split; try done. intros q. cbn. by destruct (get q). Qed.

(** ** Facts *)

(** A key the queue will hand out: it waits, waits to be done, or is delayed. *)
Definition pending (q : queue) (k : string) : Prop :=
  k ∈ q_waiting q ∨ k ∈ q_again q ∨ k ∈ q_delayed q.

Global Instance pending_dec q k : Decision (pending q k).
Proof. unfold pending. apply _. Defined.

Record queue_ok (q : queue) : Prop := {
  qo_nodup : NoDup (q_waiting q);
  qo_apart : ∀ k, k ∈ q_waiting q → k ∉ q_processing q;
  qo_again : q_again q ⊆ q_processing q
}.

Lemma add_ok k q : queue_ok q → queue_ok (add k q).
Proof.
  intros [H1 H2 H3]. unfold add. repeat case_match; try done.
  - split; [done|done|]. cbn. set_solver.
  - split; cbn; [apply list.NoDup_app; split_and!; [done|set_solver|apply list.NoDup_singleton]| |done].
    intros x [Hx| ->%list_elem_of_singleton]%elem_of_app; auto.
Qed.
Lemma add_pending k q : q_closed q = false → pending (add k q) k.
Proof. intros H. unfold add, pending. rewrite H. repeat case_match; cbn; set_solver. Qed.
Lemma add_keeps k q x : pending q x → pending (add k q) x.
Proof. unfold add, pending. repeat case_match; cbn; set_solver. Qed.
Lemma add_frame k q : q_processing (add k q) = q_processing q ∧ q_closed (add k q) = q_closed q ∧ q_delayed (add k q) = q_delayed q.
Proof. unfold add. by repeat case_match. Qed.

Lemma expire_ok k q : queue_ok q → queue_ok (expire k q).
Proof. intros []. unfold expire. case_decide; [by apply add_ok|done]. Qed.
Lemma expire_keeps k q x : q_closed q = false → pending q x → pending (expire k q) x.
Proof.
  intros Hc Hx. unfold expire. case_decide; [|done]. destruct (decide (x = k)) as [->|Hne]; [by apply add_pending|].
  apply add_keeps. unfold pending in *. cbn. set_solver.
Qed.

Lemma expire_frame k q : q_processing (expire k q) = q_processing q ∧ q_closed (expire k q) = q_closed q.
Proof. unfold expire. case_decide; [|done]. by split; rewrite ?(proj1 (add_frame _ _)), ?(proj1 (proj2 (add_frame _ _))). Qed.

Lemma expire_closed k q : q_closed q = true → q_waiting (expire k q) = q_waiting q ∧ q_again (expire k q) = q_again q.
Proof. intros H. unfold expire, add. cbn. rewrite H. by case_decide. Qed.

Lemma get_Item q k q' : get q = Item k q' →
  ∃ l, q_waiting q = k :: l ∧ q' = mkQueue l ({[k]} ∪ q_processing q) (q_again q) (q_delayed q) (q_closed q).
Proof. unfold get. destruct (q_waiting q) as [|x l]; [by destruct (q_closed q)|]. intros [= -> <-]. by exists l. Qed.
Lemma get_Quit q : get q = Quit → q_waiting q = [] ∧ q_closed q = true.
Proof. unfold get. by destruct (q_waiting q), (q_closed q). Qed.

Lemma get_ok q k q' : queue_ok q → get q = Item k q' → queue_ok q'.
Proof.
  intros [H1 H2 H3] (l & Hl & ->)%get_Item. rewrite Hl in *. apply list.NoDup_cons in H1 as [Hk H1].
  split; cbn; [done| |set_solver]. intros x Hx. rewrite not_elem_of_union, not_elem_of_singleton.
  split; [by intros ->|]. apply H2. by constructor.
Qed.
Lemma get_keeps q k q' x : get q = Item k q' → pending q x → x ≠ k → pending q' x.
Proof. intros (l & Hl & ->)%get_Item. unfold pending. rewrite Hl, elem_of_cons. cbn. tauto. Qed.

Lemma done_ok k q : queue_ok q → queue_ok (done_with k q).
Proof.
  intros [H1 H2 H3]. unfold done_with. case_decide as Hk; split; cbn; try done; try set_solver.
  - apply list.NoDup_app. split_and!; [done| |apply list.NoDup_singleton]. intros x Hx ->%list_elem_of_singleton.
    by apply (H2 k Hx), H3.
Qed.
Lemma done_keeps k q x : pending q x → pending (done_with k q) x.
Proof.
  unfold pending, done_with. case_decide; cbn; [|done]. rewrite elem_of_app.
  destruct (decide (x = k)) as [->|]; set_solver.
Qed.
Lemma done_frame k q : q_processing (done_with k q) = q_processing q ∖ {[k]} ∧ q_closed (done_with k q) = q_closed q.
Proof. unfold done_with. by case_decide. Qed.

Lemma rate_limited_ok k q : queue_ok q → queue_ok (add_rate_limited k q).
Proof. intros []. unfold add_rate_limited. by case_match; [split|]. Qed.
Lemma rate_limited_pending k q : q_closed q = false → pending (add_rate_limited k q) k.
Proof. intros H. unfold add_rate_limited, pending. rewrite H. cbn. set_solver. Qed.
Lemma rate_limited_keeps k q x : pending q x → pending (add_rate_limited k q) x.
Proof. unfold add_rate_limited, pending. case_match; cbn; set_solver. Qed.
Lemma rate_limited_frame k q :
  q_processing (add_rate_limited k q) = q_processing q ∧ q_closed (add_rate_limited k q) = q_closed q ∧
  q_waiting (add_rate_limited k q) = q_waiting q ∧ q_again (add_rate_limited k q) = q_again q.
Proof. unfold add_rate_limited. by case_match. Qed.
