(* ===== verification/Wire.v ===== *)
(** * Start-up: internal/di/wire.go and cmd/mlb-controller/main.go

    [NewContainer] builds every component from the configuration file, and [run]
    is the process around it.  The outcomes of client-go and the libraries of
    the components are parameters. *)
From S2P Require Export Loader Logging Metrics LeaderElection App NginxSync Kubernetes.
From Stdlib Require Import Lia.
Local Open Scope Z_scope.

(** ** Definitions *)

(** What [NewContainer] builds; the controller starts in the world [C]. *)
Record Container (R M W' C : Type) := mkContainer {
  cn_Logger : zapLogger;
  cn_config : Config;
  cn_Metrics : Prometheus R M W';
  cn_LeaderElection : KubernetesLeaderElection closure;
  cn_K8sClient : K8sAdapter;
  cn_adapters : gmap string NginxAdapter;
  cn_Controller : Ctrl C
}.
Arguments mkContainer {_ _ _ _} _ _ _ _ _ _ _.
Arguments cn_Logger {_ _ _ _} _.
Arguments cn_config {_ _ _ _} _.
Arguments cn_Metrics {_ _ _ _} _.
Arguments cn_LeaderElection {_ _ _ _} _.
Arguments cn_K8sClient {_ _ _ _} _.
Arguments cn_adapters {_ _ _ _} _.
Arguments cn_Controller {_ _ _ _} _.

(** A constructor returns, or a registration panics. *)
Inductive built (A : Type) := Built (a : A) | NotBuilt (err : error) | Panicked.
Arguments Built {_} _.
Arguments NotBuilt {_} _.
Arguments Panicked {_}.

(** The TLS functions as [NewNginxClientSet] uses them: the whole chain of a
    pair, and the end of validity of a certificate. *)
Definition chain_of {W} (E : CertEnv W) (cert key : string) : result (list string) :=
  match X509KeyPair E cert key with Ok (leaf, chain) => Ok (leaf :: chain) | Err err => Err err end.
Definition not_after {W} (E : CertEnv W) (der : string) : result Z :=
  match ParseCertificate E der with Ok x => Ok (x_NotAfter x) | Err err => Err err end.

Section wire.
Context {W Settings RawLB R M W' C : Type} (V : ViperEnv Settings RawLB) (E : CertEnv W) (PE : PromEnv R).
(** client-go; the clock when the adapter of a balancer is created; what the
    probes and the gauges read; the first world of the controller. *)
Context (BuildConfigFromFlags : string → option error) (NewForConfig : option error)
  (now : LoadBalancerConfig → Z) (HasSynced IsLeader : W' → bool) (world : C).

Definition client_set (lb : LoadBalancerConfig) : NginxConfig → result (list NginxClient) :=
  NewNginxClientSet (chain_of E) (not_after E) (AppendCertsFromPEM E) (now lb).

(** The loop over the load balancers. *)
Definition add_adapter (lbAdapters : gmap string NginxAdapter) (lb : LoadBalancerConfig) : result (gmap string NginxAdapter) :=
  match CreateLoadBalancerAdapter (client_set lb) lb with
  | Err err => Err (Errorf "failed to create load balancer adapter for %s: %w" [FStr (GetName lb); FErr err])
  | Ok adapter => Ok (<[GetName lb := adapter]> lbAdapters)
  end.
Definition create_adapters (lbs : list LoadBalancerConfig) : result (gmap string NginxAdapter) :=
  for_state add_adapter ∅ lbs.

(** The production logger; when it cannot be made the bootstrap logger stays. *)
Definition production_logger (c : LogConfig) (bootstrapLogger : zapLogger) : zapLogger :=
  if negb (log_Enabled c) then NewNop else
  match Logging_New (log_Level c) (log_Format c) with Ok l => l | Err _ => bootstrapLogger end.

(** The part of [NewContainer] after the configuration is loaded. *)
Definition wire (cfg : Config) (bootstrapLogger : zapLogger) : built (Container R M W' C) :=
  let prodLogger := production_logger (cfg_Log cfg) bootstrapLogger in
  match NewKubernetesAdapter BuildConfigFromFlags NewForConfig (cfg_Kubernetes cfg) with
  | Err err => NotBuilt (Errorf "failed to initialize Kubernetes client: %w" [FErr err])
  | Ok k8sClient =>
  match NewKubernetesLeaderElection BuildConfigFromFlags NewForConfig (cfg_LeaderElection cfg) (cfg_Kubernetes cfg) with
  | Err err => NotBuilt (Errorf "failed to initialize leader election: %w" [FErr err])
  | Ok leaderElectionAdapter =>
  match NewPrometheusAdapter PE (Some IsLeader) (cfg_Metrics cfg) with
  | None => Panicked
  | Some metricsAdapter =>
  let metricsAdapter := SetReadyChecker HasSynced metricsAdapter in
  match create_adapters (cfg_LoadBalancers cfg) with
  | Err err => NotBuilt err
  | Ok lbAdapters =>
  match NewMetric PE "mlb_sync_upstreams_total" metricsAdapter with
  | None => Panicked
  | Some metricsAdapter =>
      Built (mkContainer prodLogger cfg metricsAdapter leaderElectionAdapter k8sClient lbAdapters (NewController world))
  end end end end end.

Definition NewContainer (configPath : string) (ctx_err : option error) : ST W (built (Container R M W' C)) := λ w,
  match Logging_New "info" "json" with
  | Err err => (NotBuilt (Errorf "failed to initialize bootstrap logger: %w" [FErr err]), w)
  | Ok bootstrapLogger =>
  let '(r, w) := Load V (NewFileLoader E) configPath ctx_err w in
  match r with
  | Err err => (NotBuilt (Errorf "failed to load config: %w" [FErr err]), w)
  | Ok cfg => (wire cfg bootstrapLogger, w)
  end end.
End wire.

(** ** main.go *)

(** [flag] and [envPath] are the -config flag and CONFIG_PATH, "" when they are
    not given; [etc] tells whether /etc/mlb-controller/config.yaml exists. *)
Definition resolvedConfigPath (flag envPath : string) (etc : bool) : string :=
  if negb (bool_decide (flag = "")) then flag else
  if negb (bool_decide (envPath = "")) && negb (bool_decide (envPath = "/configs/config.yaml")) then envPath else
  if etc then "/etc/mlb-controller/config.yaml" else
  if negb (bool_decide (envPath = "")) then envPath else "/etc/mlb-controller/config.yaml".

(** [run]: the calls on the application and the logger, in order, and the error.
    [app_Start] is what [App.Start] returns. *)
Inductive lifecycle := CallStart | CallStop | CallSync.
Definition run {A} (container : built A) (app_Start : A → option error) : list lifecycle * option (option error) :=
  match container with
  | Panicked => ([], None)
  | NotBuilt err => ([CallSync], Some (Some err))
  | Built c => ([CallStart; CallStop; CallSync], Some (app_Start c))
  end.
(** The exit status; 2 is that of a panic. *)
Definition exit_status (r : option (option error)) : Z :=
  match r with None => 2 | Some (Some _) => 1 | Some None => 0 end.

(** ** Facts *)

Definition is_nginx (lb : LoadBalancerConfig) : bool := match lb with LBNginx _ | LBNginxPtr _ => true | _ => false end.

(** The adapter of a balancer: its configuration, and a client per address. *)
Definition adapter_of (lb : LoadBalancerConfig) (a : NginxAdapter) : Prop :=
  lb = LBNginx (na_config a) ∧
  na_clients a = (λ addr, mkClient (client_baseURL (na_config a) addr) (ng_Hostname (na_config a))) <$> GetAddresses lb.

(** Host and port can be read off their join, and distinct addresses have
    distinct base URLs. *)
Lemma JoinHostPort_inj h1 p1 h2 p2 : str_free ":" p1 = true → str_free ":" p2 = true →
  JoinHostPort h1 p1 = JoinHostPort h2 p2 → h1 = h2 ∧ p1 = p2.
Proof.
  intros F1 F2. unfold JoinHostPort. rewrite !Contains_char.
  assert (∀ h p, "[" +:+ h +:+ "]:" +:+ p = ("[" +:+ h +:+ "]") +:+ String ":" p) as Hb
    by (intros h p; by rewrite !app_assoc_s).
  assert (∀ h, str_free ":" ("[" +:+ h +:+ "]") = str_free ":" h) as Hf
    by (intros h; by rewrite !str_free_app, andb_true_r).
  destruct (str_free ":" h1) eqn:H1, (str_free ":" h2) eqn:H2; cbn [negb]; rewrite ?Hb;
    intros [E1 ->]%app_last_sep_inj; try done; split; try done.
  - rewrite E1, Hf in H1. congruence.
  - rewrite <- E1, Hf in H2. congruence.
  - apply (inj (String.append "[")) in E1. by apply app_last_sep_inj in E1 as [-> _].
Qed.

Lemma baseURLs_distinct (c : NginxConfig) : NoDup ((λ a, (addr_IP a, addr_Port a)) <$> ng_Addresses c) →
  NoDup (cl_baseURL <$> ((λ addr, mkClient (client_baseURL c addr) (ng_Hostname c)) <$> ng_Addresses c)).
Proof.
  intros H. rewrite <- list_fmap_compose. unfold compose. cbn.
  replace (client_baseURL c <$> ng_Addresses c)
    with ((λ p, ng_Protocol c +:+ "://" +:+ JoinHostPort p.1 (strconv.Itoa p.2)) <$> ((λ a, (addr_IP a, addr_Port a)) <$> ng_Addresses c))
    by (by rewrite <- list_fmap_compose).
  apply NoDup_fmap_2; [|done]. intros [h1 p1] [h2 p2] E. apply (inj (String.append _)) in E.
  apply (inj (String.append "://")) in E. cbn in E. apply JoinHostPort_inj in E as [-> E]; [|by apply pretty_Z_free..].
  by apply (inj pretty) in E as ->.
Qed.

Lemma forallb_false {A} (f : A → bool) l : forallb f l = false → ∃ x, x ∈ l ∧ f x = false.
Proof.
  induction l as [|x l IH]; [done|]. cbn. destruct (f x) eqn:Hf; cbn.
  - intros (y & ? & ?)%IH. exists y. split; [by constructor|done].
  - intros _. exists x. split; [by constructor|done].
Qed.

Section facts.
Context {W Settings RawLB R M W' C : Type} (V : ViperEnv Settings RawLB) (E : CertEnv W) (PE : PromEnv R).
Context (build : string → option error) (new : option error)
  (now : LoadBalancerConfig → Z) (HasSynced IsLeader : W' → bool) (world : C).
Context (files : string → option string) (lo hi : Z) (quiet : W → Prop) `{!QuietFiles E files lo hi quiet}
  (names : R → list string) `{!RegistryLaws PE names}.
(** The clock stays in the bounds, and no certificate expires between them. *)
Hypothesis now_hi : ∀ lb, now lb <= hi.
Hypothesis no_expiry : ∀ der x, ParseCertificate E der = Ok x → lo <= x_NotAfter x → hi <= x_NotAfter x.

(** A certificate that the loader accepted serves as the client certificate. *)
Lemma client_certificate_ok lb c : certified (accepted E files hi lo) (LBNginx c) →
  client_certificate (chain_of E) (not_after E) (now lb) c = None.
Proof.
  intros [Hp _]. unfold client_certificate. destruct (bool_decide (ng_Protocol c = "https")); [|done]. cbn [andb].
  destruct Hp as [(_ & _ & Hc & Hk)|(_ & _ & _ & _ & leaf & chain & x & Hpair & Hparse & _ & Ha & _)]; cbn in *.
  - by rewrite Hc, Hk.
  - destruct (_ || _); [|done]. unfold chain_of, not_after. rewrite Hpair, Hparse.
    apply (no_expiry _ _ Hparse) in Ha. specialize (now_hi lb). by destruct (Z.ltb_spec (x_NotAfter x) (now lb)); [lia|].
Qed.

Lemma CreateLoadBalancerAdapter_ok lb : is_nginx lb = true → typed lb → certified (accepted E files hi lo) lb →
  ∃ a, CreateLoadBalancerAdapter (client_set E now lb) lb = Ok a ∧ adapter_of lb a.
Proof.
  destruct lb as [c|c|c|c]; try done. intros _ Ht Hc. cbn in Ht.
  exists (mkNginxAdapter ((λ addr, mkClient (client_baseURL c addr) (ng_Hostname c)) <$> ng_Addresses c) c).
  split; [|done]. unfold CreateLoadBalancerAdapter, NewNginxAdapter, client_set, NewNginxClientSet. cbn [GetType lb_get].
  rewrite (client_certificate_ok _ _ Hc), Ht. cbn.
  destruct Hc as [_ [[_ Hca]|(_ & _ & Hca)]]; cbn in Hca; [by rewrite Hca, andb_false_r|by rewrite Hca, andb_false_r].
Qed.

(** The loop adds an adapter under each name. *)
Lemma create_adapters_ok lbs m : NoDup (GetName <$> lbs) →
  Forall (λ lb, is_nginx lb = true ∧ typed lb ∧ certified (accepted E files hi lo) lb) lbs →
  ∃ m', for_state (add_adapter E now) m lbs = Ok m' ∧
    (∀ lb, lb ∈ lbs → ∃ a, m' !! GetName lb = Some a ∧ adapter_of lb a) ∧
    ∀ n, n ∉ GetName <$> lbs → m' !! n = m !! n.
Proof.
  revert m. induction lbs as [|lb lbs IH]; intros m Hn Hf.
  { exists m. split; [done|]. split; [|done]. intros lb Hlb. by apply not_elem_of_nil in Hlb. }
  apply list.Forall_cons in Hf as [(H1 & H2 & H3) Hf]. rewrite fmap_cons in Hn. apply list.NoDup_cons in Hn as [Hn Hnd].
  destruct (CreateLoadBalancerAdapter_ok lb H1 H2 H3) as (a & Ha & Had).
  cbn [for_state]. unfold add_adapter at 1. rewrite Ha. destruct (IH (<[GetName lb := a]> m) Hnd Hf) as (m' & -> & Hin & Hout).
  exists m'. split; [done|]. split.
  - intros lb' [-> | Hlb']%elem_of_cons; [|by apply Hin]. exists a. split; [|done]. by rewrite Hout, lookup_insert_eq.
  - intros n. rewrite fmap_cons, not_elem_of_cons. intros [Hne Hnin]. rewrite Hout by done. by rewrite lookup_insert_ne.
Qed.

(** An envoy balancer stops the loop: its adapter is not implemented. *)
Lemma create_adapters_envoy lbs m : Forall typed lbs →
  (∃ lb, lb ∈ lbs ∧ is_nginx lb = false) → ∃ err, for_state (add_adapter E now) m lbs = Err err.
Proof.
  revert m. induction lbs as [|lb lbs IH]; intros m Ht (lb' & Hlb' & He); [by apply not_elem_of_nil in Hlb'|].
  apply list.Forall_cons in Ht as [Ht Hts]. cbn [for_state]. unfold add_adapter at 1.
  destruct (CreateLoadBalancerAdapter (client_set E now lb) lb) as [a|err] eqn:Hc; [|by eexists].
  apply elem_of_cons in Hlb' as [-> | Hlb']; [|by apply IH; [|exists lb']].
  destruct lb as [c|c|c|c]; cbn in Ht; try done. unfold CreateLoadBalancerAdapter in Hc. cbn in Hc. by rewrite Ht in Hc.
Qed.

Lemma production_logger_ok c boot : log_ok c → log_Enabled c = true →
  ∃ l enc, production_logger c boot = mkZap (Some (l, enc)) [] ∧ parseLevel (log_Level c) = Ok l.
Proof.
  intros Hok He. destruct (Hok He) as [Hl _]. destruct (New_validated _ (log_Format c) Hl) as (l & enc & HN & Hp & _).
  exists l, enc. unfold production_logger. by rewrite He, HN.
Qed.

Lemma NewContainer_loads path ctx_err w : quiet w →
  ∃ r w', Load V (NewFileLoader E) path ctx_err w = (r, w') ∧ quiet w' ∧ ∀ cfg, r = Ok cfg → loaded_ok (accepted E files hi lo) cfg.
Proof. apply (Load_ok V (NewFileLoader E) path quiet (accepted E files hi lo)). Qed.
End facts.

(** What a container was built from. *)
Section container.
Context {W Settings RawLB R M W' C : Type} (V : ViperEnv Settings RawLB) (E : CertEnv W) (PE : PromEnv R).
Context (build : string → option error) (new : option error)
  (now : LoadBalancerConfig → Z) (HasSynced IsLeader : W' → bool) (world : C).

Lemma NewContainer_built path ctx_err w (ct : Container R M W' C) w' :
  NewContainer V E PE build new now HasSynced IsLeader world path ctx_err w = (Built ct, w') →
  (Load V (NewFileLoader E) path ctx_err w).1 = Ok (cn_config ct) ∧
  create_adapters E now (cfg_LoadBalancers (cn_config ct)) = Ok (cn_adapters ct) ∧ cn_Controller ct = NewController world.
Proof.
  unfold NewContainer. cbn [Logging_New]. destruct (Load V (NewFileLoader E) path ctx_err w) as [[cfg|err] w1]; [|done].
  intros [= Hw <-]. revert Hw. unfold wire. destruct (NewKubernetesAdapter _ _ _); [|done].
  destruct (NewKubernetesLeaderElection _ _ _ _); [|done]. destruct (NewPrometheusAdapter _ _ _); [|done].
  destruct (create_adapters _ _ _) as [m|] eqn:Hm; [|done]. destruct (NewMetric _ _ _); [|done]. by intros [= <-].
Qed.

(** Whatever the certificates, a configuration that loads is valid and typed. *)
Lemma Load_typed (L : CertificateLoader W) path ctx_err w cfg : (Load V L path ctx_err w).1 = Ok cfg →
  config_ok cfg ∧ Forall typed (cfg_LoadBalancers cfg).
Proof.
  assert (CertContract L (λ _, True) (λ _ _ _ _ _, True)) as HC.
  { split; [|done]. intros c k a h w0 _. destruct (cert_Load L c k a h w0) as [r w1]. by exists r, w1. }
  destruct (Load_ok V L path (λ _, True) (λ _ _ _ _ _, True) ctx_err w I) as (r & w' & -> & _ & H). cbn. intros ->.
  by destruct (H cfg eq_refl).
Qed.

Lemma CreateLoadBalancerAdapter_built lb a : typed lb →
  CreateLoadBalancerAdapter (client_set E now lb) lb = Ok a → adapter_of lb a.
Proof.
  destruct lb as [c|c|c|c]; cbn [typed]; try done; intros Ht; unfold CreateLoadBalancerAdapter; cbn [GetType lb_get]; rewrite Ht; [|done].
  cbn. unfold NewNginxAdapter. rewrite Ht. cbn. unfold client_set, NewNginxClientSet.
  destruct (client_certificate _ _ _ c); [done|]. destruct (_ && _); [done|]. by intros [= <-].
Qed.

(** Every balancer has its adapter, and every adapter its balancer. *)
Lemma create_adapters_built lbs m m' : Forall typed lbs → NoDup (GetName <$> lbs) → for_state (add_adapter E now) m lbs = Ok m' →
  (∀ lb, lb ∈ lbs → ∃ a, m' !! GetName lb = Some a ∧ adapter_of lb a) ∧ ∀ n, n ∉ GetName <$> lbs → m' !! n = m !! n.
Proof.
  revert m. induction lbs as [|lb lbs IH]; intros m Ht Hn; cbn [for_state].
  { intros [= <-]. split; [|done]. by intros lb ?%not_elem_of_nil. }
  apply list.Forall_cons in Ht as [Ht Hts]. rewrite fmap_cons in Hn. apply list.NoDup_cons in Hn as [Hx Hn].
  unfold add_adapter at 1. destruct (CreateLoadBalancerAdapter _ lb) as [a|] eqn:Ha; [|done]. intros Hm.
  destruct (IH _ Hts Hn Hm) as [Hin Hout]. split.
  - intros lb' [-> | Hlb']%elem_of_cons; [|by apply Hin]. exists a. rewrite Hout by done.
    split; [by rewrite lookup_insert_eq|by apply CreateLoadBalancerAdapter_built].
  - intros n. rewrite fmap_cons, not_elem_of_cons. intros [Hne Hnin]. rewrite Hout by done. by rewrite lookup_insert_ne.
Qed.

Lemma NewContainer_adapters path ctx_err w (ct : Container R M W' C) w' :
  NewContainer V E PE build new now HasSynced IsLeader world path ctx_err w = (Built ct, w') →
  config_ok (cn_config ct) ∧ cn_Controller ct = NewController world ∧
  ∀ lb, lb ∈ cfg_LoadBalancers (cn_config ct) → ∃ a, cn_adapters ct !! GetName lb = Some a ∧ adapter_of lb a.
Proof.
  intros (Hl & Hm & Hc)%NewContainer_built. apply Load_typed in Hl as [Hok Ht].
  split; [done|]. split; [done|]. by apply (create_adapters_built _ ∅ (cn_adapters ct) Ht (co_unique _ Hok)).
Qed.
End container.


(** ** Properties *)

(** C23. Start-up.  With readable certificates that do not expire meanwhile and
    a cluster configuration that works, [NewContainer] never panics, and it
    fails exactly when the configuration does not load or names an envoy
    balancer.  Otherwise the configuration is the loaded one, every balancer has
    an adapter under its name with its configuration and one client per address
    (the certificates that the loader accepted are accepted again), no other
    adapter exists, the process is no leader yet, readiness asks the informers,
    and the logger has the configured level: the bootstrap logger is never the
    fallback. *)
Theorem NewContainer_spec {W Settings RawLB R M W' C} (V : ViperEnv Settings RawLB) (E : CertEnv W) (PE : PromEnv R)
    (build : string → option error) (new : option error) (now : LoadBalancerConfig → Z) (HasSynced IsLeader : W' → bool) (world : C)
    (files : string → option string) (lo hi : Z) (quiet : W → Prop) `{!QuietFiles E files lo hi quiet}
    (names : R → list string) `{!RegistryLaws PE names} (path : string) (ctx_err : option error) (w : W) :
  (∀ lb, now lb <= hi) → (∀ der x, ParseCertificate E der = Ok x → lo <= x_NotAfter x → hi <= x_NotAfter x) →
  (∀ kubeconfig, build kubeconfig = None) → new = None → quiet w →
  ∃ (r : built (Container R M W' C)) w', NewContainer V E PE build new now HasSynced IsLeader world path ctx_err w = (r, w') ∧
  match (Load V (NewFileLoader E) path ctx_err w).1 with
  | Err err => r = NotBuilt (Errorf "failed to load config: %w" [FErr err])
  | Ok cfg =>
      if forallb is_nginx (cfg_LoadBalancers cfg) then
        ∃ c, r = Built c ∧ cn_config c = cfg ∧ loaded_ok (accepted E files hi lo) cfg ∧
          (∀ lb, lb ∈ cfg_LoadBalancers cfg → ∃ a, cn_adapters c !! GetName lb = Some a ∧ adapter_of lb a) ∧
          (∀ n, n ∉ GetName <$> cfg_LoadBalancers cfg → cn_adapters c !! n = None) ∧
          kl_isLeader (cn_LeaderElection c) = false ∧ pm_readyChecker (cn_Metrics c) = Some HasSynced ∧
          (log_Enabled (cfg_Log cfg) = true →
           ∃ l enc, cn_Logger c = mkZap (Some (l, enc)) [] ∧ parseLevel (log_Level (cfg_Log cfg)) = Ok l)
      else ∃ err, r = NotBuilt err
  end.
Proof.
  intros Hnow Hexp Hb Hnew Hw. unfold NewContainer. cbn [Logging_New].
  destruct (NewContainer_loads V E files lo hi quiet path ctx_err w Hw) as (r & w' & -> & _ & Hok).
  destruct r as [cfg|err]; [|by do 2 eexists]. destruct (Hok cfg eq_refl) as [Hv Ht Hc Hd Hp Hps].
  do 2 eexists. split; [reflexivity|]. cbn [fst]. unfold wire, NewKubernetesAdapter.
  rewrite Hb, Hnew, NewKubernetesLeaderElection_ok by (intros _; by rewrite Hb).
  destruct (NewPrometheusAdapter_ok (M := M) PE names (Some IsLeader) (cfg_Metrics cfg)) as (p & p' & -> & _ & _ & _ & Hm).
  unfold create_adapters. destruct (forallb is_nginx (cfg_LoadBalancers cfg)) eqn:Hn.
  - destruct (create_adapters_ok E now files lo hi Hnow Hexp (cfg_LoadBalancers cfg) ∅) as (m & -> & Hin & Hout).
    + apply Hv.
    + rewrite forallb_forall in Hn. rewrite !list.Forall_forall in *. intros lb Hlb. split_and!; auto.
      by apply Hn, list_elem_of_In.
    + unfold NewMetric in *. cbn. destruct (MustRegister PE (pm_registry p) "mlb_sync_upstreams_total"); [|done].
      eexists. split_and!; try done. intros He. cbn. apply production_logger_ok; [apply Hv|done].
  - destruct (create_adapters_envoy E now (cfg_LoadBalancers cfg) ∅ Ht) as [err ->]; [|by eexists].
    by apply forallb_false.
Qed.

Lemma NewContainer_spec_witness :
  ∃ (c : Container (list string) (gmap string endpoint) bool unit) w' a,
    NewContainer file.env (disk.env (λ _, disk.files)) lists.prom (λ _, None) None (λ _, 450) id id tt "config.yaml" None (disk.mkW 450 0)
      = (Built c, w') ∧
    cn_adapters c !! "edge" = Some a ∧ cl_baseURL <$> na_clients a = ["https://192.0.2.1:443"] ∧
    cn_Logger c = mkZap (Some (InfoLevel, NewJSONEncoder)) [].
Proof.
  destruct (NewContainer_spec (M := gmap string endpoint) file.env (disk.env (λ _, disk.files)) lists.prom (λ _, None) None (λ _, 450)
    id id tt disk.files 400 500 disk.quiet id "config.yaml" None (disk.mkW 450 0)) as (r & w' & Hc & H).
  - intros _. lia.
  - intros der x [= <-] _. cbn. lia.
  - done.
  - done.
  - unfold disk.quiet. cbn. lia.
  - change (Load file.env (NewFileLoader (disk.env (λ _, disk.files))) "config.yaml" None (disk.mkW 450 0)) with file.run in H.
    rewrite file.run_config in H. destruct H as (c & -> & _ & _ & Hin & _ & _ & _ & _).
    destruct (Hin (LBNginx (NginxConfig_SetDefaults (nginx_with (mkCertificateContent "pair" "pair" "root") "nginx" file.nginx)
      (10 * Second) 10))) as (a & Ha & Had); [by constructor|].
    exists c, w', a. split; [exact Hc|]. split; [exact Ha|]. destruct Had as [Hca Hcl].
    split; [rewrite Hcl; injection Hca as <-; reflexivity|].
    vm_compute in Hc. injection Hc as <- _. reflexivity.
Defined.
