(* ===== verification/ControllerFacts.v ===== *)
(** * What the controller wants: facts about controller.go

    The upstream of a service as a count of ready pods, the upstream shared by
    several services as one merge over all of them, and the intent of the
    controller for an upstream name, against which both the event path and the
    periodic path are proved. *)
From S2P Require Export Controller.
From Stdlib Require Import Lia.
Local Open Scope Z_scope.

(** ** Building an upstream *)

Section build.
Context `{MapRange} {W : Type} (k8s : KubernetesPort W) (cfg : Config).

Definition ok_some {A} (r : result (option A)) : option A := match r with Ok o => o | Err _ => None end.

Lemma pod_backends_acc w svc pods acc :
  for_state (λ backends pod,
    match pod_backend k8s cfg w svc pod with
    | Err err => Err err
    | Ok None => Ok backends
    | Ok (Some b) => Ok (backends ++ [b])
    end) acc pods =
  match first_some (λ pod, err_of (pod_backend k8s cfg w svc pod)) pods with
  | Some e => Err e
  | None => Ok (acc ++ omap (λ pod, ok_some (pod_backend k8s cfg w svc pod)) pods)
  end.
Proof.
  revert acc. induction pods as [|p pods IH]; intros acc; cbn; [by rewrite app_nil_r|].
  destruct (pod_backend k8s cfg w svc p) as [[b|]|e]; cbn; [|apply IH|done].
  rewrite IH. destruct (first_some _ pods); [done|]. by rewrite <- app_assoc.
Qed.

Lemma pod_backends_eq w svc pods :
  pod_backends k8s cfg w svc pods =
  match first_some (λ pod, err_of (pod_backend k8s cfg w svc pod)) pods with
  | Some e => Err e
  | None => Ok (omap (λ pod, ok_some (pod_backend k8s cfg w svc pod)) pods)
  end.
Proof. apply pod_backends_acc. Qed.

(** The address a pod contributes, as a specification: the internal address
    of its node or else the external one, rewritten if the load balancer says
    so; nothing for a pod that takes no traffic. *)
Definition takes_traffic (pod : Pod) : Prop := pod_Ready pod = true ∧ pod_NodeName pod ≠ "".
Definition rewritten (lbName nodeIP : string) : string :=
  match getLoadBalancerConfig cfg lbName with
  | Some lb => if GetIPReplacement lb then ApplyIPReplacement nodeIP lb (cfg_GlobalIPReplacementList cfg) else nodeIP
  | None => nodeIP
  end.
Definition node_IP (node : Node) : string :=
  if bool_decide (node_InternalIP node = "") then node_ExternalIP node else node_InternalIP node.

Definition pod_address (w : W) (svc : Service) (pod : Pod) (addr : string) : Prop :=
  takes_traffic pod ∧ ∃ node, GetNodeByName k8s w (pod_NodeName pod) = Ok node ∧
    node_IP node ≠ "" ∧ addr = rewritten (svc_lb svc) (node_IP node).

Lemma pod_backend_Some w svc pod b : pod_backend k8s cfg w svc pod = Ok (Some b) ↔
  pod_address w svc pod (be_IP b) ∧ be_Port b = svc_NodePort svc ∧ be_Weight b = 1.
Proof.
  unfold pod_backend, pod_address, takes_traffic, rewritten, node_IP.
  destruct (pod_Ready pod); cbn [negb orb]; [|naive_solver].
  case_bool_decide as Hn; [naive_solver|]. destruct (GetNodeByName k8s w (pod_NodeName pod)) as [node|]; [|by split; [|intros [[_ (? & ? & _)] _]]].
  set (ip := if bool_decide (node_InternalIP node = "") then _ else _). destruct (bool_decide_reflect (ip = "")) as [Hip|Hip].
  { split; [done|]. by intros [[_ (node' & [= <-] & Hne & _)] _]. }
  split.
  - intros [= <-]. cbn. eauto 10.
  - intros [[_ (node' & [= <-] & _ & E)] [E1 E2]]. destruct b; cbn in *. by subst.
Qed.

Lemma pod_backend_Err w svc pod e : pod_backend k8s cfg w svc pod = Err e ↔
  takes_traffic pod ∧ ∃ err, GetNodeByName k8s w (pod_NodeName pod) = Err err ∧
    e = Errorf "failed to get node %s for pod %s: %w" [FStr (pod_NodeName pod); FStr (pod_Name pod); FErr err].
Proof.
  unfold pod_backend, takes_traffic. destruct (pod_Ready pod); cbn [negb orb]; [|naive_solver].
  case_bool_decide as Hn; [naive_solver|]. destruct (GetNodeByName k8s w (pod_NodeName pod)) as [node|err].
  - split; [by case_bool_decide|]. by intros [_ (err & ? & _)].
  - split; [intros [= <-]; eauto 10|]. intros [_ (err' & [= <-] & ->)]. done.
Qed.

(** The backends of the pods, before they are merged. *)
Definition raw_backends (w : W) (svc : Service) (pods : list Pod) : list Backend :=
  omap (λ pod, ok_some (pod_backend k8s cfg w svc pod)) pods.

Lemma raw_backends_elem w svc pods b : b ∈ raw_backends w svc pods →
  be_Port b = svc_NodePort svc ∧ be_Weight b = 1.
Proof.
  intros (p & _ & E)%list_elem_of_omap. destruct (pod_backend k8s cfg w svc p) as [o|] eqn:Ep; [|done].
  cbn in E. subst. by apply pod_backend_Some in Ep as [_ ?].
Qed.
Lemma raw_backends_in_range w svc pods : in_range (raw_backends w svc pods).
Proof.
  apply list.Forall_forall. intros b [_ Hw]%raw_backends_elem. unfold weight_in_range. rewrite Hw. lia.
Qed.

Lemma buildUpstream_eq w svc pods :
  svc_NodePort svc ≠ 0 → svc_lb svc ≠ "" → svc_upstream svc ≠ "" →
  buildUpstream k8s cfg w svc pods =
  match first_some (λ pod, err_of (pod_backend k8s cfg w svc pod)) pods with
  | Some e => Err e
  | None => Ok (Some (mkUpstream (svc_upstream svc) (svc_lb svc) (mergeBackends (raw_backends w svc pods) [])
              (getLoadBalancerType cfg (svc_lb svc)) (getLoadBalancerConfig cfg (svc_lb svc)) false))
  end.
Proof.
  intros H1 H2 H3. unfold buildUpstream. rewrite (proj2 (Z.eqb_neq _ _)), !bool_decide_false by done. cbn [orb].
  rewrite pod_backends_eq. by destruct (first_some _ pods).
Qed.

Lemma buildUpstream_None w svc pods :
  buildUpstream k8s cfg w svc pods = Ok None ↔ svc_NodePort svc = 0 ∨ svc_lb svc = "" ∨ svc_upstream svc = "".
Proof.
  destruct (decide (svc_NodePort svc = 0 ∨ svc_lb svc = "" ∨ svc_upstream svc = "")) as [Hd|Hd].
  - split; [done|]. intros _. unfold buildUpstream.
    destruct ((svc_NodePort svc =? 0) || bool_decide (svc_lb svc = "") || bool_decide (svc_upstream svc = "")) eqn:E; [done|].
    apply orb_false_iff in E as [E E3]. apply orb_false_iff in E as [E1 E2].
    apply bool_decide_eq_false in E2, E3. apply Z.eqb_neq in E1. naive_solver.
  - split; [|done]. rewrite buildUpstream_eq by naive_solver. by destruct (first_some _ pods).
Qed.
End build.

(** ** The intent for an upstream

    [sharing] are the services that target an upstream of a load balancer,
    [contribution] the upstream one service yields.  [built] is the upstream
    the controller builds for a name, [intended] the one it hands to the
    adapter, as a function of the caches only. *)
Section intent.
Context `{MapRange} {W : Type} (k8s : KubernetesPort W) (cfg : Config).

Definition contribution (w : W) (svc : Service) : result (option Upstream) :=
  match GetPodsForSelector k8s w (svc_Namespace svc) (svc_Selector svc) with
  | Err err => Err err
  | Ok pods => buildUpstream k8s cfg w svc pods
  end.
Definition failed (w : W) (svc : Service) : bool :=
  match contribution w svc with Err _ => true | _ => false end.
Definition usable (w : W) (svc : Service) : bool :=
  match contribution w svc with Ok (Some _) => true | _ => false end.
Definition contributed (w : W) (svc : Service) : list Backend :=
  match contribution w svc with Ok (Some u) => up_Backends u | _ => [] end.

Definition shares (lbName n : string) (svc : Service) : bool :=
  bool_decide (svc_lb svc = lbName) && bool_decide (svc_upstream svc = n).
Definition sharing (lbName n : string) (svcs : list Service) : list Service := List.filter (shares lbName n) svcs.

Definition target (w : W) (lbName n : string) (svcs : list Service) : Upstream :=
  mkUpstream n lbName (mergeBackends (sharing lbName n svcs ≫= contributed w) [])
    (getLoadBalancerType cfg lbName) (getLoadBalancerConfig cfg lbName) false.

Definition built (w : W) (upstreams : gmap string Upstream) (lbName n : string) (svcs : list Service) : option Upstream :=
  if bool_decide (n = "") then None
  else if existsb (failed w) (sharing lbName n svcs) then Some (preserveUp upstreams lbName n)
  else if existsb (usable w) (sharing lbName n svcs) then Some (target w lbName n svcs)
  else None.

Lemma shares_true lbName n svc : shares lbName n svc = true ↔ svc_lb svc = lbName ∧ svc_upstream svc = n.
Proof. unfold shares. by rewrite andb_true_iff, !bool_decide_eq_true. Qed.
Lemma shares_false lbName n svc : ¬ (svc_lb svc = lbName ∧ svc_upstream svc = n) → shares lbName n svc = false.
Proof. rewrite <- shares_true. by destruct (shares lbName n svc). Qed.

Lemma contribution_Some w svc u : contribution w svc = Ok (Some u) →
  svc_NodePort svc ≠ 0 ∧ svc_lb svc ≠ "" ∧ svc_upstream svc ≠ "" ∧
  u = mkUpstream (svc_upstream svc) (svc_lb svc) (contributed w svc)
        (getLoadBalancerType cfg (svc_lb svc)) (getLoadBalancerConfig cfg (svc_lb svc)) false.
Proof.
  intros Hc. unfold contributed. rewrite Hc. unfold contribution in Hc.
  destruct (GetPodsForSelector _ _ _ _) as [pods|]; [|done].
  destruct (decide (svc_NodePort svc = 0 ∨ svc_lb svc = "" ∨ svc_upstream svc = "")) as [Hd|Hd].
  - apply (buildUpstream_None k8s cfg w svc pods) in Hd. congruence.
  - apply Decidable.not_or in Hd as [H1 Hd]. apply Decidable.not_or in Hd as [H2 H3].
    rewrite buildUpstream_eq in Hc by done. destruct (first_some _ pods); [done|]. by injection Hc as <-.
Qed.

Lemma contributed_merged w svc :
  in_range (contributed w svc) ∧ mergeBackends (contributed w svc) [] = contributed w svc.
Proof.
  unfold contributed. destruct (contribution w svc) as [[u|]|] eqn:E; [|by split; [constructor|apply merged_nil]..].
  pose proof E as (H1 & H2 & H3 & _)%contribution_Some. unfold contribution in E.
  destruct (GetPodsForSelector _ _ _ _) as [pods|]; [|done]. rewrite buildUpstream_eq in E by done.
  destruct (first_some _ pods); [done|]. injection E as <-. cbn [up_Backends].
  pose proof (raw_backends_in_range k8s cfg w svc pods) as R.
  split; [by apply merged_in_range|]. rewrite (merge_merged_l _ []) by (done || constructor). by rewrite app_nil_r.
Qed.

Lemma contributed_all_in_range w svcs : in_range (svcs ≫= contributed w).
Proof.
  induction svcs as [|s svcs IH]; [constructor|]. rewrite bind_cons. apply Forall_app. split; [|done].
  apply contributed_merged.
Qed.
Lemma unusable_contributed w svcs : existsb (usable w) svcs = false → svcs ≫= contributed w = [].
Proof.
  induction svcs as [|s svcs IH]; [done|]. cbn [existsb]. intros [Hu Hr]%orb_false_iff. rewrite bind_cons, IH by done.
  unfold usable in Hu. unfold contributed. by destruct (contribution w s) as [[u|]|].
Qed.

Lemma sharing_snoc lbName n svcs s :
  sharing lbName n (svcs ++ [s]) = sharing lbName n svcs ++ (if shares lbName n s then [s] else []).
Proof. unfold sharing. rewrite List.filter_app. cbn. by destruct (shares lbName n s). Qed.

(** One turn of the loop of [syncSingleLoadBalancer], at a name. *)
Lemma desire_step w upstreams lbName D s n :
  desire k8s cfg w upstreams lbName D s !! n =
  if shares lbName n s && negb (bool_decide (n = "")) then
    match contribution w s with
    | Err _ => Some (preserveUp upstreams lbName n)
    | Ok None => D !! n
    | Ok (Some u) =>
        match D !! n with
        | Some e => if up_PreserveExistingBackends e then Some e
                    else Some (set_Backends (mergeBackends (up_Backends e) (contributed w s)) e)
        | None => Some u
        end
    end
  else D !! n.
Proof.
  unfold desire. fold (contribution w s). unfold shares.
  case_bool_decide as Hlb; cbn [negb andb]; [|done].
  destruct (bool_decide_reflect (svc_upstream s = "")) as [He|He].
  { rewrite He. destruct (bool_decide_reflect ("" = n)) as [<-|]; [by rewrite bool_decide_true|done]. }
  destruct (GetPodsForSelector k8s w (svc_Namespace s) (svc_Selector s)) as [pods|e] eqn:E.
  2: { unfold contribution. rewrite E. case_bool_decide as Hn; cbn [andb].
       - subst. rewrite lookup_insert_eq. by rewrite bool_decide_false.
       - by rewrite lookup_insert_ne. }
  assert (contribution w s = buildUpstream k8s cfg w s pods) as Hb by (unfold contribution; by rewrite E).
  rewrite <- Hb. destruct (contribution w s) as [[u|]|e] eqn:Ec.
  - apply contribution_Some in Ec as (_ & _ & _ & ->). cbn [up_Name up_Backends].
    case_bool_decide as Hn; cbn [andb].
    + subst. rewrite bool_decide_false by done. cbn. destruct (D !! svc_upstream s) as [e|] eqn:ED.
      * destruct (up_PreserveExistingBackends e); cbn [negb]; [done|]. by rewrite lookup_insert_eq.
      * by rewrite lookup_insert_eq.
    + destruct (D !! svc_upstream s) as [e|]; [destruct (negb _)|]; by rewrite ?lookup_insert_ne.
  - by case_match.
  - case_bool_decide as Hn; cbn [andb]; [subst; by rewrite lookup_insert_eq, bool_decide_false|by rewrite lookup_insert_ne].
Qed.

(** [built] is what that loop computes. *)
Lemma desire_lookup w upstreams lbName svcs n :
  foldl (desire k8s cfg w upstreams lbName) ∅ svcs !! n = built w upstreams lbName n svcs.
Proof.
  induction svcs as [|s svcs IH] using rev_ind.
  { unfold built. cbn. by case_bool_decide. }
  rewrite foldl_snoc, desire_step, IH. unfold built, target. rewrite sharing_snoc.
  destruct (bool_decide_reflect (n = "")) as [Hn|Hn]; [by rewrite andb_false_r|].
  rewrite andb_true_r. destruct (shares lbName n s) eqn:Hs; [|by rewrite app_nil_r].
  rewrite !existsb_app, bind_app.
  change ([s] ≫= contributed w) with (contributed w s ++ []). rewrite app_nil_r. cbn [existsb].
  apply shares_true in Hs as [<- <-].
  assert (failed w s = match contribution w s with Err _ => true | _ => false end) as -> by done.
  assert (usable w s = match contribution w s with Ok (Some _) => true | _ => false end) as -> by done.
  destruct (contribution w s) as [[u|]|e] eqn:Ec; rewrite ?orb_false_r, ?orb_true_r; [| |done].
  - pose proof Ec as (_ & _ & _ & Hu)%contribution_Some.
    destruct (existsb (failed w) _); [done|]. pose proof (contributed_merged w s) as [R1 R2].
    pose proof (contributed_all_in_range w (sharing (svc_lb s) (svc_upstream s) svcs)) as R3.
    destruct (existsb (usable w) _) eqn:Eu; cbn [up_PreserveExistingBackends].
    + cbn [up_Backends]. unfold set_Backends. cbn. by rewrite merge_merged_l.
    + rewrite (unusable_contributed w _ Eu), app_nil_l, R2. by subst u.
  - assert (contributed w s = []) as -> by (unfold contributed; by rewrite Ec). by rewrite app_nil_r.
Qed.

(** What the load balancer should do with an upstream name: keep what it has,
    serve an upstream, or have nothing. *)
Inductive intent := Keep | Serve (u : Upstream) | Absent.

Definition intent_of (w : W) (lbName n : string) (svcs : list Service) : intent :=
  let lbConfig := getLoadBalancerConfig cfg lbName in
  let u := target w lbName n svcs in
  if bool_decide (n = "") then Absent
  else if existsb (failed w) (sharing lbName n svcs) then Keep
  else if existsb (usable w) (sharing lbName n svcs) then
    match up_Backends u with
    | _ :: _ => Serve u
    | [] => match fallback cfg lbConfig with
            | Some bs => Serve (set_Backends bs u)
            | None => if allowEmpty cfg lbConfig then Serve u else Keep
            end
    end
  else Absent.

Definition kept (n : string) (o : option Upstream) : Prop :=
  ∃ u, o = Some u ∧ up_Name u = n ∧ up_PreserveExistingBackends u = true.

Lemma intent_Serve w lbName n svcs u : intent_of w lbName n svcs = Serve u →
  n ≠ "" ∧ up_Name u = n ∧ up_LoadBalancer u = lbName ∧ up_PreserveExistingBackends u = false.
Proof.
  unfold intent_of. case_bool_decide; [done|]. destruct (existsb (failed w) _); [done|].
  destruct (existsb (usable w) _); [|done]. destruct (up_Backends _); [|by intros [= <-]].
  destruct (fallback _ _); [by intros [= <-]|]. destruct (allowEmpty _ _); [|done]. by intros [= <-].
Qed.

Lemma fill_empty_intent w lbName n svcs : n ≠ "" →
  existsb (failed w) (sharing lbName n svcs) = false → existsb (usable w) (sharing lbName n svcs) = true →
  match fill_empty cfg (target w lbName n svcs) with
  | Some u => intent_of w lbName n svcs = Serve u
  | None => intent_of w lbName n svcs = Keep
  end.
Proof.
  intros Hn Hf Hu. unfold fill_empty, intent_of. rewrite (bool_decide_false (n = "")), Hf, Hu by done.
  set (u := target w lbName n svcs). change (up_LoadBalancer u) with lbName. destruct (up_Backends u); cbn; [|done].
  destruct (fallback _ _); [done|]. by destruct (allowEmpty _ _).
Qed.

(** The loop over the entries of [desiredState] updates each entry once. *)
Lemma fold_entries {A} (f : string → A → A) (m : gmap string A) n :
  foldl (λ (d : gmap string A) '(k, v), <[k := f k v]> d) m (map_range m) !! n = f n <$> m !! n.
Proof.
  assert (∀ (l : list (string * A)) (d : gmap string A), NoDup l.*1 →
    foldl (λ (d : gmap string A) '(k, v), <[k := f k v]> d) d l !! n =
    match (list_to_map l : gmap string A) !! n with Some v => Some (f n v) | None => d !! n end) as Hl.
  { induction l as [|[k v] l IH]; intros d Hd; [done|]. cbn. apply list.NoDup_cons in Hd as [Hk Hd].
    rewrite IH by done. destruct (decide (k = n)) as [->|Hne].
    - rewrite (not_elem_of_list_to_map_1 l n) by done. by rewrite !lookup_insert_eq.
    - by rewrite !lookup_insert_ne. }
  rewrite Hl by apply map_range_NoDup_keys. rewrite list_to_map_range. by destruct (m !! n).
Qed.

Lemma desired_state_lookup w upstreams lbName svcs n :
  desired_state k8s cfg w upstreams lbName svcs !! n =
  secure_up cfg upstreams lbName n <$> built w upstreams lbName n svcs.
Proof. unfold desired_state. rewrite <- desire_lookup. apply (fold_entries (secure_up cfg upstreams lbName)). Qed.

(** The periodic path computes the intent. *)
Lemma desired_state_intent w upstreams lbName svcs n :
  match intent_of w lbName n svcs with
  | Absent => desired_state k8s cfg w upstreams lbName svcs !! n = None
  | Serve u => desired_state k8s cfg w upstreams lbName svcs !! n = Some u
  | Keep => kept n (desired_state k8s cfg w upstreams lbName svcs !! n)
  end.
Proof.
  rewrite desired_state_lookup. unfold intent_of, built. case_bool_decide; [done|].
  destruct (existsb (failed w) _); [by eexists|]. destruct (existsb (usable w) _); [|done].
  set (u := target w lbName n svcs). cbn [fmap option_fmap option_map]. unfold secure_up.
  change (up_PreserveExistingBackends u) with false. cbn [negb]. destruct (up_Backends u); cbn; [|done].
  destruct (fallback _ _); [done|]. destruct (allowEmpty _ _); cbn; [done|]. eexists. split; [done|].
  destruct (upstreams !! _) as [o|]; [|done]. by destruct (bool_decide (0 < length (up_Backends o))%nat).
Qed.
End intent.

(** ** The event path computes the intent *)
Section gather.
Context `{MapRange} {W : Type} (k8s : KubernetesPort W) (cfg : Config).

Definition same_service (svc s : Service) : bool :=
  bool_decide (svc_Namespace s = svc_Namespace svc) && bool_decide (svc_Name s = svc_Name svc).
Definition others (svc : Service) (svcs : list Service) : list Service :=
  List.filter (λ s, negb (same_service svc s) && shares (svc_lb svc) (svc_upstream svc) s) svcs.

Lemma merge_other_cases w svc bs s :
  if negb (same_service svc s) && shares (svc_lb svc) (svc_upstream svc) s then
    if failed k8s cfg w s then ∃ e, merge_other k8s cfg w svc bs s = Err e
    else merge_other k8s cfg w svc bs s =
           Ok (if usable k8s cfg w s then mergeBackends bs (contributed k8s cfg w s) else bs)
  else merge_other k8s cfg w svc bs s = Ok bs.
Proof.
  unfold same_service, shares, merge_other.
  destruct (bool_decide (svc_Namespace s = svc_Namespace svc) && bool_decide (svc_Name s = svc_Name svc)); cbn [negb andb]; [done|].
  destruct (bool_decide (svc_lb s = svc_lb svc) && bool_decide (svc_upstream s = svc_upstream svc)); [|done].
  unfold failed, usable, contributed, contribution.
  destruct (GetPodsForSelector _ _ _ _) as [pods|]; [|by eexists].
  destruct (buildUpstream _ _ _ _ _) as [[u|]|]; [done|done|by eexists].
Qed.

Lemma merge_others_eq w svc acc svcs : in_range acc →
  match for_state (merge_other k8s cfg w svc) (mergeBackends acc []) svcs with
  | Ok bs => existsb (failed k8s cfg w) (others svc svcs) = false ∧
             bs = mergeBackends (acc ++ (others svc svcs ≫= contributed k8s cfg w)) []
  | Err _ => existsb (failed k8s cfg w) (others svc svcs) = true
  end.
Proof.
  revert acc. induction svcs as [|s svcs IH]; intros acc Ha; cbn [for_state].
  { split; [done|]. cbn. by rewrite app_nil_r. }
  pose proof (merge_other_cases w svc (mergeBackends acc []) s) as Hs. unfold others. cbn [List.filter].
  destruct (negb (same_service svc s) && _); [|rewrite Hs; by apply IH].
  fold (others svc svcs). cbn [existsb]. rewrite bind_cons.
  destruct (failed k8s cfg w s) eqn:Ef; [by destruct Hs as [e ->]|]. rewrite Hs. cbn [orb].
  destruct (contributed_merged k8s cfg w s) as [R _]. destruct (usable k8s cfg w s) eqn:Eu.
  - rewrite merge_merged_l, app_assoc by done. apply IH. by apply Forall_app.
  - assert (contributed k8s cfg w s = []) as ->; [|by apply IH].
    unfold usable in Eu. unfold contributed. by destruct (contribution k8s cfg w s) as [[]|].
Qed.

(** With distinct keys, the services that share the upstream are the service
    itself and the others. *)
Lemma sharing_others svc svcs : NoDup (svc_key <$> svcs) → svc ∈ svcs →
  sharing (svc_lb svc) (svc_upstream svc) svcs ≡ₚ svc :: others svc svcs.
Proof.
  assert (∀ s, same_service svc s = true → svc_key s = svc_key svc) as Hk.
  { intros s [H1 H2]%andb_true_iff. apply bool_decide_eq_true in H1, H2. unfold svc_key. congruence. }
  assert (same_service svc svc = true) as Hsame by (unfold same_service; by rewrite !bool_decide_true).
  assert (shares (svc_lb svc) (svc_upstream svc) svc = true) as Hsh by by apply shares_true.
  induction svcs as [|s svcs IH]; intros Hd Hin; [by apply not_elem_of_nil in Hin|].
  rewrite fmap_cons, list.NoDup_cons in Hd. destruct Hd as [Hs Hd]. unfold sharing, others. cbn [List.filter].
  destruct (same_service svc s) eqn:E; cbn [negb andb].
  - assert (s = svc) as ->.
    { apply elem_of_cons in Hin as [-> |Hin]; [done|]. destruct Hs. rewrite (Hk s E). by apply list_elem_of_fmap_2. }
    rewrite Hsh. constructor. assert (∀ x, x ∈ svcs → same_service svc x = false) as Hno.
    { intros x Hx. destruct (same_service svc x) eqn:Ex; [|done]. destruct Hs. rewrite <- (Hk x Ex). by apply list_elem_of_fmap_2. }
    clear - Hno. induction svcs as [|x svcs IH]; [done|]. cbn. rewrite Hno by constructor. cbn.
    assert (∀ y, y ∈ svcs → same_service svc y = false) as Hr by (intros y Hy; apply Hno; by constructor).
    destruct (shares _ _ x); [apply perm_skip|]; by apply IH.
  - apply elem_of_cons in Hin as [<- |Hin]; [congruence|]. specialize (IH Hd Hin).
    destruct (shares _ _ s); [|done]. unfold sharing, others in IH. rewrite (perm_skip s IH). constructor.
Qed.

Lemma existsb_perm {A} (p : A → bool) l1 l2 : l1 ≡ₚ l2 → existsb p l1 = existsb p l2.
Proof.
  induction 1; cbn; [done|congruence| |congruence]. by rewrite !orb_assoc, (orb_comm (p y)).
Qed.
Lemma bind_perm {A B} (f : A → list B) l1 l2 : l1 ≡ₚ l2 → l1 ≫= f ≡ₚ l2 ≫= f.
Proof. intros Hp. by rewrite Hp. Qed.

Lemma gather_eq w svc svcs : ListServices k8s w = Ok svcs → NoDup (svc_key <$> svcs) → svc ∈ svcs →
  match gather k8s cfg w svc with
  | Err _ => existsb (failed k8s cfg w) (sharing (svc_lb svc) (svc_upstream svc) svcs) = true
  | Ok None => svc_NodePort svc = 0 ∨ svc_lb svc = "" ∨ svc_upstream svc = ""
  | Ok (Some u) =>
      existsb (failed k8s cfg w) (sharing (svc_lb svc) (svc_upstream svc) svcs) = false ∧
      existsb (usable k8s cfg w) (sharing (svc_lb svc) (svc_upstream svc) svcs) = true ∧
      u = target k8s cfg w (svc_lb svc) (svc_upstream svc) svcs
  end.
Proof.
  intros Hl Hd Hin. pose proof (sharing_others svc svcs Hd Hin) as Hp. unfold target.
  rewrite !(existsb_perm _ _ _ Hp). cbn [existsb]. unfold gather.
  assert (contribution k8s cfg w svc = match GetPodsForSelector k8s w (svc_Namespace svc) (svc_Selector svc) with
    | Ok pods => buildUpstream k8s cfg w svc pods | Err err => Err err end) as Hc by done.
  destruct (GetPodsForSelector k8s w (svc_Namespace svc) (svc_Selector svc)) as [pods|].
  2: { unfold failed. by rewrite Hc. }
  destruct (buildUpstream k8s cfg w svc pods) as [[u|]|] eqn:E.
  - rewrite Hl. destruct (contributed_merged k8s cfg w svc) as [R Rm].
    pose proof (contribution_Some k8s cfg w svc u Hc) as (_ & _ & _ & ->). cbn [up_Backends].
    pose proof (merge_others_eq w svc (contributed k8s cfg w svc) svcs R) as Ho. rewrite Rm in Ho.
    assert (failed k8s cfg w svc = false) as -> by (unfold failed; by rewrite Hc).
    assert (usable k8s cfg w svc = true) as -> by (unfold usable; by rewrite Hc).
    destruct (for_state _ _ svcs) as [bs|]; [|done]. destruct Ho as [-> ->]. split_and!; [done..|].
    unfold set_Backends. cbn. f_equal. rewrite <- bind_cons. apply merged_perm; [apply contributed_all_in_range|].
    by apply bind_perm.
  - by apply (buildUpstream_None k8s cfg w svc pods) in E.
  - unfold failed. by rewrite Hc.
Qed.

Lemma gather_intent w svc svcs : ListServices k8s w = Ok svcs → NoDup (svc_key <$> svcs) → svc ∈ svcs →
  svc_upstream svc ≠ "" →
  match gather k8s cfg w svc with
  | Err _ => intent_of k8s cfg w (svc_lb svc) (svc_upstream svc) svcs = Keep
  | Ok None => svc_NodePort svc = 0 ∨ svc_lb svc = ""
  | Ok (Some u) =>
      match fill_empty cfg u with
      | Some u => intent_of k8s cfg w (svc_lb svc) (svc_upstream svc) svcs = Serve u
      | None => intent_of k8s cfg w (svc_lb svc) (svc_upstream svc) svcs = Keep
      end
  end.
Proof.
  intros Hl Hd Hin Hn. pose proof (gather_eq w svc svcs Hl Hd Hin) as Hg.
  destruct (gather k8s cfg w svc) as [[u|]|].
  - destruct Hg as (Hf & Hu & ->). by apply fill_empty_intent.
  - naive_solver.
  - unfold intent_of. by rewrite bool_decide_false, Hg.
Qed.
End gather.
