(* ===== verification/ControllerSync.v ===== *)
(** * Correctness of the controller: both paths implement the intent

    The event path ([syncUpstreamsForService]) and the periodic path
    ([syncSingleLoadBalancer]) of internal/controller/controller.go against
    [intent_of], the contract of the load balancer port and the contract of the
    Kubernetes port. *)
From S2P Require Export ControllerFacts.
From Stdlib Require Import Lia.
Local Open Scope Z_scope.

(** ** What the critical sections change *)

Lemma foldl_keeps {A B} (P : A → Prop) (f : A → B → A) l a :
  P a → (∀ a x, P a → P (f a x)) → P (foldl f a l).
Proof. intros Ha Hf. revert a Ha. induction l as [|x l IH]; intros a Ha; [done|]. cbn. auto. Qed.

Section frames.
Context `{MapRange} {W : Type}.
Implicit Types c : Ctrl W.

(** [track_services] changes the services and the last known ones only. *)
Definition tracks c c' : Prop :=
  ct_queue c' = ct_queue c ∧ ct_metrics c' = ct_metrics c ∧ ct_world c' = ct_world c ∧
  st_Pods (ct_state c') = st_Pods (ct_state c) ∧ st_Nodes (ct_state c') = st_Nodes (ct_state c) ∧
  st_Upstreams (ct_state c') = st_Upstreams (ct_state c).
(** [publish_all] changes the upstreams and the metrics only. *)
Definition publishes c c' : Prop :=
  ct_queue c' = ct_queue c ∧ ct_last c' = ct_last c ∧ ct_world c' = ct_world c ∧
  st_Pods (ct_state c') = st_Pods (ct_state c) ∧ st_Nodes (ct_state c') = st_Nodes (ct_state c) ∧
  st_Services (ct_state c') = st_Services (ct_state c).

Lemma track_services_frame lbName svcs c : tracks c (track_services lbName svcs c).
Proof.
  unfold track_services. destruct (foldl (track_service lbName) (∅, c) svcs) as [keys c1] eqn:E.
  assert (tracks c c1) as H1.
  { change c1 with (keys, c1).2. rewrite <- E. apply (foldl_keeps (λ st, tracks c st.2)); [by split_and!|].
    intros [ks c2] s Hc. unfold track_service. destruct (negb _); [done|]. by destruct (ct_last _ !! _). }
  apply (foldl_keeps (tracks c)); [done|]. intros c2 [k s] Hc. unfold forget_service. by destruct (_ && _).
Qed.

Lemma publish_all_frame lbName D c : publishes c (publish_all lbName D c).
Proof.
  unfold publish_all. apply (foldl_keeps (publishes c)).
  - apply (foldl_keeps (publishes c)); [by split_and!|]. intros c1 [k u] Hc. unfold unpublish.
    destruct (strings.HasPrefix _ _); [|done]. by destruct (D !! _).
  - intros c1 [k u] Hc. unfold publish. by destruct (negb _).
Qed.

(** The upstreams after [publish_all], as map operations. *)
Lemma publish_all_upstreams lbName D c :
  st_Upstreams (ct_state (publish_all lbName D c)) =
  foldl (λ m '(n, u), if up_PreserveExistingBackends u then m else <[slash_key lbName n := u]> m)
    (foldl (λ (m : gmap string Upstream) '(k, _),
       if strings.HasPrefix k (lbName +:+ "/")
       then match D !! strings.TrimPrefix k (lbName +:+ "/") with Some _ => m | None => delete k m end else m)
       (st_Upstreams (ct_state c)) (map_range (st_Upstreams (ct_state c))))
    (map_range D).
Proof.
  unfold publish_all. generalize (map_range (st_Upstreams (ct_state c))) as l1, (map_range D) as l2. intros l1 l2.
  assert (∀ l c, st_Upstreams (ct_state (foldl (publish lbName) c l)) =
    foldl (λ m '(n, u), if up_PreserveExistingBackends u then m else <[slash_key lbName n := u]> m) (st_Upstreams (ct_state c)) l) as H2.
  { clear. induction l as [|[n u] l IH]; intros c; [done|]. cbn. rewrite IH. by destruct (up_PreserveExistingBackends u). }
  rewrite H2. f_equal. clear H2 l2. revert c. induction l1 as [|[k u] l IH]; intros c; [done|]. cbn [foldl].
  rewrite IH. f_equal. unfold unpublish. cbn [fst]. destruct (strings.HasPrefix _ _); [|done]. by destruct (D !! _).
Qed.
End frames.

Lemma delete_fold_lookup (p : string → bool) (l : list (string * Upstream)) (m : gmap string Upstream) k :
  foldl (λ (m : gmap string Upstream) '(k, _), if p k then delete k m else m) m l !! k =
  if p k && bool_decide (k ∈ l.*1) then None else m !! k.
Proof.
  revert m. induction l as [|[x u] l IH]; intros m; cbn [foldl].
  - rewrite bool_decide_false by (by intros ?%not_elem_of_nil). by rewrite andb_false_r.
  - rewrite IH. rewrite fmap_cons. cbn [fst]. destruct (decide (x = k)) as [->|Hne].
    + rewrite (bool_decide_true (k ∈ k :: _)) by constructor. destruct (p k); cbn [andb]; [|done].
      rewrite lookup_delete_eq. by destruct (bool_decide _).
    + rewrite (bool_decide_ext (k ∈ x :: l.*1) (k ∈ l.*1)) by (rewrite elem_of_cons; naive_solver).
      destruct (p x); by rewrite ?lookup_delete_ne.
Qed.

Lemma insert_fold_lookup lbName (l : list (string * Upstream)) (m : gmap string Upstream) n : NoDup l.*1 →
  foldl (λ m '(n, u), if up_PreserveExistingBackends u then m else <[slash_key lbName n := u]> m) m l !! slash_key lbName n =
  match (list_to_map l : gmap string Upstream) !! n with
  | Some u => if up_PreserveExistingBackends u then m !! slash_key lbName n else Some u
  | None => m !! slash_key lbName n
  end.
Proof.
  revert m. induction l as [|[x u] l IH]; intros m Hd; [done|]. cbn [foldl list_to_map foldr fst snd].
  rewrite fmap_cons in Hd. apply list.NoDup_cons in Hd as [Hx Hd]. rewrite IH by done.
  change (foldr _ ∅ l) with (list_to_map l : gmap string Upstream).
  destruct (decide (x = n)) as [->|Hne].
  - rewrite lookup_insert_eq, not_elem_of_list_to_map_1 by done. destruct (up_PreserveExistingBackends u); [done|].
    by rewrite lookup_insert_eq.
  - rewrite lookup_insert_ne by done. assert (slash_key lbName x ≠ slash_key lbName n) as Hk.
    { unfold slash_key. intros E. apply Hne. by apply (inj (String.app lbName)) in E; injection E. }
    destruct (up_PreserveExistingBackends u); by rewrite ?lookup_insert_ne.
Qed.

Lemma insert_fold_other lbName (l : list (string * Upstream)) (m : gmap string Upstream) k :
  strings.HasPrefix k (lbName +:+ "/") = false →
  foldl (λ m '(n, u), if up_PreserveExistingBackends u then m else <[slash_key lbName n := u]> m) m l !! k = m !! k.
Proof.
  intros Hk. revert m. induction l as [|[x u] l IH]; intros m; [done|]. cbn [foldl]. rewrite IH.
  destruct (up_PreserveExistingBackends u); [done|]. apply lookup_insert_ne. intros <-.
  unfold slash_key in Hk. by rewrite <- app_assoc_s, HasPrefix_app in Hk.
Qed.

Lemma publish_all_lookup `{MapRange} {W} lbName D (c : Ctrl W) :
  (∀ n, st_Upstreams (ct_state (publish_all lbName D c)) !! slash_key lbName n =
    match D !! n with
    | Some u => if up_PreserveExistingBackends u then st_Upstreams (ct_state c) !! slash_key lbName n else Some u
    | None => None
    end) ∧
  (∀ k, strings.HasPrefix k (lbName +:+ "/") = false →
    st_Upstreams (ct_state (publish_all lbName D c)) !! k = st_Upstreams (ct_state c) !! k).
Proof.
  set (ups := st_Upstreams (ct_state c)).
  set (p k := strings.HasPrefix k (lbName +:+ "/") &&
    match D !! strings.TrimPrefix k (lbName +:+ "/") with Some _ => false | None => true end).
  assert (∀ l m, foldl (λ (m : gmap string Upstream) '(k, _),
         if strings.HasPrefix k (lbName +:+ "/")
         then match D !! strings.TrimPrefix k (lbName +:+ "/") with Some _ => m | None => delete k m end else m) m l =
    foldl (λ (m : gmap string Upstream) '((k, _) : string * Upstream), if p k then delete k m else m) m l) as Hp.
  { induction l as [|[k u] l IH]; intros m; [done|]. cbn [foldl]. rewrite IH. f_equal. unfold p.
    destruct (strings.HasPrefix _ _); [|done]. by destruct (D !! _). }
  assert (∀ k, k ∉ (map_range ups).*1 → ups !! k = None) as Hno.
  { intros k Hk. destruct (ups !! k) as [u|] eqn:E; [|done]. destruct Hk. apply list_elem_of_fmap.
    exists (k, u). by rewrite map_range_elem. }
  rewrite publish_all_upstreams, Hp. fold ups. split.
  - intros n. rewrite insert_fold_lookup by apply map_range_NoDup_keys. rewrite list_to_map_range, delete_fold_lookup.
    assert (p (slash_key lbName n) = match D !! n with Some _ => false | None => true end) as ->.
    { unfold p, slash_key. by rewrite <- app_assoc_s, HasPrefix_app, TrimPrefix_app. }
    destruct (D !! n) as [u|]; [done|]. cbn [andb]. case_bool_decide; [done|by apply Hno].
  - intros k Hk. rewrite insert_fold_other, delete_fold_lookup by done. unfold p. by rewrite Hk.
Qed.

Section sync.
Context `{MapRange} {W : Type} (k8s : KubernetesPort W) (adapters : gmap string (LoadBalancerAdapter W)) (cfg : Config).

(** The state of [syncSingleLoadBalancer] when it calls the adapter. *)
Definition prepared (lbName : string) (svcs : list Service) (c : Ctrl W) : gmap string Upstream * Ctrl W :=
  let c := track_services lbName svcs c in
  let D := desired_state k8s cfg (ct_world c) (st_Upstreams (ct_state c)) lbName svcs in
  (D, publish_all lbName D c).

Lemma prepared_world lbName svcs c : ct_world (prepared lbName svcs c).2 = ct_world c.
Proof.
  unfold prepared. cbn. destruct (publish_all_frame lbName (desired_state k8s cfg (ct_world (track_services lbName svcs c))
    (st_Upstreams (ct_state (track_services lbName svcs c))) lbName svcs) (track_services lbName svcs c)) as (_ & _ & -> & _).
  by destruct (track_services_frame lbName svcs c) as (_ & _ & -> & _).
Qed.

Lemma prepared_desired lbName svcs c :
  (prepared lbName svcs c).1 = desired_state k8s cfg (ct_world c) (st_Upstreams (ct_state c)) lbName svcs.
Proof.
  unfold prepared. cbn. by destruct (track_services_frame lbName svcs c) as (_ & _ & -> & _ & _ & ->).
Qed.

Lemma prepared_upstreams lbName svcs c n :
  st_Upstreams (ct_state (prepared lbName svcs c).2) !! slash_key lbName n =
  match intent_of k8s cfg (ct_world c) lbName n svcs with
  | Serve u => Some u
  | Keep => st_Upstreams (ct_state c) !! slash_key lbName n
  | Absent => None
  end.
Proof.
  unfold prepared. cbn. destruct (track_services_frame lbName svcs c) as (_ & _ & -> & _ & _ & E).
  rewrite (proj1 (publish_all_lookup _ _ _)), E.
  pose proof (desired_state_intent k8s cfg (ct_world c) (st_Upstreams (ct_state c)) lbName svcs n) as Hi.
  destruct (intent_of _ _ _ _ _ _) as [|u|] eqn:Ei.
  - destruct Hi as (u & -> & _ & ->). done.
  - apply intent_Serve in Ei as (_ & _ & _ & Hp). by rewrite Hi, Hp.
  - by rewrite Hi.
Qed.

Lemma prepared_other lbName svcs c k : strings.HasPrefix k (lbName +:+ "/") = false →
  st_Upstreams (ct_state (prepared lbName svcs c).2) !! k = st_Upstreams (ct_state c) !! k.
Proof.
  intros Hk. unfold prepared. cbn. rewrite (proj2 (publish_all_lookup _ _ _)) by done.
  by destruct (track_services_frame lbName svcs c) as (_ & _ & _ & _ & _ & ->).
Qed.

(** The outcome of [syncSingleLoadBalancer] from that state. *)
Lemma syncSingle_eq lbName ad c svcs :
  HasSynced k8s (ct_world c) = true → ListServices k8s (ct_world c) = Ok svcs →
  ∃ e w', lb_SyncAllUpstreams ad (prepared lbName svcs c).1 (ct_world c) = (e, w') ∧
    let '(r, c') := syncSingleLoadBalancer k8s cfg lbName ad c in
    (e = None ↔ r = None) ∧ ct_world c' = w' ∧ ct_state c' = ct_state (prepared lbName svcs c).2.
Proof.
  intros Hs Hl. destruct (lb_SyncAllUpstreams ad (prepared lbName svcs c).1 (ct_world c)) as [e w'] eqn:E.
  exists e, w'. split; [done|]. unfold syncSingleLoadBalancer. rewrite Hs, Hl. cbn [negb].
  pose proof (prepared_world lbName svcs c) as Hw. unfold prepared in Hw, E |- *. cbv zeta beta in Hw, E |- *.
  cbn [fst snd] in Hw, E |- *. unfold call. rewrite Hw, E. by destruct e.
Qed.
Lemma syncSingle_last lbName ad c svcs :
  HasSynced k8s (ct_world c) = true → ListServices k8s (ct_world c) = Ok svcs →
  ct_last (syncSingleLoadBalancer k8s cfg lbName ad c).2 = ct_last (prepared lbName svcs c).2.
Proof.
  intros Hs Hl. unfold syncSingleLoadBalancer. rewrite Hs, Hl. cbn [negb]. unfold prepared, call. cbn [snd].
  by destruct (lb_SyncAllUpstreams ad _ _) as [[e|] w'].
Qed.
End sync.

(** The periodic path, against the contract of the port. *)
Lemma reconcile_ok `{MapRange} {W} (k8s : KubernetesPort W) (cfg : Config) (lbName : string)
    (ad : LoadBalancerAdapter W) healthy desired ok name_ok prune {I} (instances : list I) view
    (svcs : list Service) (c : Ctrl W) :
  Converges ad healthy desired ok name_ok prune instances view → healthy (ct_world c) →
  HasSynced k8s (ct_world c) = true → ListServices k8s (ct_world c) = Ok svcs →
  (∀ n u, intent_of k8s cfg (ct_world c) lbName n svcs = Serve u → ok u) →
  let '(e, c') := syncSingleLoadBalancer k8s cfg lbName ad c in
  e = None ∧ healthy (ct_world c') ∧
  ∀ i n, i ∈ instances → name_ok n →
    view (ct_world c') i n =
    match intent_of k8s cfg (ct_world c) lbName n svcs with
    | Serve u => desired u
    | Keep => view (ct_world c) i n
    | Absent => if prune then ∅ else view (ct_world c) i n
    end.
Proof.
  intros Hconv Hh Hs Hl Hok. destruct (syncSingle_eq k8s cfg lbName ad c svcs Hs Hl) as (e & w' & He & Hr).
  rewrite prepared_desired in He. pose proof (conv_all _ _ _ _ _ _ _ _ Hconv
    (desired_state k8s cfg (ct_world c) (st_Upstreams (ct_state c)) lbName svcs) (ct_world c) Hh) as Hall.
  rewrite He in Hall. destruct (syncSingleLoadBalancer _ _ _ _ _) as [r c']. destruct Hr as (Hr & <- & _).
  assert (∀ k u, desired_state k8s cfg (ct_world c) (st_Upstreams (ct_state c)) lbName svcs !! k = Some u → up_Name u = k ∧ (up_PreserveExistingBackends u = false → ok u)) as Hnames.
  { intros k u Hk.
    pose proof (desired_state_intent k8s cfg (ct_world c) (st_Upstreams (ct_state c)) lbName svcs k) as Hi.
    rewrite Hk in Hi. destruct (intent_of _ _ _ _ _ _) as [|u'|] eqn:Ei; [| |done].
    - destruct Hi as (u' & [= <-] & ? & Hp). split; [done|]. by rewrite Hp.
    - injection Hi as <-. split; [by apply intent_Serve in Ei as (_ & ? & _)|]. intros _. by apply (Hok k). }
  destruct (Hall Hnames) as (-> & Hh' & Hv). split; [by apply Hr|]. split; [done|]. intros i n Hi Hn. rewrite (Hv i n Hi Hn).
  pose proof (desired_state_intent k8s cfg (ct_world c) (st_Upstreams (ct_state c)) lbName svcs n) as Hint.
  destruct (intent_of _ _ _ _ _ _) eqn:Ei.
  - destruct Hint as (u & -> & _ & ->). done.
  - apply intent_Serve in Ei as (_ & _ & _ & Hp). by rewrite Hint, Hp.
  - by rewrite Hint.
Qed.

(** The event path, against the contract of the port. *)
Lemma sync_service_ok `{MapRange} {W} (k8s : KubernetesPort W) (adapters : gmap string (LoadBalancerAdapter W))
    (cfg : Config) (ad : LoadBalancerAdapter W) healthy desired ok name_ok prune {I} (instances : list I) view
    (svc : Service) (svcs : list Service) (c : Ctrl W) :
  PortContract k8s (ct_world c) → ListServices k8s (ct_world c) = Ok svcs → svc ∈ svcs →
  svc_NodePort svc ≠ 0 → svc_lb svc ≠ "" → svc_upstream svc ≠ "" →
  adapters !! svc_lb svc = Some ad →
  Converges ad healthy desired ok name_ok prune instances view → healthy (ct_world c) →
  (∀ u, intent_of k8s cfg (ct_world c) (svc_lb svc) (svc_upstream svc) svcs = Serve u → ok u) →
  let '(e, c') := syncUpstreamsForService k8s adapters cfg svc c in
  match intent_of k8s cfg (ct_world c) (svc_lb svc) (svc_upstream svc) svcs with
  | Serve u =>
      e = None ∧ healthy (ct_world c') ∧
      ct_state c' = set_Upstreams (insert (slash_key (svc_lb svc) (svc_upstream svc)) u) (ct_state c) ∧
      ∀ i, i ∈ instances → view (ct_world c') i (svc_upstream svc) = desired u ∧
        ∀ n, n ≠ svc_upstream svc → view (ct_world c') i n = view (ct_world c) i n
  | Keep => ct_world c' = ct_world c ∧ ct_state c' = ct_state c ∧ ct_last c' = ct_last c
  | Absent => False
  end.
Proof.
  intros Hc Hl Hin Hp Hlb Hup Had Hconv Hh Hok. destruct (port_services svcs Hl) as [Hd _].
  pose proof (gather_intent k8s cfg (ct_world c) svc svcs Hl Hd Hin Hup) as Hg. unfold syncUpstreamsForService.
  rewrite !bool_decide_false by done. cbn [orb].
  destruct (gather k8s cfg (ct_world c) svc) as [[u|]|e] eqn:Eg; [|naive_solver|by rewrite Hg].
  destruct (fill_empty cfg u) as [u'|] eqn:Ef; rewrite Hg; [|done].
  pose proof (intent_Serve _ _ _ _ _ _ _ Hg) as (_ & Hname & Hlb' & _).
  unfold syncLoadBalancerUpstream, call. rewrite Hlb', Had. cbn [ct_world upd_state emit].
  pose proof (conv_one _ _ _ _ _ _ _ _ Hconv u' (ct_world c) Hh (Hok u' Hg)) as H1.
  destruct (lb_SyncUpstream ad u' (ct_world c)) as [e w']. destruct H1 as (-> & Hh' & Hv). cbn.
  rewrite Hname in Hv. done.
Qed.

(** ** The weight of a backend counts its pods *)
Section counting.
Context `{MapRange} {W : Type} (k8s : KubernetesPort W) (cfg : Config).

(** The address a pod contributes, computed. *)
Definition address_of (w : W) (svc : Service) (pod : Pod) : option string :=
  if negb (pod_Ready pod) || bool_decide (pod_NodeName pod = "") then None else
  match GetNodeByName k8s w (pod_NodeName pod) with
  | Ok node => if bool_decide (node_IP node = "") then None else Some (rewritten cfg (svc_lb svc) (node_IP node))
  | Err _ => None
  end.
Definition pods_at (w : W) (svc : Service) (addr : string) (pods : list Pod) : nat :=
  length (filter (λ pod, address_of w svc pod = Some addr) pods).

Lemma pod_backend_address w svc pod : ok_some (pod_backend k8s cfg w svc pod) =
  (λ a, mkBackend a (svc_NodePort svc) 1) <$> address_of w svc pod.
Proof.
  unfold pod_backend, address_of. destruct (negb _ || _); [done|].
  destruct (GetNodeByName _ _ _) as [node|]; [|done]. change (if bool_decide (node_InternalIP node = "")
    then node_ExternalIP node else node_InternalIP node) with (node_IP node).
  destruct (bool_decide (node_IP node = "")); done.
Qed.

Lemma raw_weight w svc pods b : be_Port b = svc_NodePort svc →
  weight_of (address_key b) (raw_backends k8s cfg w svc pods) = Z.of_nat (pods_at w svc (be_IP b) pods).
Proof.
  intros Hb. unfold raw_backends, pods_at. induction pods as [|p pods IH]; [done|].
  cbn [omap list_omap]. rewrite filter_cons, pod_backend_address.
  destruct (address_of w svc p) as [a|]; cbn [fmap option_fmap option_map].
  - rewrite key_weight_cons, IH. destruct (decide (a = be_IP b)) as [->|Hne].
    + rewrite decide_True by (unfold address_key; cbn; by rewrite Hb).
      rewrite decide_True by done. cbn [be_Weight length]. lia.
    + rewrite decide_False by (intros [E _]%address_key_inj; done). rewrite decide_False by congruence. done.
  - by rewrite decide_False.
Qed.

Lemma raw_key w svc pods b : address_key b ∈ address_key <$> raw_backends k8s cfg w svc pods ↔
  be_Port b = svc_NodePort svc ∧ (0 < pods_at w svc (be_IP b) pods)%nat.
Proof.
  unfold raw_backends, pods_at. rewrite list_elem_of_fmap. split.
  - intros (b' & Hk & (p & Hp & E)%list_elem_of_omap). rewrite pod_backend_address in E.
    destruct (address_of w svc p) as [a|] eqn:Ea; [|done]. injection E as <-.
    apply address_key_inj in Hk as [H1 H2]. cbn in H1, H2. split; [done|].
    assert (p ∈ filter (λ pod, address_of w svc pod = Some (be_IP b)) pods) as Hin
      by (apply list_elem_of_filter; by rewrite Ea, H1).
    destruct (filter _ pods); [by apply not_elem_of_nil in Hin|cbn; lia].
  - intros [Hport Hlen]. destruct (filter (λ pod, address_of w svc pod = Some (be_IP b)) pods) as [|p l] eqn:E; [cbn in Hlen; lia|].
    assert (p ∈ filter (λ pod, address_of w svc pod = Some (be_IP b)) pods) as Hin by (rewrite E; constructor).
    apply list_elem_of_filter in Hin as [Ha Hp]. exists (mkBackend (be_IP b) (svc_NodePort svc) 1).
    split; [by unfold address_key; rewrite Hport|]. apply list_elem_of_omap. exists p. split; [done|].
    by rewrite pod_backend_address, Ha.
Qed.
End counting.

(** ** A deployment to evaluate the controller on

    The caches of [caches] and a load balancer that keeps, for each upstream,
    its servers and their weights in memory; [flaky] is an adapter whose calls
    fail. *)
Module memory.
Abbreviation table := (gmap string (gmap string Z)).
Definition world : Type := caches.cluster * table.

Definition served (u : Upstream) : gmap string Z :=
  list_to_map ((λ b, (address_key b, be_Weight b)) <$> up_Backends u).
Definition adapter : LoadBalancerAdapter world := {|
  lb_SyncUpstream := λ u w, (None, (w.1, <[up_Name u := served u]> w.2));
  lb_SyncAllUpstreams := λ m w,
    (None, (w.1, omap (λ u, if up_PreserveExistingBackends u then None else Some (served u)) m ∪
                 filter (λ kv, is_Some (m !! kv.1)) w.2))
|}.
Definition flaky : LoadBalancerAdapter world := {|
  lb_SyncUpstream := λ _ w, (Some (Errorf "unreachable" []), w);
  lb_SyncAllUpstreams := λ _ w, (Some (Errorf "unreachable" []), w)
|}.
Definition view (w : world) (_ : unit) (n : string) : gmap string Z := default ∅ (w.2 !! n).

Lemma adapter_converges :
  Converges adapter (λ _, True) served (λ _, True) (λ _, True) true [tt] view.
Proof.
  split.
  - intros u [cl t] _ _. cbn [adapter lb_SyncUpstream fst snd]. split_and!; [done|done|]. intros i _. unfold view. cbn [snd].
        rewrite lookup_insert_eq. split; [done|]. intros n Hn. by rewrite lookup_insert_ne.
  - intros m [cl t] _ Hm. cbn [adapter lb_SyncAllUpstreams fst snd]. split_and!; [done|done|].
    intros i n _ _. unfold view. cbn [snd].
    rewrite lookup_union, lookup_omap, map_lookup_filter. destruct (m !! n) as [u|] eqn:E; cbn.
    + destruct (up_PreserveExistingBackends u); [|by destruct (_ ≫= _)].
      destruct (t !! n); cbn; [|done]. rewrite option_guard_True by (rewrite E; by eexists). done.
    + destruct (t !! n); cbn; [|done]. rewrite option_guard_False; [done|]. cbn. rewrite E. by intros [? ?].
Qed.

(** A port that reads the caches. *)
Definition port : KubernetesPort world :=
  let k := KubernetesAdapter caches.listers in {|
  GetPodsForSelector := λ w, GetPodsForSelector k w.1;
  GetNodeByName := λ w, GetNodeByName k w.1;
  GetService := λ w, GetService k w.1;
  ListServices := λ w, ListServices k w.1;
  HasSynced := λ w, HasSynced k w.1
|}.

Lemma port_contract (w : world) :
  NoDup ((λ s, (vs_Namespace s, vs_Name s)) <$> caches.services w.1) →
  Forall (λ s, str_free "/" (vs_Namespace s) = true ∧ str_free "/" (vs_Name s) = true) (caches.services w.1) →
  PortContract port w.
Proof.
  intros Hd Hf. pose proof (caches.listers_laws w.1 Hd Hf) as laws.
  pose proof (KubernetesAdapter_laws caches.listers w.1 _ laws) as [H1 H2 H3]. by split.
Qed.

(** Two services that share the upstream "web", one of them without pods that
    are ready, and one that targets "idle" and has no pods. *)
Definition labels (n : string) : gmap string string :=
  list_to_map [("mlb-loadbalancer-name", "edge"); ("mlb-upstream-name", n); ("mlb-port", "30080")].
Definition v1_service (name n : string) : V1Service :=
  mkV1Service name "default" (labels n) {["app" := name]} "NodePort" [].
Definition v1_pod (name app node : string) : V1Pod :=
  mkV1Pod name "default" {["app" := app]} None node "10.2.0.1" "Running" [("Ready", "True")] [].
Definition cluster : caches.cluster :=
  caches.mkCluster [v1_service "web" "web"; v1_service "web2" "web"; v1_service "idle" "idle"]
    [v1_pod "p1" "web" "n1"; v1_pod "p2" "web" "n1"; v1_pod "p3" "web2" "n2"]
    [mkV1Node "n1" [("InternalIP", "10.0.0.1")]; mkV1Node "n2" [("ExternalIP", "192.0.2.2")]] true.
Definition web : Service := mapService (v1_service "web" "web").
Definition web2 : Service := mapService (v1_service "web2" "web").
Definition idle : Service := mapService (v1_service "idle" "idle").

Definition config : Config :=
  mkConfig 0 (mkLeaderElection false "" "" 0 0 0) (mkLog false "" "") (mkMetrics false 0 "")
    (mkKubernetes 0 "") (mkGlobalList [] []) [LBEnvoy (mkEnvoy "envoy" "edge" false (mkIPReplacementList [] [] [] []) [] 0 0
      "grpc" "" "" "" "" "" "" "" 0 true false None)] 0 false None.

(** The controller when the balancer still serves an upstream that is gone and
    an old server of "idle". *)
Definition start : Ctrl world :=
  NewController (cluster, list_to_map [("gone", {["10.0.0.9:1" := 1]}); ("idle", {["10.0.0.9:30080" := 1]})]).

(** A port whose caches never change. *)
Definition fixed : KubernetesPort world :=
  let k := KubernetesAdapter caches.listers in {|
  GetPodsForSelector := λ _, GetPodsForSelector k cluster;
  GetNodeByName := λ _, GetNodeByName k cluster;
  GetService := λ _, GetService k cluster;
  ListServices := λ _, ListServices k cluster;
  HasSynced := λ _, HasSynced k cluster
|}.
Lemma fixed_contract w : PortContract fixed w.
Proof.
  pose proof (KubernetesAdapter_laws caches.listers cluster _
    (caches.listers_laws cluster ltac:(vm_decide) ltac:(vm_decide))) as [H1 H2 H3]. by split.
Qed.

(** A service that is gone from the caches, and one whose balancer has no adapter. *)
Definition gone : Service := mapService (v1_service "gone" "gone").
Definition lost : Service :=
  mapService (mkV1Service "idle" "default" (<["mlb-loadbalancer-name" := "nowhere"]> (labels "idle")) ∅ "NodePort" []).

Lemma start_contract : PortContract port (ct_world start).
Proof. apply port_contract; vm_decide. Qed.
End memory.

(** ** Properties *)

(** C16. [buildUpstream] counts pods. It yields no upstream exactly when the
    service has no port or lacks a label; it fails only when the node of a pod
    that takes traffic cannot be read; otherwise its backends are sorted, and
    hold, on the port of the service, each address of a node of such pods once,
    with the number of these pods as the weight. *)
Theorem buildUpstream_spec `{MapRange} {W} (k8s : KubernetesPort W) (cfg : Config) (w : W) (svc : Service) (pods : list Pod) :
  match buildUpstream k8s cfg w svc pods with
  | Ok None => svc_NodePort svc = 0 ∨ svc_lb svc = "" ∨ svc_upstream svc = ""
  | Err e => ∃ pod err, pod ∈ pods ∧ takes_traffic pod ∧ GetNodeByName k8s w (pod_NodeName pod) = Err err ∧
      e = Errorf "failed to get node %s for pod %s: %w" [FStr (pod_NodeName pod); FStr (pod_Name pod); FErr err]
  | Ok (Some u) =>
      up_Name u = svc_upstream svc ∧ up_LoadBalancer u = svc_lb svc ∧ up_PreserveExistingBackends u = false ∧
      (∀ pod, pod ∈ pods → takes_traffic pod → ∃ node, GetNodeByName k8s w (pod_NodeName pod) = Ok node) ∧
      StronglySorted backend_le (up_Backends u) ∧
      ∀ b, b ∈ up_Backends u ↔
        be_Port b = svc_NodePort svc ∧ (0 < pods_at k8s cfg w svc (be_IP b) pods)%nat ∧
        be_Weight b = int64 (Z.of_nat (pods_at k8s cfg w svc (be_IP b) pods))
  end.
Proof.
  destruct (decide (svc_NodePort svc = 0 ∨ svc_lb svc = "" ∨ svc_upstream svc = "")) as [Hd|Hd].
  { by rewrite (proj2 (buildUpstream_None k8s cfg w svc pods) Hd). }
  rewrite buildUpstream_eq by naive_solver. destruct (first_some _ pods) as [e|] eqn:E.
  - apply first_some_elem in E as (pod & Hp & He). destruct (pod_backend k8s cfg w svc pod) as [|e'] eqn:Eb; [done|].
    injection He as ->. apply pod_backend_Err in Eb as (Ht & err & Hg & ->). eauto 10.
  - cbn [up_Name up_LoadBalancer up_PreserveExistingBackends up_Backends]. split_and!; try done.
    + intros pod Hp Ht. destruct (GetNodeByName k8s w (pod_NodeName pod)) as [node|err] eqn:Eg; [by exists node|].
      rewrite first_some_None in E. specialize (E pod Hp).
      by rewrite (proj2 (pod_backend_Err k8s cfg w svc pod _) (conj Ht (ex_intro _ err (conj Eg eq_refl)))) in E.
    + apply merged_sorted.
    + intros b. rewrite merged_elem by apply raw_backends_in_range. rewrite raw_key. split.
      * intros [[Hport Hc] Hw]. rewrite raw_weight in Hw by done. done.
      * intros (Hport & Hc & Hw). by rewrite raw_weight.
Qed.

(** C11. The two paths of the controller agree. For a service that is listed and
    targets an upstream, whatever the other services that share it: when the
    event path has an upstream to push, the periodic path has the very same one
    in its desired state; when the event path fails or triggers the safety net,
    the periodic path preserves the upstream. *)
Theorem event_periodic_agree `{MapRange} {W} (k8s : KubernetesPort W) (cfg : Config) (w : W)
    (upstreams : gmap string Upstream) (svc : Service) (svcs : list Service) :
  PortContract k8s w → ListServices k8s w = Ok svcs → svc ∈ svcs → svc_upstream svc ≠ "" →
  let desired := desired_state k8s cfg w upstreams (svc_lb svc) svcs !! svc_upstream svc in
  match gather k8s cfg w svc with
  | Err _ => kept (svc_upstream svc) desired
  | Ok None => svc_NodePort svc = 0 ∨ svc_lb svc = ""
  | Ok (Some u) =>
      match fill_empty cfg u with
      | Some u' => desired = Some u'
      | None => kept (svc_upstream svc) desired
      end
  end.
Proof.
  intros Hc Hl Hin Hn. destruct (port_services svcs Hl) as [Hd _].
  pose proof (gather_intent k8s cfg w svc svcs Hl Hd Hin Hn) as Hg.
  pose proof (desired_state_intent k8s cfg w upstreams (svc_lb svc) svcs (svc_upstream svc)) as Hi. cbv zeta.
  destruct (gather k8s cfg w svc) as [[u|]|]; [destruct (fill_empty cfg u)|done|]; by rewrite Hg in Hi.
Qed.

Lemma event_periodic_agree_witness :
  let M := map_range_reverse in let w := ct_world memory.start in let svcs := [memory.web; memory.web2; memory.idle] in
  let got n := desired_state memory.port memory.config w ∅ "edge" svcs !! n in
  (∃ u, gather memory.port memory.config w memory.web2 = Ok (Some u) ∧ got "web" = Some u ∧
    up_Backends u = [mkBackend "10.0.0.1" 30080 2; mkBackend "192.0.2.2" 30080 1]) ∧
  kept "idle" (got "idle").
Proof.
  cbv zeta. set (w := ct_world memory.start).
  assert (ListServices memory.port w = Ok [memory.web; memory.web2; memory.idle]) as Hl by (vm_compute; reflexivity).
  pose proof memory.start_contract as Hc. split.
  - pose proof (@event_periodic_agree map_range_reverse _ memory.port memory.config w ∅ memory.web2 _ Hc Hl
      ltac:(repeat constructor) ltac:(discriminate)) as Ha. cbv zeta in Ha.
    destruct (gather memory.port memory.config w memory.web2) as [[u|]|e] eqn:Eg; vm_compute in Eg; [|discriminate Eg..].
    injection Eg as <-. eexists. split; [reflexivity|]. split; [exact Ha|reflexivity].
  - pose proof (@event_periodic_agree map_range_reverse _ memory.port memory.config w ∅ memory.idle _ Hc Hl
      ltac:(repeat constructor) ltac:(discriminate)) as Ha. cbv zeta in Ha.
    destruct (gather memory.port memory.config w memory.idle) as [[u|]|e] eqn:Eg; vm_compute in Eg; [|discriminate Eg..].
    injection Eg as <-. exact Ha.
Defined.

(** C10. Periodic reconciliation serves the intent. With synchronised caches and
    a balancer that keeps the contract of the port, [syncSingleLoadBalancer]
    returns no error and the balancer then serves, for every upstream name, what
    [intent_of] says of the caches: the upstream of the services that target it,
    exactly what it served before when their pods or nodes cannot be read or when
    the safety net applies, and nothing for a name without services when orphans
    are pruned. *)
Theorem reconcile_serves_intent `{MapRange} {W} (k8s : KubernetesPort W) (cfg : Config) (lbName : string)
    (ad : LoadBalancerAdapter W) healthy desired ok name_ok prune {I} (instances : list I) view
    (svcs : list Service) (c : Ctrl W) :
  Converges ad healthy desired ok name_ok prune instances view → healthy (ct_world c) →
  HasSynced k8s (ct_world c) = true → ListServices k8s (ct_world c) = Ok svcs →
  (∀ n u, intent_of k8s cfg (ct_world c) lbName n svcs = Serve u → ok u) →
  let '(e, c') := syncSingleLoadBalancer k8s cfg lbName ad c in
  e = None ∧ healthy (ct_world c') ∧
  ∀ i n, i ∈ instances → name_ok n →
    view (ct_world c') i n =
    match intent_of k8s cfg (ct_world c) lbName n svcs with
    | Serve u => desired u
    | Keep => view (ct_world c) i n
    | Absent => if prune then ∅ else view (ct_world c) i n
    end.
Proof. apply reconcile_ok. Qed.

Lemma reconcile_serves_intent_witness :
  let M := map_range_reverse in
  let '(e, c') := syncSingleLoadBalancer memory.port memory.config "edge" memory.adapter memory.start in
  e = None ∧
  memory.view (ct_world c') tt "web" = list_to_map [("10.0.0.1:30080", 2); ("192.0.2.2:30080", 1)] ∧
  memory.view (ct_world c') tt "idle" = {["10.0.0.9:30080" := 1]} ∧
  memory.view (ct_world c') tt "gone" = ∅.
Proof.
  cbv zeta. assert (ListServices memory.port (ct_world memory.start) = Ok [memory.web; memory.web2; memory.idle]) as Hl
    by (vm_compute; reflexivity).
  pose proof (@reconcile_serves_intent map_range_reverse _ memory.port memory.config "edge" memory.adapter _ _ _ _ _ _ _ _ _
    memory.start memory.adapter_converges I eq_refl Hl (λ _ _ _, I)) as Hr.
  destruct (syncSingleLoadBalancer _ _ _ _ _) as [e c']. destruct Hr as (He & _ & Hv). split; [exact He|].
  rewrite !Hv by (exact I || constructor). split_and!; vm_decide.
Defined.

(** C9. The event path serves the intent. For a listed service with a port,
    [syncUpstreamsForService] returns no error and makes the balancer serve the
    upstream of all the services that share it, leaving every other upstream
    untouched, and records it; when pods or nodes cannot be read, or when the
    safety net applies, neither the balancer nor the recorded state changes. *)
Theorem sync_service_serves_intent `{MapRange} {W} (k8s : KubernetesPort W) (adapters : gmap string (LoadBalancerAdapter W))
    (cfg : Config) (ad : LoadBalancerAdapter W) healthy desired ok name_ok prune {I} (instances : list I) view
    (svc : Service) (svcs : list Service) (c : Ctrl W) :
  PortContract k8s (ct_world c) → ListServices k8s (ct_world c) = Ok svcs → svc ∈ svcs →
  svc_NodePort svc ≠ 0 → svc_lb svc ≠ "" → svc_upstream svc ≠ "" →
  adapters !! svc_lb svc = Some ad →
  Converges ad healthy desired ok name_ok prune instances view → healthy (ct_world c) →
  (∀ u, intent_of k8s cfg (ct_world c) (svc_lb svc) (svc_upstream svc) svcs = Serve u → ok u) →
  let '(e, c') := syncUpstreamsForService k8s adapters cfg svc c in
  match intent_of k8s cfg (ct_world c) (svc_lb svc) (svc_upstream svc) svcs with
  | Serve u =>
      e = None ∧ healthy (ct_world c') ∧
      ct_state c' = set_Upstreams (insert (slash_key (svc_lb svc) (svc_upstream svc)) u) (ct_state c) ∧
      ∀ i, i ∈ instances → view (ct_world c') i (svc_upstream svc) = desired u ∧
        ∀ n, n ≠ svc_upstream svc → view (ct_world c') i n = view (ct_world c) i n
  | Keep => ct_world c' = ct_world c ∧ ct_state c' = ct_state c ∧ ct_last c' = ct_last c
  | Absent => False
  end.
Proof. apply sync_service_ok. Qed.

Lemma sync_service_serves_intent_witness :
  let M := map_range_reverse in
  let sync svc := syncUpstreamsForService memory.port {["edge" := memory.adapter]} memory.config svc memory.start in
  (let '(e, c') := sync memory.web2 in e = None ∧
    memory.view (ct_world c') tt "web" = list_to_map [("10.0.0.1:30080", 2); ("192.0.2.2:30080", 1)] ∧
    memory.view (ct_world c') tt "gone" = {["10.0.0.9:1" := 1]}) ∧
  (let '(e, c') := sync memory.idle in memory.view (ct_world c') tt "idle" = {["10.0.0.9:30080" := 1]}).
Proof.
  cbv zeta. assert (ListServices memory.port (ct_world memory.start) = Ok [memory.web; memory.web2; memory.idle]) as Hl
    by (vm_compute; reflexivity).
  pose proof (λ svc Hin Hp Hlb Hup Had, @sync_service_serves_intent map_range_reverse _ memory.port
    {["edge" := memory.adapter]} memory.config memory.adapter _ _ _ _ _ _ _ _ svc _ memory.start memory.start_contract Hl
    Hin Hp Hlb Hup Had memory.adapter_converges I (λ _ _, I)) as Hr.
  split.
  - specialize (Hr memory.web2 ltac:(repeat constructor) ltac:(discriminate) ltac:(discriminate) ltac:(discriminate) eq_refl).
    destruct (syncUpstreamsForService _ _ _ _ _) as [e c'].
    destruct (intent_of memory.port memory.config _ _ _ _) as [|u|] eqn:Ei; vm_compute in Ei; [discriminate Ei| |discriminate Ei].
    injection Ei as <-. destruct Hr as (He & _ & _ & Hv). specialize (Hv tt ltac:(constructor)) as [Hv1 Hv2].
    change (svc_upstream memory.web2) with "web" in Hv1, Hv2.
    split; [exact He|]. split; [rewrite Hv1; vm_decide|]. rewrite (Hv2 "gone") by discriminate. vm_decide.
  - specialize (Hr memory.idle ltac:(repeat constructor) ltac:(discriminate) ltac:(discriminate) ltac:(discriminate) eq_refl).
    destruct (syncUpstreamsForService _ _ _ _ _) as [e c'].
    destruct (intent_of memory.port memory.config _ _ _ _) as [|u|] eqn:Ei; vm_compute in Ei; [|discriminate Ei..].
    destruct Hr as (-> & _). vm_decide.
Defined.
