(* ===== verification/ControllerFleet.v ===== *)
(** * All the load balancers: [SyncUpstreams] of internal/controller/controller.go

    The controller drives a map of adapters that share one world.  When the
    adapters are isolated from each other, one reconciliation brings every
    balancer that keeps the contract of the port to the intent, whatever the
    other ones do, in whatever order they are visited. *)
From S2P Require Export ControllerSync.
From Stdlib Require Import Lia.
Local Open Scope Z_scope.

(** ** What a step reads and what it leaves alone *)

(** The caches of Kubernetes answer alike. *)
Definition same_reads {W} (k8s : KubernetesPort W) (w w' : W) : Prop :=
  GetPodsForSelector k8s w' = GetPodsForSelector k8s w ∧ GetNodeByName k8s w' = GetNodeByName k8s w ∧
  GetService k8s w' = GetService k8s w ∧ ListServices k8s w' = ListServices k8s w ∧ HasSynced k8s w' = HasSynced k8s w.

Lemma same_reads_refl {W} (k8s : KubernetesPort W) w : same_reads k8s w w.
Proof. done. Qed.
Lemma same_reads_trans {W} (k8s : KubernetesPort W) w1 w2 w3 :
  same_reads k8s w1 w2 → same_reads k8s w2 w3 → same_reads k8s w1 w3.
Proof. unfold same_reads. intuition congruence. Qed.

(** The intent is a function of what is read. *)
Lemma intent_of_reads `{MapRange} {W} (k8s : KubernetesPort W) (cfg : Config) w w' lbName n svcs :
  same_reads k8s w w' → intent_of k8s cfg w' lbName n svcs = intent_of k8s cfg w lbName n svcs.
Proof.
  intros (Hp & Hn & _). unfold intent_of, target, failed, usable, contributed, contribution, buildUpstream, pod_backends, pod_backend.
  by rewrite Hp, Hn.
Qed.

(** ** One balancer among others *)

Section fleet.
Context `{MapRange} {W I : Type} (k8s : KubernetesPort W) (adapters : gmap string (LoadBalancerAdapter W)) (cfg : Config).
(** Per balancer: when it answers, which upstreams it accepts, whether it
    prunes, its instances and what they serve. *)
Context (healthy : string → W → Prop) (desired : Upstream → gmap string Z) (ok : string → Upstream → Prop)
  (name_ok : string → Prop) (prune : string → bool) (instances : string → list I)
  (view : string → W → I → string → gmap string Z).
Implicit Types c : Ctrl W.

(** Balancer [lbName] answers as before and serves what it served. *)
Definition undisturbed (lbName : string) (w w' : W) : Prop :=
  same_reads k8s w w' ∧ (healthy lbName w → healthy lbName w' ∧
    ∀ i n, i ∈ instances lbName → view lbName w' i n = view lbName w i n).

(** The adapters disturb only their own balancer, even when they fail. *)
Record isolated : Prop := {
  iso_one : ∀ lb ad u w lb', adapters !! lb = Some ad → is_Some (adapters !! lb') → lb' ≠ lb →
    undisturbed lb' w (lb_SyncUpstream ad u w).2;
  iso_all : ∀ lb ad m w lb', adapters !! lb = Some ad → is_Some (adapters !! lb') → lb' ≠ lb →
    undisturbed lb' w (lb_SyncAllUpstreams ad m w).2;
  iso_reads_one : ∀ lb ad u w, adapters !! lb = Some ad → same_reads k8s w (lb_SyncUpstream ad u w).2;
  iso_reads : ∀ lb ad m w, adapters !! lb = Some ad → same_reads k8s w (lb_SyncAllUpstreams ad m w).2
}.

(** Balancer [lbName] works: its adapter keeps the contract of the port, it
    answers, and it accepts what the controller wants of it. *)
Record works (lbName : string) (ad : LoadBalancerAdapter W) (svcs : list Service) (w : W) : Prop := {
  wk_converges : Converges ad (healthy lbName) desired (ok lbName) name_ok (prune lbName) (instances lbName) (view lbName);
  wk_healthy : healthy lbName w;
  wk_ok : ∀ n u, intent_of k8s cfg w lbName n svcs = Serve u → ok lbName u
}.

(** What balancer [lbName] serves in [w'] is the intent for the caches of [w]. *)
Definition serves_intent (lbName : string) (svcs : list Service) (w w' : W) : Prop :=
  healthy lbName w' ∧ ∀ i n, i ∈ instances lbName → name_ok n →
    view lbName w' i n =
    match intent_of k8s cfg w lbName n svcs with
    | Serve u => desired u
    | Keep => view lbName w i n
    | Absent => if prune lbName then ∅ else view lbName w i n
    end.

Lemma undisturbed_refl lb w : undisturbed lb w w.
Proof. split; [apply same_reads_refl|]. by intros Hh. Qed.
Lemma undisturbed_trans lb w1 w2 w3 : undisturbed lb w1 w2 → undisturbed lb w2 w3 → undisturbed lb w1 w3.
Proof.
  intros [R1 H1] [R2 H2]. split; [by eapply same_reads_trans|]. intros Hh. destruct (H1 Hh) as [Hh2 E1].
  destruct (H2 Hh2) as [Hh3 E2]. split; [done|]. intros i n Hi. by rewrite E2, E1.
Qed.

Lemma works_undisturbed lb ad svcs w w' : undisturbed lb w w' → works lb ad svcs w → works lb ad svcs w'.
Proof.
  intros [R Hu] [Hc Hh Hok]. split; [done|by apply Hu|]. intros n u. rewrite (intent_of_reads _ _ w w') by done. apply Hok.
Qed.

(** A balancer that was undisturbed until it is served, and afterwards. *)
Lemma serves_intent_around lb svcs w w1 w2 w3 : healthy lb w →
  undisturbed lb w w1 → serves_intent lb svcs w1 w2 → undisturbed lb w2 w3 → serves_intent lb svcs w w3.
Proof.
  intros Hh [R1 H1] [Hh2 H2] [_ H3]. destruct (H1 Hh) as [_ E1]. destruct (H3 Hh2) as [Hh3 E3]. split; [done|].
  intros i n Hi Hn. rewrite E3, H2 by done. rewrite (intent_of_reads _ _ w w1) by done. by rewrite E1.
Qed.

(** The world after the reconciliation of one balancer. *)
Lemma syncSingle_world lb ad svcs c : HasSynced k8s (ct_world c) = true → ListServices k8s (ct_world c) = Ok svcs →
  ct_world (syncSingleLoadBalancer k8s cfg lb ad c).2 =
  (lb_SyncAllUpstreams ad (desired_state k8s cfg (ct_world c) (st_Upstreams (ct_state c)) lb svcs) (ct_world c)).2.
Proof.
  intros Hs Hl. destruct (syncSingle_eq k8s cfg lb ad c svcs Hs Hl) as (e & w' & He & Hr).
  rewrite prepared_desired in He. rewrite He. destruct (syncSingleLoadBalancer _ _ _ _ _) as [r c']. by destruct Hr as (_ & <- & _).
Qed.

Section run.
Hypothesis iso : isolated.
Context (svcs : list Service).

(** One turn of the loop of [SyncUpstreams]. *)
Definition turn : string * LoadBalancerAdapter W → ST (Ctrl W) (list error) := λ '(lbName, adapter) c,
  let '(r, c) := syncSingleLoadBalancer k8s cfg lbName adapter c in (match r with Some err => [err] | None => [] end, c).

Definition readable (w : W) : Prop := HasSynced k8s w = true ∧ ListServices k8s w = Ok svcs.
Lemma readable_reads w w' : same_reads k8s w w' → readable w → readable w'.
Proof. intros (_ & _ & _ & E1 & E2) [H1 H2]. split; congruence. Qed.

Lemma turn_reads p c : adapters !! p.1 = Some p.2 → readable (ct_world c) →
  same_reads k8s (ct_world c) (ct_world (turn p c).2).
Proof.
  destruct p as [lb ad]. cbn. intros Ha [Hs Hl]. pose proof (syncSingle_world lb ad svcs c Hs Hl) as Hw. unfold turn. cbn [fst snd].
  destruct (syncSingleLoadBalancer _ _ _ _ _) as [r c']. cbn in *. rewrite Hw. by apply (iso_reads iso lb).
Qed.
Lemma turn_other lb p c : adapters !! p.1 = Some p.2 → is_Some (adapters !! lb) → lb ≠ p.1 → readable (ct_world c) →
  undisturbed lb (ct_world c) (ct_world (turn p c).2).
Proof.
  destruct p as [lb' ad]. cbn. intros Ha Hlb Hne [Hs Hl]. pose proof (syncSingle_world lb' ad svcs c Hs Hl) as Hw. unfold turn. cbn [fst snd].
  destruct (syncSingleLoadBalancer _ _ _ _ _) as [r c']. cbn in *. rewrite Hw. by apply (iso_all iso lb').
Qed.
Lemma turn_own lb ad c : readable (ct_world c) → works lb ad svcs (ct_world c) →
  let '(errs, c') := turn (lb, ad) c in errs = [] ∧ serves_intent lb svcs (ct_world c) (ct_world c').
Proof.
  intros [Hs Hl] [Hc Hh Hok]. unfold turn. cbn [fst snd].
  pose proof (reconcile_ok k8s cfg lb ad _ _ _ _ _ _ _ svcs c Hc Hh Hs Hl Hok) as Hr.
  destruct (syncSingleLoadBalancer _ _ _ _ _) as [r c']. destruct Hr as (-> & Hh' & Hv). by split.
Qed.

(** A run over other balancers. *)
Lemma turns_reads l c : (∀ p, p ∈ l → adapters !! p.1 = Some p.2) → readable (ct_world c) →
  same_reads k8s (ct_world c) (ct_world (collect turn l c).2).
Proof.
  intros Hl Hr. apply (collect_keeps turn (λ c', same_reads k8s (ct_world c) (ct_world c'))); [apply same_reads_refl|].
  intros p c' Hp Hc'. eapply same_reads_trans; [exact Hc'|]. apply turn_reads; [by apply Hl|by eapply readable_reads].
Qed.
Lemma turns_other lb l c : (∀ p, p ∈ l → adapters !! p.1 = Some p.2 ∧ lb ≠ p.1) → is_Some (adapters !! lb) →
  readable (ct_world c) → undisturbed lb (ct_world c) (ct_world (collect turn l c).2).
Proof.
  intros Hl Hlb Hr. apply (collect_keeps turn (λ c', undisturbed lb (ct_world c) (ct_world c'))); [apply undisturbed_refl|].
  intros p c' Hp Hc'. destruct (Hl p Hp). eapply undisturbed_trans; [exact Hc'|]. apply turn_other; try done.
  by eapply readable_reads; [apply Hc'|].
Qed.
Lemma turns_own lb ad l c : NoDup l.*1 → (lb, ad) ∈ l → (∀ p, p ∈ l → adapters !! p.1 = Some p.2) →
  readable (ct_world c) → works lb ad svcs (ct_world c) →
  serves_intent lb svcs (ct_world c) (ct_world (collect turn l c).2).
Proof.
  intros Hnd (l1 & l2 & ->)%list_elem_of_split Hl Hr Hw. rewrite fmap_app, fmap_cons in Hnd. cbn [fst] in Hnd.
  apply list.NoDup_app in Hnd as (_ & Hx & [Hl2 _]%list.NoDup_cons).
  assert (is_Some (adapters !! lb)) as Hlb by (eexists; apply (Hl (lb, ad)); set_solver).
  assert (∀ p, p ∈ l1 → adapters !! p.1 = Some p.2 ∧ lb ≠ p.1) as H1.
  { intros p Hp. split; [apply Hl; set_solver|]. intros ->. apply (Hx p.1); [by apply list_elem_of_fmap_2|by constructor]. }
  assert (∀ p, p ∈ l2 → adapters !! p.1 = Some p.2 ∧ lb ≠ p.1) as H2.
  { intros p Hp. split; [apply Hl; set_solver|]. intros ->. by apply Hl2, list_elem_of_fmap_2. }
  rewrite collect_app. pose proof (turns_other lb l1 c H1 Hlb Hr) as U1. destruct (collect turn l1 c) as [e1 c1]. cbn [snd] in U1.
  cbn [collect]. pose proof (turn_own lb ad c1 (readable_reads _ _ (proj1 U1) Hr) (works_undisturbed _ _ _ _ _ U1 Hw)) as Ho.
  assert (same_reads k8s (ct_world c1) (ct_world (turn (lb, ad) c1).2)) as R1.
  { apply turn_reads; [apply Hl; set_solver|]. by eapply readable_reads; [apply U1|]. }
  destruct (turn (lb, ad) c1) as [e2 c2]. destruct Ho as [-> Ho]. cbn [snd] in R1.
  assert (readable (ct_world c2)) as Hr2 by (eapply readable_reads; [|exact Hr]; eapply same_reads_trans; [apply U1|done]).
  pose proof (turns_other lb l2 c2 H2 Hlb Hr2) as U2. destruct (collect turn l2 c2) as [e3 c3]. cbn [snd] in *.
  eapply serves_intent_around; [apply Hw|exact U1|exact Ho|exact U2].
Qed.

(** Without broken balancers there are no errors. *)
Lemma turns_errors l c : NoDup l.*1 → (∀ p, p ∈ l → adapters !! p.1 = Some p.2) → readable (ct_world c) →
  (∀ p, p ∈ l → works p.1 p.2 svcs (ct_world c)) → (collect turn l c).1 = [].
Proof.
  revert c. induction l as [|[lb ad] l IH]; intros c Hnd Hl Hr Hw; [done|]. cbn [collect].
  rewrite fmap_cons in Hnd. cbn [fst] in Hnd. apply list.NoDup_cons in Hnd as [Hx Hnd].
  assert (∀ p, p ∈ l → undisturbed p.1 (ct_world c) (ct_world (turn (lb, ad) c).2)) as Ho.
  { intros p Hp. apply turn_other; [apply (Hl (lb, ad)); by constructor|eexists; apply Hl; by constructor| |done].
    cbn. intros <-. by apply Hx, list_elem_of_fmap_2. }
  assert (same_reads k8s (ct_world c) (ct_world (turn (lb, ad) c).2)) as R1 by (apply turn_reads; [apply (Hl (lb, ad)); by constructor|done]).
  pose proof (turn_own lb ad c Hr ltac:(by apply (Hw (lb, ad)); constructor)) as He.
  destruct (turn (lb, ad) c) as [e1 c1]. cbn [snd] in *. destruct He as [-> _].
  assert (readable (ct_world c1)) as Hr1 by (by eapply readable_reads).
  assert ((collect turn l c1).1 = []) as Hc.
  { apply IH; [done|intros p Hp; apply Hl; by constructor|done|]. intros p Hp. eapply works_undisturbed; [by apply Ho|].
    apply Hw. by constructor. }
  destruct (collect turn l c1) as [e2 c2]. cbn in *. by rewrite Hc.
Qed.
End run.

Lemma SyncUpstreams_ok svcs c : isolated → HasSynced k8s (ct_world c) = true → ListServices k8s (ct_world c) = Ok svcs →
  let '(e, c') := SyncUpstreams k8s adapters cfg c in
  same_reads k8s (ct_world c) (ct_world c') ∧
  (∀ lb ad, adapters !! lb = Some ad → works lb ad svcs (ct_world c) → serves_intent lb svcs (ct_world c) (ct_world c')) ∧
  ((∀ lb ad, adapters !! lb = Some ad → works lb ad svcs (ct_world c)) → e = None).
Proof.
  intros iso Hs Hl. assert (readable svcs (ct_world c)) as Hr by done.
  assert (∀ p, p ∈ map_range adapters → adapters !! p.1 = Some p.2) as Hin by (intros [lb ad]; apply map_range_elem).
  pose proof (map_range_NoDup_keys adapters) as Hnd.
  pose proof (turns_reads iso svcs (map_range adapters) c Hin Hr) as R.
  pose proof (λ lb ad Ha, turns_own iso svcs lb ad (map_range adapters) c Hnd (proj2 (map_range_elem _ _ _) Ha) Hin Hr) as Ho.
  pose proof (turns_errors iso svcs (map_range adapters) c Hnd Hin Hr) as He.
  unfold SyncUpstreams. change (collect _ (map_range adapters) c) with (collect turn (map_range adapters) c).
  destruct (collect turn (map_range adapters) c) as [errs c']. cbn [fst snd] in *. split; [done|]. split; [done|].
  intros Hall. rewrite He; [done|]. intros p Hp. by apply Hall, Hin.
Qed.
End fleet.
