(* ===== verification/NginxFleet.v ===== *)
(** * A site: several NGINX balancers behind one controller

    [NewContainer] gives every configured balancer an adapter of its own, with
    its own clients and its own cache of listings; the adapters share the
    network.  This file composes them into one world, shows that an adapter
    touches the network only through requests to its own clients, so that the
    balancers are isolated from each other, and that each one keeps the contract
    of the port in that world. *)
From S2P Require Export ControllerFleet NginxConverge.
From Stdlib Require Import Lia.
Local Open Scope Z_scope.

(** ** What an adapter can touch

    [R] relates the worlds before and after a request to a client of the
    adapter, a wait or an acquisition of its semaphore.  Then it relates the
    worlds before and after any call, whatever the servers answer. *)
Section reach.
Context {W : Type} (env : NginxEnv W) (a : NginxAdapter) (R : W → W → Prop) `{!PreOrder R}.
Hypothesis R_Do : ∀ c path w, c ∈ na_clients a → R w (http_Do (ne_http env) (request_of c "GET" path) w).2.
Hypothesis R_Wait : ∀ d w, R w (http_Wait (ne_http env) d w).2.
Hypothesis R_Acquire : ∀ w, R w (ne_Acquire env w).2.

Definition reaches {A} (f : ST (AdState W) A) : Prop := ∀ s, R (ad_world s) (ad_world (f s).2).

Lemma doRequest_reach c path : c ∈ na_clients a → ∀ w, R w (doRequest (ne_http env) c "GET" path w).2.
Proof.
  intros Hc. unfold doRequest. generalize maxRetries, 0%nat, (@None error). intros n.
  induction n as [|n IH]; intros i lastErr w; cbn [doRequest_loop]; [reflexivity|].
  destruct (url.Parse _); [|reflexivity]. pose proof (R_Do c path w Hc) as Hd.
  destruct (http_Do _ _ w) as [o w1]. cbn [snd] in Hd. cbv zeta.
  assert (∀ e, R w (match http_Wait (ne_http env) (backoff i) w1 with
    | (Some ctxErr, w2) => (Err ctxErr, w2)
    | (None, w2) => doRequest_loop (ne_http env) (request_of c "GET" path) n (S i) e w2
    end).2) as Hretry.
  { intros e. pose proof (R_Wait (backoff i) w1) as Hw. destruct (http_Wait _ _ w1) as [[err|] w2]; cbn [snd] in *.
    - by etrans.
    - etrans; [exact Hd|]. etrans; [exact Hw|]. apply IH. }
  destruct (success o) as [r|]; [by destruct (ReadAll _ r) as [b [e|]]|].
  destruct (resp_of o) as [r|]; [|apply Hretry]. destruct (client_error _); [exact Hd|apply Hretry].
Qed.

Lemma send_reach c path : c ∈ na_clients a → reaches (send env c path).
Proof.
  intros Hc s. unfold send, in_world. pose proof (doRequest_reach c path Hc (ad_world s)) as Hd.
  by destruct (doRequest _ _ _ _ _) as [r w].
Qed.
Lemma acquire_reach : reaches (in_world (ne_Acquire env)).
Proof. intros s. unfold in_world. pose proof (R_Acquire (ad_world s)) as Ha. by destruct (ne_Acquire env _). Qed.
Lemma collect_reach {A B} (f : A → ST (AdState W) (list B)) l : (∀ x, x ∈ l → reaches (f x)) → reaches (collect f l).
Proof.
  intros Hf s. apply (collect_keeps f (λ s', R (ad_world s) (ad_world s'))); [reflexivity|].
  intros x s' Hx Hs. etrans; [exact Hs|]. by apply Hf.
Qed.

Lemma refresh_reach c : c ∈ na_clients a → reaches (refreshCache env a c).
Proof.
  intros Hc s. unfold refreshCache. cbv zeta.
  assert (R (ad_world s) (ad_world (let '(r, s) := send env c (strings.TrimPrefix (ng_ListAPI (na_config a)) "/") s in
    match r with
    | Err err => (Err (Errorf "failed to bulk fetch upstreams from %s: %w" [FStr (cl_baseURL c); FErr err]), s)
    | Ok body =>
        (Ok (parseBulkNginxBackends body),
         mkAdState (<[cl_baseURL c := parseBulkNginxBackends body]> (ad_cache s))
           (<[cl_baseURL c := ne_Now env (ad_world s) + TTL]> (ad_cacheExp s)) (ad_world s))
    end).2)) as Hf.
  { pose proof (send_reach c (strings.TrimPrefix (ng_ListAPI (na_config a)) "/") Hc s) as Hs.
    by destruct (send _ _ _ s) as [[body|err] s']. }
  destruct (ad_cacheExp s !! _); [|exact Hf]. destruct (_ <? _); [|exact Hf].
  destruct (ad_cache s !! _); [reflexivity|exact Hf].
Qed.

Lemma run_action_reach n c act : c ∈ na_clients a → reaches (run_action env a n c act).
Proof.
  intros Hc s. destruct act as [b|b]; cbn [run_action];
    match goal with |- context [send env c ?p s] => pose proof (send_reach c p Hc s) as Hs end;
    by destruct (send _ _ _ s) as [[body|err] s'].
Qed.

Lemma sync_client_reach `{MapRange} n desired c : c ∈ na_clients a → reaches (sync_client env a n desired c).
Proof.
  intros Hc s. unfold sync_client. pose proof (acquire_reach s) as Ha.
  destruct (in_world _ s) as [[err|] s1]; [exact Ha|]. cbn [snd] in Ha.
  pose proof (refresh_reach c Hc s1) as Hf. destruct (refreshCache _ _ _ s1) as [[m|err] s2]; cbn [snd] in Hf; [|by etrans].
  pose proof (collect_reach (run_action env a n c) (plan desired (currentBackends m n)) ltac:(intros x _; by apply run_action_reach) s2) as Hr.
  destruct (collect _ _ s2) as [errs s3]. cbn [snd] in Hr.
  assert (R (ad_world s) (ad_world s3)) as HR by (etrans; [exact Ha|]; by etrans).
  by destruct (changed _).
Qed.

Lemma SyncUpstream_reach `{MapRange, Schedule} u : reaches (SyncUpstream env a u).
Proof.
  intros s. unfold SyncUpstream.
  pose proof (collect_reach (sync_client env a (up_Name u) (desiredBackends (up_Backends u))) (schedule (na_clients a))) as Hc.
  specialize (Hc ltac:(intros c Hin; apply sync_client_reach; by rewrite <- schedule_perm) s).
  by destruct (collect _ _ s) as [errs s'].
Qed.

Lemma remove_orphans_reach c l : c ∈ na_clients a → reaches (remove_orphans env a c l).
Proof.
  intros Hc. induction l as [|[n b] l IH]; intros s; cbn [remove_orphans]; [reflexivity|]. unfold remove_orphan.
  match goal with |- context [send env c ?p s] => pose proof (send_reach c p Hc s) as Hs end.
  destruct (send _ _ _ s) as [[body|err] s1]; cbn [snd] in Hs; pose proof (IH s1) as H1;
    destruct (remove_orphans _ _ _ _ s1) as [[e2 c2] s2]; cbn [snd] in *; by etrans.
Qed.

Lemma prune_client_reach `{MapRange} m c : c ∈ na_clients a → reaches (prune_client env a m c).
Proof.
  intros Hc s. unfold prune_client. pose proof (acquire_reach s) as Ha.
  destruct (in_world _ s) as [[err|] s1]; [exact Ha|]. cbn [snd] in Ha.
  pose proof (refresh_reach c Hc s1) as Hf. destruct (refreshCache _ _ _ s1) as [[all|err] s2]; cbn [snd] in Hf; [|by etrans].
  pose proof (remove_orphans_reach c (orphans m all) Hc s2) as Hr.
  destruct (remove_orphans _ _ _ _ s2) as [[errs ch] s3]. cbn [snd] in Hr.
  assert (R (ad_world s) (ad_world s3)) as HR by (etrans; [exact Ha|]; by etrans).
  by destruct ch.
Qed.

Lemma SyncAllUpstreams_reach `{MapRange, Schedule} m : reaches (SyncAllUpstreams env a m).
Proof.
  intros s. unfold SyncAllUpstreams.
  pose proof (collect_reach (sync_desired env a) (map_range m)) as Hd. specialize (Hd ltac:(
    intros [k u] _ s1; unfold sync_desired; cbn [snd]; destruct (up_PreserveExistingBackends u); [reflexivity|];
    pose proof (SyncUpstream_reach u s1) as Hu; by destruct (SyncUpstream _ _ _ s1) as [[err|] s2]) s).
  destruct (collect _ (map_range m) s) as [errs s1]. cbn [snd] in Hd. destruct (negb _); [exact Hd|].
  pose proof (collect_reach (prune_client env a m) (schedule (na_clients a))) as Hp.
  specialize (Hp ltac:(intros c Hin; apply prune_client_reach; by rewrite <- schedule_perm) s1).
  destruct (collect _ _ s1) as [errs' s2]. cbn [snd] in *. by etrans.
Qed.
End reach.

(** ** The site *)

(** The caches of Kubernetes, the cache of listings of each adapter, and the
    network they share. *)
Record Site (K W : Type) := mkSite {
  si_cluster : K;
  si_caches : gmap string (gmap string Listing * gmap string Z);
  si_net : W
}.
Arguments mkSite {_ _} _ _ _.
Arguments si_cluster {_ _} _.
Arguments si_caches {_ _} _.
Arguments si_net {_ _} _.

(** What the adapter of a balancer sees of it, and its calls on it. *)
Definition slice {K W} (lb : string) (s : Site K W) : AdState W :=
  let p := default (∅, ∅) (si_caches s !! lb) in mkAdState p.1 p.2 (si_net s).
Definition at_balancer {K W A} (lb : string) (f : ST (AdState W) A) : ST (Site K W) A := λ s,
  let '(r, a) := f (slice lb s) in
  (r, mkSite (si_cluster s) (<[lb := (ad_cache a, ad_cacheExp a)]> (si_caches s)) (ad_world a)).

Definition site_adapter `{MapRange, Schedule} {K W} (env : string → NginxEnv W) (lb : string) (a : NginxAdapter)
    : LoadBalancerAdapter (Site K W) := {|
  lb_SyncUpstream := λ u, at_balancer lb (SyncUpstream (env lb) a u);
  lb_SyncAllUpstreams := λ m, at_balancer lb (SyncAllUpstreams (env lb) a m)
|}.
Definition site_adapters `{MapRange, Schedule} {K W} (env : string → NginxEnv W) (adapters : gmap string NginxAdapter)
    : gmap string (LoadBalancerAdapter (Site K W)) := map_imap (λ lb a, Some (site_adapter env lb a)) adapters.

Definition site_port {K W} (k8s : KubernetesPort K) : KubernetesPort (Site K W) := {|
  GetPodsForSelector := λ s, GetPodsForSelector k8s (si_cluster s);
  GetNodeByName := λ s, GetNodeByName k8s (si_cluster s);
  GetService := λ s, GetService k8s (si_cluster s);
  ListServices := λ s, ListServices k8s (si_cluster s);
  HasSynced := λ s, HasSynced k8s (si_cluster s)
|}.

(** Requests to a client change at most the server behind it, whatever it
    answers; waiting changes none. *)
Record OwnServers {W} (env : NginxEnv W) (a : NginxAdapter) (wf : W → Prop)
    (view : W → string → string → gmap string Z) : Prop := {
  own_Do : ∀ c path w, c ∈ na_clients a → wf w →
    let w' := (http_Do (ne_http env) (request_of c "GET" path) w).2 in
    wf w' ∧ ∀ base n, base ≠ cl_baseURL c → view w' base n = view w base n;
  own_Wait : ∀ d w, wf w → let w' := (http_Wait (ne_http env) d w).2 in wf w' ∧ same_view view w w';
  own_Acquire : ∀ w, wf w → let w' := (ne_Acquire env w).2 in wf w' ∧ same_view view w w'
}.

(** No two balancers share a server. *)
Definition disjoint_servers (adapters : gmap string NginxAdapter) : Prop :=
  ∀ lb1 a1 c1 lb2 a2 c2, adapters !! lb1 = Some a1 → c1 ∈ na_clients a1 →
    adapters !! lb2 = Some a2 → c2 ∈ na_clients a2 → cl_baseURL c1 = cl_baseURL c2 → lb1 = lb2.

Section site.
Context `{MapRange, Schedule} {K W : Type} (env : string → NginxEnv W) (adapters : gmap string NginxAdapter).
Context (wf : W → Prop) (view : W → string → string → gmap string Z) (known : string → Backend → Prop).

Definition site_healthy (lb : string) (s : Site K W) : Prop :=
  ∀ a, adapters !! lb = Some a → coherent a wf view known (slice lb s).
Definition site_clients (lb : string) : list NginxClient := default [] (na_clients <$> adapters !! lb).
Definition site_view (lb : string) (s : Site K W) (c : NginxClient) (n : string) : gmap string Z :=
  view (si_net s) (cl_baseURL c) n.
Definition site_prune (lb : string) : bool := default false ((λ a, ng_PruneOrphans (na_config a)) <$> adapters !! lb).

Lemma site_adapters_lookup lb ad : site_adapters (K := K) env adapters !! lb = Some ad ↔
  ∃ a, adapters !! lb = Some a ∧ ad = site_adapter env lb a.
Proof.
  unfold site_adapters. rewrite map_lookup_imap. destruct (adapters !! lb) as [a|]; cbn; naive_solver.
Qed.

Lemma slice_own lb (k : K) (caches : gmap string (gmap string Listing * gmap string Z)) (a : AdState W) :
  slice lb (mkSite k (<[lb := (ad_cache a, ad_cacheExp a)]> caches) (ad_world a)) = a.
Proof. unfold slice. cbn [si_caches si_net]. rewrite lookup_insert_eq. by destruct a. Qed.

(** In the site an adapter keeps the contract it keeps alone. *)
Lemma site_converges lb a : adapters !! lb = Some a → NginxApi (env lb) a wf view known → NoDup (cl_baseURL <$> na_clients a) →
  Converges (site_adapter env lb a) (site_healthy lb) (λ u, desired_weights (up_Backends u)) (upstream_known known)
    (λ n, n ≠ "") (site_prune lb) (site_clients lb) (site_view lb).
Proof.
  intros Ha api bases. destruct (nginx_adapter_ok (env lb) a wf view known api bases) as [Hone Hall].
  assert (site_clients lb = na_clients a) as Hcl by (unfold site_clients; by rewrite Ha).
  assert (site_prune lb = ng_PruneOrphans (na_config a)) as Hpr by (unfold site_prune; by rewrite Ha).
  assert (∀ s, site_healthy lb s → coherent a wf view known (slice lb s)) as Hh by (intros s Hs; by apply Hs).
  assert (∀ (s : Site K W) s', coherent a wf view known s' → site_healthy lb (mkSite (si_cluster s)
    (<[lb := (ad_cache s', ad_cacheExp s')]> (si_caches s)) (ad_world s'))) as Hh'.
  { intros s s' Hs a' Ha'. rewrite Ha in Ha'. injection Ha' as <-. by rewrite slice_own. }
  rewrite Hcl, Hpr. split.
  - intros u s Hs Hu. cbn [site_adapter lb_SyncUpstream]. unfold at_balancer. specialize (Hone u (slice lb s) (Hh s Hs) Hu).
    cbn [nginx_adapter lb_SyncUpstream] in Hone. destruct (SyncUpstream _ _ _ _) as [e s']. destruct Hone as (He & Hs' & Hv).
    split; [done|]. split; [by apply Hh'|done].
  - intros m s Hs Hm. cbn [site_adapter lb_SyncAllUpstreams]. unfold at_balancer. specialize (Hall m (slice lb s) (Hh s Hs) Hm).
    cbn [nginx_adapter lb_SyncAllUpstreams] in Hall. destruct (SyncAllUpstreams _ _ _ _) as [e s']. destruct Hall as (He & Hs' & Hv).
    split; [done|]. split; [by apply Hh'|done].
Qed.

(** What the calls of an adapter leave alone. *)
Definition beside (a : NginxAdapter) (w w' : W) : Prop :=
  wf w → wf w' ∧ ∀ base n, base ∉ cl_baseURL <$> na_clients a → view w' base n = view w base n.
Local Instance beside_preorder a : PreOrder (beside a).
Proof.
  split.
  - intros w Hw. by split.
  - intros w1 w2 w3 H1 H2 Hw. destruct (H1 Hw) as [Hw2 E1]. destruct (H2 Hw2) as [Hw3 E2]. split; [done|].
    intros base n Hb. by rewrite E2, E1.
Qed.

Lemma own_beside lb a : OwnServers (env lb) a wf view →
  (∀ u s, beside a (ad_world s) (ad_world (SyncUpstream (env lb) a u s).2)) ∧
  (∀ m s, beside a (ad_world s) (ad_world (SyncAllUpstreams (env lb) a m s).2)).
Proof.
  intros [HD HW HA].
  assert (∀ c path w, c ∈ na_clients a → beside a w (http_Do (ne_http (env lb)) (request_of c "GET" path) w).2) as HD'.
  { intros c path w Hc Hw. destruct (HD c path w Hc Hw) as [Hw' Hv]. split; [done|]. intros base n Hb. apply Hv.
    intros ->. by apply Hb, list_elem_of_fmap_2. }
  assert (∀ d w, beside a w (http_Wait (ne_http (env lb)) d w).2) as HW'.
  { intros d w Hw. destruct (HW d w Hw) as [? E]. split; [done|]. intros base n _. apply E. }
  assert (∀ w, beside a w (ne_Acquire (env lb) w).2) as HA'.
  { intros w Hw. destruct (HA w Hw) as [? E]. split; [done|]. intros base n _. apply E. }
  split; [apply (SyncUpstream_reach (env lb) a (beside a) HD' HW' HA')|apply (SyncAllUpstreams_reach (env lb) a (beside a) HD' HW' HA')].
Qed.

Context (k8s : KubernetesPort K).
Hypothesis apart : disjoint_servers adapters.

(** Calls that stay beside the servers of one balancer do not disturb another. *)
Lemma at_balancer_undisturbed {A} lb lb' a (f : ST (AdState W) A) (s : Site K W) : adapters !! lb = Some a → lb' ≠ lb →
  (∀ s, beside a (ad_world s) (ad_world (f s).2)) →
  undisturbed (site_port k8s) site_healthy site_clients site_view lb' s (at_balancer lb f s).2.
Proof.
  intros Ha Hne Hf. unfold at_balancer. pose proof (Hf (slice lb s)) as Hb. destruct (f (slice lb s)) as [r s']. cbn [snd] in *.
  split; [done|]. intros Hh. destruct (adapters !! lb') as [a'|] eqn:Ha'.
  2: { split; [intros a' Ha''; congruence|]. intros c n. unfold site_clients. rewrite Ha'. by intros ?%not_elem_of_nil. }
  destruct (Hh a' Ha') as [Hw Hc]. destruct (Hb Hw) as [Hw' Hv].
  assert (∀ c n, c ∈ na_clients a' → view (ad_world s') (cl_baseURL c) n = view (si_net s) (cl_baseURL c) n) as Hsame.
  { intros c n Hin. apply Hv. intros (c1 & E & Hc1)%list_elem_of_fmap. apply Hne. by eapply (apart lb' a' c lb a c1). }
  split.
  - intros a1 Ha1. rewrite Ha' in Ha1. injection Ha1 as <-. split; [done|]. intros c l Hin Hl. unfold slice in Hl. cbn in Hl.
    rewrite lookup_insert_ne in Hl by done. destruct (Hc c l Hin Hl) as (H1 & H2 & H3). split; [done|]. split; [|done].
    intros n. rewrite H2. symmetry. by apply Hsame.
  - intros c n Hin. unfold site_clients in Hin. rewrite Ha' in Hin. by apply Hsame.
Qed.

Lemma site_isolated : (∀ lb a, adapters !! lb = Some a → OwnServers (env lb) a wf view) →
  isolated (site_port k8s) (site_adapters env adapters) site_healthy site_clients site_view.
Proof.
  intros own. split.
  - intros lb ad u s lb' (a & Ha & ->)%site_adapters_lookup _ Hne. cbn. apply (at_balancer_undisturbed lb lb' a); [done..|].
    by apply own_beside, own.
  - intros lb ad m s lb' (a & Ha & ->)%site_adapters_lookup _ Hne. cbn. apply (at_balancer_undisturbed lb lb' a); [done..|].
    by apply own_beside, own.
  - intros lb ad u s (a & Ha & ->)%site_adapters_lookup. cbn. unfold at_balancer. by destruct (SyncUpstream _ _ _ _) as [r s'].
  - intros lb ad m s (a & Ha & ->)%site_adapters_lookup. cbn. unfold at_balancer. by destruct (SyncAllUpstreams _ _ _ _) as [r s'].
Qed.

(** Balancer [lb] works: its servers implement the requests, no two of its
    clients have the same server, its cache agrees with them, and they know the
    backends the controller wants to serve. *)
Context (cfg : Config).
Record site_works (lb : string) (a : NginxAdapter) (svcs : list Service) (s : Site K W) : Prop := {
  sw_adapter : adapters !! lb = Some a;
  sw_api : NginxApi (env lb) a wf view known;
  sw_bases : NoDup (cl_baseURL <$> na_clients a);
  sw_coherent : coherent a wf view known (slice lb s);
  sw_known : ∀ n u, intent_of (site_port k8s) cfg s lb n svcs = Serve u → upstream_known known u
}.

(** In [s'] the servers of [lb] hold the intent for the caches of [s]. *)
Definition site_serves (lb : string) (a : NginxAdapter) (svcs : list Service) (s s' : Site K W) : Prop :=
  coherent a wf view known (slice lb s') ∧
  ∀ client n, client ∈ na_clients a → n ≠ "" →
    view (si_net s') (cl_baseURL client) n =
    match intent_of (site_port k8s) cfg s lb n svcs with
    | Serve u => desired_weights (up_Backends u)
    | Keep => view (si_net s) (cl_baseURL client) n
    | Absent => if ng_PruneOrphans (na_config a) then ∅ else view (si_net s) (cl_baseURL client) n
    end.

Lemma site_SyncUpstreams_ok svcs (c : Ctrl (Site K W)) :
  (∀ lb a, adapters !! lb = Some a → OwnServers (env lb) a wf view) →
  HasSynced k8s (si_cluster (ct_world c)) = true → ListServices k8s (si_cluster (ct_world c)) = Ok svcs →
  let '(e, c') := SyncUpstreams (site_port k8s) (site_adapters env adapters) cfg c in
  (∀ lb a, site_works lb a svcs (ct_world c) → site_serves lb a svcs (ct_world c) (ct_world c')) ∧
  ((∀ lb a, adapters !! lb = Some a → site_works lb a svcs (ct_world c)) → e = None).
Proof.
  intros own Hs Hl.
  pose proof (SyncUpstreams_ok (site_port k8s) (site_adapters env adapters) cfg site_healthy (λ u, desired_weights (up_Backends u))
    (λ _, upstream_known known) (λ n, n ≠ "") site_prune site_clients site_view svcs c (site_isolated own) Hs Hl) as Hr.
  assert (∀ lb a, site_works lb a svcs (ct_world c) →
    works (site_port k8s) cfg site_healthy (λ u, desired_weights (up_Backends u)) (λ _, upstream_known known) (λ n, n ≠ "")
      site_prune site_clients site_view lb (site_adapter env lb a) svcs (ct_world c)) as Hw.
  { intros lb a [Ha Hapi Hb Hc Hk]. split; [by apply site_converges| |done].
    intros a' Ha'. rewrite Ha in Ha'. by injection Ha' as <-. }
  destruct (SyncUpstreams _ _ _ _) as [e c']. destruct Hr as (_ & Hserve & He). split.
  - intros lb a Hlb. pose proof (sw_adapter _ _ _ _ Hlb) as Ha.
    destruct (Hserve lb (site_adapter env lb a)) as [Hh Hv]; [apply site_adapters_lookup; eauto|by apply Hw|].
    split; [by apply Hh|]. intros client n Hcl Hn. unfold site_clients, site_prune in Hv. rewrite Ha in Hv.
    by apply (Hv client n Hcl Hn).
  - intros Hall. apply He. intros lb ad (a & Ha & ->)%site_adapters_lookup. by apply Hw, Hall.
Qed.
End site.
