(* ===== verification/NginxConcurrent.v ===== *)
(** * Concurrent calls of the NGINX adapter: nginx/nginx.go

    [SyncUpstream] starts one goroutine per client, and the workers of the
    controller call it for several upstreams at a time.  Here the goroutines
    interleave: a step of one is the acquisition of the semaphore, a critical
    section of [cacheMutex], or one request.  Alone, a goroutine does what
    [sync_client] does.  Calls for distinct upstreams all converge, under every
    interleaving; but they may leave a stale listing in the cache. *)
From S2P Require Export Steps NginxConverge.
From Stdlib Require Import Lia.
Local Open Scope Z_scope.

(** ** The goroutines *)

Record job := mkJob { jb_client : NginxClient; jb_name : string; jb_desired : gmap string Backend }.

(** Where a goroutine is: before the semaphore; before the read of the cache;
    before the list request; with a listing to store; with requests to send, the
    flag [changed] and the errors so far; and at its end, with the flag. *)
Inductive job_pc :=
  | Acquire
  | CheckCache
  | Fetch
  | StoreCache (parsedState : Listing)
  | Sending (acts : list action) (changed : bool) (errs : list error)
  | Finished (changed : bool) (errs : list error).

Section goroutines.
Context `{MapRange} {W : Type} (env : NginxEnv W) (a : NginxAdapter).

(** The goroutine has the listing [allBackends]. *)
Definition planned (j : job) (allBackends : Listing) : job_pc :=
  let current := currentBackends allBackends (jb_name j) in
  Sending (plan (jb_desired j) current) (changed (diff (jb_desired j) current)) [].

Definition job_step (j : job) (pc : job_pc) : ST (AdState W) job_pc := λ s,
  let c := jb_client j in
  match pc with
  | Acquire =>
      let '(acq, s) := in_world (ne_Acquire env) s in
      match acq with
      | Some err => (Finished false [Errorf "client %s semaphore error: %w" [FStr (cl_baseURL c); FErr err]], s)
      | None => (CheckCache, s)
      end
  | CheckCache =>
      match ad_cacheExp s !! cl_baseURL c, ad_cache s !! cl_baseURL c with
      | Some exp, Some m => if ne_Now env (ad_world s) <? exp then (planned j m, s) else (Fetch, s)
      | _, _ => (Fetch, s)
      end
  | Fetch =>
      let '(r, s) := send env c (strings.TrimPrefix (ng_ListAPI (na_config a)) "/") s in
      match r with
      | Err err => (Finished false [Errorf "failed to bulk fetch upstreams from %s: %w" [FStr (cl_baseURL c); FErr err]], s)
      | Ok body => (StoreCache (parseBulkNginxBackends body), s)
      end
  | StoreCache m =>
      (planned j m,
       mkAdState (<[cl_baseURL c := m]> (ad_cache s))
         (<[cl_baseURL c := ne_Now env (ad_world s) + TTL]> (ad_cacheExp s)) (ad_world s))
  | Sending (act :: acts) ch errs =>
      let '(e, s) := run_action env a (jb_name j) c act s in (Sending acts ch (errs ++ e), s)
  | Sending [] ch errs => (Finished ch errs, if ch then (invalidateCache (cl_baseURL c) s).2 else s)
  | Finished ch errs => (Finished ch errs, s)
  end.

(** The calls run concurrently: any goroutine that has not ended takes a step. *)
Abbreviation jobs := (AdState W * list (job * job_pc))%type.
Definition ended (pc : job_pc) : bool := match pc with Finished _ _ => true | _ => false end.
Inductive conc_step : jobs → jobs → Prop :=
  | conc_at s l1 j pc l2 pc' s' : ended pc = false → job_step j pc s = (pc', s') →
      conc_step (s, l1 ++ (j, pc) :: l2) (s', l1 ++ (j, pc') :: l2).

(** The goroutines of [SyncUpstream] for each of the upstreams. *)
Definition jobs_of (us : list Upstream) : list job :=
  us ≫= λ u, (λ c, mkJob c (up_Name u) (desiredBackends (up_Backends u))) <$> na_clients a.
Definition conc_start (us : list Upstream) (s : AdState W) : jobs := (s, (λ j, (j, Acquire)) <$> jobs_of us).

(** *** One goroutine alone *)

Definition job_run (j : job) (k : nat) (x : job_pc * AdState W) : job_pc * AdState W :=
  Nat.iter k (λ '(pc, s), job_step j pc s) x.

Lemma job_run_step j k x : job_run j (S k) x = job_run j k (job_step j x.1 x.2).
Proof. unfold job_run. rewrite Nat.iter_succ_r. by destruct x. Qed.

Lemma job_run_trans j k1 k2 x y : job_run j k1 x = y → job_run j (k2 + k1) x = job_run j k2 y.
Proof. intros <-. unfold job_run. by rewrite Nat.iter_add. Qed.

Lemma job_run_sending j acts ch errs s :
  let '(e, s') := collect (run_action env a (jb_name j) (jb_client j)) acts s in
  job_run j (S (length acts)) (Sending acts ch errs, s) =
  (Finished ch (errs ++ e), if ch then (invalidateCache (cl_baseURL (jb_client j)) s').2 else s').
Proof.
  revert errs s. induction acts as [|act acts IH]; intros errs s; cbn [collect length].
  - cbn. by rewrite app_nil_r.
  - rewrite job_run_step. cbn [fst snd job_step]. destruct (run_action _ _ _ _ act s) as [e s1].
    specialize (IH (errs ++ e) s1). destruct (collect _ acts s1) as [e' s2]. by rewrite app_assoc.
Qed.

(** Alone, a goroutine is [sync_client]. *)
Lemma job_alone j s : ∃ k ch, let '(errs, s') := sync_client env a (jb_name j) (jb_desired j) (jb_client j) s in
  job_run j k (Acquire, s) = (Finished ch errs, s').
Proof.
  unfold sync_client. destruct (in_world (ne_Acquire env) s) as [[err|] s1] eqn:Ha.
  { exists 1%nat, false. cbn. by rewrite Ha. }
  assert (∀ m s2, ∃ k ch, let '(errs, s3) := collect (run_action env a (jb_name j) (jb_client j))
      (plan (jb_desired j) (currentBackends m (jb_name j))) s2 in
    job_run j k (planned j m, s2) = (Finished ch errs,
      if changed (diff (jb_desired j) (currentBackends m (jb_name j))) then (invalidateCache (cl_baseURL (jb_client j)) s3).2 else s3)) as Hp.
  { intros m s2. unfold planned. eexists _, _. pose proof (job_run_sending j (plan (jb_desired j) (currentBackends m (jb_name j)))
      (changed (diff (jb_desired j) (currentBackends m (jb_name j)))) [] s2) as Hr.
    destruct (collect _ _ s2) as [errs s3]. exact Hr. }
  assert (job_run j 1 (Acquire, s) = (CheckCache, s1)) as H1 by (cbn; by rewrite Ha).
  assert (∀ k x, job_run j k (CheckCache, s1) = x → job_run j (k + 1) (Acquire, s) = x) as Hfrom
    by (intros k x <-; by apply job_run_trans).
  unfold refreshCache. cbv zeta. set (base := cl_baseURL (jb_client j)).
  assert (job_step j CheckCache s1 = (Fetch, s1) → ∃ k ch, let '(errs, s') :=
      let '(r, s2) := let '(r, s2) := send env (jb_client j) (strings.TrimPrefix (ng_ListAPI (na_config a)) "/") s1 in
        match r with
        | Err err => (Err (Errorf "failed to bulk fetch upstreams from %s: %w" [FStr base; FErr err]), s2)
        | Ok body => (Ok (parseBulkNginxBackends body), mkAdState (<[base := parseBulkNginxBackends body]> (ad_cache s2))
            (<[base := ne_Now env (ad_world s2) + TTL]> (ad_cacheExp s2)) (ad_world s2))
        end in
      match r with
      | Err err => ([err], s2)
      | Ok allBackends =>
          let '(errs, s3) := collect (run_action env a (jb_name j) (jb_client j)) (plan (jb_desired j) (currentBackends allBackends (jb_name j))) s2 in
          (errs, if changed (diff (jb_desired j) (currentBackends allBackends (jb_name j))) then (invalidateCache base s3).2 else s3)
      end in job_run j k (Acquire, s) = (Finished ch errs, s')) as Hmiss.
  { intros Hc. destruct (send _ _ _ s1) as [[body|err] s2] eqn:Hs.
    - set (s2' := mkAdState _ _ _). destruct (Hp (parseBulkNginxBackends body) s2') as (k & ch & Hk).
      destruct (collect _ _ s2') as [errs s3]. exists (S (S (S k)) + 1)%nat, ch. apply Hfrom.
      rewrite !job_run_step. cbn [fst snd]. rewrite Hc. cbn [fst snd job_step]. by rewrite Hs.
    - exists (2 + 1)%nat, false. apply Hfrom. rewrite !job_run_step. cbn [fst snd]. rewrite Hc. cbn [fst snd job_step]. by rewrite Hs. }
  cbn [job_step] in Hmiss. fold base in Hmiss.
  destruct (ad_cacheExp s1 !! base) as [exp|] eqn:He; [|by apply Hmiss]. destruct (_ <? exp) eqn:Hexp.
  2: { apply Hmiss. by destruct (ad_cache s1 !! base). }
  destruct (ad_cache s1 !! base) as [m|] eqn:Hm; [|by apply Hmiss].
  destruct (Hp m s1) as (k & ch & Hk). destruct (collect _ _ s1) as [errs s3]. exists (S k + 1)%nat, ch. apply Hfrom.
  rewrite job_run_step. cbn [fst snd job_step]. fold base. by rewrite He, Hm, Hexp.
Qed.
End goroutines.

(** ** The invariant *)

Section facts.
Context `{MapRange} {W : Type} (env : NginxEnv W) (a : NginxAdapter).
Context (wf : W → Prop) (view : W → string → string → gmap string Z) (known : string → Backend → Prop).
Hypothesis api : NginxApi env a wf view known.
(** The goroutines, each with its own client and upstream, and the world they
    started in. *)
Context (js : list job) (w0 : W).
Definition jb_key (j : job) : string * string := (cl_baseURL (jb_client j), jb_name j).
Record jobs_ok : Prop := {
  jo_distinct : NoDup (jb_key <$> js);
  jo_client : ∀ j, j ∈ js → jb_client j ∈ na_clients a;
  jo_keyed : ∀ j, j ∈ js → keyed (jb_desired j);
  jo_known : ∀ j k b, j ∈ js → jb_desired j !! k = Some b → known (jb_name j) b
}.
Hypothesis Hjs : jobs_ok.
Implicit Types (s : AdState W) (l : list (job * job_pc)).

Definition held_by (w : W) (j : job) : gmap string Z := view w (cl_baseURL (jb_client j)) (jb_name j).
Definition wanted (j : job) : gmap string Z := be_Weight <$> jb_desired j.

(** The goroutine may have changed its upstream on its server. *)
Definition dirty (pc : job_pc) : bool := match pc with Sending _ ch _ | Finished ch _ => ch | _ => false end.
Definition clean_at l (base n : string) : Prop := ∀ j pc, (j, pc) ∈ l → jb_key j = (base, n) → dirty pc = false.

(** A listing that tells what the server at [base] holds for the upstreams that
    no goroutine changed. *)
Definition listing_ok s l (base : string) (m : Listing) : Prop :=
  m !! "" = None ∧ (∀ n, clean_at l base n → server_state (default [] (m !! n)) = view (ad_world s) base n) ∧
  ∀ n bs b, m !! n = Some bs → b ∈ bs → known n b.

Definition pc_ok s l (j : job) (pc : job_pc) : Prop :=
  match pc with
  | Acquire | CheckCache | Fetch => held_by (ad_world s) j = held_by w0 j
  | StoreCache m => held_by (ad_world s) j = held_by w0 j ∧ listing_ok s l (cl_baseURL (jb_client j)) m
  | Sending acts ch errs => errs = [] ∧ Forall (action_known known (jb_name j)) acts ∧
      foldl apply_action (held_by (ad_world s) j) acts = wanted j ∧ (ch = false → acts = [])
  | Finished ch errs => errs = [] ∧ held_by (ad_world s) j = wanted j
  end.

Record conc_ok (x : AdState W * list (job * job_pc)) : Prop := {
  cc_wf : wf (ad_world x.1);
  cc_jobs : x.2.*1 = js;
  cc_pc : ∀ j pc, (j, pc) ∈ x.2 → pc_ok x.1 x.2 j pc;
  cc_others : ∀ base n, (base, n) ∉ jb_key <$> js → view (ad_world x.1) base n = view w0 base n;
  cc_cache : ∀ c m, c ∈ na_clients a → ad_cache x.1 !! cl_baseURL c = Some m → listing_ok x.1 x.2 (cl_baseURL c) m;
  (** a goroutine that is alone on its server leaves no listing it made stale *)
  cc_alone : ∀ j, (j, Finished true []) ∈ x.2 → (∀ j', j' ∈ js → cl_baseURL (jb_client j') = cl_baseURL (jb_client j) → j' = j) →
    ad_cache x.1 !! cl_baseURL (jb_client j) = None
}.

(** What one step of [j] from [pc] does: it reaches [pc'] without errors, and
    touches its own upstream and the cached listing of its own server. *)
Record step_ok s l (j : job) (pc pc' : job_pc) s' l' : Prop := {
  so_wf : wf (ad_world s');
  so_view : ∀ base n, ¬ (dirty pc = true ∧ (base, n) = jb_key j) → view (ad_world s') base n = view (ad_world s) base n;
  so_dirty : dirty pc = true → dirty pc' = true;
  so_pc : pc_ok s' l' j pc';
  so_cache : ∀ c m, c ∈ na_clients a → ad_cache s' !! cl_baseURL c = Some m →
    ad_cache s !! cl_baseURL c = Some m ∨ (pc = StoreCache m ∧ cl_baseURL c = cl_baseURL (jb_client j));
  so_own : ∀ base, base ≠ cl_baseURL (jb_client j) → ad_cache s' !! base = ad_cache s !! base;
  so_alone : pc' = Finished true [] → ad_cache s' !! cl_baseURL (jb_client j) = None
}.

Lemma key_elem l j pc : (j, pc) ∈ l → jb_key j ∈ jb_key <$> l.*1.
Proof. intros Hin. apply list_elem_of_fmap_2. by apply (list_elem_of_fmap_2 fst) in Hin. Qed.

Lemma job_unique l1 j pc l2 j' pc' : (l1 ++ (j, pc) :: l2).*1 = js → (j', pc') ∈ l1 ++ (j, pc) :: l2 → jb_key j' = jb_key j →
  j' = j ∧ pc' = pc.
Proof.
  intros E Hin Hk. assert (NoDup (jb_key <$> (l1 ++ (j, pc) :: l2).*1)) as Hnd by (rewrite E; apply Hjs).
  rewrite !fmap_app, !fmap_cons in Hnd. cbn [fst] in Hnd. apply list.NoDup_app in Hnd as (_ & H1 & [H2 _]%list.NoDup_cons).
  apply elem_of_app in Hin as [Hin|[Heq|Hin]%elem_of_cons].
  - exfalso. apply (H1 (jb_key j')); [by eapply key_elem|]. rewrite Hk. by constructor.
  - by injection Heq as -> ->.
  - exfalso. apply H2. rewrite <- Hk. by eapply key_elem.
Qed.

(** The step of one goroutine keeps the invariant. *)
Lemma conc_step_ok s l1 j pc l2 pc' s' : conc_ok (s, l1 ++ (j, pc) :: l2) → ended pc = false →
  step_ok s (l1 ++ (j, pc) :: l2) j pc pc' s' (l1 ++ (j, pc') :: l2) → conc_ok (s', l1 ++ (j, pc') :: l2).
Proof.
  intros [C1 C2 C3 C4 C5 C6] He [S1 S2 S3 S4 S5 S6 S7]. cbn [fst snd] in *.
  set (l := l1 ++ (j, pc) :: l2) in *. set (l' := l1 ++ (j, pc') :: l2) in *.
  assert (l'.*1 = js) as Hjobs by (rewrite <- C2; unfold l, l'; by rewrite !fmap_app).
  assert (j ∈ js) as Hj by (rewrite <- C2; unfold l; rewrite fmap_app; apply elem_of_app; right; by constructor).
  assert (∀ j1 pc1, (j1, pc1) ∈ l' → (j1, pc1) = (j, pc') ∨ (j1, pc1) ∈ l ∧ jb_key j1 ≠ jb_key j) as Hsplit.
  { intros j1 pc1 Hin. destruct (decide (jb_key j1 = jb_key j)) as [Hk|Hk].
    - left. by destruct (job_unique _ _ _ _ _ _ Hjobs Hin Hk) as [-> ->].
    - right. split; [|done]. unfold l, l' in *. apply elem_of_app in Hin as [Hin|[Heq|Hin]%elem_of_cons]; [|congruence|];
        apply elem_of_app; [by left|right; by constructor]. }
  assert (∀ base m, listing_ok s l base m → listing_ok s' l' base m) as Hmono.
  { intros base m (M1 & M2 & M3). split; [done|]. split; [|done]. intros n Hn.
    assert (clean_at l base n) as Hc.
    { intros j1 pc1 Hin Hk. unfold l in Hin. apply elem_of_app in Hin as [Hin|[Heq|Hin]%elem_of_cons].
      - apply (Hn j1 pc1); [apply elem_of_app; by left|done].
      - injection Heq as -> ->. destruct (dirty pc) eqn:Hd; [|done]. rewrite <- (S3 eq_refl).
        apply (Hn j pc'); [apply elem_of_app; right; by constructor|done].
      - apply (Hn j1 pc1); [apply elem_of_app; right; by constructor|done]. }
    rewrite M2 by done. symmetry. apply S2. intros [Hd Hk].
    rewrite (Hc j pc) in Hd; [done|apply elem_of_app; right; by constructor|done]. }
  assert (∀ j1, jb_key j1 ≠ jb_key j → held_by (ad_world s') j1 = held_by (ad_world s) j1) as Hheld.
  { intros j1 Hk. apply S2. intros [_ Hk']. by apply Hk. }
  split; cbn [fst snd]; [done..| | | |].
  - intros j1 pc1 [[= -> ->]|[Hin Hk]]%Hsplit; [done|]. pose proof (C3 j1 pc1 Hin) as Hpc. pose proof (Hheld j1 Hk) as Eh.
    destruct pc1; cbn [pc_ok] in *; rewrite ?Eh; try done. destruct Hpc. split; [done|by apply Hmono].
  - intros base n Hn. rewrite S2; [by apply C4|]. intros [_ Hk]. apply Hn. rewrite Hk. by apply list_elem_of_fmap_2.
  - intros c m Hc Hm. destruct (S5 c m Hc Hm) as [Hm'|[-> Hb]]; [by apply Hmono, C5|]. rewrite Hb.
    apply Hmono. destruct (C3 j (StoreCache m)) as [_ Hl]; [apply elem_of_app; right; by constructor|done].
  - intros j1 [[= -> <-]|[Hin Hk]]%Hsplit Hal; [by apply S7|]. rewrite S6; [by apply C6|].
    intros Hb. apply Hk. by rewrite (Hal j Hj (eq_sym Hb)).
Qed.

(** With a listing in hand: the requests to send bring the server from what it
    holds to what is wanted. *)
Lemma planned_ok s l j m : j ∈ js → (∀ pc, (j, pc) ∈ l → dirty pc = false) → NoDup (jb_key <$> l.*1) → j ∈ l.*1 →
  listing_ok s l (cl_baseURL (jb_client j)) m → ∀ l', pc_ok s l' j (planned j m).
Proof.
  intros Hj Hd Hnd Hin (M1 & M2 & M3) l'. unfold planned, pc_ok. cbv zeta. rewrite current_named by done.
  set (current := default [] (m !! jb_name j)).
  assert (server_state current = held_by (ad_world s) j) as Hcur.
  { apply M2. intros j1 pc1 Hin1 Hk. assert (j1 = j) as ->; [|by apply Hd].
    apply (list_elem_of_fmap_2 fst) in Hin1. cbn in Hin1. apply list_elem_of_lookup in Hin1 as [i1 H1]. apply list_elem_of_lookup in Hin as [i2 H2].
    assert (i1 = i2) as ->; [|congruence]. eapply NoDup_lookup; [exact Hnd|..]; rewrite list_lookup_fmap, ?H1, ?H2; cbn; [done|by rewrite Hk]. }
  assert (∀ b, b ∈ current → known (jb_name j) b) as Hk.
  { intros b. unfold current. destruct (m !! jb_name j) as [bs|] eqn:E; cbn; [by apply (M3 _ bs)|by intros ?%not_elem_of_nil]. }
  pose proof (jo_keyed Hjs j Hj) as Hkeyed. split; [done|]. split; [|split].
  - apply plan_known; [done| |done]. intros k b. by apply (jo_known Hjs).
  - rewrite <- Hcur. by apply plan_effect.
  - intros Hch. destruct (plan (jb_desired j) current) eqn:E; [done|]. exfalso.
    assert (changed (diff (jb_desired j) current) = true); [|congruence]. apply plan_changed; [done|]. by rewrite E.
Qed.

Lemma job_step_ok s l1 j pc l2 pc' s' : conc_ok (s, l1 ++ (j, pc) :: l2) → ended pc = false → job_step env a j pc s = (pc', s') →
  step_ok s (l1 ++ (j, pc) :: l2) j pc pc' s' (l1 ++ (j, pc') :: l2).
Proof.
  intros Hok He Hstep. pose proof Hok as [Hw Hjobs Hpcs _ Hcache _]. cbn [fst snd] in *.
  set (l := l1 ++ (j, pc) :: l2) in *. set (l' := l1 ++ (j, pc') :: l2).
  assert ((j, pc) ∈ l) as Hin by (apply elem_of_app; right; by constructor).
  assert (j ∈ js) as Hj by (rewrite <- Hjobs; by apply (list_elem_of_fmap_2 fst) in Hin).
  pose proof (jo_client Hjs j Hj) as Hc. pose proof (Hpcs j pc Hin) as Hpc.
  assert (NoDup (jb_key <$> l.*1)) as Hnd by (rewrite Hjobs; apply Hjs).
  assert (∀ q, (j, q) ∈ l → dirty q = dirty pc) as Hsame.
  { intros q Hq. by destruct (job_unique _ _ _ _ _ _ Hjobs Hq eq_refl) as [_ ->]. }
  assert (j ∈ l.*1) as Hinj by (by rewrite Hjobs).
  destruct pc as [| | |m|[|act acts] ch errs|ch errs]; cbn [job_step] in Hstep; [..|done].
  - unfold in_world in Hstep. destruct (api_acquire _ _ _ _ _ api (ad_world s) Hw) as (w' & E & Hw' & Hv).
    rewrite E in Hstep. injection Hstep as <- <-. split; cbn; try done; try (by left).
    unfold held_by. by rewrite Hv.
  - assert (step_ok s l j CheckCache Fetch s (l1 ++ (j, Fetch) :: l2)) as Hmiss by (split; cbn; try done; by left).
    destruct (ad_cacheExp s !! _); [|by injection Hstep as <- <-].
    destruct (ad_cache s !! cl_baseURL (jb_client j)) as [m|] eqn:Hm; [|by injection Hstep as <- <-].
    destruct (_ <? _); injection Hstep as <- <-; [|done]. split; cbn [dirty planned]; try done; try (by left).
    apply (planned_ok s l j m); try done. by apply Hcache.
  - destruct (api_list _ _ _ _ _ api (jb_client j) (ad_world s) Hc Hw) as (body & w' & Hb & Hw' & Hv & A1 & A2 & A3).
    rewrite (send_200 _ _ _ _ _ _ Hb) in Hstep. injection Hstep as <- <-.
    split; cbn; try done; try (by left).
    split; [unfold held_by; by rewrite Hv|]. split; [done|]. split; [|done]. intros n _. cbn. by rewrite A2, Hv.
  - injection Hstep as <- <-. destruct Hpc as [Hh Hl]. split; cbn [dirty planned ad_world ad_cache]; try done.
    + by apply (planned_ok _ l j m).
    + intros c m' _ Hm. destruct (decide (cl_baseURL (jb_client j) = cl_baseURL c)) as [E|Hne].
      * rewrite E, lookup_insert_eq in Hm. injection Hm as ->. right. by rewrite E.
      * rewrite lookup_insert_ne in Hm by done. by left.
    + intros base Hne. by rewrite lookup_insert_ne.
  - destruct Hpc as (-> & _ & Hf & _). cbn in Hf. injection Hstep as <- <-.
    destruct ch; cbn [invalidateCache snd]; split; cbn; try done; try (by left).
    + intros c m _ Hm. left. by apply lookup_delete_Some in Hm as [_ ?].
    + intros base Hne. by rewrite lookup_delete_ne.
    + intros _. apply lookup_delete_eq.
  - destruct Hpc as (-> & Hk & Hf & Hch). destruct ch; [|by specialize (Hch eq_refl)].
    apply list.Forall_cons in Hk as [Hk1 Hk].
    destruct (run_action_ok env a wf view known api (jb_client j) (jb_name j) act s Hc Hw Hk1) as (s1 & E & Hw1 & Hca & Hv & Ho).
    rewrite E in Hstep. injection Hstep as <- <-. split; try done.
    + intros base n Hne. apply Ho. intros [-> ->]. by apply Hne.
    + split; [done|]. split; [done|]. split; [|done]. unfold held_by in *. by rewrite Hv.
    + intros c m _. rewrite Hca. by left.
    + intros base _. by rewrite Hca.
Qed.

Lemma conc_step_inv x y : conc_ok x → conc_step env a x y → conc_ok y.
Proof. intros Hx Hs. destruct Hs. eapply conc_step_ok; [done..|]. by eapply job_step_ok. Qed.

(** Every step brings a goroutine closer to its end. *)
Definition pc_weight (pc : job_pc) : nat * nat :=
  match pc with
  | Acquire => (4, 0) | CheckCache => (3, 0) | Fetch => (2, 0) | StoreCache _ => (1, 0)
  | Sending acts _ _ => (0, S (length acts)) | Finished _ _ => (0, 0)
  end%nat.
Definition conc_weight (x : AdState W * list (job * job_pc)) : nat * nat :=
  (sum_list_with (λ p, (pc_weight p.2).1) x.2, sum_list_with (λ p, (pc_weight p.2).2) x.2).

Lemma job_step_weight j pc pc' s s' : ended pc = false → job_step env a j pc s = (pc', s') → lex (pc_weight pc') (pc_weight pc).
Proof.
  intros He Hs. destruct pc as [| | |m|[|act acts] ch errs|]; cbn [job_step] in Hs; [..|done].
  - destruct (in_world _ s) as [[err|] s1]; injection Hs as <- _; left; cbn; lia.
  - destruct (ad_cacheExp s !! _); [|injection Hs as <- _; left; cbn; lia].
    destruct (ad_cache s !! _); [|injection Hs as <- _; left; cbn; lia].
    destruct (_ <? _); injection Hs as <- _; left; cbn; lia.
  - destruct (send _ _ _ s) as [[body|err] s1]; injection Hs as <- _; left; cbn; lia.
  - injection Hs as <- _. left. cbn. lia.
  - injection Hs as <- _. right. cbn. lia.
  - destruct (run_action _ _ _ _ _ s) as [e s1]. injection Hs as <- _. right. cbn. lia.
Qed.
Lemma conc_step_weight x y : conc_step env a x y → lex (conc_weight y) (conc_weight x).
Proof.
  intros Hs. destruct Hs as [s l1 j pc l2 pc' s' He Hs]. apply job_step_weight in Hs; [|done].
  unfold lex, conc_weight in *. cbn [fst snd]. rewrite !sum_list_with_app. cbn [sum_list_with snd]. lia.
Qed.

Definition all_ended (x : AdState W * list (job * job_pc)) : Prop := ∀ j pc, (j, pc) ∈ x.2 → ended pc = true.
Lemma conc_progress x : all_ended x ∨ ∃ y, conc_step env a x y.
Proof.
  destruct (decide (Forall (λ p : job * job_pc, ended p.2 = true) x.2)) as [Hf|Hf].
  - left. intros j pc Hin. rewrite list.Forall_forall in Hf. by apply (Hf (j, pc)).
  - right. apply not_Forall_Exists in Hf; [|intros p; apply _]. apply list.Exists_exists in Hf as ([j pc] & Hin & He). cbn in He.
    apply list_elem_of_split in Hin as (l1 & l2 & E). destruct x as [s l]. cbn in E. subst l.
    destruct (job_step env a j pc s) as [pc' s'] eqn:Hs. eexists. econstructor; [by apply not_true_is_false|exact Hs].
Qed.

(** What holds at the end. *)
Lemma ended_ok x : conc_ok x → all_ended x →
  (∀ j pc, (j, pc) ∈ x.2 → ∃ ch, pc = Finished ch []) ∧ (∀ j, j ∈ js → held_by (ad_world x.1) j = wanted j) ∧
  (NoDup ((λ j, cl_baseURL (jb_client j)) <$> js) → coherent a wf view known x.1).
Proof.
  intros [C1 C2 C3 C4 C5 C6] He.
  assert (∀ j pc, (j, pc) ∈ x.2 → ∃ ch, pc = Finished ch [] ∧ held_by (ad_world x.1) j = wanted j) as Hend.
  { intros j pc Hin. pose proof (He j pc Hin) as Hp. pose proof (C3 j pc Hin) as Hok. destruct pc; try done.
    destruct Hok as [-> Hh]. by eexists. }
  split; [intros j pc Hin; destruct (Hend j pc Hin) as (ch & ? & _); by exists ch|]. split.
  - intros j Hj. rewrite <- C2 in Hj. apply list_elem_of_fmap in Hj as ([j' pc] & -> & Hin). by destruct (Hend j' pc Hin) as (? & _ & ?).
  - intros Hnd. split; [done|]. intros c m Hc Hm. destruct (C5 c m Hc Hm) as (M1 & M2 & M3). split; [done|]. split; [|done].
    intros n. apply M2. intros j pc Hin Hk. destruct (Hend j pc Hin) as (ch & -> & _). cbn. destruct ch; [|done].
    injection Hk as Hb _. exfalso. rewrite <- Hb in Hm. rewrite (C6 j Hin) in Hm; [done|]. intros j' Hj' E.
    assert (j ∈ js) as Hj by (rewrite <- C2; by apply (list_elem_of_fmap_2 fst) in Hin).
    apply list_elem_of_lookup in Hj as [i Hi]. apply list_elem_of_lookup in Hj' as [i' Hi'].
    assert (i = i') as ->; [|congruence]. eapply NoDup_lookup; [exact Hnd|..]; rewrite list_lookup_fmap, ?Hi, ?Hi'; cbn; [done|by rewrite E].
Qed.

Lemma conc_terminates x : conc_ok x → inevitably (conc_step env a) (λ y, conc_ok y ∧ all_ended y) x.
Proof.
  intros Hx. apply (inevitably_wf _ lex conc_ok _ conc_weight lex_wf); [|intros y Hy; destruct (conc_progress y); [by left|by right]|done].
  intros y z Hy Hs. split; [by eapply conc_step_inv|by apply conc_step_weight].
Qed.
End facts.

(** The goroutines of calls for distinct upstreams are distinct. *)
Lemma jobs_of_ok (a : NginxAdapter) (known : string → Backend → Prop) (us : list Upstream) :
  NoDup (cl_baseURL <$> na_clients a) → NoDup (up_Name <$> us) → (∀ u, u ∈ us → upstream_known known u) →
  jobs_ok a known (jobs_of a us).
Proof.
  intros Hb Hn Hk.
  assert (∀ j, j ∈ jobs_of a us → ∃ u, u ∈ us ∧ jb_client j ∈ na_clients a ∧ jb_name j = up_Name u ∧
    jb_desired j = desiredBackends (up_Backends u)) as Hj.
  { intros j (u & Hj & Hu)%list_elem_of_bind. apply list_elem_of_fmap in Hj as (c & -> & Hc). by exists u. }
  split.
  - clear Hk Hj. induction us as [|u us IH]; [constructor|]. rewrite fmap_cons in Hn. apply list.NoDup_cons in Hn as [Hu Hn].
    unfold jobs_of. rewrite bind_cons, fmap_app. apply list.NoDup_app. split; [|split; [|by apply IH]].
    + rewrite <- list_fmap_compose. apply (NoDup_fmap_1 fst). by rewrite <- list_fmap_compose.
    + intros k Hk1 Hk2. apply Hu. apply list_elem_of_fmap in Hk1 as (j1 & -> & H1). apply list_elem_of_fmap in H1 as (c1 & -> & _).
      apply list_elem_of_fmap in Hk2 as (j2 & E & (u2 & H2 & Hu2)%list_elem_of_bind). apply list_elem_of_fmap in H2 as (c2 & -> & _).
      injection E as _ ->. by apply list_elem_of_fmap_2.
  - by intros j (u & _ & Hc & _)%Hj.
  - intros j (u & _ & _ & _ & ->)%Hj. apply desired_keyed.
  - intros j k b (u & Hu & _ & -> & ->)%Hj. by apply Hk.
Qed.

Lemma conc_start_ok (a : NginxAdapter) {W} (wf : W → Prop) view known us (s : AdState W) : coherent a wf view known s →
  conc_ok a wf view known (jobs_of a us) (ad_world s) (conc_start a us s).
Proof.
  intros [Hw Hc]. assert (∀ j pc, (j, pc) ∈ (conc_start a us s).2 → pc = Acquire) as Hpc
    by (intros j pc (j' & [= -> ->] & _)%list_elem_of_fmap; done).
  split; cbn [conc_start fst snd]; try done.
  - rewrite <- list_fmap_compose. by rewrite list_fmap_id.
  - by intros j pc ->%Hpc.
  - intros c m Hin Hm. destruct (Hc c m Hin Hm) as (H1 & H2 & H3). by split_and!.
  - intros j Hin. discriminate (Hpc _ _ Hin).
Qed.

(** ** Calls to evaluate *)
Module calls.
Definition upstream (n : string) (bs : list Backend) : Upstream := mkUpstream n "edge" bs "nginx" None false.
Definition web (heavy : bool) : Upstream := upstream "web" [sim.web_backend heavy].
Definition old : Upstream := upstream "old" [sim.old_backend].
(** Both servers hold "web" with weight 1, and "old"; nothing is cached. *)
Definition start : AdState sim.W := mkAdState ∅ ∅ (sim.mkServer (Some false) true, sim.mkServer (Some false) true).

(** A step of the goroutine at position [i]. *)
Definition run (i : nat) (x : AdState sim.W * list (job * job_pc)) : option (AdState sim.W * list (job * job_pc)) :=
  p ← x.2 !! i;
  if ended p.2 then None else
  let '(pc', s') := @job_step map_range_reverse _ sim.env sim.adapter p.1 p.2 x.1 in
  Some (s', take i x.2 ++ (p.1, pc') :: drop (S i) x.2).
Definition runs (l : list nat) (x : AdState sim.W * list (job * job_pc)) := foldl (λ o i, o ≫= run i) (Some x) l.
Abbreviation step := (@conc_step map_range_reverse _ sim.env sim.adapter).

Lemma run_conc_step i x y : run i x = Some y → step x y.
Proof.
  destruct x as [s l]. unfold run. cbn [fst snd]. destruct (l !! i) as [[j pc]|] eqn:Hi; [|done]. cbn.
  destruct (ended pc) eqn:He; [done|]. destruct (job_step _ _ _ _ s) as [pc' s'] eqn:Hs. intros [= <-].
  rewrite <- (take_drop_middle l i _ Hi) at 1. by constructor.
Qed.
Lemma runs_conc l x y : runs l x = Some y → rtc step x y.
Proof.
  revert x. unfold runs. induction l as [|i l IH]; intros x; cbn; [by intros [= <-]|].
  destruct (run i x) as [z|] eqn:E; [|by clear; induction l as [|i l IH]].
  intros Hr. eapply rtc_l; [by eapply run_conc_step|by apply IH].
Qed.

(** The goroutine for "old" fetches, the one for "web" runs to its end on the same
    server, the first one stores what it fetched; then the other server. *)
Definition schedule : list nat := [2; 2; 2; 0; 0; 0; 0; 0; 0; 2; 2; 1; 1; 1; 1; 1; 1; 3; 3; 3; 3; 3]%nat.
Definition first : AdState sim.W * list (job * job_pc) := conc_start sim.adapter [web true; old] start.
Definition last : AdState sim.W * list (job * job_pc) := default first (runs schedule first).
Lemma last_reached : rtc step first last.
Proof. apply (runs_conc schedule). vm_compute. reflexivity. Qed.
Lemma last_ended : Forall (λ p : job * job_pc, match p.2 with Finished _ [] => True | _ => False end) last.2.
Proof. vm_compute. by repeat constructor. Qed.

(** The next call, which asks for weight 1. *)
Definition next : option error * AdState sim.W :=
  @SyncUpstream _ sim.env sim.adapter map_range_reverse schedule_reverse (web false) last.1.
Lemma next_wrong : next.1 = None ∧ server_view sim.view next.2 sim.c1 "web" !! "10.1.0.1:30080" = Some 2.
Proof. vm_compute. by split. Qed.
Lemma next_wanted : desired_weights (up_Backends (web false)) !! "10.1.0.1:30080" = Some 1.
Proof. vm_compute. reflexivity. Qed.
End calls.

(** ** Properties *)

(** Concurrent syncs converge.  When the adapter is called for several
    distinct upstreams at a time, with a cache that agrees with the servers, all
    the goroutines inevitably end, whatever their critical sections and requests
    interleave with: without errors, with every server holding exactly the
    desired servers and weights of every upstream that was synced, and what it
    held before for the others.  After a single call the cache agrees again. *)
Theorem concurrent_syncs_converge `{MapRange} {W} (env : NginxEnv W) (a : NginxAdapter)
    (wf : W → Prop) (view : W → string → string → gmap string Z) (known : string → Backend → Prop)
    (us : list Upstream) (s : AdState W) :
  NginxApi env a wf view known → NoDup (cl_baseURL <$> na_clients a) → NoDup (up_Name <$> us) →
  coherent a wf view known s → (∀ u, u ∈ us → upstream_known known u) →
  inevitably (conc_step env a) (λ '(s', l),
    (∀ j pc, (j, pc) ∈ l → ∃ ch, pc = Finished ch []) ∧
    (∀ c, c ∈ na_clients a →
      (∀ u, u ∈ us → server_view view s' c (up_Name u) = desired_weights (up_Backends u)) ∧
      ∀ n, n ∉ up_Name <$> us → server_view view s' c n = server_view view s c n) ∧
    ((length us <= 1)%nat → coherent a wf view known s')) (conc_start a us s).
Proof.
  intros api Hb Hn Hs Hk. pose proof (jobs_of_ok a known us Hb Hn Hk) as Hjs.
  eapply inevitably_mono; [apply (conc_terminates env a wf view known api _ (ad_world s) Hjs); by apply conc_start_ok|].
  intros [s' l] [Hok Hend]. destruct (ended_ok a wf view known _ _ _ Hok Hend) as (H1 & H2 & H3). split; [done|]. split.
  - intros c Hc. split.
    + intros u Hu. apply (H2 (mkJob c (up_Name u) (desiredBackends (up_Backends u)))).
      apply list_elem_of_bind. exists u. split; [by apply (list_elem_of_fmap_2 (λ c, mkJob c _ _))|done].
    + intros n Hne. apply (cc_others _ _ _ _ _ _ _ Hok). intros (j & E & (u & Hj & Hu)%list_elem_of_bind)%list_elem_of_fmap.
      apply list_elem_of_fmap in Hj as (c' & -> & _). injection E as _ ->. by apply Hne, list_elem_of_fmap_2.
  - intros Hlen. apply H3. destruct us as [|u [|]]; [constructor| |cbn in Hlen; lia]. unfold jobs_of. cbn [mbind list_bind].
    rewrite app_nil_r, <- list_fmap_compose. exact Hb.
Qed.

Lemma concurrent_syncs_converge_witness :
  inevitably calls.step (λ '(s', l), ∀ c, c ∈ na_clients sim.adapter →
    server_view sim.view s' c "web" = {["10.1.0.1:30080" := 2]} ∧ server_view sim.view s' c "old" = {["10.1.0.9:30081" := 1]})
    (conc_start sim.adapter [calls.web true; calls.old] calls.start).
Proof.
  eapply inevitably_mono.
  - apply (@concurrent_syncs_converge map_range_reverse _ sim.env sim.adapter (λ _, True) sim.view sim.known).
    + exact sim.api.
    + vm_decide.
    + vm_decide.
    + split; [exact I|]. intros c m _ Hm. discriminate Hm.
    + intros u Hu k b Hk. apply elem_of_cons in Hu as [-> |Hu]; [|apply list_elem_of_singleton in Hu as ->].
      * assert (desiredBackends (up_Backends (calls.web true)) = {["10.1.0.1:30080" := sim.web_backend true]}) as Hd by vm_decide.
        rewrite Hd in Hk. apply lookup_singleton_Some in Hk as [_ <-]. unfold sim.known. do 2 constructor.
      * assert (desiredBackends (up_Backends calls.old) = {["10.1.0.9:30081" := sim.old_backend]}) as Hd by vm_decide.
        rewrite Hd in Hk. apply lookup_singleton_Some in Hk as [_ <-]. unfold sim.known. do 3 constructor.
  - intros [s' l] (_ & Hv & _) c Hc. destruct (Hv c Hc) as [Hu _].
    pose proof (Hu (calls.web true) ltac:(constructor)) as E1. pose proof (Hu calls.old ltac:(do 2 constructor)) as E2.
    change (up_Name (calls.web true)) with "web" in E1. change (up_Name calls.old) with "old" in E2.
    rewrite E1, E2. split; vm_decide.
Defined.

(** C40. A stale listing.  Two calls of the same adapter for distinct upstreams
    can leave a listing in its cache that is out of date: a goroutine that
    fetched it before another one changed the server stores it after that one
    invalidated the cache.  The next call within the two seconds of the cache
    then returns no error and leaves the server with a weight that was not asked
    for. *)
Theorem stale_listing_race :
  ∃ x, rtc calls.step (conc_start sim.adapter [calls.web true; calls.old] calls.start) x ∧
    (∀ j pc, (j, pc) ∈ x.2 → ∃ ch, pc = Finished ch []) ∧
    let '(e, s') := @SyncUpstream _ sim.env sim.adapter map_range_reverse schedule_reverse (calls.web false) x.1 in
    e = None ∧ server_view sim.view s' sim.c1 "web" ≠ desired_weights (up_Backends (calls.web false)).
Proof.
  exists calls.last. split; [exact calls.last_reached|]. split.
  - intros j pc Hin. pose proof calls.last_ended as Hl. rewrite list.Forall_forall in Hl. specialize (Hl _ Hin).
    destruct pc as [| | | | |ch [|e es]]; try done. by exists ch.
  - change (@SyncUpstream _ sim.env sim.adapter map_range_reverse schedule_reverse (calls.web false) calls.last.1) with calls.next.
    destruct calls.next_wrong as [He Hv]. destruct calls.next as [e s']. split; [exact He|]. intros E.
    cbn [snd] in Hv. rewrite E, calls.next_wanted in Hv. discriminate Hv.
Qed.
