(* ===== verification/NginxPool.v ===== *)
(** * Concurrent calls of the NGINX adapter, all of them: nginx/nginx.go

    Any number of calls of [SyncUpstream] and [SyncAllUpstreams] on one adapter
    at a time: the goroutines of the syncs (NginxConcurrent) and of the removal
    of orphans, the phases of a call ([wg.Wait] between them), and the weighted
    semaphore that bounds how many goroutines run.  Calls that ask for the same
    thing wherever they ask for something all return, and the servers then hold
    what was asked: every request moves a server towards it, so a listing that
    is out of date still shows every difference that is left. *)
From S2P Require Export NginxConcurrent.
From Stdlib Require Import Lia.
Local Open Scope Z_scope.

(** ** The goroutines *)

(** Where a goroutine of the removal of orphans is, as [job_pc]; [changed] tells
    whether a request succeeded. *)
Inductive prune_pc :=
  | PAcquire
  | PCheckCache
  | PFetch
  | PStoreCache (parsedState : Listing)
  | PRemoving (l : list (string * Backend)) (changed : bool) (errs : list error)
  | PFinished (errs : list error).

Inductive goroutine :=
  | GSync (j : job) (pc : job_pc)
  | GPrune (c : NginxClient) (desiredUpstreams : gmap string Upstream) (pc : prune_pc).

Definition g_client (g : goroutine) : NginxClient := match g with GSync j _ => jb_client j | GPrune c _ _ => c end.
Definition g_errs (g : goroutine) : list error :=
  match g with GSync _ (Finished _ errs) | GPrune _ _ (PFinished errs) => errs | _ => [] end.
Definition g_ended (g : goroutine) : bool :=
  match g with GSync _ pc => ended pc | GPrune _ _ (PFinished _) => true | _ => false end.
(** It waits for the semaphore. *)
Definition g_waiting (g : goroutine) : bool := match g with GSync _ Acquire | GPrune _ _ PAcquire => true | _ => false end.
Definition g_holds (g : goroutine) : bool := negb (g_waiting g) && negb (g_ended g).

Section goroutines.
Context `{MapRange} {W : Type} (env : NginxEnv W) (a : NginxAdapter).

Definition prune_step (c : NginxClient) (desiredUpstreams : gmap string Upstream) (pc : prune_pc) : ST (AdState W) prune_pc := λ s,
  match pc with
  | PAcquire =>
      let '(acq, s) := in_world (ne_Acquire env) s in
      match acq with
      | Some err => (PFinished [Errorf "client %s semaphore error: %w" [FStr (cl_baseURL c); FErr err]], s)
      | None => (PCheckCache, s)
      end
  | PCheckCache =>
      match ad_cacheExp s !! cl_baseURL c, ad_cache s !! cl_baseURL c with
      | Some exp, Some m => if ne_Now env (ad_world s) <? exp then (PRemoving (orphans desiredUpstreams m) false [], s) else (PFetch, s)
      | _, _ => (PFetch, s)
      end
  | PFetch =>
      let '(r, s) := send env c (strings.TrimPrefix (ng_ListAPI (na_config a)) "/") s in
      match r with
      | Err err => (PFinished [Errorf "failed to bulk fetch upstreams from %s: %w" [FStr (cl_baseURL c); FErr err]], s)
      | Ok body => (PStoreCache (parseBulkNginxBackends body), s)
      end
  | PStoreCache m =>
      (PRemoving (orphans desiredUpstreams m) false [],
       mkAdState (<[cl_baseURL c := m]> (ad_cache s))
         (<[cl_baseURL c := ne_Now env (ad_world s) + TTL]> (ad_cacheExp s)) (ad_world s))
  | PRemoving ((name, backend) :: l) ch errs =>
      let '((e, ok), s) := remove_orphan env a name c backend s in (PRemoving l (ch || ok) (errs ++ e), s)
  | PRemoving [] ch errs => (PFinished errs, if ch then (invalidateCache (cl_baseURL c) s).2 else s)
  | PFinished errs => (PFinished errs, s)
  end.

Definition goroutine_step (g : goroutine) : ST (AdState W) goroutine := λ s,
  match g with
  | GSync j pc => let '(pc, s) := job_step env a j pc s in (GSync j pc, s)
  | GPrune c m pc => let '(pc, s) := prune_step c m pc s in (GPrune c m pc, s)
  end.

(** ** Calls *)

(** A phase starts its goroutines and waits for them; what it makes of their
    errors. *)
Record phase := mkPhase { ph_tasks : list goroutine; ph_wrap : list error → list error }.
Definition sync_tasks (u : Upstream) : list goroutine :=
  (λ c, GSync (mkJob c (up_Name u) (desiredBackends (up_Backends u))) Acquire) <$> na_clients a.
Definition prune_tasks (m : gmap string Upstream) : list goroutine := (λ c, GPrune c m PAcquire) <$> na_clients a.

Inductive request := One (u : Upstream) | All (desiredUpstreams : gmap string Upstream).
Definition desired_phase (u : Upstream) : phase :=
  mkPhase (sync_tasks u) (λ errs, match ErrorOrNil errs with
    | Some err => [Errorf "sync upstream %s failed: %w" [FStr (up_Name u); FErr err]]
    | None => []
    end).
Definition phases_of (r : request) : list phase :=
  match r with
  | One u => [mkPhase (sync_tasks u) id]
  | All m =>
      (desired_phase <$> List.filter (λ u, negb (up_PreserveExistingBackends u)) (map_range m).*2) ++
      if ng_PruneOrphans (na_config a) then [mkPhase (prune_tasks m) id] else []
  end.

(** A call: its phases to come, the goroutines of the current one, and the
    errors of the earlier ones. *)
Record adapter_call := mkCall { ac_next : list phase; ac_now : phase; ac_errs : list error }.
Definition start_call (r : request) : adapter_call := mkCall (phases_of r) (mkPhase [] id) [].
Definition phase_ended (p : phase) : bool := forallb g_ended (ph_tasks p).
Definition phase_errs (p : phase) : list error := ph_wrap p (ph_tasks p ≫= g_errs).
Definition returned (k : adapter_call) : Prop := ac_next k = [] ∧ phase_ended (ac_now k) = true.
Definition call_result (k : adapter_call) : option error := ErrorOrNil (ac_errs k ++ phase_errs (ac_now k)).

(** The errors of a phase are collected in the order the goroutines are listed;
    the code appends them in the order they occur. *)

(** The goroutines that hold the semaphore, of [GetRequestPoolSize] units. *)
Definition in_use (ks : list adapter_call) : nat := length (List.filter g_holds (ks ≫= λ k, ph_tasks (ac_now k))).
Definition capacity : Z := ng_RequestPoolSize (na_config a).

(** What a request asks the servers to hold for a name. *)
Definition asks (r : request) (n : string) (v : gmap string Z) : Prop :=
  match r with
  | One u => n = up_Name u ∧ v = desired_weights (up_Backends u)
  | All m =>
      (∃ u, m !! n = Some u ∧ up_PreserveExistingBackends u = false ∧ v = desired_weights (up_Backends u)) ∨
      (ng_PruneOrphans (na_config a) = true ∧ n ≠ "" ∧ m !! n = None ∧ v = ∅)
  end.

Inductive pool_step : AdState W * list adapter_call → AdState W * list adapter_call → Prop :=
  | pool_run s k1 next t1 g t2 wrap es k2 g' s' :
      let k := mkCall next (mkPhase (t1 ++ g :: t2) wrap) es in
      g_ended g = false → (g_waiting g = true → Z.of_nat (in_use (k1 ++ k :: k2)) < capacity) →
      goroutine_step g s = (g', s') →
      pool_step (s, k1 ++ k :: k2) (s', k1 ++ mkCall next (mkPhase (t1 ++ g' :: t2) wrap) es :: k2)
  | pool_next s k1 p next now es k2 : phase_ended now = true →
      pool_step (s, k1 ++ mkCall (p :: next) now es :: k2) (s, k1 ++ mkCall next p (es ++ phase_errs now) :: k2).
End goroutines.

(** *** One goroutine alone *)
Section alone.
Context `{MapRange} {W : Type} (env : NginxEnv W) (a : NginxAdapter).

Definition prune_run (c : NginxClient) (m : gmap string Upstream) (k : nat) (x : prune_pc * AdState W) : prune_pc * AdState W :=
  Nat.iter k (λ '(pc, s), prune_step env a c m pc s) x.
Lemma prune_run_step c m k x : prune_run c m (S k) x = prune_run c m k (prune_step env a c m x.1 x.2).
Proof. unfold prune_run. rewrite Nat.iter_succ_r. by destruct x. Qed.

Lemma prune_run_removing c m l ch errs s :
  let '((e, ok), s') := remove_orphans env a c l s in
  prune_run c m (S (length l)) (PRemoving l ch errs, s) =
  (PFinished (errs ++ e), if ch || ok then (invalidateCache (cl_baseURL c) s').2 else s').
Proof.
  revert ch errs s. induction l as [|[n b] l IH]; intros ch errs s; cbn [remove_orphans length].
  - cbn. by rewrite app_nil_r, orb_false_r.
  - rewrite prune_run_step. cbn [fst snd prune_step]. destruct (remove_orphan _ _ _ _ b s) as [[e ok] s1].
    specialize (IH (ch || ok) (errs ++ e) s1). destruct (remove_orphans _ _ _ l s1) as [[e' ok'] s2].
    by rewrite app_assoc, orb_assoc.
Qed.

(** Alone, a goroutine of the removal of orphans is [prune_client]. *)
Lemma prune_alone c m s : ∃ k, let '(errs, s') := prune_client env a m c s in
  prune_run c m k (PAcquire, s) = (PFinished errs, s').
Proof.
  unfold prune_client. destruct (in_world (ne_Acquire env) s) as [[err|] s1] eqn:Ha.
  { exists 1%nat. cbn. by rewrite Ha. }
  assert (∀ all s2, ∃ k, let '((errs, ok), s3) := remove_orphans env a c (orphans m all) s2 in
    prune_run c m k (PRemoving (orphans m all) false [], s2) =
      (PFinished errs, if ok : bool then (invalidateCache (cl_baseURL c) s3).2 else s3)) as Hp.
  { intros all s2. exists (S (length (orphans m all))). pose proof (prune_run_removing c m (orphans m all) false [] s2) as Hr.
    destruct (remove_orphans _ _ _ _ s2) as [[errs ok] s3]. exact Hr. }
  assert (∀ k x, prune_run c m k (PCheckCache, s1) = x → prune_run c m (S k) (PAcquire, s) = x) as Hfrom.
  { intros k x <-. rewrite prune_run_step. cbn [fst snd prune_step]. by rewrite Ha. }
  unfold refreshCache. cbv zeta. set (base := cl_baseURL c).
  assert (prune_step env a c m PCheckCache s1 = (PFetch, s1) → ∃ k, let '(errs, s') :=
      let '(r, s2) := let '(r, s2) := send env c (strings.TrimPrefix (ng_ListAPI (na_config a)) "/") s1 in
        match r with
        | Err err => (Err (Errorf "failed to bulk fetch upstreams from %s: %w" [FStr base; FErr err]), s2)
        | Ok body => (Ok (parseBulkNginxBackends body), mkAdState (<[base := parseBulkNginxBackends body]> (ad_cache s2))
            (<[base := ne_Now env (ad_world s2) + TTL]> (ad_cacheExp s2)) (ad_world s2))
        end in
      match r with
      | Err err => ([err], s2)
      | Ok all =>
          let '((errs, changed), s3) := remove_orphans env a c (orphans m all) s2 in
          (errs, if changed : bool then (invalidateCache base s3).2 else s3)
      end in prune_run c m k (PAcquire, s) = (PFinished errs, s')) as Hmiss.
  { intros Hc. destruct (send _ _ _ s1) as [[body|err] s2] eqn:Hs.
    - set (s2' := mkAdState _ _ _). destruct (Hp (parseBulkNginxBackends body) s2') as (k & Hk).
      destruct (remove_orphans _ _ _ _ s2') as [[errs ok] s3]. exists (S (S (S (S k)))). apply Hfrom.
      rewrite !prune_run_step. cbn [fst snd]. rewrite Hc. cbn [fst snd prune_step]. rewrite Hs. exact Hk.
    - exists 3%nat. apply Hfrom. rewrite !prune_run_step. cbn [fst snd]. rewrite Hc. cbn [fst snd prune_step]. by rewrite Hs. }
  cbn [prune_step] in Hmiss. fold base in Hmiss.
  destruct (ad_cacheExp s1 !! base) as [exp|] eqn:He; [|by apply Hmiss]. destruct (_ <? exp) eqn:Hexp.
  2: { apply Hmiss. by destruct (ad_cache s1 !! base). }
  destruct (ad_cache s1 !! base) as [m'|] eqn:Hm; [|by apply Hmiss].
  destruct (Hp m' s1) as (k & Hk). destruct (remove_orphans _ _ _ _ s1) as [[errs ok] s3]. exists (S (S k)). apply Hfrom.
  rewrite prune_run_step. cbn [fst snd prune_step]. fold base. by rewrite He, Hm, Hexp.
Qed.
End alone.

(** ** Requests move a server towards what is asked *)

Definition act_key (act : action) : string := match act with Add b | Remove b => backendKey b end.
Definition act_val (act : action) : option Z := match act with Add b => Some (be_Weight b) | Remove _ => None end.

Lemma apply_action_lookup v act k : apply_action v act !! k = if decide (k = act_key act) then act_val act else v !! k.
Proof.
  destruct act as [b|b]; cbn; case_decide as E; subst; by rewrite ?lookup_insert_eq, ?lookup_delete_eq, ?lookup_insert_ne, ?lookup_delete_ne.
Qed.
Lemma foldl_untouched acts v k : k ∉ act_key <$> acts → foldl apply_action v acts !! k = v !! k.
Proof.
  revert v. induction acts as [|act acts IH]; intros v Hk; [done|]. rewrite fmap_cons, not_elem_of_cons in Hk. destruct Hk as [H1 H2].
  cbn [foldl]. rewrite IH by done. rewrite apply_action_lookup. by rewrite decide_False.
Qed.

Section plan_keys.
Context `{MapRange} (desired : gmap string Backend) (current : list Backend).
Hypothesis Hk : keyed desired.
Abbreviation wish := (be_Weight <$> desired).

(** Every difference has a request, and every request makes its key right. *)
Lemma plan_covers k : server_state current !! k ≠ wish !! k → k ∈ act_key <$> plan desired current.
Proof.
  intros Hne. destruct (decide (k ∈ act_key <$> plan desired current)) as [|Hn]; [done|]. exfalso. apply Hne.
  by rewrite <- (plan_effect desired current Hk), foldl_untouched.
Qed.
Lemma plan_right act : act ∈ plan desired current → wish !! act_key act = act_val act.
Proof.
  unfold plan. rewrite elem_of_app. intros [(b & -> & (k & _ & Hb)%list_elem_of_omap)%list_elem_of_fmap|
    (b & -> & (k & _ & Hb)%list_elem_of_omap)%list_elem_of_fmap]; cbn; rewrite lookup_fmap.
  - rewrite diff_updates in Hb by done. apply map_lookup_filter_Some in Hb as [Hb _]. by rewrite (Hk k b Hb), Hb.
  - destruct (diff_removes desired current k) as [Hr Hkr]. rewrite (Hkr k b Hb).
    by rewrite (proj2 (proj1 Hr ltac:(by eexists))).
Qed.
End plan_keys.

(** ** The invariant *)

Section converge.
Context `{MapRange} {W : Type} (env : NginxEnv W) (a : NginxAdapter).
Context (wf : W → Prop) (view : W → string → string → gmap string Z) (known : string → Backend → Prop).
Hypothesis api : NginxApi env a wf view known.
Hypothesis bases : NoDup (cl_baseURL <$> na_clients a).
(** What is asked for a name, at most one thing. *)
Context (want : string → gmap string Z → Prop).
Hypothesis want_fun : ∀ n t t', want n t → want n t' → t = t'.
Implicit Types (w : W) (s : AdState W) (g : goroutine).

(** From [w] to [w'] each weight stays or becomes the one that is asked. *)
Definition moves w w' : Prop := ∀ base n k,
  view w' base n !! k = view w base n !! k ∨ ∃ t, want n t ∧ view w' base n !! k = t !! k.
Global Instance moves_preorder : PreOrder moves.
Proof.
  split; [by left|]. intros w1 w2 w3 H1 H2 base n k. destruct (H2 base n k) as [->|?]; [apply H1|by right].
Qed.
Lemma moves_same w w' : same_view view w w' → moves w w'.
Proof. intros Hv base n k. left. by rewrite Hv. Qed.
Lemma moves_arrived w w' base n t : moves w w' → want n t → view w base n = t → view w' base n = t.
Proof.
  intros Hm Ht E. apply map_eq. intros k. destruct (Hm base n k) as [->|(t' & Ht' & ->)]; [by rewrite E|].
  by rewrite (want_fun n t' t).
Qed.

(** A listing that shows every difference between a server and what is asked. *)
Definition fresh w (base : string) (m : Listing) : Prop :=
  m !! "" = None ∧
  (∀ n k, server_state (default [] (m !! n)) !! k = view w base n !! k ∨ ∃ t, want n t ∧ view w base n !! k = t !! k) ∧
  ∀ n bs b, m !! n = Some bs → b ∈ bs → known n b.
Lemma fresh_moves w w' base m : moves w w' → fresh w base m → fresh w' base m.
Proof.
  intros Hm (H1 & H2 & H3). split; [done|]. split; [|done]. intros n k.
  destruct (Hm base n k) as [->|?]; [apply H2|by right].
Qed.
Lemma agree_fresh w base m : agree view known m w base → fresh w base m.
Proof. intros (H1 & H2 & H3). split; [done|]. split; [|done]. intros n k. left. by rewrite H2. Qed.
Lemma fresh_known w base m n b : fresh w base m → b ∈ default [] (m !! n) → known n b.
Proof. intros (_ & _ & Hk). destruct (m !! n) as [bs|] eqn:E; cbn; [by apply (Hk n bs)|by intros ?%not_elem_of_nil]. Qed.

Definition orphan_key (nb : string * Backend) : string * string := (nb.1, backendKey nb.2).
Definition orphaned (m : gmap string Upstream) (n : string) : Prop := n ≠ "" ∧ m !! n = None.

(** What a goroutine needs, and what it has left to do. *)
Definition sync_fine w (j : job) (pc : job_pc) : Prop :=
  let v := view w (cl_baseURL (jb_client j)) (jb_name j) in
  match pc with
  | Acquire | CheckCache | Fetch => True
  | StoreCache m => fresh w (cl_baseURL (jb_client j)) m
  | Sending acts _ errs => errs = [] ∧ Forall (action_known known (jb_name j)) acts ∧
      (∀ act, act ∈ acts → wanted j !! act_key act = act_val act) ∧ ∀ k, v !! k ≠ wanted j !! k → k ∈ act_key <$> acts
  | Finished _ errs => errs = [] ∧ v = wanted j
  end.
Definition prune_fine w (c : NginxClient) (m : gmap string Upstream) (pc : prune_pc) : Prop :=
  match pc with
  | PAcquire | PCheckCache | PFetch => True
  | PStoreCache all => fresh w (cl_baseURL c) all
  | PRemoving l _ errs => errs = [] ∧ (∀ n b, (n, b) ∈ l → orphaned m n ∧ known n b) ∧
      ∀ n k, orphaned m n → is_Some (view w (cl_baseURL c) n !! k) → (n, k) ∈ orphan_key <$> l
  | PFinished errs => errs = [] ∧ ∀ n, orphaned m n → view w (cl_baseURL c) n = ∅
  end.
Definition task_fine w g : Prop :=
  g_client g ∈ na_clients a ∧
  match g with
  | GSync j pc => keyed (jb_desired j) ∧ (∀ k b, jb_desired j !! k = Some b → known (jb_name j) b) ∧
      want (jb_name j) (wanted j) ∧ sync_fine w j pc
  | GPrune c m pc => (∀ n, orphaned m n → want n ∅) ∧ prune_fine w c m pc
  end.

Lemma fine_moves w w' g : moves w w' → task_fine w g → task_fine w' g.
Proof.
  intros Hm [Hc Hg]. split; [done|]. destruct g as [j pc|c m pc].
  - destruct Hg as (H1 & H2 & Hw & Hf). split_and!; [done..|].
    assert (∀ k, view w' (cl_baseURL (jb_client j)) (jb_name j) !! k ≠ wanted j !! k →
      view w (cl_baseURL (jb_client j)) (jb_name j) !! k ≠ wanted j !! k) as Hk.
    { intros k Hne. destruct (Hm (cl_baseURL (jb_client j)) (jb_name j) k) as [E|(t & Ht & E)]; [by rewrite <- E|].
      destruct Hne. by rewrite E, (want_fun _ _ _ Ht Hw). }
    destruct pc as [| | |l|acts ch errs|ch errs]; cbn [sync_fine] in *; try done.
    + by eapply fresh_moves.
    + destruct Hf as (? & ? & ? & Hl). split_and!; try done. intros k Hne. by apply Hl, Hk.
    + destruct Hf as [? E]. split; [done|]. by eapply moves_arrived.
  - destruct Hg as (Hw & Hf). split; [done|]. destruct pc as [| | |l|l ch errs|errs]; cbn [prune_fine] in *; try done.
    + by eapply fresh_moves.
    + destruct Hf as (? & ? & Hl). split_and!; try done. intros n k Ho Hs. apply Hl; [done|].
      destruct (Hm (cl_baseURL c) n k) as [<- |(t & Ht & E)]; [done|]. exfalso.
      rewrite E, (want_fun _ _ _ Ht (Hw n Ho)), lookup_empty in Hs. by destruct Hs.
    + destruct Hf as [? E]. split; [done|]. intros n Ho. eapply moves_arrived; [done|by apply Hw|by apply E].
Qed.

Definition cache_fine s : Prop :=
  wf (ad_world s) ∧ ∀ c m, c ∈ na_clients a → ad_cache s !! cl_baseURL c = Some m → fresh (ad_world s) (cl_baseURL c) m.

(** What a step keeps: the cache, and the direction. *)
Record step_fine s g s' g' : Prop := {
  sf_cache : cache_fine s';
  sf_moves : moves (ad_world s) (ad_world s');
  sf_fine : task_fine (ad_world s') g'
}.
Lemma cache_fine_world s w' : cache_fine s → wf w' → moves (ad_world s) w' → cache_fine (mkAdState (ad_cache s) (ad_cacheExp s) w').
Proof. intros [_ Hc] Hw Hm. split; [done|]. intros c m Hin Hl. eapply fresh_moves; [done|by apply Hc]. Qed.
Lemma cache_fine_store s base m : cache_fine s → fresh (ad_world s) base m → ∀ exp,
  cache_fine (mkAdState (<[base := m]> (ad_cache s)) exp (ad_world s)).
Proof.
  intros [Hw Hc] Hm exp. split; [done|]. cbn. intros c l Hin Hl. destruct (decide (base = cl_baseURL c)) as [->|Hne].
  - rewrite lookup_insert_eq in Hl. by injection Hl as <-.
  - rewrite lookup_insert_ne in Hl by done. by apply Hc.
Qed.
Lemma cache_fine_drop s base : cache_fine s → cache_fine (invalidateCache base s).2.
Proof. intros [Hw Hc]. split; [done|]. cbn. intros c l Hin [_ Hl]%lookup_delete_Some. by apply Hc. Qed.

(** The requests of the plan are right and enough, whatever moved since. *)
Lemma planned_fine w j m : fresh w (cl_baseURL (jb_client j)) m → keyed (jb_desired j) →
  (∀ k b, jb_desired j !! k = Some b → known (jb_name j) b) → want (jb_name j) (wanted j) → sync_fine w j (planned j m).
Proof.
  intros Hf Hk Hd Hw. pose proof Hf as (M1 & M2 & _). unfold planned, sync_fine. cbv zeta. rewrite current_named by done.
  split_and!; [done| | |].
  - apply plan_known; [done..|]. intros b Hb. exact (fresh_known w _ m _ b Hf Hb).
  - intros act. by apply plan_right.
  - intros k Hne. apply plan_covers; [done|]. fold (wanted j). destruct (M2 (jb_name j) k) as [->|(t & Ht & E)]; [done|].
    destruct Hne. by rewrite E, (want_fun _ _ _ Ht Hw).
Qed.
Lemma orphans_fine w c m all : fresh w (cl_baseURL c) all → (∀ n, orphaned m n → want n ∅) → ∀ ch,
  prune_fine w c m (PRemoving (orphans m all) ch []).
Proof.
  intros Hf Hw ch. pose proof Hf as (M1 & M2 & _). cbn [prune_fine]. split_and!; [done| |].
  - intros n b (Hn & Hm & Hb)%(orphans_elem env a wf view known api bases). split; [done|]. by eapply fresh_known.
  - intros n k Ho Hs. destruct (M2 n k) as [E|(t & Ht & E)].
    + rewrite <- E in Hs. apply server_state_elem, list_elem_of_fmap in Hs as (b & -> & Hb). apply list_elem_of_fmap.
      exists (n, b). split; [done|]. apply (orphans_elem env a wf view known api bases). by destruct Ho.
    + exfalso. rewrite E, (want_fun _ _ _ Ht (Hw n Ho)), lookup_empty in Hs. by destruct Hs.
Qed.

(** One step of a goroutine. *)
Lemma sync_step_fine s j pc pc' s' : cache_fine s → task_fine (ad_world s) (GSync j pc) →
  job_step env a j pc s = (pc', s') → step_fine s (GSync j pc) s' (GSync j pc').
Proof.
  intros Hs Hg Hstep. pose proof Hg as [Hc (Hk & Hd & Hw & Hf)]. cbn [g_client] in Hc. pose proof (proj1 Hs) as Hwf.
  assert (∀ w', moves (ad_world s) w' → sync_fine w' j pc' → task_fine w' (GSync j pc')) as Hfine by done.
  destruct pc as [| | |m|[|act acts] ch errs|ch errs]; cbn [job_step] in Hstep.
  - unfold in_world in Hstep. destruct (api_acquire _ _ _ _ _ api (ad_world s) Hwf) as (w' & E & Hw' & Hv%moves_same).
    rewrite E in Hstep. injection Hstep as <- <-. split; [by apply cache_fine_world|done|by apply Hfine].
  - assert (step_fine s (GSync j CheckCache) s (GSync j Fetch)) as Hmiss by (split; done).
    destruct (ad_cacheExp s !! _); [|by injection Hstep as <- <-].
    destruct (ad_cache s !! cl_baseURL (jb_client j)) as [m|] eqn:Hm; [|by injection Hstep as <- <-].
    destruct (_ <? _); injection Hstep as <- <-; [|done]. split; [done..|]. apply Hfine; [done|].
    apply planned_fine; [|done..]. by apply Hs.
  - destruct (api_list _ _ _ _ _ api (jb_client j) (ad_world s) Hc Hwf) as (body & w' & Hb & Hw' & Hv%moves_same & Ha).
    rewrite (send_200 _ _ _ _ _ _ Hb) in Hstep. injection Hstep as <- <-. split; [by apply cache_fine_world|done|].
    apply Hfine; [done|]. cbn [sync_fine]. eapply fresh_moves; [done|by apply agree_fresh].
  - injection Hstep as <- <-. cbn [sync_fine] in Hf. split; [by apply cache_fine_store|done|].
    apply Hfine; [done|]. by apply planned_fine.
  - injection Hstep as <- <-. destruct Hf as (-> & _ & _ & Hl).
    assert (view (ad_world s) (cl_baseURL (jb_client j)) (jb_name j) = wanted j) as E.
    { apply map_eq. intros k. destruct (decide (view (ad_world s) (cl_baseURL (jb_client j)) (jb_name j) !! k = wanted j !! k)) as [|Hne]; [done|].
      apply Hl in Hne. by apply not_elem_of_nil in Hne. }
    destruct ch; (split; [by try apply cache_fine_drop|done|by apply Hfine]).
  - destruct Hf as (-> & [Hk1 Hk2]%list.Forall_cons & Hr & Hl).
    destruct (run_action_ok env a wf view known api (jb_client j) (jb_name j) act s Hc Hwf Hk1) as (s1 & E & Hw1 & Hca & Hv & Ho).
    rewrite E in Hstep. injection Hstep as <- <-.
    assert (moves (ad_world s) (ad_world s1)) as Hm.
    { intros base n k. destruct (decide (base = cl_baseURL (jb_client j) ∧ n = jb_name j)) as [[-> ->]|Hne]; [|left; by rewrite Ho].
      rewrite Hv, apply_action_lookup. case_decide as Ek; [right|by left]. exists (wanted j). split; [done|]. subst k.
      symmetry. apply Hr. by constructor. }
    split; [|done|].
    + destruct s as [ca ex w], s1 as [ca1 ex1 w1]. cbn in *. subst ca1. split; [done|]. intros c m Hin Hl'. eapply fresh_moves; [done|by apply Hs].
    + apply Hfine; [done|]. cbn [sync_fine]. split; [done|]. split; [done|]. split.
      * intros act' Hin. apply Hr. by constructor.
      * intros k. rewrite Hv, apply_action_lookup. case_decide as Ek.
        -- subst k. intros Hne. destruct Hne. symmetry. apply Hr. by constructor.
        -- intros [->|Hin]%Hl%elem_of_cons; done.
  - injection Hstep as <- <-. by split.
Qed.

Lemma prune_step_fine s c m pc pc' s' : cache_fine s → task_fine (ad_world s) (GPrune c m pc) →
  prune_step env a c m pc s = (pc', s') → step_fine s (GPrune c m pc) s' (GPrune c m pc').
Proof.
  intros Hs Hg Hstep. pose proof Hg as [Hc (Hw & Hf)]. cbn [g_client] in Hc. pose proof (proj1 Hs) as Hwf.
  assert (∀ w', prune_fine w' c m pc' → task_fine w' (GPrune c m pc')) as Hfine by done.
  destruct pc as [| | |all|[|[n b] l] ch errs|errs]; cbn [prune_step] in Hstep.
  - unfold in_world in Hstep. destruct (api_acquire _ _ _ _ _ api (ad_world s) Hwf) as (w' & E & Hw' & Hv%moves_same).
    rewrite E in Hstep. injection Hstep as <- <-. split; [by apply cache_fine_world|done|by apply Hfine].
  - assert (step_fine s (GPrune c m PCheckCache) s (GPrune c m PFetch)) as Hmiss by (split; done).
    destruct (ad_cacheExp s !! _); [|by injection Hstep as <- <-].
    destruct (ad_cache s !! cl_baseURL c) as [all|] eqn:Hm; [|by injection Hstep as <- <-].
    destruct (_ <? _); injection Hstep as <- <-; [|done]. split; [done..|]. apply Hfine.
    apply orphans_fine; [|done]. by apply Hs.
  - destruct (api_list _ _ _ _ _ api c (ad_world s) Hc Hwf) as (body & w' & Hb & Hw' & Hv%moves_same & Ha).
    rewrite (send_200 _ _ _ _ _ _ Hb) in Hstep. injection Hstep as <- <-. split; [by apply cache_fine_world|done|].
    apply Hfine. cbn [prune_fine]. eapply fresh_moves; [done|by apply agree_fresh].
  - injection Hstep as <- <-. cbn [prune_fine] in Hf. split; [by apply cache_fine_store|done|].
    apply Hfine. by apply orphans_fine.
  - injection Hstep as <- <-. destruct Hf as (-> & _ & Hl).
    assert (prune_fine (ad_world s) c m (PFinished [])) as Hend.
    { split; [done|]. intros n Ho. apply map_eq. intros k. rewrite lookup_empty. apply eq_None_not_Some. intros Hk.
      apply (Hl n k Ho) in Hk. by apply not_elem_of_nil in Hk. }
    destruct ch; (split; [by try apply cache_fine_drop|done|by apply Hfine]).
  - destruct Hf as (-> & Hr & Hl). destruct (Hr n b ltac:(by constructor)) as [Ho Hkb]. unfold remove_orphan in Hstep.
    destruct (api_remove _ _ _ _ _ api c (ad_world s) n b Hc Hwf Hkb) as (body & w' & Hb & Hw' & Hv).
    rewrite (send_200 _ _ _ _ _ _ Hb) in Hstep. injection Hstep as <- <-.
    assert (moves (ad_world s) w') as Hm.
    { intros base n' k. rewrite Hv. case_decide as E; [destruct E as [-> ->]|by left].
      destruct (decide (k = backendKey b)) as [->|Hne]; [right|left; by rewrite lookup_delete_ne].
      exists ∅. split; [by apply Hw|]. by rewrite lookup_delete_eq, lookup_empty. }
    split; [by apply cache_fine_world|done|]. apply Hfine. cbn [prune_fine ad_world]. split; [done|]. split.
    + intros n' b' Hin. apply Hr. by constructor.
    + intros n' k Ho' Hk. rewrite Hv in Hk.
      assert ((n', k) ≠ orphan_key (n, b) ∧ is_Some (view (ad_world s) (cl_baseURL c) n' !! k)) as [Hne Hk'].
      { case_decide as E.
        - destruct E as [_ ->]. destruct (decide (k = backendKey b)) as [->|Hne]; [by rewrite lookup_delete_eq in Hk; destruct Hk|].
          rewrite lookup_delete_ne in Hk by done. split; [by intros [= ->]|done].
        - split; [intros [= -> ->]; by destruct E|done]. }
      apply (Hl n' k Ho') in Hk'. by apply elem_of_cons in Hk' as [?|?].
  - injection Hstep as <- <-. by split.
Qed.

Lemma goroutine_step_fine s g g' s' : cache_fine s → task_fine (ad_world s) g → goroutine_step env a g s = (g', s') →
  step_fine s g s' g'.
Proof.
  intros Hs Hg Hstep. destruct g as [j pc|c m pc]; cbn [goroutine_step] in Hstep.
  - destruct (job_step env a j pc s) as [pc' s1] eqn:E. injection Hstep as <- <-. by apply sync_step_fine.
  - destruct (prune_step env a c m pc s) as [pc' s1] eqn:E. injection Hstep as <- <-. by apply prune_step_fine.
Qed.

Lemma ended_fine w g : g_ended g = true → task_fine w g → g_errs g = [] ∧
  match g with
  | GSync j _ => view w (cl_baseURL (jb_client j)) (jb_name j) = wanted j
  | GPrune c m _ => ∀ n, orphaned m n → view w (cl_baseURL c) n = ∅
  end.
Proof.
  destruct g as [j []|c m []]; try done; intros _ [_ Hf]; cbn in *; [destruct Hf as (_ & _ & _ & -> & Hv)|destruct Hf as (_ & -> & Hv)]; done.
Qed.

(** *** Calls *)

(** The upstreams on the servers a goroutine is for. *)
Definition promise g (c : NginxClient) (n : string) : Prop :=
  match g with
  | GSync j _ => jb_client j = c ∧ jb_name j = n
  | GPrune c' m _ => c' = c ∧ orphaned m n
  end.
Lemma promise_kept w g c n t : g_ended g = true → task_fine w g → promise g c n → want n t → view w (cl_baseURL c) n = t.
Proof.
  intros He Hg Hp Ht. destruct (ended_fine w g He Hg) as [_ Hv]. destruct g as [j pc|c' m pc]; destruct Hp as [<- Hp].
  - destruct Hg as [_ (_ & _ & Hw & _)]. subst n. by rewrite Hv, (want_fun _ _ _ Ht Hw).
  - destruct Hg as [_ (Hw & _)]. by rewrite (Hv n Hp), (want_fun _ _ _ Ht (Hw n Hp)).
Qed.
Lemma step_promise s g g' s' c n : goroutine_step env a g s = (g', s') → promise g' c n ↔ promise g c n.
Proof.
  destruct g as [j pc|c' m pc]; cbn [goroutine_step]; [destruct (job_step _ _ _ _ s)|destruct (prune_step _ _ _ _ _ s)];
    by intros [= <- _].
Qed.

Definition tasks_of (k : adapter_call) : list goroutine := ph_tasks (ac_now k) ++ (ac_next k ≫= ph_tasks).
Context (reqs : list request).
Hypothesis asks_want : ∀ r n t, r ∈ reqs → asks a r n t → want n t.
Record call_fine w (r : request) (k : adapter_call) : Prop := {
  cf_req : r ∈ reqs;
  cf_tasks : ∀ g, g ∈ tasks_of k → task_fine w g;
  cf_errs : ac_errs k = [];
  cf_wrap : ph_wrap (ac_now k) [] = [] ∧ ∀ p, p ∈ ac_next k → ph_wrap p [] = [];
  cf_asks : ∀ c n t, c ∈ na_clients a → asks a r n t →
    view w (cl_baseURL c) n = t ∨ ∃ g, g ∈ tasks_of k ∧ promise g c n
}.

Lemma call_fine_moves w w' r k : moves w w' → call_fine w r k → call_fine w' r k.
Proof.
  intros Hm [Hr H1 H2 H3 H4]. split; [done| |done..|].
  - intros g Hg. eapply fine_moves; [done|by apply H1].
  - intros c n t Hc Ht. destruct (H4 c n t Hc Ht) as [E|?]; [left|by right]. eapply moves_arrived; [done|by eapply asks_want|done].
Qed.

Lemma phase_errs_ended w p : ph_wrap p [] = [] → phase_ended p = true → (∀ g, g ∈ ph_tasks p → task_fine w g) → phase_errs p = [].
Proof.
  unfold phase_ended, phase_errs. intros Hw He Hf. assert (ph_tasks p ≫= g_errs = []) as ->; [|done].
  revert He Hf. generalize (ph_tasks p). intros l. induction l as [|g l IH]; intros He Hf; [done|].
  cbn in He. apply andb_true_iff in He as [Hg He]. rewrite bind_cons.
  destruct (ended_fine w g Hg (Hf g ltac:(by constructor))) as [-> _]. apply IH; [done|]. intros x Hx. apply Hf. by constructor.
Qed.

Lemma call_fine_next w r p next now es : phase_ended now = true → call_fine w r (mkCall (p :: next) now es) →
  call_fine w r (mkCall next p (es ++ phase_errs now)).
Proof.
  intros He [Hr H1 H2 [H3 H3'] H4]. unfold tasks_of in *. cbn [ac_next ac_now ac_errs] in *. rewrite bind_cons in *.
  split; cbn [ac_next ac_now ac_errs]; [done|..].
  - intros g Hg. apply H1. apply elem_of_app. by right.
  - rewrite H2. apply (phase_errs_ended w); [done..|]. intros g Hg. apply H1, elem_of_app. by left.
  - split; [apply H3'; by constructor|]. intros q Hq. apply H3'. by constructor.
  - intros c n t Hc Ht. destruct (H4 c n t Hc Ht) as [?|(g & Hg & Hp)]; [by left|]. apply elem_of_app in Hg as [Hg|Hg].
    + left. eapply promise_kept; [|apply H1, elem_of_app; by left|done|by eapply asks_want].
      unfold phase_ended in He. rewrite forallb_forall in He. by apply He, list_elem_of_In.
    + right. by exists g.
Qed.

Lemma call_fine_run w w' r next t1 g g' t2 wrap es : moves w w' → task_fine w' g' → (∀ c n, promise g' c n ↔ promise g c n) →
  call_fine w r (mkCall next (mkPhase (t1 ++ g :: t2) wrap) es) → call_fine w' r (mkCall next (mkPhase (t1 ++ g' :: t2) wrap) es).
Proof.
  intros Hm Hg Hp Hf. apply (call_fine_moves w w') in Hf; [|done]. destruct Hf as [Hr H1 H2 H3 H4].
  unfold tasks_of in *. cbn [ac_next ac_now ac_errs ph_tasks ph_wrap] in *.
  assert (∀ x l, x ∈ (t1 ++ l :: t2) ++ (next ≫= ph_tasks) ↔ x = l ∨ x ∈ t1 ++ t2 ++ (next ≫= ph_tasks)) as Hin.
  { intros x l. rewrite !elem_of_app, elem_of_cons. tauto. }
  split; cbn [ac_next ac_now ac_errs ph_tasks ph_wrap]; [done| |done..|].
  - intros x [->|Hx]%Hin; [done|]. apply H1, Hin. by right.
  - intros c n t Hc Ht. destruct (H4 c n t Hc Ht) as [?|(x & [->|Hx]%Hin & Hpx)]; [by left|right..].
    + exists g'. split; [apply Hin; by left|by apply Hp].
    + exists x. split; [apply Hin; by right|done].
Qed.

Record pool_fine w0 (x : AdState W * list adapter_call) : Prop := {
  pf_cache : cache_fine x.1;
  pf_moves : moves w0 (ad_world x.1);
  pf_calls : Forall2 (call_fine (ad_world x.1)) reqs x.2
}.

Lemma pool_step_fine w0 x y : pool_fine w0 x → pool_step env a x y → pool_fine w0 y.
Proof.
  intros [H1 H2 H3] Hs. destruct Hs as [s k1 next t1 g t2 wrap es k2 g' s' k He _ Hstep|s k1 p next now es k2 He]; cbn [fst snd] in *.
  - apply Forall2_app_inv_r in H3 as (r1 & r2' & F1 & F2 & Er). apply Forall2_cons_inv_r in F2 as (r & r2 & Fk & F2 & ->).
    assert (task_fine (ad_world s) g) as Hg by (apply (cf_tasks _ _ _ Fk); unfold tasks_of, k; cbn; set_solver).
    destruct (goroutine_step_fine s g g' s' H1 Hg Hstep) as [S1 S2 S3].
    assert (∀ rs ks, Forall2 (call_fine (ad_world s)) rs ks → Forall2 (call_fine (ad_world s')) rs ks) as Hall.
    { intros rs ks Hf. eapply Forall2_impl; [|exact Hf]. intros q kq. by apply call_fine_moves. }
    split; cbn [fst snd]; [done|by etrans|]. refine (eq_rect_r (λ l, Forall2 _ l _) _ Er). apply Forall2_app; [by apply Hall|]. constructor; [|by apply Hall].
    eapply call_fine_run; [done..| |exact Fk]. intros c n. by eapply step_promise.
  - apply Forall2_app_inv_r in H3 as (r1 & r2' & F1 & F2 & Er). apply Forall2_cons_inv_r in F2 as (r & r2 & Fk & F2 & ->).
    split; cbn [fst snd]; [done..|]. refine (eq_rect_r (λ l, Forall2 _ l _) _ Er). apply Forall2_app; [done|]. constructor; [|done]. by apply call_fine_next.
Qed.
End converge.

(** ** Every call returns *)

Section termination.
Context `{MapRange} {W : Type} (env : NginxEnv W) (a : NginxAdapter).
Implicit Types (x y : AdState W * list adapter_call).

Definition prune_weight (pc : prune_pc) : nat * nat :=
  match pc with
  | PAcquire => (4, 0) | PCheckCache => (3, 0) | PFetch => (2, 0) | PStoreCache _ => (1, 0)
  | PRemoving l _ _ => (0, S (length l)) | PFinished _ => (0, 0)
  end%nat.
Definition g_weight (g : goroutine) : nat * nat := match g with GSync _ pc => pc_weight pc | GPrune _ _ pc => prune_weight pc end.
Definition tasks_weight (l : list goroutine) : nat * nat :=
  (sum_list_with (λ g, (g_weight g).1) l, sum_list_with (λ g, (g_weight g).2) l).
Definition call_weight (k : adapter_call) : nat * nat :=
  ((tasks_weight (ph_tasks (ac_now k))).1 + sum_list_with (λ p, S (tasks_weight (ph_tasks p)).1) (ac_next k),
   (tasks_weight (ph_tasks (ac_now k))).2 + sum_list_with (λ p, (tasks_weight (ph_tasks p)).2) (ac_next k))%nat.
Definition pool_weight x : nat * nat :=
  (sum_list_with (λ k, (call_weight k).1) x.2, sum_list_with (λ k, (call_weight k).2) x.2).

Lemma goroutine_step_weight g s g' s' : g_ended g = false → goroutine_step env a g s = (g', s') → lex (g_weight g') (g_weight g).
Proof.
  intros He Hs. destruct g as [j pc|c m pc]; cbn [goroutine_step g_ended] in *.
  - destruct (job_step env a j pc s) as [pc' s1] eqn:E. injection Hs as <- _. cbn. by eapply job_step_weight.
  - destruct (prune_step env a c m pc s) as [pc' s1] eqn:E. injection Hs as <- _. cbn [g_weight].
    destruct pc as [| | |all|[|[n b] l] ch errs|errs]; cbn [prune_step] in E; [..|done].
    + destruct (in_world _ s) as [[err|] s2]; injection E as <- _; left; cbn; lia.
    + destruct (ad_cacheExp s !! _); [|injection E as <- _; left; cbn; lia].
      destruct (ad_cache s !! _); [|injection E as <- _; left; cbn; lia].
      destruct (_ <? _); injection E as <- _; left; cbn; lia.
    + destruct (send _ _ _ s) as [[body|err] s2]; injection E as <- _; left; cbn; lia.
    + injection E as <- _. left. cbn. lia.
    + injection E as <- _. right. cbn. lia.
    + destruct (remove_orphan _ _ _ _ _ s) as [[e ok] s2]. injection E as <- _. right. cbn. lia.
Qed.

Lemma pool_step_weight x y : pool_step env a x y → lex (pool_weight y) (pool_weight x).
Proof.
  intros Hs. destruct Hs as [s k1 next t1 g t2 wrap es k2 g' s' k He _ Hstep|s k1 p next now es k2 He].
  - apply goroutine_step_weight in Hstep; [|done]. unfold lex, pool_weight, call_weight, tasks_weight, k in *. cbn [fst snd].
    rewrite !sum_list_with_app. cbn [sum_list_with ac_now ac_next ph_tasks fst snd]. rewrite !sum_list_with_app. cbn [sum_list_with]. lia.
  - left. unfold pool_weight, call_weight. cbn [fst snd]. rewrite !sum_list_with_app. cbn [sum_list_with ac_now ac_next fst snd]. lia.
Qed.

Definition all_returned x : Prop := ∀ k, k ∈ x.2 → returned k.

(** The semaphore blocks no one for ever: when every goroutine that has not ended
    waits for it, it is free. *)
Lemma pool_progress x : 1 <= capacity a → all_returned x ∨ ∃ y, pool_step env a x y.
Proof.
  intros Hcap. destruct x as [s ks].
  assert (∀ k1 k k2 g, ks = k1 ++ k :: k2 → g ∈ ph_tasks (ac_now k) → g_ended g = false →
    (g_waiting g = true → Z.of_nat (in_use ks) < capacity a) → ∃ y, pool_step env a (s, ks) y) as Hrun.
  { intros k1 [next [ts wrap] es] k2 g -> (t1 & t2 & E)%list_elem_of_split He Hw. cbn in E. subst ts.
    destruct (goroutine_step env a g s) as [g' s'] eqn:Hs. eexists. by eapply (pool_run env a s k1 next t1 g t2 wrap es k2). }
  destruct (decide (Forall (λ g, g_ended g = true) (ks ≫= λ k, ph_tasks (ac_now k)))) as [Hall|Hsome].
  - destruct (decide (Forall (λ k, length (ac_next k) = 0%nat) ks)) as [Hn|Hn].
    + left. intros k Hk. rewrite !list.Forall_forall in *. split; [by apply nil_length_inv, Hn|].
      apply forallb_forall. intros g Hg%list_elem_of_In. apply Hall, list_elem_of_bind. by exists k.
    + right. apply not_Forall_Exists in Hn; [|intros k; apply _]. apply list.Exists_exists in Hn as (k & Hk & Hne).
      apply list_elem_of_split in Hk as (k1 & k2 & ->). destruct k as [[|p next] now es]; [by destruct Hne|]. eexists. apply pool_next.
      apply forallb_forall. intros g Hg%list_elem_of_In. rewrite list.Forall_forall in Hall. apply Hall, list_elem_of_bind.
      exists (mkCall (p :: next) now es). split; [done|]. apply elem_of_app. right. by constructor.
  - right. apply not_Forall_Exists in Hsome; [|intros g; apply _]. apply list.Exists_exists in Hsome as (g & Hg & He).
    apply not_true_is_false in He. pose proof Hg as (k & Hgk & (k1 & k2 & E)%list_elem_of_split)%list_elem_of_bind.
    destruct (decide (in_use ks = 0%nat)) as [Hz|Hnz]; [apply (Hrun k1 k k2 g); [done..|]; intros _; rewrite Hz; lia|].
    destruct (List.filter g_holds (ks ≫= λ k, ph_tasks (ac_now k))) as [|h l] eqn:Ef; [unfold in_use in Hnz; by rewrite Ef in Hnz|].
    assert (h ∈ List.filter g_holds (ks ≫= λ k, ph_tasks (ac_now k))) as Hh by (rewrite Ef; constructor).
    apply list_elem_of_In, filter_In in Hh as [Hin Hh]. apply andb_true_iff in Hh as [Hw Hend]. apply negb_true_iff in Hw, Hend.
    apply list_elem_of_In, list_elem_of_bind in Hin as (k' & Hh & (k1' & k2' & E')%list_elem_of_split).
    apply (Hrun k1' k' k2' h); [done..|]. by rewrite Hw.
Qed.
End termination.

(** ** The start *)

Section start.
Context `{MapRange} {W : Type} (env : NginxEnv W) (a : NginxAdapter).
Context (wf : W → Prop) (view : W → string → string → gmap string Z) (known : string → Backend → Prop).
Context (reqs : list request).

(** The upstreams of a request are named by their keys, and the servers know
    their backends. *)
Definition request_ok (r : request) : Prop :=
  match r with
  | One u => upstream_known known u
  | All m => ∀ k u, m !! k = Some u → up_Name u = k ∧ (up_PreserveExistingBackends u = false → upstream_known known u)
  end.
Definition want (n : string) (t : gmap string Z) : Prop := ∃ r, r ∈ reqs ∧ asks a r n t.

Lemma sync_tasks_fine u w : want (up_Name u) (desired_weights (up_Backends u)) → upstream_known known u →
  ∀ g, g ∈ sync_tasks a u → task_fine a view known want w g.
Proof.
  intros Hw Hk g (c & -> & Hc)%list_elem_of_fmap. split; [done|]. split_and!; [apply desired_keyed|exact Hk|exact Hw|done].
Qed.

Lemma start_fine r w : r ∈ reqs → request_ok r → call_fine a view known want reqs w r (start_call a r).
Proof.
  intros Hr Hok. unfold start_call.
  assert (∀ m u, r = All m → u ∈ List.filter (λ u, negb (up_PreserveExistingBackends u)) (map_range m).*2 →
    ∃ n, m !! n = Some u ∧ up_Name u = n ∧ up_PreserveExistingBackends u = false ∧ upstream_known known u) as Hdes.
  { intros m u -> Hu. apply list_elem_of_In, filter_In in Hu as [Hu Hp]. apply negb_true_iff in Hp.
    apply list_elem_of_In, list_elem_of_fmap in Hu as ([n u'] & -> & Hin%map_range_elem). cbn in *. destruct (Hok n u' Hin). exists n. auto. }
  split; cbn [ac_next ac_now ac_errs]; [done| |done| |].
  - intros g Hg. unfold tasks_of in Hg. cbn [ac_next ac_now ph_tasks app] in Hg. apply list_elem_of_bind in Hg as (p & Hg & Hp).
    destruct r as [u|m]; cbn [phases_of] in Hp.
    + apply list_elem_of_singleton in Hp as ->. revert Hg. apply sync_tasks_fine; [exists (One u); done|done].
    + apply elem_of_app in Hp as [Hp|Hp].
      * apply list_elem_of_fmap in Hp as (u & -> & Hu). destruct (Hdes m u eq_refl Hu) as (n & Hn & <- & Hp & Hk). revert Hg.
        apply sync_tasks_fine; [|done]. exists (All m). split; [done|]. left. by exists u.
      * destruct (ng_PruneOrphans (na_config a)) eqn:Hpr; [|by apply not_elem_of_nil in Hp]. apply list_elem_of_singleton in Hp as ->.
        apply list_elem_of_fmap in Hg as (c & -> & Hc). split; [done|]. split; [|done]. intros n [Hn Hm].
        exists (All m). split; [done|]. right. done.
  - split; [done|]. intros p Hp. destruct r as [u|m]; cbn [phases_of] in Hp; [by apply list_elem_of_singleton in Hp as ->|].
    apply elem_of_app in Hp as [(u & -> & _)%list_elem_of_fmap|Hp]; [done|].
    destruct (ng_PruneOrphans (na_config a)); [by apply list_elem_of_singleton in Hp as ->|by apply not_elem_of_nil in Hp].
  - intros c n t Hc Ht. right. unfold tasks_of. cbn [ac_next ac_now ph_tasks app]. destruct r as [u|m]; cbn [asks phases_of] in *.
    + destruct Ht as [-> ->]. exists (GSync (mkJob c (up_Name u) (desiredBackends (up_Backends u))) Acquire).
      split; [|done]. apply list_elem_of_bind. eexists. split; [|by constructor].
      by apply (list_elem_of_fmap_2 (λ c, GSync (mkJob c _ _) Acquire)).
    + destruct Ht as [(u & Hm & Hp & ->)|(Hpr & Hn & Hm & ->)].
      * exists (GSync (mkJob c (up_Name u) (desiredBackends (up_Backends u))) Acquire).
        split; [|split; [done|by apply Hok]]. apply list_elem_of_bind. exists (desired_phase a u).
        split; [by apply (list_elem_of_fmap_2 (λ c, GSync (mkJob c _ _) Acquire))|]. apply elem_of_app. left. apply list_elem_of_fmap_2.
        apply list_elem_of_In, filter_In. split; [|by rewrite Hp]. apply list_elem_of_In, list_elem_of_fmap. exists (n, u).
        by rewrite map_range_elem.
      * exists (GPrune c m PAcquire). split; [|done]. rewrite Hpr. apply list_elem_of_bind. exists (mkPhase (prune_tasks a m) id).
        split; [by apply (list_elem_of_fmap_2 (λ c, GPrune c m PAcquire))|]. apply elem_of_app. right. by constructor.
Qed.

Definition pool_start (s : AdState W) : AdState W * list adapter_call := (s, start_call a <$> reqs).
Lemma pool_start_fine s : coherent a wf view known s → (∀ r, r ∈ reqs → request_ok r) →
  pool_fine a wf view known want reqs (ad_world s) (pool_start s).
Proof.
  intros [Hw Hc] Hok. split; cbn [pool_start fst snd]; [|reflexivity|].
  - split; [done|]. intros c m Hin Hm. by apply agree_fresh, Hc.
  - apply Forall2_fmap_r. assert (∀ l, (∀ r, r ∈ l → r ∈ reqs) →
      Forall2 (λ r r', call_fine a view known want reqs (ad_world s) r (start_call a r')) l l) as Hl; [|by apply Hl].
    induction l as [|r l IH]; intros Hl; constructor; [apply start_fine; [|apply Hok]; apply Hl; by constructor|].
    apply IH. intros x Hx. apply Hl. by constructor.
Qed.
End start.

Lemma pool_ok `{MapRange} {W} (env : NginxEnv W) (a : NginxAdapter)
    (wf : W → Prop) (view : W → string → string → gmap string Z) (known : string → Backend → Prop)
    (reqs : list request) (s : AdState W) :
  NginxApi env a wf view known → NoDup (cl_baseURL <$> na_clients a) → 1 <= capacity a →
  coherent a wf view known s → (∀ r, r ∈ reqs → request_ok known r) →
  (∀ r1 r2 n t1 t2, r1 ∈ reqs → r2 ∈ reqs → asks a r1 n t1 → asks a r2 n t2 → t1 = t2) →
  inevitably (pool_step env a) (λ '(s', ks), (∀ k, k ∈ ks → returned k ∧ call_result k = None) ∧
    ∀ c n, c ∈ na_clients a →
      (∀ r t, r ∈ reqs → asks a r n t → server_view view s' c n = t) ∧
      ((∀ r t, r ∈ reqs → ¬ asks a r n t) → server_view view s' c n = server_view view s c n)) (pool_start a reqs s).
Proof.
  intros api bases Hcap Hs Hok Hagree.
  assert (∀ n t t', want a reqs n t → want a reqs n t' → t = t') as Hfun by (intros n t t' (r & Hr & Ht) (r' & Hr' & Ht'); exact (Hagree r r' n t t' Hr Hr' Ht Ht')).
  assert (∀ r n t, r ∈ reqs → asks a r n t → want a reqs n t) as Hasks by (intros r n t Hr Ht; by exists r).
  pose proof (pool_start_fine a wf view known reqs s Hs Hok) as Hstart.
  apply (inevitably_mono _ (λ x, pool_fine a wf view known (want a reqs) reqs (ad_world s) x ∧ all_returned x)).
  - apply (inevitably_wf _ lex (pool_fine a wf view known (want a reqs) reqs (ad_world s)) _ pool_weight lex_wf); [| |done].
    + intros x y Hx Hxy. split; [by eapply (pool_step_fine env a wf view known api bases)|by eapply pool_step_weight].
    + intros x Hx. destruct (pool_progress env a x Hcap); [by left|by right].
  - intros [s' ks] [[_ Hm Hcalls] Hret]. cbn [fst snd] in *. rewrite Forall2_lookup in Hcalls.
    assert (∀ k, k ∈ ks → ∃ r, r ∈ reqs ∧ call_fine a view known (want a reqs) reqs (ad_world s') r k) as Hk.
    { intros k (i & Hi)%list_elem_of_lookup. specialize (Hcalls i). rewrite Hi in Hcalls. inversion Hcalls as [r k' Hf E1 E2|]; subst.
      exists r. split; [apply Hf|done]. }
    split.
    + intros k Hin. destruct (Hret k Hin) as [Hn He]. split; [done|]. destruct (Hk k Hin) as (r & _ & [_ H1 H2 [H3 _] _]).
      assert (phase_errs (ac_now k) = []) as E; [|unfold call_result; by rewrite H2, E].
      eapply phase_errs_ended; [done|done|]. intros g Hg. apply H1, elem_of_app. by left.
    + intros c n Hc. split.
      * intros r t [i Hi]%list_elem_of_lookup Ht. specialize (Hcalls i). rewrite Hi in Hcalls. inversion Hcalls as [r' k Hf E1 E2|]; subst.
        symmetry in E2. destruct (Hret k) as [Hn He]; [by apply list_elem_of_lookup_2 in E2|].
        destruct Hf as [Hr H1 _ _ H4]. destruct (H4 c n t Hc Ht) as [E|(g & Hg & Hp)]; [done|].
        eapply (promise_kept a view known (want a reqs) Hfun); [|by apply H1|done|by eapply Hasks].
        unfold tasks_of in Hg. rewrite Hn in Hg. cbn in Hg. rewrite app_nil_r in Hg. unfold phase_ended in He.
        rewrite forallb_forall in He. by apply He, list_elem_of_In.
      * intros Hno. apply map_eq. intros k. destruct (Hm (cl_baseURL c) n k) as [E|(t & (r & Hr & Ht) & _)]; [done|].
        by destruct (Hno r t Hr).
Qed.

(** ** Properties *)

(** C5. Concurrent calls converge.  Any number of calls of [SyncUpstream] and
    [SyncAllUpstreams] run on one adapter at a time, their goroutines bounded by
    its semaphore, with a cache that agrees with the servers.  When the calls ask
    for the same thing wherever two of them ask for something, they all
    inevitably return without errors, whatever their critical sections and
    requests interleave with (none waits for the semaphore for ever), and then
    every server holds what was asked: the servers and weights of the synced
    upstreams, nothing for the orphans when they are pruned; and what it held
    before for the other names. *)
Theorem concurrent_calls_converge `{MapRange} {W} (env : NginxEnv W) (a : NginxAdapter)
    (wf : W → Prop) (view : W → string → string → gmap string Z) (known : string → Backend → Prop)
    (reqs : list request) (s : AdState W) :
  NginxApi env a wf view known → NoDup (cl_baseURL <$> na_clients a) → 1 <= capacity a →
  coherent a wf view known s → (∀ r, r ∈ reqs → request_ok known r) →
  (∀ r1 r2 n t1 t2, r1 ∈ reqs → r2 ∈ reqs → asks a r1 n t1 → asks a r2 n t2 → t1 = t2) →
  inevitably (pool_step env a) (λ '(s', ks), (∀ k, k ∈ ks → returned k ∧ call_result k = None) ∧
    ∀ c n, c ∈ na_clients a →
      (∀ r t, r ∈ reqs → asks a r n t → server_view view s' c n = t) ∧
      ((∀ r t, r ∈ reqs → ¬ asks a r n t) → server_view view s' c n = server_view view s c n)) (pool_start a reqs s).
Proof. apply pool_ok. Qed.

Lemma concurrent_calls_converge_witness :
  let reqs := [One (calls.web true); All {["web" := calls.web true]}; One (calls.web true)] in
  inevitably (@pool_step map_range_reverse _ sim.env sim.adapter) (λ '(s', ks), ∀ c, c ∈ na_clients sim.adapter →
    server_view sim.view s' c "web" = {["10.1.0.1:30080" := 2]} ∧ server_view sim.view s' c "old" = ∅)
    (@pool_start map_range_reverse _ sim.adapter reqs calls.start).
Proof.
  intros reqs.
  assert (∀ r n t, r ∈ reqs → asks sim.adapter r n t → (n = "web" → t = {["10.1.0.1:30080" := 2]}) ∧ (n ≠ "web" → t = ∅)) as Ha.
  { assert (desired_weights (up_Backends (calls.web true)) = {["10.1.0.1:30080" := 2]}) as Hd by vm_decide.
    intros r n t Hr Ht. unfold reqs in Hr. rewrite !elem_of_cons, elem_of_nil in Hr.
    destruct Hr as [-> |[-> |[-> |[]]]]; cbn in Ht; [by destruct Ht as [-> ->]| |by destruct Ht as [-> ->]].
    destruct Ht as [(u & [<- <-]%lookup_singleton_Some & _ & ->)|(_ & _ & Hn & ->)]; [done|].
    split; [|done]. intros ->. by rewrite lookup_singleton_eq in Hn. }
  pose proof (@concurrent_calls_converge map_range_reverse _ sim.env sim.adapter (λ _, True) sim.view sim.known reqs calls.start
    sim.api ltac:(vm_decide) ltac:(vm_compute; discriminate)) as Hc.
  eapply inevitably_mono; [apply Hc|].
  - split; [exact I|]. intros c m _ Hm. discriminate Hm.
  - assert (upstream_known sim.known (calls.web true)) as Hk.
    { intros k b Hb. assert (desiredBackends (up_Backends (calls.web true)) = {["10.1.0.1:30080" := sim.web_backend true]}) as Hd by vm_decide.
      rewrite Hd in Hb. apply lookup_singleton_Some in Hb as [_ <-]. unfold sim.known. do 2 constructor. }
    intros r Hr. unfold reqs in Hr. rewrite !elem_of_cons, elem_of_nil in Hr. destruct Hr as [-> |[-> |[-> |[]]]]; [exact Hk| |exact Hk].
    intros k u [<- <-]%lookup_singleton_Some. split; [reflexivity|]. intros _. exact Hk.
  - intros r1 r2 n t1 t2 H1 H2 [A1 A1']%Ha [A2 A2']%Ha; [|done..].
    destruct (decide (n = "web")) as [->|Hn]; [by rewrite A1, A2|by rewrite A1', A2'].
  - intros [s' ks] [_ Hv] c Hin. destruct (Hv c "web" Hin) as [Hw _]. destruct (Hv c "old" Hin) as [Ho _]. split.
    + rewrite (Hw (One (calls.web true)) (desired_weights (up_Backends (calls.web true)))); [vm_decide|constructor|by split].
    + apply (Ho (All {["web" := calls.web true]}) ∅); [do 2 constructor|]. right. repeat split; try reflexivity. discriminate.
Defined.
