(* ===== verification/ControllerHandlers.v ===== *)
(** * The handlers of the controller: invariants, deletion, events

    The well-formedness of the controller state in every reachable state, what
    [syncHandler] does for a service that is gone, and the mirror that the
    informer events maintain. *)
From S2P Require Export ControllerSync.
From Stdlib Require Import Lia.
Local Open Scope Z_scope.

(** ** Keys *)

Lemma split_key key ns n : strings.Split key "/" = [ns; n] → slash_key ns n = key.
Proof.
  intros H. destruct (Split_inv "/" key ns [n] H) as [[? _]|(t & -> & Ht & _)]; [done|].
  destruct (Split_inv "/" t n [] Ht) as [[_ ->]|(? & _ & _ & ?)]; [|done]. done.
Qed.

Lemma key_split ns n : str_free "/" ns = true → str_free "/" n = true → strings.Split (slash_key ns n) "/" = [ns; n].
Proof.
  intros H1 H2. unfold slash_key. change (ns +:+ "/" +:+ n) with (ns +:+ String "/" n).
  by rewrite Split_app, Split_free.
Qed.

Lemma prefix_key k lbName : strings.HasPrefix k (lbName +:+ "/") = true → ∃ n, k = slash_key lbName n.
Proof.
  unfold slash_key. setoid_rewrite <- app_assoc_s. generalize (lbName +:+ "/") as p. intros p. revert k.
  induction p as [|c p IH]; intros k Hk; [by exists k|]. destruct k as [|d k]; [done|]. cbn in Hk.
  apply andb_true_iff in Hk as [Hc Hk]. destruct (IH k Hk) as [n ->]. exists n.
  rewrite app_cons_s. f_equal. by apply bool_decide_eq_true in Hc.
Qed.

(** ** Well-formed states *)
Section invariant.
Context `{MapRange} {W : Type} (k8s : KubernetesPort W) (adapters : gmap string (LoadBalancerAdapter W)) (cfg : Config).

Implicit Types c : Ctrl W.

Definition upstream_wf (k : string) (u : Upstream) : Prop :=
  k = slash_key (up_LoadBalancer u) (up_Name u) ∧ up_Name u ≠ "" ∧ up_PreserveExistingBackends u = false ∧
  (up_Backends u = [] → allowEmpty cfg (getLoadBalancerConfig cfg (up_LoadBalancer u)) = true).

Record ctrl_wf (c : Ctrl W) : Prop := {
  wf_services : map_Forall (λ k s, svc_key s = k) (st_Services (ct_state c));
  wf_pods : map_Forall (λ k p, pod_key p = k) (st_Pods (ct_state c));
  wf_nodes : map_Forall (λ k n, node_Name n = k) (st_Nodes (ct_state c));
  wf_last : map_Forall (λ k s, svc_key s = k) (ct_last c);
  wf_upstreams : map_Forall upstream_wf (st_Upstreams (ct_state c))
}.

(** One step: an event, a work item, a periodic reconciliation, or a change
    of the caches. *)
Inductive ctrl_step (c : Ctrl W) : Ctrl W → Prop :=
  | step_service ev : ctrl_step c (handleServiceEvent ev c)
  | step_pod ev : ctrl_step c (handlePodEvent ev c)
  | step_node ev : ctrl_step c (handleNodeEvent ev c)
  | step_item item : ctrl_step c (processNextItem k8s adapters cfg item c).2
  | step_reconcile lbName ad : adapters !! lbName = Some ad →
      ctrl_step c (syncSingleLoadBalancer k8s cfg lbName ad c).2
  | step_caches w : ctrl_step c (mkCtrl (ct_state c) (ct_last c) (ct_queue c) (ct_metrics c) w).

Inductive reachable (w : W) : Ctrl W → Prop :=
  | reach_start : reachable w (NewController w)
  | reach_step c c' : reachable w c → ctrl_step c c' → reachable w c'.

Lemma wf_ext c c' : ct_state c' = ct_state c → ct_last c' = ct_last c → ctrl_wf c → ctrl_wf c'.
Proof. intros E1 E2 []. split; by rewrite ?E1, ?E2. Qed.

Lemma enqueue_wf o c : ctrl_wf c → ctrl_wf (enqueue o c).
Proof. by apply wf_ext. Qed.
Lemma emit_wf m c : ctrl_wf c → ctrl_wf (emit m c).
Proof. by apply wf_ext. Qed.

Lemma enqueue_pod_frame pod c :
  ct_state (enqueueUpstreamsForPod pod c) = ct_state c ∧ ct_last (enqueueUpstreamsForPod pod c) = ct_last c.
Proof.
  unfold enqueueUpstreamsForPod.
  apply (foldl_keeps (λ c' : Ctrl W, ct_state c' = ct_state c ∧ ct_last c' = ct_last c)); [done|].
  intros c1 [k s] Hc. by destruct (_ && _).
Qed.
Lemma enqueue_pod_wf pod c : ctrl_wf c → ctrl_wf (enqueueUpstreamsForPod pod c).
Proof. apply wf_ext; apply enqueue_pod_frame. Qed.

Lemma set_services_wf f c : map_Forall (λ k s, svc_key s = k) (f (st_Services (ct_state c))) →
  ctrl_wf c → ctrl_wf (upd_state (set_Services f) c).
Proof. intros Hf []. by split. Qed.
Lemma set_last_wf f c : map_Forall (λ k s, svc_key s = k) (f (ct_last c)) →
  ctrl_wf c → ctrl_wf (upd_last f c).
Proof. intros Hf []. by split. Qed.
Lemma set_pods_wf f c : map_Forall (λ k p, pod_key p = k) (f (st_Pods (ct_state c))) →
  ctrl_wf c → ctrl_wf (upd_state (set_Pods f) c).
Proof. intros Hf []. by split. Qed.
Lemma set_nodes_wf f c : map_Forall (λ k n, node_Name n = k) (f (st_Nodes (ct_state c))) →
  ctrl_wf c → ctrl_wf (upd_state (set_Nodes f) c).
Proof. intros Hf []. by split. Qed.
Lemma set_upstreams_wf f c : map_Forall upstream_wf (f (st_Upstreams (ct_state c))) →
  ctrl_wf c → ctrl_wf (upd_state (set_Upstreams f) c).
Proof. intros Hf []. by split. Qed.

Lemma service_event_wf ev c : ctrl_wf c → ctrl_wf (handleServiceEvent ev c).
Proof.
  intros Hc. unfold handleServiceEvent. set (s := se_Service ev). apply enqueue_wf.
  destruct (se_Type ev).
  - assert (ctrl_wf (upd_state (set_Services (insert (svc_key s) s)) c)) as H1.
    { apply set_services_wf; [|done]. by apply map_Forall_insert_2, Hc. }
    cbv zeta. destruct (ct_last _ !! _); [done|]. apply set_last_wf; [|done]. by apply map_Forall_insert_2, H1.
  - apply set_services_wf; [|done]. by apply map_Forall_insert_2, Hc.
  - apply set_services_wf; [|done]. by apply map_Forall_delete, Hc.
Qed.

Lemma pod_event_wf ev c : ctrl_wf c → ctrl_wf (handlePodEvent ev c).
Proof.
  intros Hc. unfold handlePodEvent. set (p := pe_Pod ev). apply enqueue_pod_wf.
  set (c1 := match pe_Type ev with EventTypeAdd | EventTypeUpdate => _ | EventTypeDelete => _ end).
  assert (ctrl_wf c1) as H1.
  { subst c1. destruct (pe_Type ev); (apply set_pods_wf; [|done]);
      [by apply map_Forall_insert_2, Hc..|by apply map_Forall_delete, Hc]. }
  destruct (st_Pods (ct_state c) !! _); [|done]. destruct (pe_Type ev); try done. by apply enqueue_pod_wf.
Qed.

Lemma node_event_wf ev c : ctrl_wf c → ctrl_wf (handleNodeEvent ev c).
Proof.
  intros Hc. unfold handleNodeEvent, enqueueUpstreamsForNode. apply (foldl_keeps ctrl_wf).
  - destruct (ne_Type ev); (apply set_nodes_wf; [|done]);
      [by apply map_Forall_insert_2, Hc..|by apply map_Forall_delete, Hc].
  - intros c1 p. apply enqueue_pod_wf.
Qed.

Lemma gather_names w svc u : gather k8s cfg w svc = Ok (Some u) →
  up_Name u = svc_upstream svc ∧ up_LoadBalancer u = svc_lb svc ∧ up_PreserveExistingBackends u = false.
Proof.
  unfold gather. destruct (GetPodsForSelector _ _ _ _) as [pods|] eqn:Ep; [|done].
  destruct (buildUpstream k8s cfg w svc pods) as [[u'|]|] eqn:E; [|done..].
  assert (contribution k8s cfg w svc = Ok (Some u')) as Hc by (unfold contribution; by rewrite Ep).
  apply contribution_Some in Hc as (_ & _ & _ & ->). destruct (ListServices _ _); [|done].
  destruct (for_state _ _ _); [|done]. by intros [= <-].
Qed.

Lemma fill_empty_spec u u' : fill_empty cfg u = Some u' →
  up_Name u' = up_Name u ∧ up_LoadBalancer u' = up_LoadBalancer u ∧
  up_PreserveExistingBackends u' = up_PreserveExistingBackends u ∧
  (up_Backends u' = [] → allowEmpty cfg (getLoadBalancerConfig cfg (up_LoadBalancer u)) = true).
Proof.
  unfold fill_empty. destruct (up_Backends u) as [|b bs] eqn:E; cbn.
  - unfold fallback. destruct (allowEmpty _ _), (defBackend _ _) as [d|]; cbn;
      try destruct (bool_decide (db_IP d = "")); intros [= <-]; done.
  - intros [= <-]. by rewrite E.
Qed.

Lemma syncLB_frame u c :
  ct_state (syncLoadBalancerUpstream adapters u c).2 = ct_state c ∧
  ct_last (syncLoadBalancerUpstream adapters u c).2 = ct_last c.
Proof.
  unfold syncLoadBalancerUpstream, call. destruct (adapters !! _) as [ad|]; [|done].
  by destruct (lb_SyncUpstream ad u (ct_world c)) as [[]].
Qed.
Lemma syncLB_wf u c : ctrl_wf c → ctrl_wf (syncLoadBalancerUpstream adapters u c).2.
Proof. apply wf_ext; apply syncLB_frame. Qed.

Lemma sync_service_wf svc c : ctrl_wf c → ctrl_wf (syncUpstreamsForService k8s adapters cfg svc c).2.
Proof.
  intros Hc. unfold syncUpstreamsForService. destruct (_ || _) eqn:E; [done|].
  apply orb_false_iff in E as [_ Hup]. apply bool_decide_eq_false in Hup.
  destruct (gather _ _ _ _) as [[u|]|] eqn:Eg; [|done|by apply emit_wf].
  destruct (fill_empty cfg u) as [u'|] eqn:Ef; [|done].
  apply gather_names in Eg as (H1 & H2 & H3). apply fill_empty_spec in Ef as (H4 & H5 & H6 & H7).
  set (c1 := upd_state _ _). assert (ctrl_wf c1) as Hc1.
  { apply set_upstreams_wf; [|by apply emit_wf]. apply map_Forall_insert_2; [|apply Hc].
    unfold upstream_wf. by rewrite H4, H5, H6, H1, H2, H3, <- H2. }
  pose proof (syncLB_wf u' c1 Hc1) as Hs. destruct (syncLoadBalancerUpstream adapters u' c1) as [[e|] c2]; by apply emit_wf.
Qed.

Lemma deletion_wf key svc c : ctrl_wf c → ctrl_wf (handleServiceDeletion k8s adapters cfg key svc c).2.
Proof.
  intros Hc. unfold handleServiceDeletion. destruct (_ || _); [done|]. destruct (ListServices _ _); [|done].
  destruct (find_other _ _ _ _); [by apply sync_service_wf|].
  set (c1 := emit _ _). assert (ctrl_wf c1) as Hc1.
  { apply emit_wf, set_upstreams_wf; [|done]. by apply map_Forall_delete, Hc. }
  pose proof (syncLB_wf (emptyUpstream cfg (svc_lb svc) (svc_upstream svc)) c1 Hc1) as Hs.
  destruct (syncLoadBalancerUpstream adapters _ c1) as [[e|] c2]; [by apply emit_wf|done].
Qed.

Context (contract : ∀ w, PortContract k8s w).

Lemma port_get_key w ns n svc : GetService k8s w ns n = Ok svc → svc_key svc = slash_key ns n.
Proof. intros Hg. by apply (port_get (PortContract := contract w)) in Hg as (_ & _ & _ & <- & <-). Qed.

Lemma syncHandler_wf key c : ctrl_wf c → ctrl_wf (syncHandler k8s adapters cfg key c).2.
Proof.
  intros Hc. unfold syncHandler. destruct (strings.Split key "/") as [|ns [|n [|]]] eqn:Es; try done.
  apply split_key in Es as <-. destruct (GetService _ _ _ _) as [svc|] eqn:Eg.
  - set (p := match ct_last c !! _ with Some _ => _ | None => _ end). assert (ctrl_wf p.2) as Hp.
    { subst p. destruct (ct_last c !! _) as [l|]; [|done]. destruct (labels_moved _ _); [by apply deletion_wf|done]. }
    destruct p as [[e|] c1]; [done|]. apply port_get_key in Eg as <-. apply sync_service_wf. cbn in Hp.
    apply set_services_wf; [by apply map_Forall_insert_2, Hp|]. apply set_last_wf; [by apply map_Forall_insert_2, Hp|done].
  - destruct (ct_last c !! _) as [l|]; [|done].
    pose proof (deletion_wf (slash_key ns n) l c Hc) as Hd. destruct (handleServiceDeletion _ _ _ _ _ _) as [[?|] c1]; [done|].
    cbn in Hd. apply set_services_wf; [by apply map_Forall_delete, Hd|]. apply set_last_wf; [by apply map_Forall_delete, Hd|done].
Qed.

Lemma item_wf item c : ctrl_wf c → ctrl_wf (processNextItem k8s adapters cfg item c).2.
Proof.
  intros Hc. destruct item as [[key|]|]; [|done..]. unfold processNextItem.
  pose proof (syncHandler_wf key c Hc) as Hs. destruct (syncHandler _ _ _ _ _) as [[e|] c1];
    by apply enqueue_wf, enqueue_wf.
Qed.

Lemma track_services_wf lbName svcs c : ctrl_wf c → ctrl_wf (track_services lbName svcs c).
Proof.
  intros Hc. unfold track_services. destruct (foldl (track_service lbName) (∅, c) svcs) as [keys c1] eqn:E.
  assert (ctrl_wf c1) as H1.
  { change c1 with (keys, c1).2. rewrite <- E. apply (foldl_keeps (λ st, ctrl_wf st.2)); [done|].
    intros [ks c2] s H2. unfold track_service. destruct (negb _); [done|]. cbn in H2 |- *.
    assert (ctrl_wf (upd_state (set_Services (insert (svc_key s) s)) c2)) as H3.
    { apply set_services_wf; [|done]. by apply map_Forall_insert_2, H2. }
    destruct (ct_last c2 !! _); [done|]. apply set_last_wf; [|done]. by apply map_Forall_insert_2, H3. }
  apply (foldl_keeps ctrl_wf); [done|]. intros c2 [k s] H2. unfold forget_service. destruct (_ && _); [|done].
  apply set_services_wf; [|done]. by apply map_Forall_delete, H2.
Qed.

Lemma intent_wf w lbName n svcs u : intent_of k8s cfg w lbName n svcs = Serve u →
  upstream_wf (slash_key lbName n) u.
Proof.
  intros Hi. pose proof Hi as (H1 & H2 & H3 & H4)%intent_Serve. unfold upstream_wf. rewrite H2, H3, H4.
  split_and!; try done. intros Hb. unfold intent_of in Hi. rewrite bool_decide_false in Hi by done.
  destruct (existsb (failed _ _ w) _); [done|]. destruct (existsb (usable _ _ w) _); [|done].
  unfold fallback in Hi. destruct (up_Backends (target _ _ _ _ _ _)) eqn:Et; [|injection Hi as <-; congruence].
  destruct (defBackend _ _) as [d|]; [case_bool_decide|];
    try (injection Hi as <-; discriminate Hb); by destruct (allowEmpty _ _).
Qed.

Lemma reconcile_wf lbName ad c : ctrl_wf c → ctrl_wf (syncSingleLoadBalancer k8s cfg lbName ad c).2.
Proof.
  intros Hc. destruct (HasSynced k8s (ct_world c)) eqn:Hs; [|unfold syncSingleLoadBalancer; by rewrite Hs].
  destruct (ListServices k8s (ct_world c)) as [svcs|] eqn:Hl; [|unfold syncSingleLoadBalancer; by rewrite Hs, Hl].
  pose proof (track_services_wf lbName svcs c Hc) as Ht.
  assert (ctrl_wf (prepared k8s cfg lbName svcs c).2) as Hp.
  { pose proof (prepared_upstreams k8s cfg lbName svcs c) as Hup. pose proof (prepared_other k8s cfg lbName svcs c) as Hother.
    pose proof (publish_all_frame lbName (prepared k8s cfg lbName svcs c).1 (track_services lbName svcs c)) as Hf.
    change (publish_all _ _ _) with (prepared k8s cfg lbName svcs c).2 in Hf. destruct Hf as (_ & E2 & _ & E4 & E5 & E6).
    split; rewrite ?E2, ?E4, ?E5, ?E6; try apply Ht.
    intros k u Hk. destruct (strings.HasPrefix k (lbName +:+ "/")) eqn:Epre.
    - apply prefix_key in Epre as [n ->]. rewrite Hup in Hk.
      destruct (intent_of _ _ _ _ _ _) as [|u'|] eqn:Ei; [by apply Hc|injection Hk as <-|done]. by eapply intent_wf.
    - rewrite Hother in Hk by done. by apply Hc. }
  destruct (syncSingle_eq k8s cfg lbName ad c svcs Hs Hl) as (e & w' & _ & Hr).
  pose proof (syncSingle_last k8s cfg lbName ad c svcs Hs Hl) as Hlast.
  destruct (syncSingleLoadBalancer _ _ _ _ _) as [r c']. destruct Hr as (_ & _ & Hst). by apply (wf_ext _ _ Hst Hlast).
Qed.
End invariant.

(** ** A service that is gone *)
Section deletion.
Context `{MapRange} {W : Type} (k8s : KubernetesPort W) (adapters : gmap string (LoadBalancerAdapter W)) (cfg : Config).
Implicit Types c : Ctrl W.

Lemma find_other_None key lbName n svcs :
  find_other key lbName n svcs = None ↔ ∀ s, s ∈ svcs → svc_lb s = lbName → svc_upstream s = n → svc_key s = key.
Proof.
  unfold find_other. rewrite first_some_None. split.
  - intros Hf s Hs H1 H2. specialize (Hf s Hs). destruct (decide (svc_key s = key)) as [|Hne]; [done|].
    by rewrite (bool_decide_false (svc_key s = key)), (bool_decide_true (svc_lb s = _)), (bool_decide_true (svc_upstream s = _)) in Hf.
  - intros Hf s Hs. destruct (negb _ && _ && _) eqn:E; [|done].
    apply andb_true_iff in E as [E E3]. apply andb_true_iff in E as [E1 E2].
    apply negb_true_iff, bool_decide_eq_false in E1. apply bool_decide_eq_true in E2, E3. by destruct E1; apply Hf.
Qed.

(** The state after the upstream has been forgotten, before the adapter is called. *)
Definition forgotten (svc : Service) c : Ctrl W :=
  emit (UpdateBackendsTotal (svc_upstream svc) 0)
    (upd_state (set_Upstreams (delete (slash_key (svc_lb svc) (svc_upstream svc)))) c).

Lemma deletion_unshared key svc svcs c : ListServices k8s (ct_world c) = Ok svcs →
  svc_lb svc ≠ "" → svc_upstream svc ≠ "" →
  (∀ s, s ∈ svcs → svc_lb s = svc_lb svc → svc_upstream s = svc_upstream svc → svc_key s = key) →
  handleServiceDeletion k8s adapters cfg key svc c =
  let '(r, c) := syncLoadBalancerUpstream adapters (emptyUpstream cfg (svc_lb svc) (svc_upstream svc)) (forgotten svc c) in
  match r with
  | Some err => (Some err, emit (IncrementSyncErrors (svc_upstream svc)) c)
  | None => (None, c)
  end.
Proof.
  intros Hl H1 H2 Hf. unfold handleServiceDeletion. rewrite !bool_decide_false by done. cbn [orb].
  rewrite Hl. by rewrite (proj2 (find_other_None _ _ _ _) Hf).
Qed.

Lemma deletion_unknown key svc svcs c : ListServices k8s (ct_world c) = Ok svcs →
  svc_lb svc ≠ "" → svc_upstream svc ≠ "" → adapters !! svc_lb svc = None →
  (∀ s, s ∈ svcs → svc_lb s = svc_lb svc → svc_upstream s = svc_upstream svc → svc_key s = key) →
  ∃ e, handleServiceDeletion k8s adapters cfg key svc c =
    (Some e, emit (IncrementSyncErrors (svc_upstream svc)) (forgotten svc c)).
Proof.
  intros Hl H1 H2 Ha Hf. rewrite (deletion_unshared key svc svcs) by done.
  unfold syncLoadBalancerUpstream. cbn [emptyUpstream up_LoadBalancer]. rewrite Ha. by eexists.
Qed.
End deletion.

(** ** Events *)
Section events.
Context `{MapRange} {W : Type}.
Implicit Types c : Ctrl W.

Definition selects (pod : Pod) (svc : Service) : Prop :=
  svc_Namespace svc = pod_Namespace pod ∧ svc_Selector svc ≠ ∅ ∧
  ∀ k v, svc_Selector svc !! k = Some v → label (pod_Labels pod) k = v.

Lemma matchLabels_true l sel : matchLabels l sel = true ↔ sel ≠ ∅ ∧ ∀ k v, sel !! k = Some v → label l k = v.
Proof.
  unfold matchLabels. destruct (bool_decide_reflect (size sel = 0%nat)) as [Hs|Hs].
  - apply map_size_empty_iff in Hs. naive_solver.
  - rewrite map_size_empty_iff in Hs. rewrite forallb_forall. split.
    + intros Hf. split; [done|]. intros k v Hk. specialize (Hf (k, v)). cbn in Hf.
      rewrite bool_decide_eq_true in Hf. by apply Hf, list_elem_of_In, map_range_elem.
    + intros [_ Hf] [k v] Hk. apply bool_decide_eq_true. by apply list_elem_of_In, map_range_elem, Hf in Hk.
Qed.

Definition wakes (pod : Pod) (svc : Service) : bool :=
  bool_decide (svc_Namespace svc = pod_Namespace pod) && matchLabels (pod_Labels pod) (svc_Selector svc).
Lemma wakes_true pod svc : wakes pod svc = true ↔ selects pod svc.
Proof. unfold wakes, selects. by rewrite andb_true_iff, bool_decide_eq_true, matchLabels_true. Qed.

(** The keys [enqueueUpstreamsForPod] adds. *)
Definition woken (pod : Pod) (services : gmap string Service) : list string :=
  svc_key <$> List.filter (wakes pod) (map_range services).*2.

Lemma enqueue_pod_eq pod c :
  enqueueUpstreamsForPod pod c =
  mkCtrl (ct_state c) (ct_last c) (ct_queue c ++ (QAdd <$> woken pod (st_Services (ct_state c)))) (ct_metrics c) (ct_world c).
Proof.
  unfold enqueueUpstreamsForPod, woken. generalize (map_range (st_Services (ct_state c))). intros l. revert c.
  induction l as [|[k s] l IH]; intros c; cbn [foldl fmap list_fmap List.filter snd].
  - rewrite app_nil_r. by destruct c.
  - change (bool_decide (svc_Namespace s = pod_Namespace pod) && matchLabels (pod_Labels pod) (svc_Selector s)) with (wakes pod s).
    rewrite IH. destruct (wakes pod s); [|done]. cbn. by rewrite <- app_assoc.
Qed.

Lemma woken_elem pod services k : k ∈ woken pod services ↔
  ∃ key svc, services !! key = Some svc ∧ svc_key svc = k ∧ selects pod svc.
Proof.
  unfold woken. rewrite list_elem_of_fmap. split.
  - intros (svc & -> & Hs). apply list_elem_of_In, filter_In in Hs as [Hs Hw].
    apply list_elem_of_In, list_elem_of_fmap in Hs as ([key s] & -> & Hs). apply map_range_elem in Hs.
    exists key, s. by rewrite <- wakes_true.
  - intros (key & svc & Hk & <- & Hw%wakes_true). exists svc. split; [done|].
    apply list_elem_of_In, filter_In. split; [|done]. apply list_elem_of_In, list_elem_of_fmap.
    exists (key, svc). by rewrite map_range_elem.
Qed.
End events.

(** ** The informer and its mirror

    The store of the informer, by key, and what it tells its handlers when an
    object is added, updated (or resynchronised) or deleted. *)
Section mirror.
Context {W : Type}.
Implicit Types c : Ctrl W.
Abbreviation store := (gmap string V1Service).

Definition v1_key (s : V1Service) : string := slash_key (vs_Namespace s) (vs_Name s).

Inductive informs (m : store) : notification V1Service → store → Prop :=
  | informs_add s : m !! v1_key s = None → informs m (OnAdd (Object s)) (<[v1_key s := s]> m)
  | informs_update old s : m !! v1_key s = Some old → v1_key old = v1_key s →
      informs m (OnUpdate (Object old) (Object s)) (<[v1_key s := s]> m)
  | informs_delete s : m !! v1_key s = Some s → informs m (OnDelete (Object s)) (delete (v1_key s) m)
  | informs_tombstone s : m !! v1_key s = Some s →
      informs m (OnDelete (DeletedFinalStateUnknown (Object s))) (delete (v1_key s) m).

Inductive trace (m : store) : list (notification V1Service) → store → Prop :=
  | trace_nil : trace m [] m
  | trace_snoc ns n m1 m2 : trace m ns m1 → informs m1 n m2 → trace m (ns ++ [n]) m2.

(** The controller processes the events of the notifications. *)
Definition process c (n : notification V1Service) : Ctrl W := foldl (λ c e, handleServiceEvent e c) c (WatchServices n).

(** The MLB services of the store, in the domain model. *)
Definition mirrored (m : store) (k : string) : option Service :=
  s ← m !! k; if isMLBService s then Some (mapService s) else None.

Lemma process_services ev c :
  st_Services (ct_state (handleServiceEvent ev c)) =
  match se_Type ev with
  | EventTypeDelete => delete (svc_key (se_Service ev)) (st_Services (ct_state c))
  | _ => <[svc_key (se_Service ev) := se_Service ev]> (st_Services (ct_state c))
  end.
Proof. unfold handleServiceEvent. destruct (se_Type ev); cbn; [by destruct (ct_last c !! _)|done..]. Qed.
Lemma process_queue ev c : ct_queue (handleServiceEvent ev c) = ct_queue c ++ [QAdd (svc_key (se_Service ev))].
Proof. unfold handleServiceEvent. destruct (se_Type ev); cbn; [by destruct (ct_last c !! _)|done..]. Qed.

(** What one notification must ensure: the mirror is kept and the keys it
    changes are queued. *)
Definition keeps_mirror (m m' : store) (n : notification V1Service) c : Prop :=
  (∀ k, st_Services (ct_state (process c n)) !! k = mirrored m' k) ∧
  (∀ o, o ∈ ct_queue c → o ∈ ct_queue (process c n)) ∧
  (∀ k, mirrored m k ≠ mirrored m' k → QAdd k ∈ ct_queue (process c n)).

Lemma keeps_quiet m m' n c : WatchServices n = [] → (∀ k, mirrored m' k = mirrored m k) →
  (∀ k, st_Services (ct_state c) !! k = mirrored m k) → keeps_mirror m m' n c.
Proof.
  intros Hn Hm Hc. unfold keeps_mirror, process. rewrite Hn. cbn. split_and!; [|done|].
  - intros k. by rewrite Hm.
  - intros k Hk. by rewrite Hm in Hk.
Qed.

Lemma keeps_one m m' n ev c : WatchServices n = [ev] →
  (∀ k, mirrored m' k = if decide (k = svc_key (se_Service ev))
    then match se_Type ev with EventTypeDelete => None | _ => Some (se_Service ev) end else mirrored m k) →
  (∀ k, st_Services (ct_state c) !! k = mirrored m k) → keeps_mirror m m' n c.
Proof.
  intros Hn Hm Hc. unfold keeps_mirror, process. rewrite Hn. cbn [foldl]. split_and!.
  - intros k. rewrite process_services, Hm. destruct (decide (k = svc_key (se_Service ev))) as [->|Hk].
    + destruct (se_Type ev); by rewrite ?lookup_insert_eq, ?lookup_delete_eq.
    + destruct (se_Type ev); rewrite ?lookup_insert_ne, ?lookup_delete_ne by done; apply Hc.
  - intros o Ho. rewrite process_queue, elem_of_app. by left.
  - intros k Hk. rewrite process_queue, elem_of_app. right. rewrite Hm in Hk.
    destruct (decide (k = svc_key (se_Service ev))) as [->|]; [constructor|done].
Qed.

Lemma mirrored_insert m s k : mirrored (<[v1_key s := s]> m) k =
  if decide (k = v1_key s) then (if isMLBService s then Some (mapService s) else None) else mirrored m k.
Proof. unfold mirrored. case_decide as Hk; [subst; by rewrite lookup_insert_eq|by rewrite lookup_insert_ne]. Qed.
Lemma mirrored_delete m s k : mirrored (delete (v1_key s) m) k = if decide (k = v1_key s) then None else mirrored m k.
Proof. unfold mirrored. case_decide as Hk; [subst; by rewrite lookup_delete_eq|by rewrite lookup_delete_ne]. Qed.

Lemma informs_mirror m n m' c : informs m n m' →
  (∀ k, st_Services (ct_state c) !! k = mirrored m k) → keeps_mirror m m' n c.
Proof.
  intros Hn Hc.
  assert (∀ s, m !! v1_key s = Some s → isMLBService s = false → ∀ k, mirrored (delete (v1_key s) m) k = mirrored m k) as Hdel.
  { intros s Hs E k. rewrite mirrored_delete. case_decide; [|done]. subst. unfold mirrored. rewrite Hs. cbn. by rewrite E. }
  destruct Hn as [s Hs|old s Hs Hkey|s Hs|s Hs].
  - destruct (isMLBService s) eqn:E.
    + eapply keeps_one; [cbn; by rewrite E| |done]. intros k. by rewrite mirrored_insert, E.
    + apply keeps_quiet; [cbn; by rewrite E| |done]. intros k. rewrite mirrored_insert, E.
      case_decide; [subst; unfold mirrored; by rewrite Hs|done].
  - destruct (isMLBService s) eqn:E, (isMLBService old) eqn:Eo.
    + eapply keeps_one; [cbn; by rewrite Eo, E| |done]. intros k. by rewrite mirrored_insert, E.
    + eapply keeps_one; [cbn; by rewrite Eo, E| |done]. intros k. by rewrite mirrored_insert, E.
    + eapply keeps_one; [cbn; by rewrite Eo, E| |done]. intros k. rewrite mirrored_insert, E. cbn [se_Service se_Type].
      change (svc_key (mapService old)) with (v1_key old). by rewrite Hkey.
    + apply keeps_quiet; [cbn; by rewrite Eo, E| |done]. intros k. rewrite mirrored_insert, E.
      case_decide; [subst; unfold mirrored; rewrite Hs; cbn; by rewrite Eo|done].
  - destruct (isMLBService s) eqn:E.
    + eapply keeps_one; [cbn; by rewrite E| |done]. intros k. apply mirrored_delete.
    + apply keeps_quiet; [cbn; by rewrite E|by apply Hdel|done].
  - destruct (isMLBService s) eqn:E.
    + eapply keeps_one; [cbn; by rewrite E| |done]. intros k. apply mirrored_delete.
    + apply keeps_quiet; [cbn; by rewrite E|by apply Hdel|done].
Qed.
End mirror.

(** ** Properties *)

(** C15. Every reachable state is well formed: in whatever order service, pod and
    node events, work items, periodic reconciliations and cache changes occur,
    the services, pods, nodes and last known services are stored under their own
    keys, and every recorded upstream is stored under the name of its balancer
    and its own, is not a preserved one, and has backends unless empty upstreams
    are allowed for its balancer. *)
Theorem reachable_wf `{MapRange} {W} (k8s : KubernetesPort W) (adapters : gmap string (LoadBalancerAdapter W))
    (cfg : Config) (w : W) (c : Ctrl W) :
  (∀ w, PortContract k8s w) → reachable k8s adapters cfg w c → ctrl_wf cfg c.
Proof.
  intros contract. induction 1 as [|c c' _ IH Hs]; [by split; apply map_Forall_empty|].
  destruct Hs; [by apply service_event_wf|by apply pod_event_wf|by apply node_event_wf|by apply item_wf|
    by apply reconcile_wf|by apply (wf_ext _ c)].
Qed.

Lemma reachable_wf_witness :
  let M := map_range_reverse in let adapters := {["edge" := memory.adapter]} in
  let c1 := handleServiceEvent (mkServiceEvent EventTypeAdd memory.web) memory.start in
  let c2 := (processNextItem memory.fixed adapters memory.config (Some (Some "default/web")) c1).2 in
  up_Backends <$> st_Upstreams (ct_state c2) !! "edge/web" =
    Some [mkBackend "10.0.0.1" 30080 2; mkBackend "192.0.2.2" 30080 1] ∧
  ctrl_wf memory.config c2.
Proof.
  cbv zeta. split; [vm_compute; reflexivity|].
  apply (@reachable_wf map_range_reverse _ memory.fixed {["edge" := memory.adapter]} memory.config (ct_world memory.start)).
  - exact memory.fixed_contract.
  - eapply reach_step; [eapply reach_step; [apply reach_start|apply step_service]|apply step_item].
Defined.

(** C19. After a periodic reconciliation with synchronised caches the controller
    records the intent, whether the adapter succeeds or not: the upstreams to
    serve, the previous record of the ones it keeps, and none for names that no
    longer have services; the records of other balancers are untouched. *)
Theorem reconcile_records_intent `{MapRange} {W} (k8s : KubernetesPort W) (cfg : Config) (lbName : string)
    (ad : LoadBalancerAdapter W) (svcs : list Service) (c : Ctrl W) :
  HasSynced k8s (ct_world c) = true → ListServices k8s (ct_world c) = Ok svcs →
  let recorded c := st_Upstreams (ct_state c) in
  let c' := (syncSingleLoadBalancer k8s cfg lbName ad c).2 in
  (∀ n, recorded c' !! slash_key lbName n =
    match intent_of k8s cfg (ct_world c) lbName n svcs with
    | Serve u => Some u
    | Keep => recorded c !! slash_key lbName n
    | Absent => None
    end) ∧
  (∀ k, strings.HasPrefix k (lbName +:+ "/") = false → recorded c' !! k = recorded c !! k).
Proof.
  intros Hs Hl. destruct (syncSingle_eq k8s cfg lbName ad c svcs Hs Hl) as (e & w' & _ & Hr). cbv zeta.
  destruct (syncSingleLoadBalancer _ _ _ _ _) as [r c']. destruct Hr as (_ & _ & Hst). cbn [snd]. rewrite Hst.
  split; [apply prepared_upstreams|intros k; apply prepared_other].
Qed.

Lemma reconcile_records_intent_witness :
  let M := map_range_reverse in
  let old := mkUpstream "idle" "edge" [mkBackend "10.0.0.9" 30080 1] "" None false in
  let gone := mkUpstream "gone" "edge" [mkBackend "10.0.0.9" 1 1] "" None false in
  let c := upd_state (set_Upstreams (λ _, list_to_map [("edge/idle", old); ("edge/gone", gone); ("other/gone", gone)])) memory.start in
  let recorded := st_Upstreams (ct_state (syncSingleLoadBalancer memory.port memory.config "edge" memory.flaky c).2) in
  recorded !! "edge/idle" = Some old ∧ recorded !! "edge/gone" = None ∧ recorded !! "other/gone" = Some gone ∧
  up_Backends <$> recorded !! "edge/web" = Some [mkBackend "10.0.0.1" 30080 2; mkBackend "192.0.2.2" 30080 1].
Proof.
  cbv zeta. set (c := upd_state _ memory.start).
  assert (ListServices memory.port (ct_world c) = Ok [memory.web; memory.web2; memory.idle]) as Hl by (vm_compute; reflexivity).
  destruct (@reconcile_records_intent map_range_reverse _ memory.port memory.config "edge" memory.flaky _ c eq_refl Hl) as [H1 H2].
  pose proof (H1 "idle") as Hi. pose proof (H1 "gone") as Hg. pose proof (H1 "web") as Hw. clear H1.
  change (slash_key "edge" "idle") with "edge/idle" in Hi. change (slash_key "edge" "gone") with "edge/gone" in Hg.
  change (slash_key "edge" "web") with "edge/web" in Hw.
  rewrite Hi, Hg, Hw, (H2 "other/gone" eq_refl). split_and!; vm_compute; reflexivity.
Defined.

(** C20. A deleted service is drained. When the service of a work item is gone,
    no listed service shares the upstream it last targeted, and the balancer
    keeps the contract of the port, [syncHandler] returns no error, the balancer
    serves no backend for that upstream and the same as before for the others,
    and the controller forgets the service and the upstream. *)
Theorem deleted_service_drained `{MapRange} {W} (k8s : KubernetesPort W) (adapters : gmap string (LoadBalancerAdapter W))
    (cfg : Config) (ad : LoadBalancerAdapter W) healthy desired ok name_ok prune {I} (instances : list I) view
    (ns n : string) (last : Service) (svcs : list Service) (c : Ctrl W) :
  let key := slash_key ns n in
  str_free "/" ns = true → str_free "/" n = true →
  is_Some (err_of (GetService k8s (ct_world c) ns n)) → ListServices k8s (ct_world c) = Ok svcs →
  ct_last c !! key = Some last → svc_lb last ≠ "" → svc_upstream last ≠ "" →
  (∀ s, s ∈ svcs → svc_lb s = svc_lb last → svc_upstream s = svc_upstream last → svc_key s = key) →
  adapters !! svc_lb last = Some ad →
  Converges ad healthy desired ok name_ok prune instances view → healthy (ct_world c) →
  ok (emptyUpstream cfg (svc_lb last) (svc_upstream last)) →
  let '(e, c') := syncHandler k8s adapters cfg key c in
  e = None ∧ healthy (ct_world c') ∧ ct_last c' = delete key (ct_last c) ∧
  st_Services (ct_state c') = delete key (st_Services (ct_state c)) ∧
  st_Upstreams (ct_state c') = delete (slash_key (svc_lb last) (svc_upstream last)) (st_Upstreams (ct_state c)) ∧
  ∀ i, i ∈ instances →
    view (ct_world c') i (svc_upstream last) = desired (emptyUpstream cfg (svc_lb last) (svc_upstream last)) ∧
    ∀ n', n' ≠ svc_upstream last → view (ct_world c') i n' = view (ct_world c) i n'.
Proof.
  intros key Hns Hn [e Hg] Hl Hlast H1 H2 Hf Had Hconv Hh Hok. unfold syncHandler, key. rewrite key_split by done.
  destruct (GetService k8s (ct_world c) ns n); [done|]. fold key. rewrite Hlast, (deletion_unshared _ _ _ key last svcs) by done.
  unfold syncLoadBalancerUpstream, call. cbn [emptyUpstream up_LoadBalancer]. rewrite Had. cbn [forgotten emit upd_state ct_world].
  pose proof (conv_one _ _ _ _ _ _ _ _ Hconv _ (ct_world c) Hh Hok) as Ho.
  destruct (lb_SyncUpstream ad _ (ct_world c)) as [e' w']. destruct Ho as (-> & Hh' & Hv). by cbn.
Qed.

Lemma deleted_service_drained_witness :
  let M := map_range_reverse in let c := upd_last (insert "default/gone" memory.gone) memory.start in
  let '(e, c') := syncHandler memory.port {["edge" := memory.adapter]} memory.config "default/gone" c in
  e = None ∧ ct_last c' = ∅ ∧ memory.view (ct_world c') tt "gone" = ∅ ∧
  memory.view (ct_world c') tt "idle" = {["10.0.0.9:30080" := 1]}.
Proof.
  cbv zeta. set (c := upd_last _ memory.start).
  assert (ListServices memory.port (ct_world c) = Ok [memory.web; memory.web2; memory.idle]) as Hl by (vm_compute; reflexivity).
  assert (∀ s, s ∈ [memory.web; memory.web2; memory.idle] → svc_lb s = svc_lb memory.gone →
    svc_upstream s = svc_upstream memory.gone → svc_key s = slash_key "default" "gone") as Hf.
  { intros s Hs _ E. repeat (apply elem_of_cons in Hs as [-> |Hs]; [discriminate E|]). by apply not_elem_of_nil in Hs. }
  pose proof (@deleted_service_drained map_range_reverse _ memory.port {["edge" := memory.adapter]} memory.config
    memory.adapter _ _ _ _ _ _ _ _ "default" "gone" memory.gone _ c eq_refl eq_refl ltac:(vm_compute; eexists; reflexivity) Hl
    eq_refl ltac:(discriminate) ltac:(discriminate) Hf eq_refl memory.adapter_converges I I) as Hr. cbv zeta in Hr.
  change (slash_key "default" "gone") with "default/gone" in Hr.
  destruct (syncHandler _ _ _ _ _) as [e c']. destruct Hr as (He & _ & Hlast & _ & _ & Hv). split; [exact He|].
  split; [rewrite Hlast; vm_decide|]. specialize (Hv tt ltac:(constructor)) as [H1 H2].
  change (svc_upstream memory.gone) with "gone" in H1, H2. split; [rewrite H1; vm_decide|].
  rewrite (H2 "idle") by discriminate. vm_decide.
Defined.

(** C31. A service whose last known labels name a balancer without adapter blocks
    its key. As long as the service is gone or its labels have moved on, and no
    other service shares the old upstream, every run of [syncHandler] fails, the
    last known service stays, and neither the balancers nor the services of the
    state change: the new labels are never synced by the event path. *)
Theorem unknown_balancer_blocks `{MapRange} {W} (k8s : KubernetesPort W) (adapters : gmap string (LoadBalancerAdapter W))
    (cfg : Config) (ns n : string) (last : Service) (svcs : list Service) (c : Ctrl W) (runs : nat) :
  let key := slash_key ns n in
  str_free "/" ns = true → str_free "/" n = true →
  ct_last c !! key = Some last → svc_lb last ≠ "" → svc_upstream last ≠ "" → adapters !! svc_lb last = None →
  ListServices k8s (ct_world c) = Ok svcs →
  (∀ s, s ∈ svcs → svc_lb s = svc_lb last → svc_upstream s = svc_upstream last → svc_key s = key) →
  (∀ svc, GetService k8s (ct_world c) ns n = Ok svc → labels_moved last svc = true) →
  let handle c := syncHandler k8s adapters cfg key c in
  let c' := Nat.iter runs (λ c, (handle c).2) c in
  is_Some (handle c').1 ∧ ct_last c' = ct_last c ∧ ct_world c' = ct_world c ∧
  st_Services (ct_state c') = st_Services (ct_state c).
Proof.
  intros key Hns Hn Hlast H1 H2 Ha Hl Hf Hm.
  assert (∀ c', ct_last c' = ct_last c → ct_world c' = ct_world c → ∃ e,
    syncHandler k8s adapters cfg key c' = (Some e, emit (IncrementSyncErrors (svc_upstream last)) (forgotten last c'))) as Hrun.
  { intros c' E1 E2. rewrite <- E2 in Hl, Hm. destruct (deletion_unknown k8s adapters cfg key last svcs c') as [e He]; [done..|].
    exists e. unfold syncHandler. unfold key at 1. rewrite key_split, E1, Hlast by done.
    destruct (GetService k8s (ct_world c') ns n) as [svc|]; [rewrite (Hm svc eq_refl)|]; by rewrite He. }
  cbv zeta beta. set (step := λ c, (syncHandler k8s adapters cfg key c).2). induction runs as [|runs IH].
  - cbn. destruct (Hrun c eq_refl eq_refl) as [e ->]. split; [by eexists|done].
  - change (Nat.iter (S runs) step c) with (step (Nat.iter runs step c)).
    set (c1 := Nat.iter runs step c) in *. destruct IH as (_ & E1 & E2 & E3). destruct (Hrun c1 E1 E2) as [e He].
    assert (step c1 = emit (IncrementSyncErrors (svc_upstream last)) (forgotten last c1)) as -> by (unfold step; by rewrite He).
    split; [|done]. by destruct (Hrun (emit (IncrementSyncErrors (svc_upstream last)) (forgotten last c1)) E1 E2) as [e' ->].
Qed.

Lemma unknown_balancer_blocks_witness :
  let M := map_range_reverse in let c := upd_last (insert "default/idle" memory.lost) memory.start in
  let handle c := syncHandler memory.port {["edge" := memory.adapter]} memory.config "default/idle" c in
  let c' := Nat.iter 5 (λ c, (handle c).2) c in
  is_Some (handle c').1 ∧ ct_last c' !! "default/idle" = Some memory.lost.
Proof.
  cbv zeta beta. set (c := upd_last _ memory.start).
  assert (ListServices memory.port (ct_world c) = Ok [memory.web; memory.web2; memory.idle]) as Hl by (vm_compute; reflexivity).
  assert (∀ s, s ∈ [memory.web; memory.web2; memory.idle] → svc_lb s = svc_lb memory.lost →
    svc_upstream s = svc_upstream memory.lost → svc_key s = slash_key "default" "idle") as Hf.
  { intros s Hs E _. repeat (apply elem_of_cons in Hs as [-> |Hs]; [discriminate E|]). by apply not_elem_of_nil in Hs. }
  assert (∀ svc, GetService memory.port (ct_world c) "default" "idle" = Ok svc → labels_moved memory.lost svc = true) as Hm.
  { intros svc E. vm_compute in E. injection E as <-. vm_compute. reflexivity. }
  destruct (@unknown_balancer_blocks map_range_reverse _ memory.port {["edge" := memory.adapter]} memory.config
    "default" "idle" memory.lost _ c 5 eq_refl eq_refl eq_refl ltac:(discriminate) ltac:(discriminate) eq_refl Hl Hf Hm)
    as (H1 & H2 & _). split; [exact H1|].
  change (slash_key "default" "idle") with "default/idle" in H2. rewrite H2. reflexivity.
Defined.

(** A port that becomes invalid goes unnoticed. When the [mlb-port] label of
    the only service of an upstream takes an invalid value, the intent is to have
    nothing, but handling the key of the service succeeds and calls no balancer:
    the old backends are served until the next reconciliation. *)
Theorem invalid_port_unnoticed `{MapRange} {W} (k8s : KubernetesPort W) (adapters : gmap string (LoadBalancerAdapter W))
    (cfg : Config) (svc : Service) (svcs : list Service) (pods : list Pod) (c : Ctrl W) :
  PortContract k8s (ct_world c) → ListServices k8s (ct_world c) = Ok svcs → svc ∈ svcs → svc_NodePort svc = 0 →
  GetPodsForSelector k8s (ct_world c) (svc_Namespace svc) (svc_Selector svc) = Ok pods →
  (∀ l, ct_last c !! svc_key svc = Some l → labels_moved l svc = false) →
  (∀ s, s ∈ svcs → svc_lb s = svc_lb svc → svc_upstream s = svc_upstream svc → s = svc) →
  let '(e, c') := syncHandler k8s adapters cfg (svc_key svc) c in
  e = None ∧ ct_world c' = ct_world c ∧ st_Upstreams (ct_state c') = st_Upstreams (ct_state c) ∧
  intent_of k8s cfg (ct_world c) (svc_lb svc) (svc_upstream svc) svcs = Absent.
Proof.
  intros Hc Hl Hin Hport Hpods Hm Honly. destruct (port_services svcs Hl) as [Hd Hf]. rewrite list.Forall_forall in Hf.
  destruct (Hf svc Hin) as (F1 & F2 & _).
  assert (GetService k8s (ct_world c) (svc_Namespace svc) (svc_Name svc) = Ok svc) as Hg by (apply port_get; by exists svcs).
  assert (∀ c', ct_world c' = ct_world c → syncUpstreamsForService k8s adapters cfg svc c' = (None, c')) as Hs.
  { intros c' E. unfold syncUpstreamsForService. destruct (_ || _); [done|]. unfold gather. rewrite E, Hpods.
    by rewrite (proj2 (buildUpstream_None k8s cfg (ct_world c) svc pods) (or_introl Hport)). }
  assert (syncHandler k8s adapters cfg (svc_key svc) c =
    (None, upd_state (set_Services (insert (svc_key svc) svc)) (upd_last (insert (svc_key svc) svc) c))) as ->.
  { unfold syncHandler. unfold svc_key at 1. rewrite key_split, Hg by done.
    destruct (ct_last c !! svc_key svc) as [l|] eqn:El; [rewrite (Hm l eq_refl)|]; by apply Hs. }
  split_and!; [done..|]. pose proof (sharing_others svc svcs Hd Hin) as Hp.
  assert (others svc svcs = []) as Ho.
  { unfold others. assert (∀ s, s ∈ svcs → negb (same_service svc s) && shares (svc_lb svc) (svc_upstream svc) s = false) as Hno.
    { intros s Hs'. destruct (shares _ _ s) eqn:E; [|by rewrite andb_false_r]. apply shares_true in E as [E1 E2].
      rewrite (Honly s Hs' E1 E2). unfold same_service. by rewrite !bool_decide_true. }
    clear -Hno. induction svcs as [|s l IH]; [done|]. cbn. rewrite Hno by constructor. apply IH. intros x Hx. apply Hno. by constructor. }
  assert (contribution k8s cfg (ct_world c) svc = Ok None) as Hcon.
  { unfold contribution. rewrite Hpods. apply buildUpstream_None. by left. }
  unfold intent_of. case_bool_decide; [done|]. rewrite !(existsb_perm _ _ _ Hp), Ho. cbn [existsb]. unfold failed, usable. by rewrite Hcon.
Qed.

Lemma invalid_port_unnoticed_witness :
  let M := map_range_reverse in
  let broken := mkV1Service "idle" "default" (<["mlb-port" := "http"]> (memory.labels "idle")) ∅ "NodePort" [] in
  let c := upd_last (insert "default/idle" memory.idle) (NewController (caches.mkCluster [broken] [] [] true, snd (ct_world memory.start))) in
  let '(e, c') := syncHandler memory.port {["edge" := memory.adapter]} memory.config "default/idle" c in
  e = None ∧ memory.view (ct_world c') tt "idle" = {["10.0.0.9:30080" := 1]}.
Proof.
  cbv zeta. set (broken := mkV1Service _ _ _ _ _ _). set (c := upd_last _ _).
  pose proof (@invalid_port_unnoticed map_range_reverse _ memory.port {["edge" := memory.adapter]} memory.config
    (mapService broken) [mapService broken] [] c) as Hr.
  specialize (Hr ltac:(apply memory.port_contract; [vm_decide|repeat constructor]) eq_refl ltac:(constructor)
    ltac:(vm_compute; reflexivity) ltac:(vm_compute; reflexivity)).
  change (svc_key (mapService broken)) with "default/idle" in Hr.
  specialize (Hr ltac:(intros l [= <-]; vm_compute; reflexivity) ltac:(by intros s ->%list_elem_of_singleton)).
  destruct (syncHandler _ _ _ _ _) as [e c']. destruct Hr as (He & Hw & _). split; [exact He|]. rewrite Hw. vm_decide.
Defined.

(** C26. The controller mirrors the informer. Whatever the informer reports, its
    events leave in the state of the controller exactly the MLB services of the
    store, converted, and every key whose service changed is queued. *)
Theorem informer_mirrored {W} (m m' : gmap string V1Service) (ns : list (notification V1Service)) (c : Ctrl W) :
  trace m ns m' → (∀ k, st_Services (ct_state c) !! k = mirrored m k) →
  let c' := foldl process c ns in
  (∀ k, st_Services (ct_state c') !! k = mirrored m' k) ∧
  (∀ k, mirrored m k ≠ mirrored m' k → QAdd k ∈ ct_queue c').
Proof.
  intros Ht Hc. cbv zeta. induction Ht as [|ns n m1 m2 _ IH Hn]; [done|]. destruct IH as [IH1 IH2].
  rewrite foldl_snoc. destruct (informs_mirror m1 n m2 (foldl process c ns) Hn IH1) as (H1 & H2 & H3).
  split; [done|]. intros k Hk. destruct (decide (mirrored m k = mirrored m1 k)) as [E|E].
  - apply H3. by rewrite <- E.
  - by apply H2, IH2.
Qed.

Lemma informer_mirrored_witness :
  let web := memory.v1_service "web" "web" in
  let plain := mkV1Service "web" "default" ∅ ∅ "NodePort" [] in
  let c' := foldl process (NewController tt) [OnAdd (Object plain); OnUpdate (Object plain) (Object web);
    OnAdd (Object (memory.v1_service "idle" "idle")); OnDelete (DeletedFinalStateUnknown (Object (memory.v1_service "idle" "idle")))] in
  st_Services (ct_state c') !! "default/web" = Some memory.web ∧ st_Services (ct_state c') !! "default/idle" = None ∧
  QAdd "default/web" ∈ ct_queue c'.
Proof.
  cbv zeta. set (web := memory.v1_service "web" "web"). set (plain := mkV1Service _ _ _ _ _ _).
  set (idle := memory.v1_service "idle" "idle"). set (ns := [_; _; _; _]).
  set (m1 := <[v1_key plain := plain]> (∅ : gmap string V1Service)). set (m2 := <[v1_key web := web]> m1).
  set (m3 := <[v1_key idle := idle]> m2).
  assert (trace ∅ ns (delete (v1_key idle) m3)) as Ht.
  { change ns with (((([] ++ [OnAdd (Object plain)]) ++ [OnUpdate (Object plain) (Object web)]) ++ [OnAdd (Object idle)]) ++
      [OnDelete (DeletedFinalStateUnknown (Object idle))]).
    eapply trace_snoc; [eapply trace_snoc; [eapply trace_snoc; [eapply trace_snoc; [apply trace_nil|]|]|]|].
    - apply informs_add. reflexivity.
    - apply informs_update; reflexivity.
    - apply informs_add. reflexivity.
    - apply informs_tombstone. reflexivity. }
  destruct (informer_mirrored ∅ _ ns (NewController tt) Ht ltac:(intros k; reflexivity)) as [H1 H2].
  rewrite !H1. split; [reflexivity|]. split; [reflexivity|]. apply H2. discriminate.
Defined.

(** C30. A pod event wakes exactly the services of the pod: the keys it queues are
    those of the known services of its namespace whose selector its labels match,
    before or, for an update, after the change; among them is every service for
    which the caches list the pod. *)
Theorem pod_event_wakes `{MapRange} {W} (ev : PodEvent) (c : Ctrl W) :
  let pod := pe_Pod ev in
  let old := match pe_Type ev with EventTypeUpdate => st_Pods (ct_state c) !! pod_key pod | _ => None end in
  ∃ keys, ct_queue (handlePodEvent ev c) = ct_queue c ++ (QAdd <$> keys) ∧
  (∀ k, k ∈ keys ↔ ∃ key svc, st_Services (ct_state c) !! key = Some svc ∧ svc_key svc = k ∧
    (selects pod svc ∨ ∃ p, old = Some p ∧ selects p svc)) ∧
  (∀ key svc, st_Services (ct_state c) !! key = Some svc → svc_Selector svc ≠ ∅ →
    selected (svc_Namespace svc) (svc_Selector svc) pod → svc_key svc ∈ keys).
Proof.
  cbv zeta. set (pod := pe_Pod ev). set (old := match pe_Type ev with EventTypeUpdate => _ | _ => None end).
  exists (match old with Some p => woken p (st_Services (ct_state c)) | None => [] end ++ woken pod (st_Services (ct_state c))).
  assert (∀ svc, svc_Selector svc ≠ ∅ → selected (svc_Namespace svc) (svc_Selector svc) pod → selects pod svc) as Hsel.
  { intros svc Hs [E Hl]. split; [done|]. split; [done|]. intros k v Hk. unfold label. by rewrite (Hl k v Hk). }
  split_and!.
  - unfold handlePodEvent, old. fold pod. destruct (pe_Type ev), (st_Pods (ct_state c) !! pod_key pod);
      rewrite ?enqueue_pod_eq; cbn; by rewrite ?fmap_app, ?app_assoc.
  - intros k. rewrite elem_of_app, woken_elem. split.
    + intros [Hk|(key & svc & H1 & H2 & H3)]; [|by eauto 10].
      destruct old as [p|]; [|by apply not_elem_of_nil in Hk]. apply woken_elem in Hk as (key & svc & H1 & H2 & H3). eauto 10.
    + intros (key & svc & H1 & H2 & [H3|(p & E & H3)]); [right; eauto|left]. rewrite E. apply woken_elem. eauto.
  - intros key svc Hk Hs Hsvc. apply elem_of_app. right. apply woken_elem. exists key, svc. split; [done|]. split; [done|]. by apply Hsel.
Qed.
