(* ===== verification/ControllerLoop.v ===== *)
(** * The loops of the controller: internal/controller/controller.go

    [Start], [stop], [processEvents], [runWorker] and [runPeriodicSync], and the
    transition system of the controller with its work queue and its workers. *)
From S2P Require Export Steps WorkQueue ControllerHandlers.
From Stdlib Require Import Lia.
Local Open Scope nat_scope.

(** ** Start and stop *)

Section start.
Context `{MapRange} {W Q : Type} (k8s : KubernetesPort W) (WQ : WorkQueue Q)
  (adapters : gmap string (LoadBalancerAdapter W)) (cfg : Config).
(** The outcomes of [AddEventHandler] on the three informers, whether the
    factory is set, and whether the caches sync. *)
Context (services pods nodes : option error) (factory sync : bool).

(** [Start] up to its blocking read of the context: an error, or the number of
    workers.  The error of the first [SyncUpstreams] is only logged. *)
Definition Controller_Start : ST (StartState * Ctrl W) (result nat) := λ '(s, c),
  let '(e, s) := watch_returns services factory sync s in
  match e with
  | Some err => (Err (Errorf "failed to register service watcher: %w" [FErr err]), (s, c))
  | None =>
  let '(e, s) := watch_returns pods factory sync s in
  match e with
  | Some err => (Err (Errorf "failed to register pod watcher: %w" [FErr err]), (s, c))
  | None =>
  let '(e, s) := watch_returns nodes factory sync s in
  match e with
  | Some err => (Err (Errorf "failed to register node watcher: %w" [FErr err]), (s, c))
  | None =>
  let '(e, s) := Start factory sync s in
  match e with
  | Some err => (Err (Errorf "failed to start and sync kubernetes informers: %w" [FErr err]), (s, c))
  | None =>
      let '(_, c) := SyncUpstreams k8s adapters cfg c in
      (Ok (Z.to_nat (cfg_RequestPoolSize cfg)), (s, c))
  end end end end.

Definition StartInformers : ST StartState (option error) := Start factory sync.

(** [stop]: [syncStop] is closed at most once. *)
Definition stop (syncStop : bool) (q : Q) : bool * Q := (true, wq_ShutDown WQ q).

(** The tickers of [runPeriodicSync] and what their goroutines do: a ticker with
    a period that is not positive panics. *)
Definition tickers : list (string * Z) :=
  if decide (size adapters = 0) then [("", cfg_GlobalUpstreamSyncPeriod cfg)]
  else (λ '(lbName, _), (lbName, sync_period cfg lbName)) <$> map_range adapters.
(** The cases of the [select] of the loops, in the order they are taken. *)
Inductive tick := Tick | StopTick.
Fixpoint tick_loop (body : Ctrl W → Ctrl W) (ticks : list tick) (c : Ctrl W) : Ctrl W :=
  match ticks with
  | Tick :: ticks => tick_loop body ticks (body c)
  | StopTick :: _ | [] => c
  end.
Definition periodic_one (lbName : string) (adapter : LoadBalancerAdapter W) : list tick → Ctrl W → Ctrl W :=
  tick_loop (λ c, (syncSingleLoadBalancer k8s cfg lbName adapter c).2).
Definition periodic_all : list tick → Ctrl W → Ctrl W := tick_loop (λ c, (SyncUpstreams k8s adapters cfg c).2).
End start.

(** The cases of the [select] of [processEvents]. *)
Inductive select_case :=
  | CtxDone
  | FromServices (ev : ServiceEvent)
  | FromPods (ev : PodEvent)
  | FromNodes (ev : NodeEvent).
Fixpoint processEvents `{MapRange} {W} (cases : list select_case) (c : Ctrl W) : Ctrl W :=
  match cases with
  | [] | CtxDone :: _ => c
  | FromServices ev :: cases => processEvents cases (handleServiceEvent ev c)
  | FromPods ev :: cases => processEvents cases (handlePodEvent ev c)
  | FromNodes ev :: cases => processEvents cases (handleNodeEvent ev c)
  end.

(** ** Workers *)

Section workers.
Context `{MapRange} {W Q : Type} (k8s : KubernetesPort W) (WQ : WorkQueue Q)
  (adapters : gmap string (LoadBalancerAdapter W)) (cfg : Config).

(** The calls a handler made on the queue, and their effect. *)
Definition new_ops (c c' : Ctrl W) : list queue_op := drop (length (ct_queue c)) (ct_queue c').
Definition apply_op (q : Q) (o : queue_op) : Q :=
  match o with
  | QAdd k => wq_Add WQ k q
  | QAddRateLimited k => wq_AddRateLimited WQ k q
  | QForget k => wq_Forget WQ k q
  | QDone k => wq_Done WQ k q
  end.
Definition apply_ops (ops : list queue_op) (q : Q) : Q := foldl apply_op q ops.

(** [runWorker] alone on the queue; [Blocked] is a [Get] that waits. *)
Inductive worker_result := Finished (c : Ctrl W) (q : Q) | Blocked (c : Ctrl W) (q : Q) | OutOfFuel.
Fixpoint runWorker (fuel : nat) (c : Ctrl W) (q : Q) : worker_result :=
  match fuel with
  | 0 => OutOfFuel
  | S fuel =>
      match wq_Get WQ q with
      | Wait => Blocked c q
      | Quit => Finished (processNextItem k8s adapters cfg None c).2 q
      | Item k q =>
          let '(more, c') := processNextItem k8s adapters cfg (Some (Some k)) c in
          let q := apply_ops (new_ops c c') q in
          if more then runWorker fuel c' q else Finished c' q
      end
  end.

(** *** The transition system

    A worker is at [Get], holds the item it got, or has returned. *)
Inductive worker := AtGet | Holding (k : string) | Exited.

(** What happened to the keys: a key was added, a worker got it, [syncHandler]
    returned nil or an error for it. *)
Inductive entry := EAdd (k : string) | EGet (k : string) | EOk (k : string) | EFail (k : string).
Global Instance worker_eq_dec : EqDecision worker.
Proof. solve_decision. Defined.
Global Instance entry_eq_dec : EqDecision entry.
Proof. solve_decision. Defined.
Definition entry_of (o : queue_op) : option entry :=
  match o with
  | QAdd k => Some (EAdd k)
  | QForget _ | QAddRateLimited _ | QDone _ => None
  end.
Definition handler_entry (k : string) (err : option error) : entry :=
  match err with None => EOk k | Some _ => EFail k end.

Record loop := mkLoop { lp_ctrl : Ctrl W; lp_queue : Q; lp_workers : list worker; lp_log : list entry }.

(** A handler ran: its calls on the queue take effect. *)
Definition handled (x : loop) (workers : list worker) (c' : Ctrl W) : loop :=
  let ops := new_ops (lp_ctrl x) c' in
  mkLoop c' (apply_ops ops (lp_queue x)) workers (lp_log x ++ omap entry_of ops).

(** A worker is done with [k], for which [syncHandler] returned [err]: what it
    called on the queue takes effect, and the log has what the handler returned. *)
Definition item_done (x : loop) (workers : list worker) (k : string) (err : option error) (c' : Ctrl W) : loop :=
  let y := handled x workers c' in mkLoop (lp_ctrl y) (lp_queue y) (lp_workers y) (lp_log y ++ [handler_entry k err]).

Inductive worker_step (x : loop) : loop → Prop :=
  | worker_get l1 l2 k q : lp_workers x = l1 ++ AtGet :: l2 → wq_Get WQ (lp_queue x) = Item k q →
      worker_step x (mkLoop (lp_ctrl x) q (l1 ++ Holding k :: l2) (lp_log x ++ [EGet k]))
  | worker_quit l1 l2 : lp_workers x = l1 ++ AtGet :: l2 → wq_Get WQ (lp_queue x) = Quit →
      worker_step x (mkLoop (lp_ctrl x) (lp_queue x) (l1 ++ Exited :: l2) (lp_log x))
  | worker_process l1 l2 k : lp_workers x = l1 ++ Holding k :: l2 →
      worker_step x (item_done x (l1 ++ AtGet :: l2) k (syncHandler k8s adapters cfg k (lp_ctrl x)).1
        (processNextItem k8s adapters cfg (Some (Some k)) (lp_ctrl x)).2).

Inductive loop_step (x : loop) : loop → Prop :=
  | loop_worker y : worker_step x y → loop_step x y
  | loop_event case : case ≠ CtxDone → loop_step x (handled x (lp_workers x) (processEvents [case] (lp_ctrl x)))
  | loop_reconcile lbName ad : adapters !! lbName = Some ad →
      loop_step x (handled x (lp_workers x) (syncSingleLoadBalancer k8s cfg lbName ad (lp_ctrl x)).2)
  | loop_caches w : loop_step x (handled x (lp_workers x)
      (mkCtrl (ct_state (lp_ctrl x)) (ct_last (lp_ctrl x)) (ct_queue (lp_ctrl x)) (ct_metrics (lp_ctrl x)) w))
  | loop_expire k : loop_step x (mkLoop (lp_ctrl x) (wq_expire WQ k (lp_queue x)) (lp_workers x) (lp_log x))
  | loop_stop : loop_step x (mkLoop (lp_ctrl x) (stop WQ false (lp_queue x)).2 (lp_workers x) (lp_log x)).

(** The controller after [NewController], with an empty queue and its workers. *)
Definition loop_start (w : W) (q : Q) : loop :=
  mkLoop (NewController w) q (replicate (Z.to_nat (cfg_RequestPoolSize cfg)) AtGet) [].
End workers.
Arguments mkLoop {_ _} _ _ _ _.
Arguments lp_ctrl {_ _} _.
Arguments lp_queue {_ _} _.
Arguments lp_workers {_ _} _.
Arguments lp_log {_ _} _.

(** ** What the handlers do to the queue *)

Section frames.
Context `{MapRange} {W : Type} (k8s : KubernetesPort W) (adapters : gmap string (LoadBalancerAdapter W)) (cfg : Config).
Implicit Types c : Ctrl W.

Lemma call_queue {A} (f : ST W A) c : ct_queue (call f c).2 = ct_queue c.
Proof. unfold call. by destruct (f (ct_world c)). Qed.

Lemma syncLoadBalancerUpstream_queue u c : ct_queue (syncLoadBalancerUpstream adapters u c).2 = ct_queue c.
Proof.
  unfold syncLoadBalancerUpstream. destruct (adapters !! _) as [ad|]; [|done].
  pose proof (call_queue (lb_SyncUpstream ad u) c) as Hc. destruct (call _ c) as [[err|] c']; done.
Qed.

Lemma syncUpstreamsForService_queue svc c : ct_queue (syncUpstreamsForService k8s adapters cfg svc c).2 = ct_queue c.
Proof.
  unfold syncUpstreamsForService. destruct (_ || _); [done|]. destruct (gather _ _ _ _) as [[u|]|]; [|done|done].
  destruct (fill_empty cfg u) as [u'|]; [|done]. cbv zeta.
  pose proof (syncLoadBalancerUpstream_queue u' (upd_state (set_Upstreams (insert (slash_key (svc_lb svc) (svc_upstream svc)) u'))
    (emit (UpdateBackendsTotal (svc_upstream svc) (Z.of_nat (length (up_Backends u')))) c))) as Hq.
  destruct (syncLoadBalancerUpstream _ _ _) as [[err|] c']; done.
Qed.

Lemma handleServiceDeletion_queue key svc c : ct_queue (handleServiceDeletion k8s adapters cfg key svc c).2 = ct_queue c.
Proof.
  unfold handleServiceDeletion. destruct (_ || _); [done|]. destruct (ListServices _ _) as [svcs|]; [|done].
  destruct (find_other _ _ _ _) as [o|]; [apply syncUpstreamsForService_queue|]. cbv zeta.
  match goal with |- context [syncLoadBalancerUpstream adapters ?u ?d] => pose proof (syncLoadBalancerUpstream_queue u d) as Hq;
    destruct (syncLoadBalancerUpstream adapters u d) as [[err|] c'] end; done.
Qed.

Lemma syncHandler_queue key c : ct_queue (syncHandler k8s adapters cfg key c).2 = ct_queue c.
Proof.
  unfold syncHandler. destruct (strings.Split key "/") as [|ns [|n [|]]]; try done.
  destruct (GetService _ _ _ _) as [svc|].
  - destruct (ct_last c !! key) as [l|]; [destruct (labels_moved l svc)|].
    + pose proof (handleServiceDeletion_queue key l c) as Hq. destruct (handleServiceDeletion _ _ _ _ _ _) as [[err|] c']; [done|].
      by rewrite syncUpstreamsForService_queue.
    + by rewrite syncUpstreamsForService_queue.
    + by rewrite syncUpstreamsForService_queue.
  - destruct (ct_last c !! key) as [l|]; [|done].
    pose proof (handleServiceDeletion_queue key l c) as Hq. by destruct (handleServiceDeletion _ _ _ _ _ _) as [[err|] c'].
Qed.

(** An item ends with success or is added again with a delay. *)
Definition settle_ops (k : string) (err : option error) : list queue_op :=
  [match err with None => QForget k | Some _ => QAddRateLimited k end; QDone k].
Lemma processNextItem_ops k c :
  processNextItem k8s adapters cfg (Some (Some k)) c =
    (true, (processNextItem k8s adapters cfg (Some (Some k)) c).2) ∧
  new_ops c (processNextItem k8s adapters cfg (Some (Some k)) c).2 = settle_ops k (syncHandler k8s adapters cfg k c).1.
Proof.
  unfold new_ops, processNextItem, settle_ops. pose proof (syncHandler_queue k c) as Hq.
  destruct (syncHandler k8s adapters cfg k c) as [[err|] c']; cbn in *; split; try done; rewrite Hq, <- app_assoc; by rewrite drop_app_length.
Qed.

Lemma syncSingleLoadBalancer_ops lbName ad c : new_ops c (syncSingleLoadBalancer k8s cfg lbName ad c).2 = [].
Proof.
  unfold new_ops, syncSingleLoadBalancer. destruct (negb _); [by rewrite drop_all|].
  destruct (ListServices _ _) as [svcs|]; [|by rewrite drop_all]. cbv zeta.
  match goal with |- context [call ?f ?d] => pose proof (call_queue f d) as Hq; destruct (call f d) as [r c'] end. cbn [snd] in Hq.
  assert (ct_queue c' = ct_queue c) as Hc.
  { rewrite Hq. destruct (publish_all_frame lbName (desired_state k8s cfg (ct_world (track_services lbName svcs c))
      (st_Upstreams (ct_state (track_services lbName svcs c))) lbName svcs) (track_services lbName svcs c)) as (-> & _).
    apply track_services_frame. }
  destruct r; cbn; by rewrite Hc, drop_all.
Qed.

(** Events only add keys. *)
Definition adds c c' : Prop := ∃ keys, ct_queue c' = ct_queue c ++ (QAdd <$> keys).
Lemma adds_trans c1 c2 c3 : adds c1 c2 → adds c2 c3 → adds c1 c3.
Proof. intros [k1 E1] [k2 E2]. exists (k1 ++ k2). by rewrite E2, E1, fmap_app, app_assoc. Qed.
Lemma enqueue_pod_adds pod c : adds c (enqueueUpstreamsForPod pod c).
Proof. rewrite enqueue_pod_eq. by eexists. Qed.
Lemma adds_ext c d c' : ct_queue c = ct_queue d → adds d c' → adds c c'.
Proof. intros E [ks Hk]. exists ks. by rewrite Hk, E. Qed.

Lemma event_adds case c : adds c (processEvents [case] c).
Proof.
  destruct case as [|ev|ev|ev]; cbn [processEvents].
  - exists []. by rewrite app_nil_r.
  - exists [svc_key (se_Service ev)]. apply process_queue.
  - unfold handlePodEvent. cbv zeta.
    set (c1 := match pe_Type ev with EventTypeDelete => _ | _ => _ end).
    assert (ct_queue c = ct_queue c1) as E by (by subst c1; destruct (pe_Type ev)).
    apply (adds_ext _ c1); [done|]. destruct (st_Pods (ct_state c) !! _) as [old|]; [destruct (pe_Type ev)|];
      try apply enqueue_pod_adds. eapply adds_trans; apply enqueue_pod_adds.
  - unfold handleNodeEvent. cbv zeta.
    set (c1 := match ne_Type ev with EventTypeDelete => _ | _ => _ end).
    assert (ct_queue c = ct_queue c1) as E by (by subst c1; destruct (ne_Type ev)).
    apply (adds_ext _ c1); [done|]. unfold enqueueUpstreamsForNode.
    apply (foldl_keeps (adds c1)); [by exists []; rewrite app_nil_r|]. intros c2 pod Hc. eapply adds_trans; [exact Hc|apply enqueue_pod_adds].
Qed.

Lemma event_ops case c : ∃ keys, new_ops c (processEvents [case] c) = QAdd <$> keys.
Proof. destruct (event_adds case c) as [ks E]. exists ks. unfold new_ops. by rewrite E, drop_app_length. Qed.
End frames.

(** ** The log of the keys *)

(** The keys that wait for a run of their handler: they were added, or their
    handler failed, since a worker last got them. *)
Definition owed_step (o : gset string) (e : entry) : gset string :=
  match e with EAdd k | EFail k => {[k]} ∪ o | EGet k => o ∖ {[k]} | EOk _ => o end.
Definition owed (log : list entry) : gset string := foldl owed_step ∅ log.
(** The keys whose handler runs. *)
Definition running_step (r : gset string) (e : entry) : gset string :=
  match e with EGet k => {[k]} ∪ r | EOk k | EFail k => r ∖ {[k]} | EAdd _ => r end.
Definition running (log : list entry) : gset string := foldl running_step ∅ log.

(** What was added at some point was got by a worker later, and handled
    successfully after that. *)
Definition settled (log : list entry) (k : string) : Prop :=
  ∃ l1 l2, log = l1 ++ EGet k :: l2 ∧ EOk k ∈ l2.

Lemma owed_snoc log e : owed (log ++ [e]) = owed_step (owed log) e.
Proof. unfold owed. by rewrite foldl_app. Qed.
Lemma running_snoc log e : running (log ++ [e]) = running_step (running log) e.
Proof. unfold running. by rewrite foldl_app. Qed.

(** A key that is no longer owed was got after it was added, and did not fail since. *)
Lemma owed_got l1 k l2 : k ∉ owed (l1 ++ EAdd k :: l2) →
  ∃ l3 l4, l2 = l3 ++ EGet k :: l4 ∧ EFail k ∉ l4.
Proof.
  induction l2 as [|e l2 IH] using rev_ind; intros H.
  - rewrite owed_snoc in H. cbn in H. set_solver.
  - rewrite app_comm_cons, app_assoc, owed_snoc in H.
    destruct (decide (e = EGet k)) as [->|Hne]; [exists l2, []; split; [done|apply not_elem_of_nil]|].
    assert ((k ∉ owed (l1 ++ EAdd k :: l2)) ∧ (e ≠ EFail k)) as [Ho Hf].
    { destruct e; cbn in H; split; try congruence; set_solver. }
    destruct (IH Ho) as (l3 & l4 & -> & Hl4). exists l3, (l4 ++ [e]). rewrite <- app_assoc. split; [done|].
    rewrite elem_of_app, list_elem_of_singleton. naive_solver.
Qed.

(** A handler that does not run any more has returned. *)
Lemma running_returned l1 k l2 : k ∉ running (l1 ++ EGet k :: l2) → EOk k ∈ l2 ∨ EFail k ∈ l2.
Proof.
  induction l2 as [|e l2 IH] using rev_ind; intros H.
  - rewrite running_snoc in H. cbn in H. set_solver.
  - rewrite app_comm_cons, app_assoc, running_snoc in H. rewrite !elem_of_app, !list_elem_of_singleton.
    destruct (decide (e = EOk k)) as [->|H1]; [by left; right|]. destruct (decide (e = EFail k)) as [->|H2]; [by right; right|].
    assert (k ∉ running (l1 ++ EGet k :: l2)) as Hr by (destruct e; cbn in H; set_solver). destruct (IH Hr); auto.
Qed.

Lemma settled_after l1 k l2 : k ∉ owed (l1 ++ EAdd k :: l2) → k ∉ running (l1 ++ EAdd k :: l2) → settled l2 k.
Proof.
  intros (l3 & l4 & -> & Hf)%owed_got Hr. exists l3, l4. split; [done|].
  rewrite app_comm_cons, app_assoc in Hr. by apply running_returned in Hr as [?|?].
Qed.

(** ** The invariant *)

Definition held (ws : list worker) : list string := omap (λ w, match w with Holding k => Some k | _ => None end) ws.

Section facts.
Context `{MapRange} {W Q : Type} (k8s : KubernetesPort W) (WQ : WorkQueue Q)
  (adapters : gmap string (LoadBalancerAdapter W)) (cfg : Config) (abs : Q → queue) `{!WorkQueueLaws WQ abs}.
Implicit Types x y : loop (W := W) (Q := Q).

Record loop_ok x : Prop := {
  lo_queue : queue_ok (abs (lp_queue x));
  lo_held : NoDup (held (lp_workers x));
  lo_processing : ∀ k, k ∈ q_processing (abs (lp_queue x)) ↔ k ∈ held (lp_workers x);
  lo_running : ∀ k, k ∈ running (lp_log x) ↔ k ∈ held (lp_workers x);
  lo_owed : q_closed (abs (lp_queue x)) = false → ∀ k, k ∈ owed (lp_log x) → pending (abs (lp_queue x)) k;
  lo_open : q_closed (abs (lp_queue x)) = false → Exited ∉ lp_workers x;
  lo_alive : q_closed (abs (lp_queue x)) = true ∧ q_waiting (abs (lp_queue x)) = [] ∧ q_again (abs (lp_queue x)) = ∅ ∨
    ∃ w, w ∈ lp_workers x ∧ w ≠ Exited
}.

Lemma held_app l1 w l2 : held (l1 ++ w :: l2) = held l1 ++ held [w] ++ held l2.
Proof. unfold held. by rewrite omap_app; destruct w. Qed.

Lemma held_elem ws k : k ∈ held ws ↔ Holding k ∈ ws.
Proof.
  unfold held. rewrite list_elem_of_omap. split; [|by exists (Holding k)].
  intros (w & Hw & E). by destruct w; simplify_eq.
Qed.

(** The keys a list of additions leaves in the queue and in the log. *)
Lemma adds_ok ks (q : Q) log :
  queue_ok (abs q) → (∀ k, k ∈ running log → k ∈ q_processing (abs q)) →
  let q' := apply_ops WQ (QAdd <$> ks) q in
  let log' := log ++ omap entry_of (QAdd <$> ks) in
  queue_ok (abs q') ∧ q_processing (abs q') = q_processing (abs q) ∧ q_closed (abs q') = q_closed (abs q) ∧
  running log' = running log ∧
  (q_closed (abs q) = false → (∀ k, k ∈ owed log → pending (abs q) k) → ∀ k, k ∈ owed log' → pending (abs q') k) ∧
  (q_closed (abs q) = true → abs q' = abs q).
Proof.
  revert q log. induction ks as [|k ks IH]; intros q log Hq Hr; cbn.
  { rewrite app_nil_r. by split_and!. }
  specialize (IH (wq_Add WQ k q) (log ++ [EAdd k])). rewrite abs_Add in IH.
  destruct (add_frame k (abs q)) as (Hp & Hc & _). rewrite running_snoc, owed_snoc, Hp, Hc in IH. cbn in IH.
  rewrite <- app_assoc in IH. cbn in IH. destruct IH as (I1 & I2 & I3 & I4 & I5 & I6); [by apply add_ok|done|].
  split_and!; try done.
  - intros Ho Hpend. apply I5; [done|]. intros x [->%elem_of_singleton|Hx]%elem_of_union; [by apply add_pending|].
    by apply add_keeps, Hpend.
  - intros Hclosed. etrans; [exact (I6 Hclosed)|]. unfold add. by rewrite Hclosed.
Qed.

Lemma handled_adds x c' ks : loop_ok x → new_ops (lp_ctrl x) c' = QAdd <$> ks → loop_ok (handled WQ x (lp_workers x) c').
Proof.
  intros [H1 H2 H3 H4 H5 H6 H7] Hops. unfold handled. rewrite Hops.
  destruct (adds_ok ks (lp_queue x) (lp_log x)) as (I1 & I2 & I3 & I4 & I5 & I6); [done|by intros k; rewrite H3, H4|].
  split; cbn [lp_queue lp_workers lp_log lp_ctrl]; rewrite ?I2, ?I3, ?I4; try done.
  - intros Ho. apply I5; [done|by apply H5].
  - destruct H7 as [(Hc & Hw & Ha)|?]; [left|by right]. by rewrite I6.
Qed.

(** What the workers have left to do. *)
Definition worker_weight (w : worker) : nat := match w with AtGet => 1 | Holding _ => 2 | Exited => 0 end.
Definition loop_weight x : nat :=
  2 * length (q_waiting (abs (lp_queue x))) + 3 * size (q_again (abs (lp_queue x))) + sum_list_with worker_weight (lp_workers x).

(** A worker takes an item. *)
Lemma get_loop_ok x l1 l2 k q : loop_ok x → lp_workers x = l1 ++ AtGet :: l2 → wq_Get WQ (lp_queue x) = Item k q →
  loop_ok (mkLoop (lp_ctrl x) q (l1 ++ Holding k :: l2) (lp_log x ++ [EGet k])).
Proof.
  intros [H1 H2 H3 H4 H5 H6 H7] Hw Hg. pose proof (abs_Get (lp_queue x)) as Ha. rewrite Hg in Ha.
  pose proof (get_ok _ _ _ H1 Ha) as Hok. pose proof (get_Item _ _ _ Ha) as (l & Hl & E).
  assert (q_processing (abs q) = {[k]} ∪ q_processing (abs (lp_queue x)) ∧ q_closed (abs q) = q_closed (abs (lp_queue x))) as [Hp Hc]
    by (by rewrite E).
  assert (k ∉ held (l1 ++ AtGet :: l2)) as Hk.
  { rewrite <- Hw, <- H3. apply (qo_apart _ H1). rewrite Hl. by constructor. }
  rewrite Hw in *. rewrite held_app in Hk, H2, H3, H4. cbn [held omap list_omap app] in Hk, H2, H3, H4.
  assert (∀ j, j ∈ held (l1 ++ Holding k :: l2) ↔ j = k ∨ j ∈ held l1 ++ held l2) as Hh.
  { intros j. rewrite held_app. cbn. rewrite !elem_of_app, elem_of_cons. tauto. }
  split; cbn [lp_queue lp_workers lp_log lp_ctrl]; [done| | | | | |].
  - rewrite held_app. cbn. rewrite <- Permutation_middle. by apply list.NoDup_cons.
  - intros j. rewrite Hp, Hh, elem_of_union, elem_of_singleton, H3. done.
  - intros j. rewrite running_snoc, Hh. cbn. rewrite elem_of_union, elem_of_singleton, H4. done.
  - rewrite Hc. intros Ho j. rewrite owed_snoc. cbn. rewrite elem_of_difference, elem_of_singleton. intros [Hj Hne].
    by apply (get_keeps _ _ _ _ Ha); [apply H5|].
  - rewrite Hc. intros Ho Hin. apply (H6 Ho). rewrite !elem_of_app, !elem_of_cons in *. naive_solver.
  - right. exists (Holding k). rewrite elem_of_app, elem_of_cons. auto.
Qed.

Lemma quit_loop_ok x l1 l2 : loop_ok x → lp_workers x = l1 ++ AtGet :: l2 → wq_Get WQ (lp_queue x) = Quit →
  loop_ok (mkLoop (lp_ctrl x) (lp_queue x) (l1 ++ Exited :: l2) (lp_log x)).
Proof.
  intros [H1 H2 H3 H4 H5 H6 H7] Hw Hg. pose proof (abs_Get (lp_queue x)) as Ha. rewrite Hg in Ha. apply get_Quit in Ha as [Hl Hc].
  assert (held (l1 ++ Exited :: l2) = held (l1 ++ AtGet :: l2)) as Hh by (by rewrite !held_app).
  split; cbn [lp_queue lp_workers lp_log lp_ctrl]; rewrite ?Hh, <- ?Hw; try done; [congruence|].
  destruct (decide (q_again (abs (lp_queue x)) = ∅)) as [E|E]; [by left|right].
  apply set_choose_L in E as [j Hj]. apply (qo_again _ H1), H3 in Hj. rewrite Hw, <- Hh in Hj.
  apply held_elem in Hj. by exists (Holding j).
Qed.

(** A worker returns from the handler: the calls it made settle the item. *)
Lemma process_queue_ok (q : queue) k (err : option error) : queue_ok q →
  let q' := done_with k (match err with None => q | Some _ => add_rate_limited k q end) in
  queue_ok q' ∧ q_processing q' = q_processing q ∖ {[k]} ∧ q_closed q' = q_closed q ∧
  (∀ j, pending q j → pending q' j) ∧ (q_closed q = false → is_Some err → pending q' k) ∧
  (q_waiting q = q_waiting q' ∧ q_again q = q_again q' ∨ k ∈ q_again q ∧ q_waiting q' = q_waiting q ++ [k] ∧ q_again q' = q_again q ∖ {[k]}).
Proof.
  intros Hq q'. pose proof (rate_limited_frame k q) as (R1 & R2 & R3 & R4). subst q'. destruct err as [e|].
  - destruct (done_frame k (add_rate_limited k q)) as [D1 D2]. split_and!.
    + by apply done_ok, rate_limited_ok.
    + by rewrite D1, R1.
    + by rewrite D2, R2.
    + intros j Hj. by apply done_keeps, rate_limited_keeps.
    + intros Ho _. by apply done_keeps, rate_limited_pending.
    + unfold done_with. rewrite R4. case_decide; cbn; rewrite ?R3, ?R4; auto.
  - destruct (done_frame k q) as [D1 D2]. split_and!; try done.
    + by apply done_ok.
    + intros j. apply done_keeps.
    + unfold done_with. case_decide; cbn; auto.
Qed.

Lemma settle_abs k err (q : Q) :
  abs (apply_ops WQ (settle_ops k err) q) =
    done_with k (match err with None => abs q | Some _ => add_rate_limited k (abs q) end) ∧
  omap entry_of (settle_ops k err) = [].
Proof. destruct err as [e|]; cbn; split; try done; by rewrite abs_Done, ?abs_AddRateLimited, ?abs_Forget. Qed.

(** A worker that held [k] concludes it, whatever the handler left behind. *)
Lemma settle_loop_ok x l1 l2 k err c' : loop_ok x → lp_workers x = l1 ++ Holding k :: l2 →
  new_ops (lp_ctrl x) c' = settle_ops k err → loop_ok (item_done WQ x (l1 ++ AtGet :: l2) k err c').
Proof.
  intros [H1 H2 H3 H4 H5 H6 H7] Hw Hops. destruct (settle_abs k err (lp_queue x)) as [Ea El].
  destruct (process_queue_ok (abs (lp_queue x)) k err H1) as (P1 & P2 & P3 & P4 & P5 & P6).
  rewrite <- Ea in P1, P2, P3, P4, P5, P6. rewrite Hw in *. rewrite held_app in H2, H3, H4. cbn in H2, H3, H4.
  rewrite <- Permutation_middle in H2. apply list.NoDup_cons in H2 as [Hk H2].
  assert (held (l1 ++ AtGet :: l2) = held l1 ++ held l2) as Hh by (by rewrite held_app).
  assert (∀ j, j ∈ held l1 ++ held l2 ↔ j ∈ held l1 ++ k :: held l2 ∧ j ≠ k) as Hj.
  { intros j. rewrite !elem_of_app, elem_of_cons in *. split; [|naive_solver]. intros Hj. split; [tauto|]. intros ->. tauto. }
  unfold item_done, handled. rewrite Hops, El, app_nil_r. split; cbn [lp_queue lp_workers lp_log lp_ctrl]; rewrite ?Hh; try done.
  - intros j. rewrite P2, elem_of_difference, elem_of_singleton, H3. symmetry. apply Hj.
  - intros j. rewrite running_snoc, Hj. destruct err; cbn; rewrite elem_of_difference, elem_of_singleton, H4; done.
  - rewrite P3. intros Ho j. rewrite owed_snoc. destruct err as [e|] eqn:He; cbn.
    + intros [->%elem_of_singleton|Hj']%elem_of_union; [by apply P5|by apply P4, H5].
    + intros Hj'. by apply P4, H5.
  - rewrite P3. intros Ho Hin. apply (H6 Ho). rewrite !elem_of_app, !elem_of_cons in *. naive_solver.
  - right. exists AtGet. rewrite elem_of_app, elem_of_cons. auto.
Qed.

Lemma settle_weight x l1 l2 k err c' : loop_ok x → lp_workers x = l1 ++ Holding k :: l2 →
  new_ops (lp_ctrl x) c' = settle_ops k err → loop_weight (item_done WQ x (l1 ++ AtGet :: l2) k err c') < loop_weight x.
Proof.
  intros Hx Hw Hops. unfold loop_weight, item_done, handled. cbn [lp_queue lp_workers].
  rewrite Hops, (proj1 (settle_abs k err _)), Hw, !sum_list_with_app. cbn [sum_list_with worker_weight].
  destruct (process_queue_ok (abs (lp_queue x)) k err (lo_queue _ Hx)) as (_ & _ & _ & _ & _ & [(<- & <-)|(Hk & -> & ->)]); [lia|].
  rewrite length_app, size_difference by set_solver. rewrite size_singleton. cbn.
  assert (size (q_again (abs (lp_queue x))) ≠ 0) by (rewrite size_non_empty_iff; set_solver). lia.
Qed.

Lemma get_weight x l1 l2 k q c log : lp_workers x = l1 ++ AtGet :: l2 → wq_Get WQ (lp_queue x) = Item k q →
  loop_weight (mkLoop c q (l1 ++ Holding k :: l2) log) < loop_weight x.
Proof.
  intros Hw Hg. unfold loop_weight. cbn [lp_queue lp_workers]. rewrite Hw, !sum_list_with_app. cbn [sum_list_with worker_weight].
  pose proof (abs_Get (lp_queue x)) as Ha. rewrite Hg in Ha. apply get_Item in Ha as (l & -> & ->). cbn. lia.
Qed.
Lemma quit_weight x l1 l2 c log : lp_workers x = l1 ++ AtGet :: l2 →
  loop_weight (mkLoop c (lp_queue x) (l1 ++ Exited :: l2) log) < loop_weight x.
Proof.
  intros Hw. unfold loop_weight. cbn [lp_queue lp_workers]. rewrite Hw, !sum_list_with_app. cbn [sum_list_with worker_weight]. lia.
Qed.

Lemma worker_step_ok x y : loop_ok x → worker_step k8s WQ adapters cfg x y → loop_ok y.
Proof.
  intros Hx [l1 l2 k q Hw Hg|l1 l2 Hw Hg|l1 l2 k Hw]; [by eapply get_loop_ok|by eapply quit_loop_ok|].
  eapply settle_loop_ok; [done..|apply processNextItem_ops].
Qed.

Lemma expire_loop_ok x k : loop_ok x → loop_ok (mkLoop (lp_ctrl x) (wq_expire WQ k (lp_queue x)) (lp_workers x) (lp_log x)).
Proof.
  intros [H1 H2 H3 H4 H5 H6 H7]. destruct (expire_frame k (abs (lp_queue x))) as [E1 E2].
  split; cbn [lp_queue lp_workers lp_log lp_ctrl]; rewrite ?abs_expire, ?E1, ?E2; try done.
  - by apply expire_ok.
  - intros Ho j Hj. apply expire_keeps; [done|by apply H5].
  - destruct H7 as [(Hc & Hw & Ha)|?]; [left|by right]. destruct (expire_closed k _ Hc) as [-> ->]. done.
Qed.

Lemma shut_down_loop_ok x : loop_ok x → loop_ok (mkLoop (lp_ctrl x) (wq_ShutDown WQ (lp_queue x)) (lp_workers x) (lp_log x)).
Proof.
  intros [[Q1 Q2 Q3] H2 H3 H4 H5 H6 H7]. split; cbn [lp_queue lp_workers lp_log lp_ctrl]; rewrite ?abs_ShutDown; try done.
  destruct H7 as [(Hc & Hw & Ha)|?]; [by left|by right].
Qed.

Lemma loop_step_ok x y : loop_ok x → loop_step k8s WQ adapters cfg x y → loop_ok y.
Proof.
  intros Hx [z Hz|case _|lbName ad _|w|k|].
  - by eapply worker_step_ok.
  - destruct (event_ops case (lp_ctrl x)) as [ks Hk]. by eapply handled_adds.
  - apply (handled_adds _ _ []); [done|]. apply syncSingleLoadBalancer_ops.
  - apply (handled_adds _ _ []); [done|]. unfold new_ops. cbn. by rewrite drop_all.
  - by apply expire_loop_ok.
  - by apply shut_down_loop_ok.
Qed.

Definition empty_queue : queue := mkQueue [] ∅ ∅ ∅ false.

Lemma loop_start_ok w q : abs q = empty_queue → (1 <= cfg_RequestPoolSize cfg)%Z → loop_ok (loop_start cfg w q).
Proof.
  intros E Hp. assert (∀ n, held (replicate n AtGet) = []) as Hh by (by induction n).
  split; cbn [lp_queue lp_workers lp_log lp_ctrl loop_start]; rewrite ?E, ?Hh; try done.
  - split; cbn; [constructor|intros k; set_solver|done].
  - constructor.
  - intros k. cbn. set_solver.
  - intros k. cbn. set_solver.
  - intros _ Hin. apply elem_of_replicate in Hin as [? _]. done.
  - right. exists AtGet. split; [|done]. apply elem_of_replicate. split; [done|lia].
Qed.

Lemma reachable_loop_ok w q x : abs q = empty_queue → (1 <= cfg_RequestPoolSize cfg)%Z →
  rtc (loop_step k8s WQ adapters cfg) (loop_start cfg w q) x → loop_ok x.
Proof. intros E Hp Hr. eapply reachable_inv; [exact Hr|by apply loop_start_ok|apply loop_step_ok]. Qed.

(** ** Progress of the workers *)


Lemma worker_step_weight x y : loop_ok x → worker_step k8s WQ adapters cfg x y → loop_weight y < loop_weight x.
Proof.
  intros Hx [l1 l2 k q Hw Hg|l1 l2 Hw Hg|l1 l2 k Hw]; [by apply get_weight|by apply quit_weight|].
  eapply settle_weight; [done..|apply processNextItem_ops].
Qed.

(** Nothing is left for the workers: each waits for an item, or has returned
    once the queue is shut down. *)
Definition quiet x : Prop :=
  q_waiting (abs (lp_queue x)) = [] ∧ q_again (abs (lp_queue x)) = ∅ ∧
  ∀ w, w ∈ lp_workers x → w = if q_closed (abs (lp_queue x)) then Exited else AtGet.

Lemma no_held_again x : loop_ok x → held (lp_workers x) = [] → q_again (abs (lp_queue x)) = ∅.
Proof.
  intros [[_ _ Q3] _ H3 _ _ _ _] Hh. apply set_eq. intros j. split; [|set_solver].
  intros Hj%Q3%H3. rewrite Hh in Hj. by apply not_elem_of_nil in Hj.
Qed.

Lemma worker_progress x : loop_ok x → quiet x ∨ ∃ y, worker_step k8s WQ adapters cfg x y.
Proof.
  intros Hx. destruct (held (lp_workers x)) as [|k ks] eqn:Hh.
  2:{ right. assert (Holding k ∈ lp_workers x) as Hin by (apply held_elem; rewrite Hh; by constructor).
      apply list_elem_of_split in Hin as (l1 & l2 & Hw). eexists. by eapply worker_process. }
  pose proof (no_held_again _ Hx Hh) as Ha.
  assert (∀ w, w ∈ lp_workers x → w ≠ AtGet → w = Exited) as Hw.
  { intros [|k|] Hin Hne; try done. apply held_elem in Hin. rewrite Hh in Hin. by apply not_elem_of_nil in Hin. }
  destruct (decide (AtGet ∈ lp_workers x)) as [Hin|Hin].
  - pose proof Hin as (l1 & l2 & E)%list_elem_of_split. pose proof (abs_Get (lp_queue x)) as Hg.
    destruct (wq_Get WQ (lp_queue x)) as [k q| |] eqn:EG.
    + right. eexists. by eapply worker_get.
    + right. eexists. by eapply worker_quit.
    + left. unfold get in Hg. destruct (q_waiting _) eqn:El; [|done]. destruct (q_closed _) eqn:Ec; [done|].
      split; [done|]. split; [done|]. rewrite Ec. intros w Hw'. destruct (decide (w = AtGet)) as [|Hne]; [done|].
      rewrite (Hw w Hw' Hne) in Hw'. by apply (lo_open _ Hx) in Ec.
  - left. destruct (lo_alive _ Hx) as [(Hc & Hl & _)|(w & Hin' & Hne)].
    + split; [done|]. split; [done|]. rewrite Hc. intros w Hw'. apply Hw; [done|]. by intros ->.
    + exfalso. apply Hne, Hw; [done|]. by intros ->.
Qed.

(** Along the steps of the workers a waiting key is taken. *)
Definition taken_since x y : Prop :=
  ∃ l, lp_log y = lp_log x ++ l ∧
    ∀ k, k ∈ q_waiting (abs (lp_queue x)) → k ∈ q_waiting (abs (lp_queue y)) ∨ EGet k ∈ l.

Lemma taken_step x y z : loop_ok y → taken_since x y → worker_step k8s WQ adapters cfg y z → taken_since x z.
Proof.
  intros Hy (l & E & Hl) [l1 l2 k q Hw Hg|l1 l2 Hw Hg|l1 l2 k Hw].
  - exists (l ++ [EGet k]). cbn. rewrite E, app_assoc. split; [done|]. intros j Hj.
    pose proof (abs_Get (lp_queue y)) as Ha. rewrite Hg in Ha. apply get_Item in Ha as (l' & El & ->). cbn.
    rewrite elem_of_app, list_elem_of_singleton. destruct (Hl j Hj) as [Hj'|?]; [|auto].
    rewrite El in Hj'. apply elem_of_cons in Hj' as [->|?]; auto.
  - exists l. done.
  - destruct (processNextItem_ops k8s adapters cfg k (lp_ctrl y)) as [_ Hops].
    destruct (settle_abs k (syncHandler k8s adapters cfg k (lp_ctrl y)).1 (lp_queue y)) as [Ea El].
    unfold item_done, handled. rewrite Hops, El, app_nil_r. eexists (l ++ _). cbn [lp_log lp_queue]. rewrite E, app_assoc.
    split; [done|]. intros j Hj. rewrite elem_of_app, Ea.
    destruct (process_queue_ok (abs (lp_queue y)) k (syncHandler k8s adapters cfg k (lp_ctrl y)).1 (lo_queue _ Hy))
      as (_ & _ & _ & _ & _ & Hq).
    destruct (Hl j Hj) as [Hj'|?]; [left|auto]. destruct Hq as [(<- & _)|(_ & -> & _)]; [done|]. rewrite elem_of_app. auto.
Qed.
End facts.

(** A worker alone on a queue that is shut down: [runWorker] handles the items
    that wait, each once and in their order, even those that fail, and returns;
    one unit of fuel per item and one for the last [Get] are enough. *)
Section run_worker.
Context `{MapRange} {W Q : Type} (k8s : KubernetesPort W) (WQ : WorkQueue Q)
  (adapters : gmap string (LoadBalancerAdapter W)) (cfg : Config) (abs : Q → queue) `{!WorkQueueLaws WQ abs}.

Lemma runWorker_drains (q : Q) (c : Ctrl W) :
  q_closed (abs q) = true → q_again (abs q) = ∅ →
  ∃ q', runWorker k8s WQ adapters cfg (S (length (q_waiting (abs q)))) c q =
    Finished (foldl (λ c k, (processNextItem k8s adapters cfg (Some (Some k)) c).2) c (q_waiting (abs q))) q' ∧
    q_waiting (abs q') = [].
Proof.
  remember (q_waiting (abs q)) as l eqn:Hl. revert q c Hl. induction l as [|k l IH]; intros q c Hl Hc Ha; cbn [length runWorker];
    pose proof (abs_Get q) as Hg; unfold get in Hg; rewrite <- Hl in Hg.
  - rewrite Hc in Hg. destruct (wq_Get WQ q); try done. exists q. by rewrite <- Hl.
  - destruct (wq_Get WQ q) as [k' q1| |]; try done. injection Hg as <- E1.
    destruct (processNextItem_ops k8s adapters cfg k c) as [Ep Hops]. rewrite Ep. clear Ep. cbn [foldl].
    set (c' := (processNextItem k8s adapters cfg (Some (Some k)) c).2) in *.
    assert (abs (apply_ops WQ (new_ops c c') q1) = mkQueue l (({[k]} ∪ q_processing (abs q)) ∖ {[k]}) ∅ (q_delayed (abs q)) true) as Eq.
    { rewrite Hops. unfold settle_ops. destruct (syncHandler k8s adapters cfg k c).1; cbn; rewrite abs_Done, ?abs_AddRateLimited, ?abs_Forget, <- E1, Ha, Hc;
        unfold add_rate_limited, done_with; cbn; by rewrite decide_False by set_solver. }
    apply (IH (apply_ops WQ (new_ops c c') q1) c'); by rewrite Eq.
Qed.
End run_worker.

(** ** Start-up and the tickers *)

Section start_facts.
Context `{MapRange} {W : Type} (k8s : KubernetesPort W) (adapters : gmap string (LoadBalancerAdapter W)) (cfg : Config).

(** The registration of the service watcher starts the informers and waits for
    them, so when they do not sync it is the one that reports the failure; the
    last error of [Start] never occurs. *)
Lemma Controller_Start_sync services pods nodes factory sync s (c : Ctrl W) :
  let r := (Controller_Start k8s adapters cfg services pods nodes factory sync (s, c)).1 in
  (∀ err, r ≠ Err (Errorf "failed to start and sync kubernetes informers: %w" [FErr err])) ∧
  (services = None → factory = true → startOnce s = false → sync = false →
   r = Err (Errorf "failed to register service watcher: %w" [FErr (Errorf "failed to sync kubernetes informers" [])])) ∧
  (services = None → pods = None → nodes = None → factory = true → startOnce s = false → startErr s = None → sync = true →
   r = Ok (Z.to_nat (cfg_RequestPoolSize cfg))).
Proof.
  destruct s as [once serr]. unfold Controller_Start, watch_returns, Start. cbn [startOnce startErr]. cbv zeta. split_and!.
  - intros err. destruct services, pods, nodes, factory, once, sync, serr; cbn; try congruence;
      destruct (SyncUpstreams k8s adapters cfg c); cbn; congruence.
  - intros -> -> -> ->. done.
  - intros -> -> -> -> -> -> ->. cbn. by destruct (SyncUpstreams k8s adapters cfg c).
Qed.

(** No ticker panics when the global period is positive, as in every loaded
    configuration. *)
Lemma tickers_positive : (0 < cfg_GlobalUpstreamSyncPeriod cfg)%Z → Forall (λ t, (0 < t.2)%Z) (tickers adapters cfg).
Proof.
  intros Hp. unfold tickers. case_decide; [by repeat constructor|]. apply list.Forall_fmap, list.Forall_forall.
  intros [n ad] _. cbn. unfold sync_period. destruct (getLoadBalancerConfig cfg n) as [lb|]; [destruct (Z.ltb_spec 0 (GetUpstreamSyncPeriod lb))|];
    cbv zeta; destruct (_ <=? 0)%Z eqn:E; unfold Second; lia.
Qed.
End start_facts.

(** ** A controller with one worker to evaluate the loops on *)
Module single.
Definition config : Config :=
  mkConfig 1 (mkLeaderElection false "" "" 0 0 0) (mkLog false "" "") (mkMetrics false 0 "")
    (mkKubernetes 0 "") (mkGlobalList [] []) (cfg_LoadBalancers memory.config) 1 false None.
Definition adapters : gmap string (LoadBalancerAdapter memory.world) := {["edge" := memory.adapter]}.
Definition start : loop (W := memory.world) (Q := queue) := loop_start config (ct_world memory.start) empty_queue.
Abbreviation step := (@loop_step map_range_reverse _ _ memory.fixed documented adapters config).
Definition added : loop (W := memory.world) (Q := queue) :=
  handled documented start (lp_workers start)
    (@processEvents map_range_reverse _ [FromServices (mkServiceEvent EventTypeAdd memory.web)] (lp_ctrl start)).
Definition got : loop (W := memory.world) (Q := queue) :=
  mkLoop (lp_ctrl added) (mkQueue [] {["default/web"]} ∅ ∅ false) [Holding "default/web"] (lp_log added ++ [EGet "default/web"]).
Definition synced : loop (W := memory.world) (Q := queue) :=
  item_done documented got [AtGet] "default/web"
    (@syncHandler map_range_reverse _ memory.fixed adapters config "default/web" (lp_ctrl got)).1
    (@processNextItem map_range_reverse _ memory.fixed adapters config (Some (Some "default/web")) (lp_ctrl got)).2.

Lemma added_reached : rtc step start added.
Proof. apply rtc_once. by apply (loop_event _ _ _ _ start (FromServices (mkServiceEvent EventTypeAdd memory.web))). Qed.
Lemma synced_reached : rtc step start synced.
Proof.
  etrans; [exact added_reached|]. eapply rtc_l; [|apply rtc_once].
  - apply loop_worker. apply (worker_get _ _ _ _ added [] [] "default/web" (mkQueue [] ({["default/web"]} ∪ ∅) ∅ ∅ false)); reflexivity.
  - apply loop_worker. by apply (worker_process _ _ _ _ got [] []).
Qed.
Lemma synced_idle : ¬ pending (lp_queue synced) "default/web".
Proof. vm_decide. Qed.
Lemma synced_free : Holding "default/web" ∉ lp_workers synced.
Proof. vm_decide. Qed.
End single.

(** ** Properties *)

(** C14. No change is lost.  In whatever order events, workers, delays, periodic
    reconciliations and changes of the caches interleave, as long as the queue
    is not shut down: a key that was added at some point has been got by a worker
    afterwards and [syncHandler] has then returned nil for it, or the queue
    still holds it (waiting, added again while it is processed, or delayed after
    a failure), or a worker is processing it. *)
Theorem no_lost_key `{MapRange} {W Q} (k8s : KubernetesPort W) (WQ : WorkQueue Q) (abs : Q → queue) `{!WorkQueueLaws WQ abs}
    (adapters : gmap string (LoadBalancerAdapter W)) (cfg : Config) (w : W) (q : Q) (x : loop (W := W) (Q := Q))
    (l1 l2 : list entry) (k : string) :
  abs q = empty_queue → (1 <= cfg_RequestPoolSize cfg)%Z →
  rtc (loop_step k8s WQ adapters cfg) (loop_start cfg w q) x → q_closed (abs (lp_queue x)) = false →
  lp_log x = l1 ++ EAdd k :: l2 →
  settled l2 k ∨ pending (abs (lp_queue x)) k ∨ Holding k ∈ lp_workers x.
Proof.
  intros E Hp Hr Hc Hl. pose proof (reachable_loop_ok k8s WQ adapters cfg abs w q x E Hp Hr) as [_ _ _ H4 H5 _ _].
  destruct (decide (k ∈ owed (lp_log x))) as [Ho|Ho]; [right; left; by apply H5|].
  destruct (decide (k ∈ held (lp_workers x))) as [Hh|Hh]; [right; right; by apply held_elem|].
  left. rewrite <- H4 in Hh. rewrite Hl in Ho, Hh. by apply (settled_after l1).
Qed.

Lemma no_lost_key_witness :
  let log := lp_log single.synced in
  log = [EAdd "default/web"; EGet "default/web"; EOk "default/web"] ∧ settled [EGet "default/web"; EOk "default/web"] "default/web".
Proof.
  assert (lp_log single.synced = [EAdd "default/web"; EGet "default/web"; EOk "default/web"]) as Hl by (vm_compute; reflexivity).
  split; [exact Hl|].
  destruct (@no_lost_key map_range_reverse _ _ memory.fixed documented id _ single.adapters single.config (ct_world memory.start) empty_queue
    single.synced [] [EGet "default/web"; EOk "default/web"] "default/web") as [Hs|[Hq|Hh]].
  - reflexivity.
  - cbn. lia.
  - exact single.synced_reached.
  - vm_compute; reflexivity.
  - exact Hl.
  - exact Hs.
  - destruct (single.synced_idle Hq).
  - destruct (single.synced_free Hh).
Defined.

(** C17. The workers finish.  From every state the controller can reach, however
    its workers interleave, they inevitably become quiet: every key that waited
    has been got and its handler has returned, with or without an error; nothing
    waits; and each worker is back at [Get], or, once the queue is shut down, has
    returned. *)
Theorem workers_finish `{MapRange} {W Q} (k8s : KubernetesPort W) (WQ : WorkQueue Q) (abs : Q → queue) `{!WorkQueueLaws WQ abs}
    (adapters : gmap string (LoadBalancerAdapter W)) (cfg : Config) (w : W) (q : Q) (x : loop (W := W) (Q := Q)) :
  abs q = empty_queue → (1 <= cfg_RequestPoolSize cfg)%Z →
  rtc (loop_step k8s WQ adapters cfg) (loop_start cfg w q) x →
  inevitably (worker_step k8s WQ adapters cfg) (λ y, quiet abs y ∧
    ∀ k, k ∈ q_waiting (abs (lp_queue x)) → ∃ l1 l2, lp_log y = lp_log x ++ l1 ++ EGet k :: l2 ∧ (EOk k ∈ l2 ∨ EFail k ∈ l2)) x.
Proof.
  intros E Hp Hr. pose proof (reachable_loop_ok k8s WQ adapters cfg abs w q x E Hp Hr) as Hx.
  apply (inevitably_mono _ (λ y, (loop_ok abs y ∧ taken_since abs x y) ∧ quiet abs y)).
  - apply (inevitably_measure _ (λ y, loop_ok abs y ∧ taken_since abs x y) _ (loop_weight abs)).
    + intros y z [H1 H2] Hs. split; [split; [by eapply worker_step_ok|by eapply taken_step]|by eapply worker_step_weight].
    + intros y [H1 H2]. destruct (worker_progress k8s WQ adapters cfg abs y H1); [by left|by right].
    + split; [done|]. exists []. rewrite app_nil_r. split; [done|]. auto.
  - intros y [[H1 (l & El & Hl)] Hq]. split; [done|]. intros k Hk. destruct (Hl k Hk) as [Hin|Hin].
    { rewrite (proj1 Hq) in Hin. by apply not_elem_of_nil in Hin. }
    apply list_elem_of_split in Hin as (l1 & l2 & ->). exists l1, l2. split; [done|].
    rewrite app_assoc in El. apply (running_returned (lp_log x ++ l1)). rewrite <- El, (lo_running _ _ H1), held_elem.
    intros Hh. pose proof (proj2 (proj2 Hq) _ Hh) as Hw. by destruct (q_closed (abs (lp_queue y))).
Qed.

Lemma workers_finish_witness :
  q_waiting (lp_queue single.added) = ["default/web"] ∧
  inevitably (@worker_step map_range_reverse _ _ memory.fixed documented single.adapters single.config) (λ y, quiet id y ∧
    ∀ k, k ∈ q_waiting (lp_queue single.added) →
    ∃ l1 l2, lp_log y = lp_log single.added ++ l1 ++ EGet k :: l2 ∧ (EOk k ∈ l2 ∨ EFail k ∈ l2)) single.added.
Proof.
  split; [vm_compute; reflexivity|].
  apply (@workers_finish map_range_reverse _ _ memory.fixed documented id _ single.adapters single.config (ct_world memory.start) empty_queue);
    [reflexivity|cbn; lia|exact single.added_reached].
Defined.
