(* ===== verification/ControllerStages.v ===== *)
(** * The handlers of the controller in stages: internal/controller/controller.go

    Workers, the goroutines of [runPeriodicSync] and the informers run
    concurrently.  A handler reads the caches of the informers, then changes the
    state under [stateMutex], then calls the adapter, and others run in between.
    This file cuts [syncHandler] and [syncSingleLoadBalancer] at those points:
    one stage is a read of the caches, a critical section or a call of an
    adapter.  Alone, the stages are the handlers of Controller; the transition
    system [fine_step] interleaves them. *)
From S2P Require Export ControllerLoop.
From Stdlib Require Import Lia.
Local Open Scope nat_scope.

(** ** The stages of [syncHandler] *)

(** What follows a push: [syncHandler] forgets the key of a deleted service, or
    goes on with the service whose labels changed, or returns. *)
Inductive after := ThenForget | ThenSync (svc : Service) | ThenReturn.

Inductive stage :=
  | GettingService                                    (** [GetService] *)
  | Missing                                           (** reads [lastKnownServices], the service is gone *)
  | Found (svc : Service)                             (** reads [lastKnownServices] *)
  | Draining (l : Service) (k : after)                (** [handleServiceDeletion] lists the services *)
  | Purging (l : Service) (k : after)                 (** deletes the upstream from the state *)
  | PushingEmpty (l : Service) (k : after)            (** calls the adapter *)
  | Forgetting                                        (** deletes the key *)
  | Remembering (svc : Service)                       (** records the service *)
  | Reading (svc : Service) (k : after)               (** [syncUpstreamsForService] reads the caches *)
  | Recording (svc : Service) (u : Upstream) (k : after)   (** records the upstream in the state *)
  | Pushing (svc : Service) (u : Upstream) (k : after)     (** calls the adapter *)
  | Returning (err : option error).

Definition resume (err : option error) (k : after) : stage :=
  match err with
  | Some _ => Returning err
  | None => match k with ThenForget => Forgetting | ThenSync svc => Remembering svc | ThenReturn => Returning None end
  end.
Definition returning (st : stage) : bool := match st with Returning _ => true | _ => false end.

Definition after_weight (k : after) : nat := match k with ThenForget => 1 | ThenSync _ => 4 | ThenReturn => 0 end.
Definition stage_weight (st : stage) : nat :=
  match st with
  | Returning _ => 0 | Forgetting => 1 | Remembering _ => 4
  | Pushing _ _ k | PushingEmpty _ k => 1 + after_weight k
  | Recording _ _ k | Purging _ k => 2 + after_weight k
  | Reading _ k => 3 + after_weight k
  | Draining _ k => 4 + after_weight k
  | Missing => 6 | Found _ => 9 | GettingService => 10
  end.
Lemma resume_weight err k : stage_weight (resume err k) <= after_weight k.
Proof. destruct err, k; cbn; lia. Qed.

(** ** The stages of [syncSingleLoadBalancer] *)

Inductive round :=
  | Listing_services
  | Tracking (services : list Service)                (** the first critical section *)
  | Desiring (services : list Service)                (** computes [desiredState] *)
  | Publishing (desiredState : gmap string Upstream)  (** the second critical section *)
  | PushingAll (desiredState : gmap string Upstream)  (** calls the adapter *)
  | Ended (err : option error).
Definition round_over (r : round) : bool := match r with Ended _ => true | _ => false end.
Definition round_weight (r : round) : nat :=
  match r with
  | Listing_services => 5 | Tracking _ => 4 | Desiring _ => 3 | Publishing _ => 2 | PushingAll _ => 1 | Ended _ => 0
  end.

Section stages.
Context `{MapRange} {W : Type} (k8s : KubernetesPort W) (adapters : gmap string (LoadBalancerAdapter W)) (cfg : Config).

(** [syncUpstreamsForService]. *)
Definition stage_read (svc : Service) (k : after) : ST (Ctrl W) stage := λ c,
  if bool_decide (svc_lb svc = "") || bool_decide (svc_upstream svc = "") then (resume None k, c) else
  match gather k8s cfg (ct_world c) svc with
  | Err err => (resume (Some err) k, emit (IncrementSyncErrors (svc_upstream svc)) c)
  | Ok None => (resume None k, c)
  | Ok (Some upstream) =>
  match fill_empty cfg upstream with
  | None => (resume None k, c)
  | Some upstream =>
      (Recording svc upstream k, emit (UpdateBackendsTotal (svc_upstream svc) (Z.of_nat (length (up_Backends upstream)))) c)
  end end.
Definition stage_record (svc : Service) (upstream : Upstream) (k : after) : ST (Ctrl W) stage := λ c,
  (Pushing svc upstream k, upd_state (set_Upstreams (insert (slash_key (svc_lb svc) (svc_upstream svc)) upstream)) c).
Definition stage_push (svc : Service) (upstream : Upstream) (k : after) : ST (Ctrl W) stage := λ c,
  let '(r, c) := syncLoadBalancerUpstream adapters upstream c in
  match r with
  | Some err => (resume (Some err) k, emit (IncrementSyncErrors (svc_upstream svc)) c)
  | None => (resume None k, emit (ObserveSyncDuration (svc_upstream svc)) c)
  end.

(** [handleServiceDeletion]. *)
Definition stage_drain (key : string) (l : Service) (k : after) : ST (Ctrl W) stage := λ c,
  if bool_decide (svc_lb l = "") || bool_decide (svc_upstream l = "") then (resume None k, c) else
  match ListServices k8s (ct_world c) with
  | Err err => (resume (Some (Errorf "failed to list services during service deletion check for %s: %w" [FStr key; FErr err])) k, c)
  | Ok services =>
      match find_other key (svc_lb l) (svc_upstream l) services with
      | Some otherSvc => (Reading otherSvc k, c)
      | None => (Purging l k, c)
      end
  end.
Definition stage_purge (l : Service) (k : after) : ST (Ctrl W) stage := λ c,
  (PushingEmpty l k, emit (UpdateBackendsTotal (svc_upstream l) 0)
    (upd_state (set_Upstreams (delete (slash_key (svc_lb l) (svc_upstream l)))) c)).
Definition stage_push_empty (l : Service) (k : after) : ST (Ctrl W) stage := λ c,
  let '(r, c) := syncLoadBalancerUpstream adapters (emptyUpstream cfg (svc_lb l) (svc_upstream l)) c in
  match r with
  | Some err => (resume (Some err) k, emit (IncrementSyncErrors (svc_upstream l)) c)
  | None => (resume None k, c)
  end.

(** [syncHandler]. *)
Definition advance (key : string) (st : stage) : ST (Ctrl W) stage := λ c,
  match st with
  | GettingService =>
      match strings.Split key "/" with
      | [namespace; name] =>
          match GetService k8s (ct_world c) namespace name with
          | Err _ => (Missing, c)
          | Ok svc => (Found svc, c)
          end
      | _ => (Returning (Some (Errorf "invalid resource key: %s" [FStr key])), c)
      end
  | Missing =>
      match ct_last c !! key with
      | None => (Returning None, c)
      | Some lastSvc => (Draining lastSvc ThenForget, c)
      end
  | Found svc =>
      match ct_last c !! key with
      | Some lastSvc => (if labels_moved lastSvc svc then Draining lastSvc (ThenSync svc) else Remembering svc, c)
      | None => (Remembering svc, c)
      end
  | Draining l k => stage_drain key l k c
  | Purging l k => stage_purge l k c
  | PushingEmpty l k => stage_push_empty l k c
  | Forgetting => (Returning None, upd_state (set_Services (delete key)) (upd_last (delete key) c))
  | Remembering svc => (Reading svc ThenReturn, upd_state (set_Services (insert key svc)) (upd_last (insert key svc) c))
  | Reading svc k => stage_read svc k c
  | Recording svc upstream k => stage_record svc upstream k c
  | Pushing svc upstream k => stage_push svc upstream k c
  | Returning err => (Returning err, c)
  end.

(** What [processNextItem] does when the handler has returned. *)
Definition conclude (key : string) (err : option error) (c : Ctrl W) : Ctrl W :=
  enqueue (QDone key) (match err with None => enqueue (QForget key) c | Some _ => enqueue (QAddRateLimited key) c end).

Definition round_step (lbName : string) (adapter : LoadBalancerAdapter W) (r : round) : ST (Ctrl W) round := λ c,
  match r with
  | Listing_services =>
      if negb (HasSynced k8s (ct_world c)) then (Ended None, c) else
      match ListServices k8s (ct_world c) with
      | Err err => (Ended (Some (Errorf "failed to list services from lister for LB %s: %w" [FStr lbName; FErr err])), c)
      | Ok services => (Tracking services, c)
      end
  | Tracking services => (Desiring services, track_services lbName services c)
  | Desiring services => (Publishing (desired_state k8s cfg (ct_world c) (st_Upstreams (ct_state c)) lbName services), c)
  | Publishing m => (PushingAll m, publish_all lbName m c)
  | PushingAll m =>
      let '(r, c) := call (lb_SyncAllUpstreams adapter m) c in
      match r with
      | Some err => (Ended (Some (Errorf "reconciliation failed for LB %s: %w" [FStr lbName; FErr err])),
                     emit (IncrementSyncErrors lbName) c)
      | None => (Ended None, emit (ObserveSyncDuration ("reconciliation_" +:+ lbName)) (emit SyncUpstreamCtrInc c))
      end
  | Ended err => (Ended err, c)
  end.

(** *** The stages alone *)

Definition stages (key : string) (n : nat) (x : stage * Ctrl W) : stage * Ctrl W :=
  Nat.iter n (λ '(st, c), advance key st c) x.
Lemma stages_S key n st c : stages key (S n) (st, c) = stages key n (advance key st c).
Proof. unfold stages. by rewrite Nat.iter_succ_r. Qed.
Lemma stages_add key n m x : stages key (n + m) x = stages key n (stages key m x).
Proof. unfold stages. by rewrite Nat.iter_add. Qed.

Local Ltac cbn_advance := cbn [advance]; cbv beta delta [stage_read stage_record stage_push stage_drain stage_purge stage_push_empty].
Local Ltac next := rewrite stages_S; cbn_advance.

Lemma reading_alone key svc k c :
  ∃ n, stages key n (Reading svc k, c) =
    let '(r, c') := syncUpstreamsForService k8s adapters cfg svc c in (resume r k, c').
Proof.
  unfold syncUpstreamsForService. destruct (bool_decide (svc_lb svc = "") || bool_decide (svc_upstream svc = "")) eqn:E.
  { exists 1. next. by rewrite E. }
  destruct (gather k8s cfg (ct_world c) svc) as [[u|]|err] eqn:Eg; [|exists 1; next; by rewrite E, Eg..].
  destruct (fill_empty cfg u) as [u'|] eqn:Ef; [|exists 1; next; by rewrite E, Eg, Ef].
  exists 3. next. rewrite E, Eg, Ef. next. next. by destruct (syncLoadBalancerUpstream _ _ _) as [[e|] c'].
Qed.

Lemma draining_alone key l k c :
  ∃ n, stages key n (Draining l k, c) =
    let '(r, c') := handleServiceDeletion k8s adapters cfg key l c in (resume r k, c').
Proof.
  unfold handleServiceDeletion. destruct (bool_decide (svc_lb l = "") || bool_decide (svc_upstream l = "")) eqn:E.
  { exists 1. next. by rewrite E. }
  destruct (ListServices k8s (ct_world c)) as [svcs|err] eqn:El; [|exists 1; next; by rewrite E, El].
  destruct (find_other key (svc_lb l) (svc_upstream l) svcs) as [o|] eqn:Ef.
  - destruct (reading_alone key o k c) as [n Hn]. exists (S n). next. by rewrite E, El, Ef, Hn.
  - exists 3. next. rewrite E, El, Ef. next. next. by destruct (syncLoadBalancerUpstream _ _ _) as [[e|] c'].
Qed.

(** Alone, the stages of a handler are [syncHandler]. *)
Lemma handler_alone key c :
  ∃ n, stages key n (GettingService, c) = let '(r, c') := syncHandler k8s adapters cfg key c in (Returning r, c').
Proof.
  unfold syncHandler. destruct (strings.Split key "/") as [|ns [|nm [|]]] eqn:Es; try (exists 1; next; by rewrite Es).
  assert (∀ svc c1, ∃ n, stages key n (Remembering svc, c1) = let '(r, c') := syncUpstreamsForService k8s adapters cfg svc
    (upd_state (set_Services (insert key svc)) (upd_last (insert key svc) c1)) in (Returning r, c')) as Hsync.
  { intros svc c1. destruct (reading_alone key svc ThenReturn (upd_state (set_Services (insert key svc)) (upd_last (insert key svc) c1))) as [n Hn].
    exists (S n). next. rewrite Hn. by destruct (syncUpstreamsForService _ _ _ _ _) as [[e|] c']. }
  destruct (GetService k8s (ct_world c) ns nm) as [svc|err] eqn:Eg.
  - destruct (ct_last c !! key) as [l|] eqn:El; [destruct (labels_moved l svc) eqn:Em|].
    + destruct (draining_alone key l (ThenSync svc) c) as [n Hn]. destruct (handleServiceDeletion _ _ _ _ _ _) as [[e|] c1].
      * exists (S (S n)). next. rewrite Es, Eg. next. by rewrite El, Em, Hn.
      * destruct (Hsync svc c1) as [m Hm]. exists (m + S (S n)). rewrite stages_add. next. rewrite Es, Eg. next.
        rewrite El, Em, Hn. exact Hm.
    + destruct (Hsync svc c) as [m Hm]. exists (S (S m)). next. rewrite Es, Eg. next. by rewrite El, Em.
    + destruct (Hsync svc c) as [m Hm]. exists (S (S m)). next. rewrite Es, Eg. next. by rewrite El.
  - destruct (ct_last c !! key) as [l|] eqn:El; [|exists 2; next; rewrite Es, Eg; next; by rewrite El].
    destruct (draining_alone key l ThenForget c) as [n Hn]. exists (1 + S (S n)). rewrite stages_add. next.
    rewrite Es, Eg. next. rewrite El, Hn. by destruct (handleServiceDeletion _ _ _ _ _ _) as [[e|] c1].
Qed.

(** Alone, the stages of a round are [syncSingleLoadBalancer]. *)
Lemma round_alone lbName ad c : ∃ n, Nat.iter n (λ '(r, c), round_step lbName ad r c) (Listing_services, c) =
  let '(e, c') := syncSingleLoadBalancer k8s cfg lbName ad c in (Ended e, c').
Proof.
  unfold syncSingleLoadBalancer. destruct (negb (HasSynced k8s (ct_world c))) eqn:Es; [exists 1; cbn; by rewrite Es|].
  destruct (ListServices k8s (ct_world c)) as [svcs|err] eqn:El; [|exists 1; cbn; by rewrite Es, El].
  exists 5. cbn [Nat.iter nat_rect round_step]. rewrite Es, El. cbn [round_step]. by destruct (call _ _) as [[e|] c'].
Qed.

(** Every stage comes closer to the return. *)
Lemma advance_weight key st c : returning st = false → stage_weight (advance key st c).1 < stage_weight st.
Proof.
  intros Hr. destruct st as [| |svc|l k|l k|l k| |svc|svc k|svc u k|svc u k|e]; cbn_advance; try done;
    repeat case_match; cbn [fst stage_weight after_weight];
    try match goal with |- context [resume ?e ?k] => pose proof (resume_weight e k) end; lia.
Qed.
Lemma round_step_weight lbName ad r c : round_over r = false → round_weight (round_step lbName ad r c).1 < round_weight r.
Proof. intros Hr. destruct r; cbn [round_step]; try done; repeat case_match; cbn; lia. Qed.

(** They leave the calls on the queue to the end. *)
Lemma advance_queue key st c : ct_queue (advance key st c).2 = ct_queue c.
Proof.
  assert (∀ u d, ct_queue (syncLoadBalancerUpstream adapters u d).2 = ct_queue d) as Hq by apply syncLoadBalancerUpstream_queue.
  destruct st; cbn_advance; try done; repeat case_match; try done;
    match goal with E : syncLoadBalancerUpstream _ ?u ?d = _ |- _ => specialize (Hq u d); by rewrite E in Hq end.
Qed.
Lemma round_step_queue lbName ad r c : ct_queue (round_step lbName ad r c).2 = ct_queue c.
Proof.
  destruct r as [|svcs|svcs|m|m|e]; cbn [round_step]; [by repeat case_match|apply track_services_frame|done|apply publish_all_frame| |done].
  pose proof (call_queue (lb_SyncAllUpstreams ad m) c) as Hq. by destruct (call _ c) as [[e|] c'].
Qed.
Lemma conclude_ops key err c : new_ops c (conclude key err c) = settle_ops key err.
Proof. unfold new_ops, conclude, settle_ops. destruct err; cbn; rewrite <- app_assoc; by rewrite drop_app_length. Qed.
Lemma conclude_process key c : processNextItem k8s adapters cfg (Some (Some key)) c =
  let '(err, c') := syncHandler k8s adapters cfg key c in (true, conclude key err c').
Proof. unfold processNextItem. by destruct (syncHandler _ _ _ _ _) as [[e|] c']. Qed.
End stages.
Ltac cbn_stage := cbn [advance]; cbv beta delta [stage_read stage_record stage_push stage_drain stage_purge stage_push_empty].

(** ** The transition system *)

(** The reconciliation of a balancer by the goroutine of its ticker, and the one
    [Start] makes after it has started these goroutines. *)
Inductive syncer := Ticker (lbName : string) | Initial (lbName : string).
Definition sy_lb (g : syncer) : string := match g with Ticker lb | Initial lb => lb end.
Global Instance syncer_eq_dec : EqDecision syncer.
Proof. solve_decision. Defined.
Global Instance syncer_countable : Countable syncer.
Proof.
  by apply (inj_countable' (λ g, match g with Ticker lb => inl lb | Initial lb => inr lb end)
    (λ s, match s with inl lb => Ticker lb | inr lb => Initial lb end)); intros [].
Defined.

Section interleaving.
Context `{MapRange} {W Q : Type} (k8s : KubernetesPort W) (WQ : WorkQueue Q)
  (adapters : gmap string (LoadBalancerAdapter W)) (cfg : Config).

(** The loops of ControllerLoop, the stage of the handler of each key that a
    worker holds, and the reconciliations under way. *)
Record fine := mkFine { fn_loop : loop (W := W) (Q := Q); fn_stages : gmap string stage; fn_rounds : gmap syncer round }.
Definition with_ctrl (c : Ctrl W) (x : loop (W := W) (Q := Q)) : loop := mkLoop c (lp_queue x) (lp_workers x) (lp_log x).

Inductive work_step (x : fine) : fine → Prop :=
  | work_get l1 l2 k q : lp_workers (fn_loop x) = l1 ++ AtGet :: l2 → wq_Get WQ (lp_queue (fn_loop x)) = Item k q →
      work_step x (mkFine (mkLoop (lp_ctrl (fn_loop x)) q (l1 ++ Holding k :: l2) (lp_log (fn_loop x) ++ [EGet k]))
        (<[k := GettingService]> (fn_stages x)) (fn_rounds x))
  | work_quit l1 l2 : lp_workers (fn_loop x) = l1 ++ AtGet :: l2 → wq_Get WQ (lp_queue (fn_loop x)) = Quit →
      work_step x (mkFine (mkLoop (lp_ctrl (fn_loop x)) (lp_queue (fn_loop x)) (l1 ++ Exited :: l2) (lp_log (fn_loop x)))
        (fn_stages x) (fn_rounds x))
  | work_stage k st st' c' : Holding k ∈ lp_workers (fn_loop x) → fn_stages x !! k = Some st → returning st = false →
      advance k8s adapters cfg k st (lp_ctrl (fn_loop x)) = (st', c') →
      work_step x (mkFine (with_ctrl c' (fn_loop x)) (<[k := st']> (fn_stages x)) (fn_rounds x))
  | work_conclude l1 l2 k err : lp_workers (fn_loop x) = l1 ++ Holding k :: l2 → fn_stages x !! k = Some (Returning err) →
      work_step x (mkFine (item_done WQ (fn_loop x) (l1 ++ AtGet :: l2) k err (conclude k err (lp_ctrl (fn_loop x))))
        (delete k (fn_stages x)) (fn_rounds x))
  | work_round g ad r r' c' : adapters !! sy_lb g = Some ad → fn_rounds x !! g = Some r → round_over r = false →
      round_step k8s cfg (sy_lb g) ad r (lp_ctrl (fn_loop x)) = (r', c') →
      work_step x (mkFine (with_ctrl c' (fn_loop x)) (fn_stages x) (<[g := r']> (fn_rounds x))).

Definition on_loop (f : loop (W := W) (Q := Q) → loop) (x : fine) : fine := mkFine (f (fn_loop x)) (fn_stages x) (fn_rounds x).
Definition on_event (case : select_case) (x : loop (W := W) (Q := Q)) : loop := handled WQ x (lp_workers x) (processEvents [case] (lp_ctrl x)).
Definition expired (k : string) (x : loop (W := W) (Q := Q)) : loop :=
  mkLoop (lp_ctrl x) (wq_expire WQ k (lp_queue x)) (lp_workers x) (lp_log x).
Definition stopped (x : loop (W := W) (Q := Q)) : loop := mkLoop (lp_ctrl x) (stop WQ false (lp_queue x)).2 (lp_workers x) (lp_log x).
Definition refreshed (w : W) (x : loop (W := W) (Q := Q)) : loop :=
  with_ctrl (mkCtrl (ct_state (lp_ctrl x)) (ct_last (lp_ctrl x)) (ct_queue (lp_ctrl x)) (ct_metrics (lp_ctrl x)) w) x.

(** A tick starts a round when the goroutine of the balancer is done with the
    one before; [Start] syncs every balancer once, one after the other. *)
Definition begun (g : syncer) (x : fine) : fine := mkFine (fn_loop x) (fn_stages x) (<[g := Listing_services]> (fn_rounds x)).
Definition ticked (lbName : string) : fine → fine := begun (Ticker lbName).
Definition round_due (g : syncer) (x : fine) : Prop := is_Some (adapters !! sy_lb g) ∧
  match g with
  | Ticker _ => match fn_rounds x !! g with Some r => round_over r = true | None => True end
  | Initial _ => fn_rounds x !! g = None ∧ ∀ lbName r, fn_rounds x !! Initial lbName = Some r → round_over r = true
  end.

Inductive fine_step (x : fine) : fine → Prop :=
  | fine_work y : work_step x y → fine_step x y
  | fine_event case : case ≠ CtxDone → fine_step x (on_loop (on_event case) x)
  | fine_round g : round_due g x → fine_step x (begun g x)
  | fine_caches w : fine_step x (on_loop (refreshed w) x)
  | fine_expire k : fine_step x (on_loop (expired k) x)
  | fine_stop : fine_step x (on_loop stopped x).

Definition fine_start (w : W) (q : Q) : fine := mkFine (loop_start cfg w q) ∅ ∅.
End interleaving.
Arguments mkFine {_ _} _ _ _.
Arguments fn_loop {_ _} _.
Arguments fn_stages {_ _} _.
Arguments fn_rounds {_ _} _.

(** A weight of the values of a map. *)
Definition total `{Countable K} {A} (f : A → nat) (m : gmap K A) : nat := sum_list_with f (map_to_list m).*2.
Lemma sum_list_with_perm {A} (f : A → nat) l1 l2 : l1 ≡ₚ l2 → sum_list_with f l1 = sum_list_with f l2.
Proof. induction 1; cbn; lia. Qed.
Lemma total_delete `{Countable K} {A} (f : A → nat) (m : gmap K A) k x : m !! k = Some x → total f m = f x + total f (delete k m).
Proof.
  intros Hk. unfold total. rewrite <- (insert_delete_id m k x) at 1 by done.
  by rewrite (sum_list_with_perm f _ _ (fmap_Permutation snd _ _ (map_to_list_insert (delete k m) k x (lookup_delete_eq _ _)))).
Qed.
Lemma total_insert `{Countable K} {A} (f : A → nat) (m : gmap K A) k y : total f (<[k := y]> m) = f y + total f (delete k m).
Proof. rewrite (total_delete f (<[k := y]> m) k y) by by rewrite lookup_insert_eq. by rewrite delete_insert_eq. Qed.

Section fine_facts.
Context `{MapRange} {W Q : Type} (k8s : KubernetesPort W) (WQ : WorkQueue Q)
  (adapters : gmap string (LoadBalancerAdapter W)) (cfg : Config) (abs : Q → queue) `{!WorkQueueLaws WQ abs}.
Implicit Types x y : fine (W := W) (Q := Q).

(** The loops keep their invariant, and the handlers under way are those of the
    keys that are held. *)
Record fine_ok x : Prop := {
  fo_loop : loop_ok abs (fn_loop x);
  fo_stages : ∀ k, is_Some (fn_stages x !! k) ↔ Holding k ∈ lp_workers (fn_loop x);
  fo_rounds : ∀ g, is_Some (fn_rounds x !! g) → is_Some (adapters !! sy_lb g)
}.

Lemma with_ctrl_ok c (t : loop (W := W) (Q := Q)) : loop_ok abs t → loop_ok abs (with_ctrl c t).
Proof. intros []. by split. Qed.

Lemma holding_once (t : loop (W := W) (Q := Q)) l1 l2 k : loop_ok abs t → lp_workers t = l1 ++ Holding k :: l2 →
  ∀ w, Holding k ∉ l1 ++ w :: l2 ∨ w = Holding k.
Proof.
  intros [_ Hd _ _ _ _ _] E w. rewrite E, held_app in Hd. cbn in Hd. rewrite <- Permutation_middle in Hd.
  apply list.NoDup_cons in Hd as [Hk _]. rewrite elem_of_app, !held_elem in Hk.
  destruct (decide (w = Holding k)); [by right|left]. rewrite elem_of_app, elem_of_cons. naive_solver.
Qed.

Lemma work_step_ok x y : fine_ok x → work_step k8s WQ adapters cfg x y → fine_ok y.
Proof.
  intros [H1 H2 H3] [l1 l2 k q Hw Hg|l1 l2 Hw Hg|k st st' c' Hk Hs _ _|l1 l2 k err Hw Hs|g ad r r' c' Ha Hr _ _].
  - split; [by eapply get_loop_ok| |done]. intros j. cbn [fn_stages fn_loop lp_workers]. rewrite lookup_insert_is_Some, H2, Hw.
    rewrite !elem_of_app, !elem_of_cons. destruct (decide (k = j)) as [->|Hne]; naive_solver.
  - split; [by eapply quit_loop_ok| |done]. intros j. cbn [fn_stages fn_loop lp_workers]. rewrite H2, Hw.
    rewrite !elem_of_app, !elem_of_cons. naive_solver.
  - split; [by apply with_ctrl_ok| |done]. intros j. cbn [fn_stages fn_loop with_ctrl lp_workers]. rewrite lookup_insert_is_Some, H2.
    destruct (decide (k = j)) as [->|Hne]; naive_solver.
  - split; [eapply settle_loop_ok; [done..|apply conclude_ops]| |done]. intros j. cbn [fn_stages fn_loop item_done handled lp_workers].
    rewrite lookup_delete_is_Some, H2. pose proof (holding_once _ _ _ _ H1 Hw AtGet) as [Hk|]; [|done].
    rewrite Hw in *. rewrite !elem_of_app, !elem_of_cons in *. naive_solver.
  - split; [by apply with_ctrl_ok|done|]. intros j. cbn [fn_rounds]. rewrite lookup_insert_is_Some.
    intros [<-|[_ Hj]]; [by eexists|by apply H3].
Qed.

Lemma on_loop_ok f x : fine_ok x → loop_ok abs (f (fn_loop x)) → lp_workers (f (fn_loop x)) = lp_workers (fn_loop x) → fine_ok (on_loop f x).
Proof. intros [H1 H2 H3] Hf E. split; [done| |done]. intros k. cbn [on_loop fn_stages fn_loop]. by rewrite E. Qed.
Lemma event_ok case x : fine_ok x → fine_ok (on_loop (on_event WQ case) x).
Proof.
  intros Hx. apply on_loop_ok; [done| |done]. destruct (event_ops case (lp_ctrl (fn_loop x))) as [ks Hk].
  by apply (handled_adds WQ abs _ _ ks (fo_loop _ Hx)).
Qed.
Lemma expired_ok k x : fine_ok x → fine_ok (on_loop (expired WQ k) x).
Proof. intros Hx. apply on_loop_ok; [done| |done]. by apply expire_loop_ok, Hx. Qed.
Lemma stopped_ok x : fine_ok x → fine_ok (on_loop (stopped WQ) x).
Proof. intros Hx. apply on_loop_ok; [done| |done]. by apply shut_down_loop_ok, Hx. Qed.
Lemma begun_ok g x : fine_ok x → is_Some (adapters !! sy_lb g) → fine_ok (begun g x).
Proof.
  intros [H1 H2 H3] Ha. split; [done..|]. intros j. cbn [begun fn_rounds]. rewrite lookup_insert_is_Some.
  intros [<-|[_ Hj]]; [done|by apply H3].
Qed.
Lemma fine_step_ok x y : fine_ok x → fine_step k8s WQ adapters cfg x y → fine_ok y.
Proof.
  intros Hx [z Hz|case _|g [Ha _]|w|k|]; [by eapply work_step_ok|by apply event_ok|by apply begun_ok| |by apply expired_ok|by apply stopped_ok].
  apply on_loop_ok; [done| |done]. by apply with_ctrl_ok, Hx.
Qed.

Lemma reachable_fine_ok w q x : abs q = empty_queue → (1 <= cfg_RequestPoolSize cfg)%Z →
  rtc (fine_step k8s WQ adapters cfg) (fine_start cfg w q) x → fine_ok x.
Proof.
  intros E Hp Hr. eapply reachable_inv; [exact Hr| |apply fine_step_ok]. split; cbn [fine_start fn_loop fn_stages fn_rounds].
  - by apply (loop_start_ok WQ cfg).
  - intros k. rewrite lookup_empty. split; [by intros [? [=]]|]. by intros [? _]%elem_of_replicate.
  - intros g. rewrite lookup_empty. by intros [? [=]].
Qed.

(** *** Progress *)

Definition fine_weight x : nat * nat := (loop_weight abs (fn_loop x), total stage_weight (fn_stages x) + total round_weight (fn_rounds x)).
Lemma work_step_weight x y : fine_ok x → work_step k8s WQ adapters cfg x y → lex (fine_weight y) (fine_weight x).
Proof.
  intros Hx [l1 l2 k q Hw Hg|l1 l2 Hw Hg|k st st' c' Hk Hs Hr E|l1 l2 k err Hw Hs|g ad r r' c' Ha Hr Ho E].
  - left. by apply (get_weight WQ abs).
  - left. by apply (quit_weight abs).
  - right. split; [done|]. cbn [fine_weight snd fn_stages fn_rounds]. rewrite (total_delete _ _ _ _ Hs), total_insert.
    pose proof (advance_weight k8s adapters cfg k st (lp_ctrl (fn_loop x)) Hr) as Hlt. rewrite E in Hlt. cbn in Hlt. lia.
  - left. eapply (settle_weight WQ abs); [apply Hx|done|apply conclude_ops].
  - right. split; [done|]. cbn [fine_weight snd fn_stages fn_rounds]. rewrite (total_delete _ _ _ _ Hr), total_insert.
    pose proof (round_step_weight k8s cfg (sy_lb g) ad r (lp_ctrl (fn_loop x)) Ho) as Hlt. rewrite E in Hlt. cbn in Hlt. lia.
Qed.

(** Nothing is left to do: no key waits, no handler and no round is under way. *)
Definition still x : Prop := quiet abs (fn_loop x) ∧ fn_stages x = ∅ ∧ ∀ g r, fn_rounds x !! g = Some r → round_over r = true.

Lemma work_progress x : fine_ok x → still x ∨ ∃ y, work_step k8s WQ adapters cfg x y.
Proof.
  intros Hx. destruct (decide (map_Forall (λ _ r, round_over r = true) (fn_rounds x))) as [Hr|Hr].
  2: { right. apply map_not_Forall in Hr as (g & r & Hr & Ho); [|apply _]. apply not_true_is_false in Ho.
       destruct (fo_rounds _ Hx g) as [ad Ha]; [by eexists|]. destruct (round_step k8s cfg (sy_lb g) ad r (lp_ctrl (fn_loop x))) as [r' c'] eqn:E.
       eexists. by eapply work_round. }
  destruct (worker_progress k8s WQ adapters cfg abs _ (fo_loop _ Hx)) as [Hq|[y Hy]].
  - left. split; [done|]. split; [|done]. apply map_empty. intros k. apply eq_None_not_Some. rewrite (fo_stages _ Hx).
    intros Hk. pose proof (proj2 (proj2 Hq) _ Hk) as E. by destruct (q_closed _).
  - right. destruct Hy as [l1 l2 k q Hw Hg|l1 l2 Hw Hg|l1 l2 k Hw]; [eexists; by eapply work_get|eexists; by eapply work_quit|].
    assert (Holding k ∈ lp_workers (fn_loop x)) as Hk by (rewrite Hw, elem_of_app, elem_of_cons; auto).
    destruct (proj2 (fo_stages _ Hx k) Hk) as [st Hst]. destruct (returning st) eqn:Hret.
    + destruct st; try done. eexists. by eapply work_conclude.
    + destruct (advance k8s adapters cfg k st (lp_ctrl (fn_loop x))) as [st' c'] eqn:E. eexists. by eapply work_stage.
Qed.
(** ** The atomic handlers are among the interleavings *)

(** No handler has begun to read, and no round is under way. *)
Definition at_rest x : Prop :=
  (∀ k st, fn_stages x !! k = Some st → st = GettingService) ∧ ∀ g r, fn_rounds x !! g = Some r → round_over r = true.

Lemma stages_run (t : loop (W := W) (Q := Q)) s r k n st c st' c' : Holding k ∈ lp_workers t →
  stages k8s adapters cfg k n (st, c) = (st', c') →
  rtc (fine_step k8s WQ adapters cfg) (mkFine (with_ctrl c t) (<[k := st]> s) r) (mkFine (with_ctrl c' t) (<[k := st']> s) r).
Proof.
  intros Hk. revert st c. induction n as [|n IH]; intros st c E; [injection E as -> ->; reflexivity|].
  rewrite stages_S in E. destruct (returning st) eqn:Hr; [destruct st; try done; by apply IH|].
  destruct (advance k8s adapters cfg k st c) as [st1 c1] eqn:Ea. eapply rtc_l; [|by apply IH].
  apply fine_work. rewrite <- (insert_insert_eq s k st1 st).
  refine (work_stage k8s WQ adapters cfg (mkFine (with_ctrl c t) (<[k := st]> s) r) k st st1 c1 _ _ _ _); cbn; rewrite ?lookup_insert_eq; done.
Qed.

Lemma rounds_run (t : loop (W := W) (Q := Q)) s m g ad n r c r' c' : adapters !! sy_lb g = Some ad →
  Nat.iter n (λ '(r, c), round_step k8s cfg (sy_lb g) ad r c) (r, c) = (r', c') →
  rtc (fine_step k8s WQ adapters cfg) (mkFine (with_ctrl c t) s (<[g := r]> m)) (mkFine (with_ctrl c' t) s (<[g := r']> m)).
Proof.
  intros Ha. revert r c. induction n as [|n IH]; intros r c E; [injection E as -> ->; reflexivity|].
  rewrite Nat.iter_succ_r in E. destruct (round_over r) eqn:Hr; [destruct r; try done; by apply IH|].
  destruct (round_step k8s cfg (sy_lb g) ad r c) as [r1 c1] eqn:Er. eapply rtc_l; [|by apply IH].
  apply fine_work. rewrite <- (insert_insert_eq m g r1 r).
  refine (work_round k8s WQ adapters cfg (mkFine (with_ctrl c t) s (<[g := r]> m)) g ad r r1 c1 _ _ _ _); cbn; rewrite ?lookup_insert_eq; done.
Qed.

Lemma with_ctrl_id (t : loop (W := W) (Q := Q)) : with_ctrl (lp_ctrl t) t = t.
Proof. by destruct t. Qed.
Lemma handled_nothing (t : loop (W := W) (Q := Q)) c : new_ops (lp_ctrl t) c = [] → handled WQ t (lp_workers t) c = with_ctrl c t.
Proof. intros E. unfold handled, with_ctrl. by rewrite E, app_nil_r. Qed.
Lemma handled_settled (t : loop (W := W) (Q := Q)) ws k err c c1 c2 : new_ops (lp_ctrl t) c1 = new_ops c c2 → c1 = c2 →
  item_done WQ t ws k err c1 = item_done WQ (with_ctrl c t) ws k err c2.
Proof. intros E <-. unfold item_done, handled. cbn [with_ctrl lp_ctrl lp_queue lp_log]. by rewrite E. Qed.

Lemma atomic_step x t : fine_ok x → at_rest x → loop_step k8s WQ adapters cfg (fn_loop x) t →
  ∃ z, rtc (fine_step k8s WQ adapters cfg) x z ∧ at_rest z ∧ fn_loop z = t.
Proof.
  intros Hx [Hs Hr] [z Hz|case Hc|lb ad Ha|w|k|].
  - destruct Hz as [l1 l2 k q Hw Hg|l1 l2 Hw Hg|l1 l2 k Hw].
    + eexists. split; [apply rtc_once, fine_work; by eapply work_get|]. split; [|done]. split; [|done].
      intros j st. cbn [fn_stages]. destruct (decide (k = j)) as [->|Hne]; [rewrite lookup_insert_eq; by intros [= <-]|].
      rewrite lookup_insert_ne by done. apply Hs.
    + eexists. split; [apply rtc_once, fine_work; by eapply work_quit|]. done.
    + assert (Holding k ∈ lp_workers (fn_loop x)) as Hk by (rewrite Hw, elem_of_app, elem_of_cons; auto).
      destruct (proj2 (fo_stages _ Hx k) Hk) as [st Hst]. pose proof (Hs _ _ Hst) as ->.
      destruct (handler_alone k8s adapters cfg k (lp_ctrl (fn_loop x))) as [n Hn].
      pose proof (conclude_process k8s adapters cfg k (lp_ctrl (fn_loop x))) as Hp.
      destruct (processNextItem_ops k8s adapters cfg k (lp_ctrl (fn_loop x))) as [_ Hops].
      destruct (syncHandler k8s adapters cfg k (lp_ctrl (fn_loop x))) as [err c']. rewrite Hp in *. cbn [fst snd] in *.
      pose proof (stages_run (fn_loop x) (fn_stages x) (fn_rounds x) k n _ _ _ _ Hk Hn) as Hrun.
      rewrite with_ctrl_id, insert_id in Hrun by done. destruct x as [t0 s m]. cbn [fn_loop fn_stages fn_rounds] in *.
      eexists. split; [eapply rtc_r; [exact Hrun|]; apply fine_work; eapply work_conclude; [exact Hw|by cbn; rewrite lookup_insert_eq]|].
      cbn [fn_loop fn_stages with_ctrl lp_ctrl]. split; [split; [|done]|].
      * intros j st. cbn [fn_stages]. rewrite delete_insert_eq. intros [_ Hj]%lookup_delete_Some. by apply (Hs j).
      * cbn [fn_loop]. symmetry. apply handled_settled; [|done]. by rewrite Hops, conclude_ops.
  - eexists. split; [apply rtc_once; by apply (fine_event _ _ _ _ x case)|]. done.
  - destruct (round_alone k8s cfg lb ad (lp_ctrl (fn_loop x))) as [n Hn].
    pose proof (syncSingleLoadBalancer_ops k8s cfg lb ad (lp_ctrl (fn_loop x))) as Hops.
    destruct (syncSingleLoadBalancer k8s cfg lb ad (lp_ctrl (fn_loop x))) as [e c']. cbn [snd] in *.
    pose proof (rounds_run (fn_loop x) (fn_stages x) (fn_rounds x) (Ticker lb) ad n _ _ _ _ Ha Hn) as Hrun. rewrite with_ctrl_id in Hrun.
    eexists. split; [eapply rtc_l; [|exact Hrun]|].
    + apply (fine_round _ _ _ _ x (Ticker lb)). split; [by eexists|]. destruct (fn_rounds x !! Ticker lb) eqn:E; [by apply (Hr (Ticker lb))|done].
    + split; [|symmetry; by apply handled_nothing]. split; [done|]. intros j r. cbn [fn_rounds].
      destruct (decide (Ticker lb = j)) as [<-|Hne]; [rewrite lookup_insert_eq; by intros [= <-]|]. rewrite lookup_insert_ne by done. apply Hr.
  - eexists. split; [apply rtc_once; by apply (fine_caches _ _ _ _ x w)|]. split; [done|]. symmetry. apply handled_nothing.
    unfold new_ops. cbn. by rewrite drop_all.
  - eexists. split; [apply rtc_once; by apply (fine_expire _ _ _ _ x k)|]. done.
  - eexists. split; [apply rtc_once; by apply (fine_stop _ _ _ _ x)|]. done.
Qed.

Lemma atomic_run w q t : abs q = empty_queue → (1 <= cfg_RequestPoolSize cfg)%Z →
  rtc (loop_step k8s WQ adapters cfg) (loop_start cfg w q) t →
  ∃ z, rtc (fine_step k8s WQ adapters cfg) (fine_start cfg w q) z ∧ at_rest z ∧ fn_loop z = t.
Proof.
  intros E Hp Hr. apply (reachable_inv _ (λ t, ∃ z, rtc (fine_step k8s WQ adapters cfg) (fine_start cfg w q) z ∧ at_rest z ∧ fn_loop z = t) _ _ Hr).
  - exists (fine_start cfg w q). split; [reflexivity|]. done.
  - intros t1 t2 (z & Hz & Hrest & <-) Hst. destruct (atomic_step z t2) as (z' & Hz' & ?); [by eapply reachable_fine_ok|done..|].
    exists z'. split; [by etrans|done].
Qed.
End fine_facts.

(** ** Properties *)

(** The handlers cut into stages are the handlers. Run alone, the stages of a
    key return what [syncHandler] returns and leave the controller as it does,
    and the rounds of a balancer are [syncSingleLoadBalancer]; and every run of
    the loops in which each handler is one step is a run of the interleaved
    stages that ends with no handler and no round under way. *)
Theorem handlers_in_stages `{MapRange} {W Q} (k8s : KubernetesPort W) (WQ : WorkQueue Q) (abs : Q → queue) `{!WorkQueueLaws WQ abs}
    (adapters : gmap string (LoadBalancerAdapter W)) (cfg : Config) (w : W) (q : Q) (t : loop (W := W) (Q := Q)) :
  abs q = empty_queue → (1 <= cfg_RequestPoolSize cfg)%Z → rtc (loop_step k8s WQ adapters cfg) (loop_start cfg w q) t →
  (∀ key c, ∃ n, stages k8s adapters cfg key n (GettingService, c) =
    let '(r, c') := syncHandler k8s adapters cfg key c in (Returning r, c')) ∧
  (∀ lbName ad c, ∃ n, Nat.iter n (λ '(r, c), round_step k8s cfg lbName ad r c) (Listing_services, c) =
    let '(e, c') := syncSingleLoadBalancer k8s cfg lbName ad c in (Ended e, c')) ∧
  ∃ z, rtc (fine_step k8s WQ adapters cfg) (fine_start cfg w q) z ∧ at_rest z ∧ fn_loop z = t.
Proof.
  intros E Hp Hr. split; [apply handler_alone|]. split; [apply round_alone|].
  by apply (atomic_run k8s WQ adapters cfg abs).
Qed.

Lemma handlers_in_stages_witness :
  ∃ z, rtc (@fine_step map_range_reverse _ _ memory.fixed documented single.adapters single.config)
         (fine_start single.config (ct_world memory.start) empty_queue) z ∧ at_rest z ∧ fn_loop z = single.synced.
Proof.
  destruct (@handlers_in_stages map_range_reverse _ _ memory.fixed documented id _ single.adapters single.config (ct_world memory.start)
    empty_queue single.synced eq_refl ltac:(cbn; lia) single.synced_reached) as (_ & _ & Hz). exact Hz.
Defined.
