(* ===== verification/ControllerConverge.v ===== *)
(** * The controller converges while the caches do not change

    The transition system of ControllerStages, between two changes of the caches:
    the stages of the handlers and of the reconciliations, events and delays
    interleave in any order while the caches keep their contents.  What a handler
    or a reconciliation has read is then up to date when it is pushed, so every
    balancer that works only ever moves towards the intent, and what a queued key
    or a reconciliation under way concerns gets there. *)
From S2P Require Export ControllerFleet ControllerStages.
From Stdlib Require Import Lia.
Local Open Scope Z_scope.

Section converge.
Context `{MapRange} {W I : Type} (k8s : KubernetesPort W) (adapters : gmap string (LoadBalancerAdapter W)) (cfg : Config).
Context (healthy : string → W → Prop) (desired : Upstream → gmap string Z) (ok : string → Upstream → Prop)
  (name_ok : string → Prop) (prune : string → bool) (instances : string → list I)
  (view : string → W → I → string → gmap string Z).
Context (svcs : list Service).
Implicit Types c : Ctrl W.

Local Abbreviation works := (works k8s cfg healthy desired ok name_ok prune instances view).
Local Abbreviation undisturbed := (undisturbed k8s healthy instances view).
Local Abbreviation intent w lb n := (intent_of k8s cfg w lb n svcs).

(** ** Towards the intent *)

(** What the intent asks balancer [lb] to hold for [n], unless it keeps it. *)
Definition aim (w : W) (lb n : string) : option (gmap string Z) :=
  match intent w lb n with Serve u => Some (desired u) | Keep => None | Absent => Some ∅ end.
Definition shows (lb : string) (w : W) (n : string) (v : gmap string Z) : Prop :=
  ∀ i, i ∈ instances lb → view lb w i n = v.
Definition arrived (w0 : W) (lb n : string) (w : W) : Prop := ∀ v, aim w0 lb n = Some v → shows lb w n v.

(** Balancer [lb] works, and it accepts to serve nothing. *)
Record tended (lb : string) (w : W) : Prop := {
  td_works : ∃ ad, adapters !! lb = Some ad ∧ works lb ad svcs w;
  td_empty : ∀ n, n ≠ "" → ok lb (emptyUpstream cfg lb n) ∧ desired (emptyUpstream cfg lb n) = ∅
}.

(** From [w] to [w'] the balancer holds what it held, or what the intent asks. *)
Definition toward (lb : string) (w w' : W) : Prop :=
  healthy lb w' ∧ ∀ n, name_ok n →
    (∀ i, i ∈ instances lb → view lb w' i n = view lb w i n) ∨ ∃ v, aim w lb n = Some v ∧ shows lb w' n v.
Definition calm (w w' : W) : Prop := same_reads k8s w w' ∧ ∀ lb, tended lb w → toward lb w w'.

Lemma aim_reads w w' lb n : same_reads k8s w w' → aim w' lb n = aim w lb n.
Proof. intros R. unfold aim. by rewrite (intent_of_reads _ _ w w'). Qed.

Lemma tended_healthy lb w : tended lb w → healthy lb w.
Proof. intros [(ad & _ & [_ Hh _]) _]. done. Qed.

Lemma tended_calm lb w w' : calm w w' → tended lb w → tended lb w'.
Proof.
  intros [R Hc] Ht. destruct (Hc lb Ht) as [Hh _]. destruct Ht as [(ad & Ha & [H1 _ H3]) He]. split; [|done].
  exists ad. split; [done|]. split; [done..|]. intros n u. rewrite (intent_of_reads _ _ w w') by done. apply H3.
Qed.

Lemma toward_refl lb w : healthy lb w → toward lb w w.
Proof. intros Hh. split; [done|]. by left. Qed.
Lemma toward_undisturbed lb w w' : healthy lb w → undisturbed lb w w' → toward lb w w'.
Proof. intros Hh [_ Hu]. destruct (Hu Hh) as [Hh' Hv]. split; [done|]. left. intros i. apply Hv. Qed.

Global Instance calm_preorder : PreOrder calm.
Proof.
  split.
  - intros w. split; [apply same_reads_refl|]. intros lb Ht. by apply toward_refl, tended_healthy.
  - intros w1 w2 w3 [R1 H1] [R2 H2]. split; [by eapply same_reads_trans|]. intros lb Ht.
    destruct (H1 lb Ht) as [_ V1]. destruct (H2 lb (tended_calm _ _ _ (conj R1 H1) Ht)) as [Hh V2]. split; [done|].
    intros n Hn. destruct (V2 n Hn) as [E2|(v & Ev & Hv)].
    + destruct (V1 n Hn) as [E1|(v & Ev & Hv)]; [left; intros i Hi; by rewrite E2, E1|].
      right. exists v. split; [done|]. intros i Hi. rewrite E2 by done. by apply Hv.
    + right. exists v. rewrite <- Ev, (aim_reads w1 w2) by done. done.
Qed.

Lemma arrived_calm w0 w w' lb n : calm w0 w → calm w w' → tended lb w0 → name_ok n →
  arrived w0 lb n w → arrived w0 lb n w'.
Proof.
  intros C1 C2 Ht Hn Ha v Hv. destruct (proj2 C2 lb (tended_calm _ _ _ C1 Ht)) as [_ V].
  destruct (V n Hn) as [E|(v' & Ev & Hs)].
  - intros i Hi. rewrite E by done. by apply Ha.
  - rewrite (aim_reads w0 w) in Ev by apply C1. by simplify_eq.
Qed.

(** ** Pushing an upstream *)

Hypothesis iso : isolated k8s adapters healthy instances view.

(** The upstream the intent has for its balancer and its name. *)
Definition apt (w : W) (u : Upstream) : Prop :=
  match intent w (up_LoadBalancer u) (up_Name u) with
  | Serve u' => u = u'
  | Keep => False
  | Absent => up_Name u ≠ "" ∧ u = emptyUpstream cfg (up_LoadBalancer u) (up_Name u)
  end.
Lemma apt_desired w u : apt w u → tended (up_LoadBalancer u) w →
  ok (up_LoadBalancer u) u ∧ aim w (up_LoadBalancer u) (up_Name u) = Some (desired u).
Proof.
  unfold apt, aim. intros Ha [(ad & _ & [_ _ Hok]) He]. destruct (intent w _ _) as [|u'|] eqn:Ei; [done| |].
  - subst u'. split; [by eapply Hok|done].
  - destruct Ha as [Hn Hu]. destruct (He _ Hn) as [H1 H2]. rewrite <- Hu in H1, H2. by rewrite H2.
Qed.

Lemma push_ok u c : apt (ct_world c) u →
  let '(e, c') := syncLoadBalancerUpstream adapters u c in
  calm (ct_world c) (ct_world c') ∧ ct_last c' = ct_last c ∧
  (tended (up_LoadBalancer u) (ct_world c) →
   e = None ∧ arrived (ct_world c) (up_LoadBalancer u) (up_Name u) (ct_world c')).
Proof.
  intros Hu. unfold syncLoadBalancerUpstream, call. destruct (adapters !! up_LoadBalancer u) as [ad|] eqn:Had.
  2: { split; [reflexivity|]. split; [done|]. intros [(ad & Ha & _) _]. congruence. }
  set (lb := up_LoadBalancer u) in *. set (w := ct_world c) in *.
  pose proof (iso_reads_one _ _ _ _ _ iso lb ad u w Had) as R.
  pose proof (λ lb', iso_one _ _ _ _ _ iso lb ad u w lb' Had) as Hother.
  assert (tended lb w → let '(e, w') := lb_SyncUpstream ad u w in e = None ∧ healthy lb w' ∧
    ∀ i, i ∈ instances lb → view lb w' i (up_Name u) = desired u ∧ ∀ n, n ≠ up_Name u → view lb w' i n = view lb w i n) as Hown.
  { intros Ht. destruct (apt_desired w u Hu Ht) as [Hok _]. destruct Ht as [(ad' & Ha' & [Hc Hh _]) _].
    rewrite Had in Ha'. injection Ha' as <-. by apply (conv_one _ _ _ _ _ _ _ _ Hc). }
  destruct (lb_SyncUpstream ad u w) as [e w']. cbn [snd] in *.
  assert (calm w w' ∧ (tended lb w → e = None ∧ arrived w lb (up_Name u) w')) as [Hcalm Ht].
  { split; [split; [done|]|].
    - intros lb' Ht. destruct (decide (lb' = lb)) as [->|Hne].
      + destruct (apt_desired w u Hu Ht) as [_ Haim]. destruct (Hown Ht) as (_ & Hh & Hv). split; [done|].
        intros n _. destruct (decide (n = up_Name u)) as [->|Hn]; [right|left; intros i Hi; by apply (Hv i Hi)].
        exists (desired u). split; [done|]. intros i Hi. by apply Hv.
      + apply toward_undisturbed; [by apply tended_healthy|]. apply Hother; [|done]. destruct Ht as [(ad' & -> & _) _]. by eexists.
    - intros Ht. destruct (apt_desired w u Hu Ht) as [_ Haim]. destruct (Hown Ht) as (He & _ & Hv). split; [done|].
      intros v Hv'. fold lb in Haim. rewrite Haim in Hv'. injection Hv' as <-. intros i Hi. by apply Hv. }
  destruct e as [err|]; cbn; (split; [done|]); (split; [done|]); intros T; destruct (Ht T); done.
Qed.

(** ** The handlers *)

(** The caches list [svcs], as the port promises. *)
Record cached (w : W) : Prop := {
  ca_readable : readable k8s svcs w;
  ca_port : PortContract k8s w
}.
Lemma cached_reads w w' : same_reads k8s w w' → cached w → cached w'.
Proof.
  intros R [Hr [P1 P2 P3]]. pose proof R as (Rp & _ & Rg & Rl & _). split; [by eapply readable_reads|].
  split; rewrite ?Rp, ?Rg, ?Rl; done.
Qed.
Lemma cached_keys w : cached w → NoDup (svc_key <$> svcs) ∧ Forall service_ok svcs.
Proof. intros [[_ Hl] Hp]. by apply port_services. Qed.

(** No listed service has the labels of [l]. *)
Definition unshared (l : Service) : Prop :=
  ∀ s, s ∈ svcs → ¬ (svc_lb s = svc_lb l ∧ svc_upstream s = svc_upstream l).

Lemma absent w lb n : (∀ s, s ∈ svcs → ¬ (svc_lb s = lb ∧ svc_upstream s = n)) → intent w lb n = Absent.
Proof.
  intros Hs. assert (sharing lb n svcs = []) as E.
  { unfold sharing. clear -Hs. induction svcs as [|s l IH]; [done|]. cbn.
    rewrite shares_false by (apply Hs; by constructor). apply IH. intros x Hx. apply Hs. by constructor. }
  unfold intent_of. rewrite E. by case_bool_decide.
Qed.

(** What handling key [k] is about: the upstream its service targets, when
    nothing of its last known labels is in the way, and the upstream it targeted
    last when no service does any more. *)
Inductive concerns (w : W) (last : gmap string Service) (k : string) : string → string → Prop :=
  | concerns_target svc : svc ∈ svcs → svc_key svc = k →
      svc_NodePort svc ≠ 0 → svc_lb svc ≠ "" → svc_upstream svc ≠ "" →
      (∀ l, last !! k = Some l → labels_moved l svc = true →
        tended (svc_lb l) w ∧ intent w (svc_lb l) (svc_upstream l) ≠ Keep) →
      concerns w last k (svc_lb svc) (svc_upstream svc)
  | concerns_left l : last !! k = Some l → svc_key l = k →
      str_free "/" (svc_Namespace l) = true → str_free "/" (svc_Name l) = true →
      svc_lb l ≠ "" → svc_upstream l ≠ "" → unshared l →
      concerns w last k (svc_lb l) (svc_upstream l).

Lemma concerns_calm w w' last k lb n : calm w w' → concerns w last k lb n → concerns w' last k lb n.
Proof.
  intros Hc [svc Hin Hk Hp Hlb Hup Hclear|l Hl Hk H1 H2 Hlb Hup Hu]; [|by constructor].
  constructor; try done. intros l Hl Hm. destruct (Hclear l Hl Hm) as [Ht Hi].
  split; [by eapply tended_calm|]. rewrite (intent_of_reads _ _ w w'); [done|apply Hc].
Qed.

Lemma moved_true l svc : labels_moved l svc = true ↔
  svc_lb l ≠ "" ∧ svc_upstream l ≠ "" ∧ ¬ (svc_lb svc = svc_lb l ∧ svc_upstream svc = svc_upstream l).
Proof.
  unfold labels_moved. rewrite !andb_true_iff, orb_true_iff, !negb_true_iff, !bool_decide_eq_false.
  destruct (decide (svc_lb svc = svc_lb l)), (decide (svc_upstream svc = svc_upstream l)); naive_solver.
Qed.

Lemma listed_get w svc : cached w → svc ∈ svcs → GetService k8s w (svc_Namespace svc) (svc_Name svc) = Ok svc.
Proof. intros [[_ Hl] Hp] Hin. apply port_get. by exists svcs. Qed.
Lemma get_listed w ns n svc : cached w → GetService k8s w ns n = Ok svc → svc ∈ svcs ∧ svc_key svc = slash_key ns n.
Proof. intros [[_ Hl] Hp] (l & Hl' & Hin & <- & <-)%port_get. rewrite Hl in Hl'. by simplify_eq. Qed.
Lemma listed_unique w s1 s2 : cached w → s1 ∈ svcs → s2 ∈ svcs → svc_key s1 = svc_key s2 → s1 = s2.
Proof.
  intros Hc H1 H2 E. destruct (cached_keys w Hc) as [_ Hf]. pose proof (listed_get w s1 Hc H1) as G1.
  pose proof (listed_get w s2 Hc H2) as G2. rewrite list.Forall_forall in Hf.
  destruct (Hf s1 H1) as (F1 & F2 & _), (Hf s2 H2) as (F3 & F4 & _).
  pose proof (key_split _ _ F1 F2) as K1. pose proof (key_split _ _ F3 F4) as K2.
  fold (svc_key s1) in K1. fold (svc_key s2) in K2. rewrite E, K2 in K1. injection K1 as E1 E2. rewrite E1, E2 in G2. congruence.
Qed.
Lemma concerns_key w w' last key lb n : cached w' → concerns w last key lb n → ∃ ns nm, strings.Split key "/" = [ns; nm].
Proof.
  intros Hc [svc Hin <- _ _ _ _|l _ <- H1 H2 _ _ _].
  - destruct (cached_keys w' Hc) as [_ Hf]. rewrite list.Forall_forall in Hf. destruct (Hf svc Hin) as (F1 & F2 & _).
    do 2 eexists. by apply key_split.
  - do 2 eexists. by apply key_split.
Qed.

(** *** The stages of a handler *)

(** What a stage has read is up to date. *)
Definition after_fresh (key : string) (k : after) : Prop :=
  match k with ThenSync svc => svc ∈ svcs ∧ svc_key svc = key | _ => True end.
Definition fresh (w : W) (key : string) (st : stage) : Prop :=
  match st with
  | GettingService | Forgetting | Returning _ => True
  | Missing => ∀ s, s ∈ svcs → svc_key s ≠ key
  | Found svc | Remembering svc => svc ∈ svcs ∧ svc_key svc = key
  | Draining l k => after_fresh key k ∧
      ∀ s, s ∈ svcs → svc_key s = key → ¬ (svc_lb s = svc_lb l ∧ svc_upstream s = svc_upstream l)
  | Purging l k | PushingEmpty l k => after_fresh key k ∧ svc_upstream l ≠ "" ∧ intent w (svc_lb l) (svc_upstream l) = Absent
  | Reading svc k => after_fresh key k ∧ svc ∈ svcs
  | Recording svc u k | Pushing svc u k => after_fresh key k ∧ svc ∈ svcs ∧ intent w (svc_lb svc) (svc_upstream svc) = Serve u
  end.

(** What it is going to push. *)
Definition targets (svc : Service) (lb n : string) : Prop :=
  svc_NodePort svc ≠ 0 ∧ lb = svc_lb svc ∧ n = svc_upstream svc ∧ lb ≠ "" ∧ n ≠ "".
Definition leaves (l : Service) (lb n : string) : Prop := lb = svc_lb l ∧ n = svc_upstream l ∧ lb ≠ "" ∧ n ≠ "".
(** The push for [s] does not fail, and the handler goes on with a service. *)
Definition goes_on (w : W) (s : Service) (k : after) (lb n : string) : Prop :=
  ∃ svc, k = ThenSync svc ∧ targets svc lb n ∧ tended (svc_lb s) w ∧ intent w (svc_lb s) (svc_upstream s) ≠ Keep.
Definition aims (w : W) (last : gmap string Service) (key : string) (st : stage) (lb n : string) : Prop :=
  match st with
  | GettingService | Missing | Found _ => concerns w last key lb n
  | Draining l k => leaves l lb n ∧ unshared l ∨ goes_on w l k lb n
  | Purging l k | PushingEmpty l k => leaves l lb n ∨ goes_on w l k lb n
  | Remembering svc => targets svc lb n
  | Reading svc k | Recording svc _ k | Pushing svc _ k => targets svc lb n ∨ goes_on w svc k lb n
  | Forgetting | Returning _ => False
  end.

Lemma fresh_reads w w' key st : same_reads k8s w w' → fresh w key st → fresh w' key st.
Proof. intros R. destruct st; cbn [fresh]; rewrite ?(intent_of_reads k8s cfg w w') by done; done. Qed.
Lemma goes_on_calm w w' s k lb n : calm w w' → goes_on w s k lb n → goes_on w' s k lb n.
Proof.
  intros Hc (svc & Hk & Ht & T & Hi). exists svc. split_and!; [done|done|by eapply tended_calm|].
  rewrite (intent_of_reads k8s cfg w w') by apply Hc. done.
Qed.
Lemma aims_calm w w' last key st lb n : calm w w' → aims w last key st lb n → aims w' last key st lb n.
Proof.
  intros Hc. pose proof (concerns_calm w w' last key lb n Hc). pose proof (λ s k, goes_on_calm w w' s k lb n Hc).
  destruct st; cbn [aims]; naive_solver.
Qed.

Lemma resume_fresh w key err k : after_fresh key k → fresh w key (resume err k).
Proof. destruct err, k; done. Qed.
Lemma resume_aims w last key s k lb n : goes_on w s k lb n → aims w last key (resume None k) lb n.
Proof. intros (svc & -> & Ht & _). done. Qed.

(** From [st] in [c], stage [st'] in [c'] is calm, is up to date, and has done or
    is going to do what [st] was going to do. *)
Record stage_good key st c st' c' : Prop := {
  sg_calm : calm (ct_world c) (ct_world c');
  sg_fresh : fresh (ct_world c') key st';
  sg_last : ∀ k, k ≠ key → ct_last c' !! k = ct_last c !! k;
  sg_aims : ∀ lb n, tended lb (ct_world c) → aims (ct_world c) (ct_last c) key st lb n →
    arrived (ct_world c) lb n (ct_world c') ∨ aims (ct_world c') (ct_last c') key st' lb n
}.
(** A stage that calls no adapter. *)
Lemma stage_reads key st c st' c' : ct_world c' = ct_world c → (∀ k, k ≠ key → ct_last c' !! k = ct_last c !! k) →
  fresh (ct_world c) key st' →
  (∀ lb n, tended lb (ct_world c) → aims (ct_world c) (ct_last c) key st lb n →
    arrived (ct_world c) lb n (ct_world c) ∨ aims (ct_world c) (ct_last c') key st' lb n) →
  stage_good key st c st' c'.
Proof. intros E Hl Hf Ha. split; rewrite ?E; done. Qed.
Lemma arrived_keep w0 w lb n : intent w0 lb n = Keep → arrived w0 lb n w.
Proof. intros E v. unfold aim. by rewrite E. Qed.

Lemma getting_good key c : cached (ct_world c) →
  let '(st', c') := advance k8s adapters cfg key GettingService c in stage_good key GettingService c st' c'.
Proof.
  intros Hc. cbn_stage. pose proof (λ lb n, concerns_key (ct_world c) _ (ct_last c) key lb n Hc) as Hkey.
  destruct (strings.Split key "/") as [|ns [|nm [|]]] eqn:Es;
    try (apply stage_reads; [done..|]; intros lb n _ (ns' & nm' & E)%Hkey; congruence).
  pose proof (split_key _ _ _ Es) as Ek. destruct (GetService k8s (ct_world c) ns nm) as [svc|err] eqn:Eg.
  - destruct (get_listed _ _ _ _ Hc Eg) as [Hin Hk]. rewrite Ek in Hk. apply stage_reads; [done..|]. by right.
  - apply stage_reads; [done|done| |by right]. intros s Hs Hsk. pose proof (listed_get _ s Hc Hs) as Hg.
    destruct (cached_keys _ Hc) as [_ Hf]. rewrite list.Forall_forall in Hf. destruct (Hf s Hs) as (F1 & F2 & _).
    pose proof (key_split _ _ F1 F2) as K. fold (svc_key s) in K. rewrite Hsk, Es in K. injection K as -> ->. congruence.
Qed.

Lemma missing_good key c : fresh (ct_world c) key Missing →
  let '(st', c') := advance k8s adapters cfg key Missing c in stage_good key Missing c st' c'.
Proof.
  intros Hno. cbn_stage. destruct (ct_last c !! key) as [l|] eqn:El; apply stage_reads; try done.
  - split; [done|]. intros s Hs Hsk. by destruct (Hno s Hs).
  - intros lb n _ [s Hs Hsk _ _ _ _|l' Hl _ _ _ Hlb Hup Hu]; [by destruct (Hno s Hs)|]. simplify_eq. right. left. done.
  - intros lb n _ [s Hs Hsk _ _ _ _|l' Hl _ _ _ Hlb Hup Hu]; [by destruct (Hno s Hs)|congruence].
Qed.

Lemma found_good key svc c : cached (ct_world c) → fresh (ct_world c) key (Found svc) →
  let '(st', c') := advance k8s adapters cfg key (Found svc) c in stage_good key (Found svc) c st' c'.
Proof.
  intros Hc [Hin Hk]. assert (∀ s, s ∈ svcs → svc_key s = key → s = svc) as Hone by (intros; eapply listed_unique; [done..|congruence]).
  cbn_stage. destruct (ct_last c !! key) as [l|] eqn:El; [destruct (labels_moved l svc) eqn:Em|]; apply stage_reads; try done.
  - split; [done|]. intros s Hs Hsk. rewrite (Hone s Hs Hsk). by apply moved_true in Em as (_ & _ & Hm).
  - intros lb n T [s Hs Hsk Hp Hlb Hup Hclear|l' Hl _ _ _ Hlb Hup Hu]; right.
    + rewrite (Hone s Hs Hsk) in *. right. exists svc. by split_and!; try apply (Hclear l).
    + simplify_eq. by left.
  - intros lb n T [s Hs Hsk Hp Hlb Hup Hclear|l' Hl _ _ _ Hlb Hup Hu]; right; cbn [aims].
    + by rewrite (Hone s Hs Hsk) in *.
    + simplify_eq. assert (labels_moved l svc = true); [|congruence]. apply moved_true. split_and!; [done..|by apply Hu].
  - intros lb n T [s Hs Hsk Hp Hlb Hup Hclear|l' Hl _ _ _ Hlb Hup Hu]; [right|congruence]. by rewrite (Hone s Hs Hsk) in *.
Qed.

Lemma draining_good key l k c : cached (ct_world c) → fresh (ct_world c) key (Draining l k) →
  let '(st', c') := advance k8s adapters cfg key (Draining l k) c in stage_good key (Draining l k) c st' c'.
Proof.
  intros Hc [Hk Hno]. pose proof Hc as [[_ Hl] _]. cbn_stage.
  destruct (bool_decide (svc_lb l = "") || bool_decide (svc_upstream l = "")) eqn:E.
  { apply stage_reads; [done|done|by apply resume_fresh|]. rewrite orb_true_iff, !bool_decide_eq_true in E.
    intros lb n _ [[(-> & -> & ? & ?) _]|Hg]; [naive_solver|right; by eapply resume_aims]. }
  apply orb_false_iff in E as [E1%bool_decide_eq_false E2%bool_decide_eq_false]. rewrite Hl.
  destruct (find_other key (svc_lb l) (svc_upstream l) svcs) as [o|] eqn:Ef.
  - apply first_some_elem in Ef as (s & Hs & Eo). destruct (negb _ && _ && _) eqn:Eb; [|done]. injection Eo as ->.
    rewrite !andb_true_iff, !bool_decide_eq_true in Eb. destruct Eb as [[_ Elb] Eup]. apply stage_reads; [done..|].
    intros lb n _ [[_ Hu]|Hg]; [by destruct (Hu o Hs)|]. right. right. unfold goes_on. by rewrite Elb, Eup.
  - rewrite find_other_None in Ef. apply stage_reads; [done|done| |intros lb n _ [[? _]|?]; right; [by left|by right]].
    split_and!; [done..|]. apply absent. intros s Hs [H1 H2]. by apply (Hno s Hs); [apply Ef|].
Qed.

Lemma reading_good key svc k c : cached (ct_world c) → fresh (ct_world c) key (Reading svc k) →
  let '(st', c') := advance k8s adapters cfg key (Reading svc k) c in stage_good key (Reading svc k) c st' c'.
Proof.
  intros Hc [Hk Hin]. destruct (cached_keys _ Hc) as [Hd _]. pose proof Hc as [[_ Hl] _]. cbn_stage.
  assert (∀ c', ct_world c' = ct_world c → ct_last c' = ct_last c →
    (∀ lb n, ¬ targets svc lb n ∨ intent (ct_world c) (svc_lb svc) (svc_upstream svc) = Keep) →
    stage_good key (Reading svc k) c (resume None k) c') as Hskip.
  { intros c' Ew El Hno. apply stage_reads; [done|by rewrite El|by apply resume_fresh|].
    intros lb n _ [Ht|Hg]; [|right; by eapply resume_aims]. left. destruct (Hno lb n) as [|Hi]; [done|].
    destruct Ht as (_ & -> & -> & _). by apply arrived_keep. }
  destruct (bool_decide (svc_lb svc = "") || bool_decide (svc_upstream svc = "")) eqn:E.
  { rewrite orb_true_iff, !bool_decide_eq_true in E. apply Hskip; [done..|]. intros lb n. left. intros (_ & -> & -> & ? & ?). naive_solver. }
  apply orb_false_iff in E as [E1%bool_decide_eq_false E2%bool_decide_eq_false].
  pose proof (gather_intent k8s cfg (ct_world c) svc svcs Hl Hd Hin E2) as Hg. destruct (gather k8s cfg (ct_world c) svc) as [[u|]|err].
  - destruct (fill_empty cfg u) as [u'|]; [|apply Hskip; auto]. apply stage_reads; [done..|]. by right.
  - apply Hskip; [done..|]. intros lb n. left. intros (? & -> & -> & ? & ?). naive_solver.
  - apply stage_reads; [done|done|by destruct k|]. intros lb n _ [(_ & -> & -> & _)|(? & _ & _ & _ & ?)]; [|done]. left. by apply arrived_keep.
Qed.

Lemma push_good key st c s k u : after_fresh key k → up_LoadBalancer u = svc_lb s → up_Name u = svc_upstream s → apt (ct_world c) u →
  (∀ lb n, aims (ct_world c) (ct_last c) key st lb n → lb = svc_lb s ∧ n = svc_upstream s ∨ goes_on (ct_world c) s k lb n) →
  ∀ emit_ok emit_err : Ctrl W → Ctrl W,
  (∀ d, ct_world (emit_ok d) = ct_world d ∧ ct_last (emit_ok d) = ct_last d) →
  (∀ d, ct_world (emit_err d) = ct_world d ∧ ct_last (emit_err d) = ct_last d) →
  let '(r, c') := syncLoadBalancerUpstream adapters u c in
  stage_good key st c (resume r k) (match r with Some _ => emit_err c' | None => emit_ok c' end).
Proof.
  intros Hk Hlb Hn Hu Ha emit_ok emit_err Ho He. pose proof (push_ok u c Hu) as Hp. rewrite Hlb, Hn in Hp.
  destruct (syncLoadBalancerUpstream adapters u c) as [r c']. destruct Hp as (Hc & Hl & Ht).
  set (d := match r with Some _ => emit_err c' | None => emit_ok c' end).
  assert (ct_world d = ct_world c' ∧ ct_last d = ct_last c) as [Ew El] by (rewrite <- Hl; subst d; by destruct r).
  split; rewrite ?Ew, ?El; [done|by apply resume_fresh|done|]. intros lb n T [[-> ->]|Hg]%Ha; [left; by apply Ht|right].
  pose proof Hg as (_ & _ & _ & T' & _). destruct (Ht T') as [-> _].
  apply (resume_aims _ _ _ s). by eapply goes_on_calm.
Qed.

Lemma stage_calm key st c : cached (ct_world c) → fresh (ct_world c) key st → returning st = false →
  let '(st', c') := advance k8s adapters cfg key st c in stage_good key st c st' c'.
Proof.
  intros Hc Hf Hr. destruct st as [| |svc|l k|l k|l k| |svc|svc k|svc u k|svc u k|e]; [by apply getting_good|by apply missing_good|
    by apply found_good|by apply draining_good| | | | |by apply reading_good| | |done]; cbn_stage; cbn [fresh] in *.
  - apply stage_reads; [done|done|done|]. by right.
  - destruct Hf as (Hk & Hup & Hi).
    pose proof (push_good key (PushingEmpty l k) c l k (emptyUpstream cfg (svc_lb l) (svc_upstream l)) Hk eq_refl eq_refl) as Hp.
    specialize (Hp ltac:(unfold apt; cbn [emptyUpstream up_LoadBalancer up_Name]; by rewrite Hi)).
    specialize (Hp ltac:(intros lb n [(? & ? & _)|?]; auto) id (emit (IncrementSyncErrors (svc_upstream l)))).
    specialize (Hp ltac:(done) ltac:(done)). by destruct (syncLoadBalancerUpstream _ _ _) as [[e|] c'].
  - apply stage_reads; [done| |done|done]. intros j Hj. cbn. by apply lookup_delete_ne.
  - destruct Hf as [Hin Hk]. apply stage_reads; [done| |done|]. { intros j Hj. cbn. by apply lookup_insert_ne. } right. by left.
  - apply stage_reads; [done..|]. by right.
  - destruct Hf as (Hk & Hin & Hi). pose proof (intent_Serve _ _ _ _ _ _ _ Hi) as (_ & Hname & Hlb & _).
    pose proof (push_good key (Pushing svc u k) c svc k u Hk Hlb Hname) as Hp.
    specialize (Hp ltac:(unfold apt; by rewrite Hlb, Hname, Hi)).
    specialize (Hp ltac:(intros lb n [(_ & ? & ? & _)|?]; auto) (emit (ObserveSyncDuration (svc_upstream svc)))
      (emit (IncrementSyncErrors (svc_upstream svc)))).
    specialize (Hp ltac:(done) ltac:(done)). by destruct (syncLoadBalancerUpstream _ _ _) as [[e|] c'].
Qed.

(** ** Reconciliations and events *)

(** The last known service of [k] is the same, or is now the listed one. *)
Definition drift (last last' : gmap string Service) (k : string) : Prop :=
  last' !! k = last !! k ∨ last !! k = None ∧ ∃ svc, svc ∈ svcs ∧ svc_key svc = k ∧ last' !! k = Some svc.
Lemma drift_trans l1 l2 l3 k : drift l1 l2 k → drift l2 l3 k → drift l1 l3 k.
Proof. unfold drift. intros [->|(E & s & H1 & H2 & ->)] [->|(E' & s' & H3 & H4 & ->)]; naive_solver. Qed.
Lemma drift_insert last svc : svc ∈ svcs → last !! svc_key svc = None → ∀ k, drift last (<[svc_key svc := svc]> last) k.
Proof.
  intros Hin E k. destruct (decide (svc_key svc = k)) as [<-|Hne]; [right|left; by apply lookup_insert_ne].
  split; [done|]. exists svc. by rewrite lookup_insert_eq.
Qed.
Lemma concerns_drift w w' last last' k lb n : cached w' → drift last last' k → concerns w last k lb n → concerns w last' k lb n.
Proof.
  intros Hc Hd [svc Hin Hk Hp Hlb Hup Hclear|l Hl Hk H1 H2 Hlb Hup Hu].
  - constructor; try done. intros l Hl Hm. destruct Hd as [E|(_ & s & Hs & Hsk & E)].
    + apply Hclear; [by rewrite <- E|done].
    + rewrite E in Hl. injection Hl as ->. assert (l = svc) as -> by (eapply listed_unique; [done..|congruence]).
      apply moved_true in Hm. naive_solver.
  - apply concerns_left; try done. destruct Hd as [E|(E & _)]; [by rewrite E|congruence].
Qed.

Lemma track_service_drift lb s (st : gset string * Ctrl W) : s ∈ svcs → ∀ k, drift (ct_last st.2) (ct_last (track_service lb st s).2) k.
Proof.
  destruct st as [ks c]. intros Hs k. unfold track_service. destruct (negb _); [by left|]. cbn [snd upd_state ct_last].
  destruct (ct_last c !! svc_key s) eqn:E; [by left|]. by apply drift_insert.
Qed.
Lemma track_drift lb c k : drift (ct_last c) (ct_last (track_services lb svcs c)) k.
Proof.
  assert (∀ l (st : gset string * Ctrl W), (∀ s, s ∈ l → s ∈ svcs) → drift (ct_last st.2) (ct_last (foldl (track_service lb) st l).2) k) as Hf.
  { induction l as [|s l IH]; intros st Hl; [by left|]. cbn [foldl].
    eapply drift_trans; [apply (track_service_drift lb s); apply Hl; by constructor|].
    apply IH. intros x Hx. apply Hl. by constructor. }
  unfold track_services. specialize (Hf svcs (∅, c) (λ _ Hs, Hs)). destruct (foldl _ _ svcs) as [keys c1]. cbn [snd] in Hf.
  assert (∀ l, ct_last (foldl (forget_service lb keys) c1 l) = ct_last c1) as ->; [|done].
  intros l. apply (foldl_keeps (λ c', ct_last c' = ct_last c1)); [done|]. intros c2 [k' s] E. unfold forget_service.
  by destruct (_ && _).
Qed.

(** *** The stages of a reconciliation *)

(** The desired state that the intent prescribes. *)
Definition prescribed (w : W) (lb : string) (m : gmap string Upstream) : Prop :=
  ∀ n, match intent w lb n with Absent => m !! n = None | Serve u => m !! n = Some u | Keep => kept n (m !! n) end.
Definition round_fresh (w : W) (lb : string) (r : round) : Prop :=
  match r with
  | Tracking services | Desiring services => services = svcs
  | Publishing m | PushingAll m => prescribed w lb m
  | _ => True
  end.
Lemma prescribed_reads w w' lb m : same_reads k8s w w' → prescribed w lb m → prescribed w' lb m.
Proof. intros R Hm n. specialize (Hm n). by rewrite (intent_of_reads k8s cfg w w'). Qed.
Lemma round_fresh_reads w w' lb r : same_reads k8s w w' → round_fresh w lb r → round_fresh w' lb r.
Proof. intros R. destruct r; cbn; try done; by apply prescribed_reads. Qed.

Lemma prescribed_ok w lb m : prescribed w lb m → (∀ n u, intent w lb n = Serve u → ok lb u) →
  ∀ k u, m !! k = Some u → up_Name u = k ∧ (up_PreserveExistingBackends u = false → ok lb u).
Proof.
  intros Hm Hok k u Hk. specialize (Hm k). rewrite Hk in Hm. destruct (intent w lb k) as [|u'|] eqn:Ei; [| |done].
  - destruct Hm as (u' & [= <-] & ? & Hp). split; [done|]. by rewrite Hp.
  - injection Hm as <-. split; [by apply intent_Serve in Ei as (_ & ? & _)|]. intros _. by eapply Hok.
Qed.
Lemma prescribed_value w lb m (v0 : gmap string Z) n : prescribed w lb m →
  match m !! n with
  | Some u => if up_PreserveExistingBackends u then v0 else desired u
  | None => if prune lb then ∅ else v0
  end = match intent w lb n with Serve u => desired u | Keep => v0 | Absent => if prune lb then ∅ else v0 end.
Proof.
  intros Hm. specialize (Hm n). destruct (intent w lb n) as [|u|] eqn:Ei.
  - by destruct Hm as (u & -> & _ & ->).
  - apply intent_Serve in Ei as (_ & _ & _ & Hp). by rewrite Hm, Hp.
  - by rewrite Hm.
Qed.

(** What a reconciliation of [lb] settles. *)
Definition settles (w : W) (lb n : string) : Prop := intent w lb n = Absent → prune lb = true.

Lemma push_all_ok lb ad m c : adapters !! lb = Some ad → prescribed (ct_world c) lb m →
  let '(e, w') := lb_SyncAllUpstreams ad m (ct_world c) in
  calm (ct_world c) w' ∧
  (tended lb (ct_world c) → e = None ∧ ∀ n, name_ok n → settles (ct_world c) lb n → arrived (ct_world c) lb n w').
Proof.
  intros Ha Hm. pose proof (iso_reads _ _ _ _ _ iso lb ad m (ct_world c) Ha) as R.
  pose proof (λ lb', iso_all _ _ _ _ _ iso lb ad m (ct_world c) lb' Ha) as Hother.
  assert (tended lb (ct_world c) → let '(e, w') := lb_SyncAllUpstreams ad m (ct_world c) in e = None ∧ healthy lb w' ∧
    ∀ i n, i ∈ instances lb → name_ok n → view lb w' i n =
      match intent (ct_world c) lb n with Serve u => desired u | Keep => view lb (ct_world c) i n
      | Absent => if prune lb then ∅ else view lb (ct_world c) i n end) as Hown.
  { intros [(ad' & Ha' & [Hconv Hh Hok]) _]. rewrite Ha in Ha'. injection Ha' as <-.
    pose proof (conv_all _ _ _ _ _ _ _ _ Hconv m (ct_world c) Hh (prescribed_ok _ _ _ Hm Hok)) as Hr.
    destruct (lb_SyncAllUpstreams ad m _) as [e w']. destruct Hr as (He & Hh' & Hv). split; [done|]. split; [done|].
    intros i n Hi Hn. rewrite (Hv i n Hi Hn). by apply prescribed_value. }
  destruct (lb_SyncAllUpstreams ad m (ct_world c)) as [e w']. cbn [snd] in *. split; [split; [done|]|].
  - intros lb' T. destruct (decide (lb' = lb)) as [->|Hne].
    + destruct (Hown T) as (_ & Hh & Hv). split; [done|]. intros n Hn. unfold aim, shows.
      pose proof (λ i Hi, Hv i n Hi Hn) as Hv'. destruct (intent (ct_world c) lb n) as [|u|]; [by left|right; by eexists|].
      destruct (prune lb); [right; by eexists|by left].
    + apply toward_undisturbed; [by apply tended_healthy|]. apply Hother; [|done]. destruct T as [(ad' & -> & _) _]. by eexists.
  - intros T. destruct (Hown T) as (He & _ & Hv). split; [done|]. intros n Hn Hs v Hv' i Hi. rewrite (Hv i n Hi Hn).
    unfold aim in Hv'. unfold settles in Hs. destruct (intent (ct_world c) lb n); [done|by injection Hv'|].
    injection Hv' as <-. by rewrite Hs.
Qed.

Lemma round_calm lb ad r c : adapters !! lb = Some ad → cached (ct_world c) → round_fresh (ct_world c) lb r → round_over r = false →
  let '(r', c') := round_step k8s cfg lb ad r c in
  calm (ct_world c) (ct_world c') ∧ round_fresh (ct_world c') lb r' ∧ (∀ k, drift (ct_last c) (ct_last c') k) ∧
  (round_over r' = true → tended lb (ct_world c) → ∀ n, name_ok n → settles (ct_world c) lb n →
   arrived (ct_world c) lb n (ct_world c')).
Proof.
  intros Ha Hc Hf Ho. pose proof Hc as [[Hs Hl] _]. destruct r as [|services|services|m|m|e]; cbn [round_step round_fresh] in *; [..|done].
  - rewrite Hs, Hl. cbn. split_and!; try done. by left.
  - subst services. destruct (track_services_frame lb svcs c) as (_ & _ & Ew & _). rewrite Ew. split_and!; try done. apply track_drift.
  - subst services. split_and!; try done; [|by left]. intros n. apply desired_state_intent.
  - destruct (publish_all_frame lb m c) as (_ & El & Ew & _). rewrite El, Ew. split_and!; try done. by left.
  - pose proof (push_all_ok lb ad m c Ha Hf) as Hp. unfold call. destruct (lb_SyncAllUpstreams ad m (ct_world c)) as [e w'].
    destruct Hp as [Hcalm Ht]. destruct e; cbn; (split; [done|]); (split; [done|]); (split; [by left|]); intros _ T; by apply Ht.
Qed.

(** An event that adds a service carries the listed one. *)
Definition agrees (case : select_case) : Prop :=
  match case with
  | FromServices ev => se_Type ev = EventTypeAdd → se_Service ev ∈ svcs
  | _ => True
  end.

(** What an event leaves alone. *)
Definition event_frame c c' : Prop := ct_world c' = ct_world c ∧ ct_last c' = ct_last c.
Lemma enqueue_pod_event pod c c' : event_frame c c' → event_frame c (enqueueUpstreamsForPod pod c').
Proof. intros [E1 E2]. by rewrite enqueue_pod_eq. Qed.

Lemma event_calm case c : agrees case →
  ct_world (processEvents [case] c) = ct_world c ∧ ∀ k, drift (ct_last c) (ct_last (processEvents [case] c)) k.
Proof.
  assert (∀ c', event_frame c c' → ct_world c' = ct_world c ∧ ∀ k, drift (ct_last c) (ct_last c') k) as Hd.
  { intros c' [E1 E2]. split; [done|]. intros k. left. by rewrite E2. }
  destruct case as [|[t s]|[t p]|[t nd]]; cbn [processEvents agrees se_Type se_Service]; intros Ha.
  - by apply Hd.
  - unfold handleServiceEvent. cbn [se_Type se_Service]. destruct t; cbn [enqueue upd_state ct_last ct_world]; try by apply Hd.
    destruct (ct_last c !! svc_key s) eqn:E; cbn [upd_last upd_state ct_last ct_world]; (split; [done|]); [by left|].
    by apply drift_insert; [apply Ha|].
  - apply Hd. unfold handlePodEvent. cbn [pe_Type pe_Pod]. cbv zeta. apply enqueue_pod_event.
    destruct (st_Pods (ct_state c) !! pod_key p), t; try apply enqueue_pod_event; done.
  - apply Hd. unfold handleNodeEvent, enqueueUpstreamsForNode. cbn [ne_Type ne_Node]. cbv zeta.
    apply (foldl_keeps (event_frame c)); [by destruct t|]. intros c' pod. apply enqueue_pod_event.
Qed.

(** ** Between two changes of the caches *)

Context {Q : Type} (WQ : WorkQueue Q) (abs : Q → queue) `{!WorkQueueLaws WQ abs}.
Implicit Types x y : fine (W := W) (Q := Q).

(** The steps of the controller that are not a change of the caches, its events
    in agreement with them. *)
Inductive calm_step x : fine → Prop :=
  | calm_work y : work_step k8s WQ adapters cfg x y → calm_step x y
  | calm_event case : case ≠ CtxDone → agrees case → calm_step x (on_loop (on_event WQ case) x)
  | calm_round g : round_due adapters g x → calm_step x (begun g x)
  | calm_expire k : calm_step x (on_loop (expired WQ k) x)
  | calm_stop : calm_step x (on_loop (stopped WQ) x).
Lemma calm_fine x y : calm_step x y → fine_step k8s WQ adapters cfg x y.
Proof. intros [z Hz|case Hc _|lb Hd|k|]; by constructor. Qed.

Definition ctrl_of x : Ctrl W := lp_ctrl (fn_loop x).
Definition world_of x : W := ct_world (ctrl_of x).

(** What the handlers and the reconciliations under way have read is up to date. *)
Definition current x : Prop :=
  (∀ k st, fn_stages x !! k = Some st → fresh (world_of x) k st) ∧ ∀ g r, fn_rounds x !! g = Some r → round_fresh (world_of x) (sy_lb g) r.
Lemma at_rest_current x : at_rest x → current x.
Proof. intros [H1 H2]. split; [by intros k st ->%H1|]. intros g r Hr. specialize (H2 g r Hr). by destruct r. Qed.

(** Key [k] waits and concerns the upstream, or its handler is going to push it. *)
Definition tracked x (k lb n : string) : Prop :=
  k ∈ q_waiting (abs (lp_queue (fn_loop x))) ∧ concerns (world_of x) (ct_last (ctrl_of x)) k lb n ∨
  ∃ st, fn_stages x !! k = Some st ∧ aims (world_of x) (ct_last (ctrl_of x)) k st lb n.
(** A reconciliation of [lb] is under way. *)
Definition reconciling x (lb : string) : Prop := ∃ g r, sy_lb g = lb ∧ fn_rounds x !! g = Some r ∧ round_over r = false.

Lemma aims_drift w last last' key st lb n : cached w → drift last last' key → aims w last key st lb n → aims w last' key st lb n.
Proof. intros Hc Hd. destruct st; cbn [aims]; try done; by eapply concerns_drift. Qed.

(** What [x] tracks or reconciles, [y] still does, or the balancers are there. *)
Record since x y : Prop := {
  si_ok : fine_ok adapters abs y;
  si_current : current y;
  si_calm : calm (world_of x) (world_of y);
  si_keys : ∀ k lb n, tracked x k lb n → tended lb (world_of x) → name_ok n →
    arrived (world_of x) lb n (world_of y) ∨ tracked y k lb n;
  si_rounds : ∀ lb n, reconciling x lb → tended lb (world_of x) → name_ok n → settles (world_of x) lb n →
    arrived (world_of x) lb n (world_of y) ∨ reconciling y lb
}.

Lemma since_refl x : fine_ok adapters abs x → current x → since x x.
Proof. intros Hx Hc. split; [done|done|reflexivity|auto..]. Qed.
Lemma since_trans x y z : since x y → since y z → since x z.
Proof.
  intros [_ _ C1 K1 R1] [H1 H2 C2 K2 R2]. split; [done|done|by etrans| |].
  - intros k lb n Ht T Hn. destruct (K1 k lb n Ht T Hn) as [Ha|Hy]; [left; by eapply arrived_calm|].
    destruct (K2 k lb n Hy (tended_calm _ _ _ C1 T) Hn) as [Ha|]; [left|by right].
    intros v Hv. apply Ha. by rewrite (aim_reads (world_of x)) by apply C1.
  - intros lb n Hr T Hn Hs. destruct (R1 lb n Hr T Hn Hs) as [Ha|Hy]; [left; by eapply arrived_calm|].
    assert (settles (world_of y) lb n) as Hs' by (unfold settles; by rewrite (intent_of_reads k8s cfg (world_of x)) by apply C1).
    destruct (R2 lb n Hy (tended_calm _ _ _ C1 T) Hn Hs') as [Ha|]; [left|by right].
    intros v Hv. apply Ha. by rewrite (aim_reads (world_of x)) by apply C1.
Qed.

Lemma current_calm x y : calm (world_of x) (world_of y) → current x →
  (∀ k st, fn_stages y !! k = Some st → fn_stages x !! k = Some st ∨ fresh (world_of y) k st) →
  (∀ g r, fn_rounds y !! g = Some r → fn_rounds x !! g = Some r ∨ round_fresh (world_of y) (sy_lb g) r) → current y.
Proof.
  intros [R _] [H1 H2] Hs Hr. split.
  - intros k st [Hx|]%Hs; [|done]. eapply fresh_reads; [done|by apply H1].
  - intros g r [Hx|]%Hr; [|done]. eapply round_fresh_reads; [done|by apply H2].
Qed.

(** A step that changes neither the handlers nor the balancers. *)
Lemma since_quiet x y : fine_ok adapters abs y → current x → world_of y = world_of x →
  (∀ k, drift (ct_last (ctrl_of x)) (ct_last (ctrl_of y)) k) → cached (world_of x) →
  (∀ k, k ∈ q_waiting (abs (lp_queue (fn_loop x))) → k ∈ q_waiting (abs (lp_queue (fn_loop y)))) →
  fn_stages y = fn_stages x → (∀ g r, fn_rounds y !! g = Some r → fn_rounds x !! g = Some r ∨ r = Listing_services) →
  (∀ lb, reconciling x lb → reconciling y lb) → since x y.
Proof.
  intros Hok Hcur E Hd Hc Hq Hs Hr Hr'. assert (calm (world_of x) (world_of y)) as Hcalm by (rewrite E; reflexivity). split; try done.
  - apply (current_calm x); [done|done|by intros k st; rewrite Hs; left|]. intros lb r [?| ->]%Hr; [by left|by right].
  - intros k lb n Ht T Hn. right. unfold tracked. rewrite E, Hs. destruct Ht as [[Hk Hcn]|(st & Hst & Ha)]; [left|right].
    + split; [by apply Hq|]. by eapply concerns_drift.
    + exists st. split; [done|]. by eapply aims_drift.
  - intros lb n Hre _ _ _. right. by apply Hr'.
Qed.

Lemma add_waiting k q j : j ∈ q_waiting q → j ∈ q_waiting (add k q).
Proof. intros Hj. unfold add. repeat case_match; cbn; rewrite ?elem_of_app; auto. Qed.
Lemma adds_waiting ks (q : Q) j : j ∈ q_waiting (abs q) → j ∈ q_waiting (abs (apply_ops WQ (QAdd <$> ks) q)).
Proof.
  revert q. induction ks as [|k ks IH]; intros q Hj; [done|]. cbn. apply IH. rewrite abs_Add. by apply add_waiting.
Qed.
Lemma expire_waiting k q j : j ∈ q_waiting q → j ∈ q_waiting (expire k q).
Proof. intros Hj. unfold expire. case_decide; [by apply add_waiting|done]. Qed.

(** *** Each step *)

Lemma since_get x l1 l2 k q : fine_ok adapters abs x → current x →
  lp_workers (fn_loop x) = l1 ++ AtGet :: l2 → wq_Get WQ (lp_queue (fn_loop x)) = Item k q →
  let y := mkFine (mkLoop (lp_ctrl (fn_loop x)) q (l1 ++ Holding k :: l2) (lp_log (fn_loop x) ++ [EGet k]))
    (<[k := GettingService]> (fn_stages x)) (fn_rounds x) in since x y.
Proof.
  intros Hx Hcur Hw Hg y. pose proof (abs_Get (lp_queue (fn_loop x))) as Ha. rewrite Hg in Ha. apply get_Item in Ha as (l & El & Eq).
  assert (fn_stages x !! k = None) as Hno.
  { apply eq_None_not_Some. intros Hk%(fo_stages _ _ _ Hx). apply held_elem in Hk. rewrite <- (lo_processing _ _ (fo_loop _ _ _ Hx)) in Hk.
    apply (qo_apart _ (lo_queue _ _ (fo_loop _ _ _ Hx)) k); [rewrite El; constructor|done]. }
  split; [apply (work_step_ok k8s WQ adapters cfg abs x); [done|by eapply work_get]| |reflexivity| |auto].
  - apply (current_calm x); [reflexivity|done| |by left]. intros j st. cbn [y fn_stages].
    destruct (decide (k = j)) as [->|Hne]; [rewrite lookup_insert_eq; intros [= <-]; by right|rewrite lookup_insert_ne by done; by left].
  - intros j lb n Ht _ _. right. unfold tracked in *. cbn [y fn_loop fn_stages lp_queue lp_ctrl]. rewrite Eq, El in *. cbn [q_waiting].
    destruct (decide (k = j)) as [->|Hne].
    + right. exists GettingService. rewrite lookup_insert_eq. split; [done|]. destruct Ht as [[_ ?]|(st & Hst & _)]; [done|congruence].
    + rewrite lookup_insert_ne by done. rewrite elem_of_cons in Ht. naive_solver.
Qed.

Lemma since_stage x k st st' c' : fine_ok adapters abs x → current x → cached (world_of x) →
  Holding k ∈ lp_workers (fn_loop x) → fn_stages x !! k = Some st → returning st = false →
  advance k8s adapters cfg k st (ctrl_of x) = (st', c') →
  since x (mkFine (with_ctrl c' (fn_loop x)) (<[k := st']> (fn_stages x)) (fn_rounds x)).
Proof.
  intros Hx Hcur Hc Hk Hst Hr Hs. pose proof (stage_calm k st (ctrl_of x) Hc (proj1 Hcur k st Hst) Hr) as Hg. rewrite Hs in Hg.
  destruct Hg as [Hcalm Hf Hl Ha]. split; [apply (work_step_ok k8s WQ adapters cfg abs x); [done|by eapply work_stage]| |done| |auto].
  - apply (current_calm x); [done|done| |by left]. intros j sj. cbn [fn_stages].
    destruct (decide (k = j)) as [->|Hne]; [rewrite lookup_insert_eq; intros [= <-]; by right|rewrite lookup_insert_ne by done; by left].
  - assert (cached (ct_world c')) as Hc' by (eapply cached_reads; [apply Hcalm|done]).
    intros j lb n Ht T Hn. destruct (decide (k = j)) as [<-|Hne].
    + destruct Ht as [[Hw _]|(s & Hsx & Has)].
      * destruct (qo_apart _ (lo_queue _ _ (fo_loop _ _ _ Hx)) k Hw). apply (lo_processing _ _ (fo_loop _ _ _ Hx)). by apply held_elem.
      * rewrite Hst in Hsx. injection Hsx as <-. destruct (Ha lb n T Has) as [|Ha']; [by left|right; right].
        exists st'. split; [|done]. cbn [fn_stages]. apply lookup_insert_eq.
    + right. assert (drift (ct_last (ctrl_of x)) (ct_last c') j) as Hd by (left; by apply Hl).
      destruct Ht as [[Hw Hcn]|(s & Hsx & Has)]; [left|right].
      * split; [done|]. eapply concerns_drift; [exact Hc'|exact Hd|by eapply concerns_calm].
      * exists s. split; [cbn [fn_stages]; by rewrite lookup_insert_ne|]. eapply aims_drift; [exact Hc'|exact Hd|by eapply aims_calm].
Qed.

Lemma since_conclude x l1 l2 k err : fine_ok adapters abs x → current x →
  lp_workers (fn_loop x) = l1 ++ Holding k :: l2 → fn_stages x !! k = Some (Returning err) →
  since x (mkFine (item_done WQ (fn_loop x) (l1 ++ AtGet :: l2) k err (conclude k err (ctrl_of x))) (delete k (fn_stages x)) (fn_rounds x)).
Proof.
  intros Hx Hcur Hw Hst. split; [apply (work_step_ok k8s WQ adapters cfg abs x); [done|by eapply work_conclude]| | | |auto].
  - apply (current_calm x); [by destruct err|done| |by left]. intros j st. cbn [fn_stages]. intros [_ ?]%lookup_delete_Some. by left.
  - by destruct err.
  - intros j lb n Ht _ _. right.
    assert (ct_world (conclude k err (ctrl_of x)) = world_of x ∧ ct_last (conclude k err (ctrl_of x)) = ct_last (ctrl_of x)) as [Ew El] by by destruct err.
    destruct Ht as [[Hk Hcn]|(st & Hj & Ha)]; [left|right].
    + split; [|unfold world_of, ctrl_of in *; cbn [fn_loop item_done handled lp_ctrl]; by rewrite Ew, El].
      cbn [fn_loop item_done handled lp_queue]. unfold ctrl_of. rewrite conclude_ops, (proj1 (settle_abs WQ abs k err _)).
      destruct (process_queue_ok (abs (lp_queue (fn_loop x))) k err (lo_queue _ _ (fo_loop _ _ _ Hx)))
        as (_ & _ & _ & _ & _ & [(<- & _)|(_ & -> & _)]); [done|]. rewrite elem_of_app. by left.
    + exists st. split; [|unfold world_of, ctrl_of in *; cbn [fn_loop item_done handled lp_ctrl]; by rewrite Ew, El].
      apply lookup_delete_Some. split; [|done]. intros <-. rewrite Hst in Hj. by injection Hj as <-.
Qed.

Lemma since_round x g ad r r' c' : fine_ok adapters abs x → current x → cached (world_of x) →
  adapters !! sy_lb g = Some ad → fn_rounds x !! g = Some r → round_over r = false →
  round_step k8s cfg (sy_lb g) ad r (ctrl_of x) = (r', c') →
  since x (mkFine (with_ctrl c' (fn_loop x)) (fn_stages x) (<[g := r']> (fn_rounds x))).
Proof.
  intros Hx Hcur Hc Ha Hr Ho Hs. pose proof (round_calm (sy_lb g) ad r (ctrl_of x) Ha Hc (proj2 Hcur g r Hr) Ho) as Hgr. rewrite Hs in Hgr.
  destruct Hgr as (Hcalm & Hf & Hd & Hv). assert (cached (ct_world c')) as Hc' by (eapply cached_reads; [apply Hcalm|done]).
  split; [apply (work_step_ok k8s WQ adapters cfg abs x); [done|by eapply work_round]| |done| |].
  - apply (current_calm x); [done|done|by left|]. intros j rj. cbn [fn_rounds].
    destruct (decide (g = j)) as [<-|Hne]; [rewrite lookup_insert_eq; intros [= <-]; by right|rewrite lookup_insert_ne by done; by left].
  - intros k lb' n Ht _ _. right. destruct Ht as [[Hw Hcn]|(s & Hsx & Has)]; [left|right].
    + split; [done|]. eapply concerns_drift; [exact Hc'|apply Hd|by eapply concerns_calm].
    + exists s. split; [done|]. eapply aims_drift; [exact Hc'|apply Hd|by eapply aims_calm].
  - intros lb' n (g1 & r1 & <- & Hr1 & Ho1) T Hn Hset. unfold reconciling. cbn [fn_rounds]. destruct (decide (g = g1)) as [<-|Hne].
    + destruct (round_over r') eqn:Er; [left; by apply Hv|right]. exists g, r'. by rewrite lookup_insert_eq.
    + right. exists g1, r1. by rewrite lookup_insert_ne.
Qed.

Lemma since_work x y : fine_ok adapters abs x → current x → cached (world_of x) → work_step k8s WQ adapters cfg x y → since x y.
Proof.
  intros Hx Hcur Hc Hst. pose proof (work_step_ok _ _ _ _ _ _ _ Hx Hst) as Hy.
  destruct Hst as [l1 l2 k q Hw Hg|l1 l2 Hw Hg|k st st' c' Hk Hs Hr E|l1 l2 k err Hw Hs|g ad r r' c' Ha Hr Ho E];
    [by apply since_get| |by eapply since_stage|by apply since_conclude|by eapply since_round].
  apply since_quiet; try done; [by left|by left].
Qed.

Lemma since_step x y : fine_ok adapters abs x → current x → cached (world_of x) → calm_step x y → since x y.
Proof.
  intros Hx Hcur Hc Hst. pose proof (fine_step_ok _ _ _ _ _ _ _ Hx (calm_fine _ _ Hst)) as Hy.
  destruct Hst as [z Hz|case _ Hag|g [_ Hd]|k|]; [by apply since_work| | | |].
  - destruct (event_calm case (ctrl_of x) Hag) as [Ew Hd]. destruct (event_ops case (ctrl_of x)) as [ks Hk].
    apply since_quiet; try done; [|by left]. intros j Hj. cbn [on_loop on_event fn_loop handled lp_queue].
    unfold ctrl_of in Hk. rewrite Hk. by apply adds_waiting.
  - apply since_quiet; try done; [by left| |].
    + intros j r. cbn [begun fn_rounds]. destruct (decide (g = j)) as [<-|Hne]; [rewrite lookup_insert_eq; intros [= <-]; by right|].
      rewrite lookup_insert_ne by done. by left.
    + intros lb (g1 & r & <- & Hr & Ho). destruct (decide (g = g1)) as [<-|Hne].
      * exists g, Listing_services. cbn [begun fn_rounds]. by rewrite lookup_insert_eq.
      * exists g1, r. cbn [begun fn_rounds]. by rewrite lookup_insert_ne.
  - apply since_quiet; try done; [by left| |by left]. intros j Hj. cbn [on_loop expired fn_loop lp_queue]. rewrite abs_expire. by apply expire_waiting.
  - apply since_quiet; try done; [by left| |by left]. intros j Hj. cbn [on_loop stopped stop snd fn_loop lp_queue]. by rewrite abs_ShutDown.
Qed.

Lemma since_run x y : cached (world_of x) → fine_ok adapters abs x → current x → rtc calm_step x y → since x y.
Proof.
  intros Hc Hx Hcur Hr. apply (reachable_inv calm_step (since x) x y Hr); [by apply since_refl|]. intros t t' Ht Hst.
  apply (since_trans x t); [done|]. apply since_step; [apply Ht..| |done]. eapply cached_reads; [apply Ht|done].
Qed.

(** When everything is still, nothing is tracked and nothing is reconciling. *)
Lemma still_untracked x k lb n : still abs x → ¬ tracked x k lb n.
Proof.
  intros ((Hw & _) & Hs & _) [[Hk _]|(st & Hst & _)]; [rewrite Hw in Hk; by apply not_elem_of_nil in Hk|].
  by rewrite Hs, lookup_empty in Hst.
Qed.
Lemma still_rounds x lb : still abs x → ¬ reconciling x lb.
Proof. intros (_ & _ & Hr) (g & r & _ & Hl & Ho). specialize (Hr _ _ Hl). congruence. Qed.

(** Everything that [x] tracks or reconciles is where the intent of [x] wants it
    in world [w]. *)
Definition all_arrived x (w : W) : Prop :=
  (∀ k lb n, tracked x k lb n → tended lb (world_of x) → name_ok n → arrived (world_of x) lb n w) ∧
  (∀ lb n, reconciling x lb → tended lb (world_of x) → name_ok n → settles (world_of x) lb n → arrived (world_of x) lb n w).

Lemma calm_converges x y : cached (world_of x) → fine_ok adapters abs x → current x → rtc calm_step x y →
  calm (world_of x) (world_of y) ∧
  inevitably (work_step k8s WQ adapters cfg)
    (λ z, still abs z ∧ calm (world_of x) (world_of z) ∧ all_arrived x (world_of z)) y.
Proof.
  intros Hc Hx Hcur Hr. pose proof (since_run x y Hc Hx Hcur Hr) as Hs. split; [apply Hs|].
  apply (inevitably_mono _ (λ z, since x z ∧ still abs z)).
  - apply (inevitably_wf _ lex (since x) _ (fine_weight abs) lex_wf); [| |done].
    + intros t t' Ht Hst. split; [|by apply (work_step_weight k8s WQ adapters cfg abs t t' (si_ok _ _ Ht))].
      apply (since_trans x t); [done|]. apply since_work; [apply Ht..| |done]. eapply cached_reads; [apply Ht|done].
    + intros t Ht. destruct (work_progress k8s WQ adapters cfg abs t (si_ok _ _ Ht)); [by left|by right].
  - intros z [Hz Hq]. split; [done|]. split; [apply Hz|]. split.
    + intros k lb n Hk T Hn. destruct (si_keys _ _ Hz k lb n Hk T Hn) as [|Ht]; [done|]. by destruct (still_untracked z k lb n Hq).
    + intros lb n Hk T Hn Hset. destruct (si_rounds _ _ Hz lb n Hk T Hn Hset) as [|Ht]; [done|]. by destruct (still_rounds z lb Hq).
Qed.
End converge.

(** The controller with one worker, when the queue holds the key of a service. *)
Module converging.
Lemma one_balancer lb lb' ad : single.adapters !! lb = Some ad → is_Some (single.adapters !! lb') → lb' = lb.
Proof. unfold single.adapters. intros [<- _]%lookup_singleton_Some [? [<- _]%lookup_singleton_Some]. done. Qed.
Lemma isolated : isolated memory.fixed single.adapters (λ _ _, True) (λ _, [tt]) (λ _, memory.view).
Proof. split; try done; intros lb ad u w lb' Ha Ha' []; by eapply one_balancer. Qed.
Definition svcs : list Service := [memory.web; memory.web2; memory.idle].
Lemma cached w : cached memory.fixed svcs w.
Proof. split; [split; [reflexivity|vm_compute; reflexivity]|apply memory.fixed_contract]. Qed.
Lemma tended w : @tended map_range_reverse _ _ memory.fixed single.adapters single.config (λ _ _, True) memory.served (λ _ _, True)
  (λ _, True) (λ _, true) (λ _, [tt]) (λ _, memory.view) svcs "edge" w.
Proof. split; [|done]. exists memory.adapter. split; [done|]. split; [apply memory.adapter_converges|done..]. Qed.
Definition start : fine (W := memory.world) (Q := queue) := fine_start single.config (ct_world memory.start) empty_queue.
Definition added : fine (W := memory.world) (Q := queue) :=
  on_loop (@on_event map_range_reverse _ _ documented (FromServices (mkServiceEvent EventTypeAdd memory.web))) start.
Lemma event_reached : rtc (@fine_step map_range_reverse _ _ memory.fixed documented single.adapters single.config) start added.
Proof. apply rtc_once. by apply (fine_event _ _ _ _ start (FromServices (mkServiceEvent EventTypeAdd memory.web))). Qed.
Lemma last_known : ct_last (ctrl_of added) !! "default/web" = Some memory.web.
Proof. vm_compute. reflexivity. Qed.
Lemma added_current cfg : @current map_range_reverse _ memory.fixed cfg svcs _ added.
Proof. by apply at_rest_current. Qed.
End converging.

(** ** Properties *)

(** C4. Between two changes of the caches, from every state the controller can
    reach in which what the handlers and reconciliations under way have read is up
    to date (in particular when none has begun).  In whatever order the stages of
    the handlers of several workers and of the reconciliations, events, ticks and
    delays interleave, a balancer that works only ever moves towards the intent,
    name by name.  The work under way inevitably comes to an end, and then the
    intent is reached for the upstream of the service of every key that waited or
    was being handled, for the upstream it left when no service targets it any
    more, and for every upstream of a balancer whose reconciliation was under way. *)
Theorem queued_keys_converge `{MapRange} {W I Q} (k8s : KubernetesPort W) (adapters : gmap string (LoadBalancerAdapter W))
    (cfg : Config) healthy desired ok name_ok prune (instances : string → list I) view (svcs : list Service)
    (WQ : WorkQueue Q) (abs : Q → queue) `{!WorkQueueLaws WQ abs} (w : W) (q : Q) (x y : fine (W := W) (Q := Q)) :
  isolated k8s adapters healthy instances view → cached k8s svcs (world_of x) → current k8s cfg svcs x →
  abs q = empty_queue → (1 <= cfg_RequestPoolSize cfg)%Z →
  rtc (fine_step k8s WQ adapters cfg) (fine_start cfg w q) x → rtc (calm_step k8s adapters cfg svcs WQ) x y →
  let calm := calm k8s adapters cfg healthy desired ok name_ok prune instances view svcs in
  calm (world_of x) (world_of y) ∧
  inevitably (work_step k8s WQ adapters cfg)
    (λ z, still abs z ∧ calm (world_of x) (world_of z) ∧
      all_arrived k8s adapters cfg healthy desired ok name_ok prune instances view svcs abs x (world_of z)) y.
Proof.
  intros iso Hc Hcur Hq Hp Hr Hcalm. apply calm_converges; try done. by apply (reachable_fine_ok k8s WQ adapters cfg abs w q x).
Qed.

Lemma queued_keys_converge_witness :
  inevitably (@work_step map_range_reverse _ _ memory.fixed documented single.adapters single.config)
    (λ z, memory.view (world_of z) tt "web" = list_to_map [("10.0.0.1:30080", 2); ("192.0.2.2:30080", 1)]) converging.added.
Proof.
  pose proof (@queued_keys_converge map_range_reverse _ _ _ memory.fixed single.adapters single.config _ memory.served (λ _ _, True)
    (λ _, True) (λ _, true) _ _ converging.svcs documented id _ (ct_world memory.start) empty_queue converging.added converging.added
    converging.isolated (converging.cached _) (converging.added_current _) eq_refl ltac:(cbn; lia) converging.event_reached
    (rtc_refl _ _)) as [_ Hi].
  apply (inevitably_mono _ _ _ _ Hi). intros z (_ & _ & Hz & _). specialize (Hz "default/web" "edge" "web").
  unfold arrived, shows in Hz. apply Hz; [|apply converging.tended|exact I|vm_decide|constructor].
  left. split; [vm_decide|]. apply (concerns_target _ _ _ _ _ _ _ _ _ _ _ _ _ _ memory.web); [repeat constructor|reflexivity|discriminate..|].
  intros l Hl Hm. rewrite converging.last_known in Hl. injection Hl as <-. vm_compute in Hm. discriminate Hm.
Defined.
