(* ===== verification/ControllerReads.v ===== *)
(** * The reads of the caches one by one: internal/controller/controller.go

    [gather] and [desired_state] read the caches in one world, and the stages of
    ControllerStages take them as one step.  The code makes one call of the lister
    after the other, and the informers may change the caches between two of them.
    Here the two are written as programs of single reads ([reading]), which are run
    with a world of its own for each read ([spread]).  While the caches keep their
    contents the programs return what the atomic definitions say, whatever else
    happens between the reads; otherwise they may mix two states of the caches, but
    never drop an upstream that a listed service asks for. *)
From S2P Require Export ControllerConverge.
From Stdlib Require Import Lia.
Local Open Scope Z_scope.

(** ** Programs of reads *)

(** The calls of the port that a handler makes on the way. *)
Inductive read : Type → Type :=
  | ReadPods (namespace : string) (selector : gmap string string) : read (result (list Pod))
  | ReadNode (name : string) : read (result Node)
  | ReadServices : read (result (list Service)).

Inductive reading (A : Type) : Type :=
  | Got (x : A)
  | Read {B} (r : read B) (k : B → reading A).
Arguments Got {_} _.
Arguments Read {_ _} _ _.

Fixpoint and_then {A B} (f : A → reading B) (p : reading A) : reading B :=
  match p with
  | Got x => f x
  | Read r k => Read r (λ b, and_then f (k b))
  end.
#[export] Instance reading_ret : MRet reading := λ _, Got.
#[export] Instance reading_bind : MBind reading := λ _ _, and_then.
Definition ask {B} (r : read B) : reading B := Read r Got.

(** The loops of [for_state] and [foldl], with a body that reads. *)
Fixpoint read_loop {S A} (f : S → A → reading (result S)) (s : S) (l : list A) : reading (result S) :=
  match l with
  | [] => mret (Ok s)
  | x :: l => r ← f s x; match r with Err e => mret (Err e) | Ok s' => read_loop f s' l end
  end.
Fixpoint read_fold {S A} (f : S → A → reading S) (s : S) (l : list A) : reading S :=
  match l with
  | [] => mret s
  | x :: l => s' ← f s x; read_fold f s' l
  end.

(** The result satisfies [P] whatever is read. *)
Fixpoint always {A} (P : A → Prop) (p : reading A) : Prop :=
  match p with
  | Got x => P x
  | Read _ k => ∀ b, always P (k b)
  end.

Lemma always_mono {A} (P Q : A → Prop) p : always P p → (∀ x, P x → Q x) → always Q p.
Proof. intros Hp HPQ. induction p as [x|B r k IH]; [by apply HPQ|]. intros b. by apply IH. Qed.
Lemma always_bind {A B} (P : A → Prop) (Q : B → Prop) p (f : A → reading B) :
  always P p → (∀ x, P x → always Q (f x)) → always Q (p ≫= f).
Proof. intros Hp Hf. induction p as [x|C r k IH]; [by apply Hf|]. intros b. by apply IH. Qed.
Lemma always_true {A} (p : reading A) : always (λ _, True) p.
Proof. induction p as [x|C r k IH]; [done|]. intros b. apply IH. Qed.
Lemma always_any {A B} (Q : B → Prop) (p : reading A) (f : A → reading B) : (∀ x, always Q (f x)) → always Q (p ≫= f).
Proof. intros Hf. by apply (always_bind (λ _, True)); [apply always_true|]. Qed.

(** A loop keeps an invariant of the elements it has seen. *)
Lemma always_fold {S A} (I : list A → S → Prop) (f : S → A → reading S) l done s :
  I done s → (∀ l' s x, I l' s → always (I (l' ++ [x])) (f s x)) → always (I (done ++ l)) (read_fold f s l).
Proof.
  intros Hs Hf. revert done s Hs. induction l as [|x l IH]; intros seen s Hs; cbn [read_fold]; [by rewrite app_nil_r|].
  apply (always_bind _ _ _ _ (Hf _ _ x Hs)). intros s' Hs'. specialize (IH _ _ Hs'). by rewrite <- app_assoc in IH.
Qed.

Section reads.
Context `{MapRange} {W : Type} (k8s : KubernetesPort W) (cfg : Config).

(** What a read answers in world [w]. *)
Definition answer {B} (r : read B) (w : W) : B :=
  match r with
  | ReadPods ns sel => GetPodsForSelector k8s w ns sel
  | ReadNode name => GetNodeByName k8s w name
  | ReadServices => ListServices k8s w
  end.
(** The read number [i] is answered in world [ws i]. *)
Fixpoint spread {A} (ws : nat → W) (p : reading A) : A :=
  match p with
  | Got x => x
  | Read r k => spread (λ i, ws (S i)) (k (answer r (ws 0%nat)))
  end.
(** All the reads are answered in one world. *)
Fixpoint at_once {A} (w : W) (p : reading A) : A :=
  match p with
  | Got x => x
  | Read r k => at_once w (k (answer r w))
  end.

(** ** The event path: [buildUpstream] and the reads of [syncUpstreamsForService] *)

Definition read_pod_backend (svc : Service) (pod : Pod) : reading (result (option Backend)) :=
  if negb (pod_Ready pod) || bool_decide (pod_NodeName pod = "") then mret (Ok None) else
  r ← ask (ReadNode (pod_NodeName pod));
  match r with
  | Err err => mret (Err (Errorf "failed to get node %s for pod %s: %w" [FStr (pod_NodeName pod); FStr (pod_Name pod); FErr err]))
  | Ok node =>
      let nodeIP := node_InternalIP node in
      let nodeIP := if bool_decide (nodeIP = "") then node_ExternalIP node else nodeIP in
      if bool_decide (nodeIP = "") then mret (Ok None) else
      let nodeIP :=
        match getLoadBalancerConfig cfg (svc_lb svc) with
        | Some lbConfig =>
            if GetIPReplacement lbConfig
            then ApplyIPReplacement nodeIP lbConfig (cfg_GlobalIPReplacementList cfg) else nodeIP
        | None => nodeIP
        end in
      mret (Ok (Some (mkBackend nodeIP (svc_NodePort svc) 1)))
  end.

Definition read_pod_backends (svc : Service) (pods : list Pod) : reading (result (list Backend)) :=
  read_loop (λ backends pod,
    r ← read_pod_backend svc pod;
    mret (match r with
          | Err err => Err err
          | Ok None => Ok backends
          | Ok (Some b) => Ok (backends ++ [b])
          end)) [] pods.

Definition read_upstream (svc : Service) (pods : list Pod) : reading (result (option Upstream)) :=
  let lbName := svc_lb svc in
  let upstreamName := svc_upstream svc in
  if (svc_NodePort svc =? 0) || bool_decide (lbName = "") || bool_decide (upstreamName = "") then mret (Ok None) else
  r ← read_pod_backends svc pods;
  mret (match r with
        | Err err => Err err
        | Ok backends =>
            Ok (Some (mkUpstream upstreamName lbName (mergeBackends backends [])
              (getLoadBalancerType cfg lbName) (getLoadBalancerConfig cfg lbName) false))
        end).

Definition read_other (svc : Service) (bs : list Backend) (otherSvc : Service) : reading (result (list Backend)) :=
  if bool_decide (svc_Namespace otherSvc = svc_Namespace svc) && bool_decide (svc_Name otherSvc = svc_Name svc)
  then mret (Ok bs) else
  if bool_decide (svc_lb otherSvc = svc_lb svc) && bool_decide (svc_upstream otherSvc = svc_upstream svc) then
    r ← ask (ReadPods (svc_Namespace otherSvc) (svc_Selector otherSvc));
    match r with
    | Err err => mret (Err (Errorf "failed to get pods for shared service %s/%s: %w"
        [FStr (svc_Namespace otherSvc); FStr (svc_Name otherSvc); FErr err]))
    | Ok otherPods =>
        r ← read_upstream otherSvc otherPods;
        mret (match r with
              | Err err => Err (Errorf "failed to build upstream for shared service %s/%s: %w"
                  [FStr (svc_Namespace otherSvc); FStr (svc_Name otherSvc); FErr err])
              | Ok None => Ok bs
              | Ok (Some otherUp) => Ok (mergeBackends bs (up_Backends otherUp))
              end)
    end
  else mret (Ok bs).

Definition read_gather (svc : Service) : reading (result (option Upstream)) :=
  r ← ask (ReadPods (svc_Namespace svc) (svc_Selector svc));
  match r with
  | Err err => mret (Err (Errorf "failed to get pods for service %s/%s: %w"
      [FStr (svc_Namespace svc); FStr (svc_Name svc); FErr err]))
  | Ok pods =>
  r ← read_upstream svc pods;
  match r with
  | Err err => mret (Err (Errorf "failed to build upstream for service %s/%s: %w"
      [FStr (svc_Namespace svc); FStr (svc_Name svc); FErr err]))
  | Ok None => mret (Ok None)
  | Ok (Some upstream) =>
  r ← ask ReadServices;
  match r with
  | Err err => mret (Err (Errorf "failed to list services for upstream merge (%s/%s): %w"
      [FStr (svc_lb svc); FStr (svc_upstream svc); FErr err]))
  | Ok allServices =>
  r ← read_loop (read_other svc) (up_Backends upstream) allServices;
  mret (match r with
        | Err err => Err err
        | Ok bs => Ok (Some (set_Backends bs upstream))
        end)
  end end end.

(** ** The periodic path: the loops over the services in [syncSingleLoadBalancer] *)

Definition read_desire (upstreams : gmap string Upstream) (lbName : string)
    (desiredState : gmap string Upstream) (svc : Service) : reading (gmap string Upstream) :=
  if negb (bool_decide (svc_lb svc = lbName)) then mret desiredState else
  let upstreamName := svc_upstream svc in
  if bool_decide (upstreamName = "") then mret desiredState else
  r ← ask (ReadPods (svc_Namespace svc) (svc_Selector svc));
  match r with
  | Err _ => mret (<[upstreamName := preserveUp upstreams lbName upstreamName]> desiredState)
  | Ok pods =>
      r ← read_upstream svc pods;
      mret (match r with
      | Err _ => <[upstreamName := preserveUp upstreams lbName upstreamName]> desiredState
      | Ok None => desiredState
      | Ok (Some upstream) =>
          match desiredState !! up_Name upstream with
          | Some existingUp =>
              if negb (up_PreserveExistingBackends existingUp)
              then <[up_Name upstream :=
                      set_Backends (mergeBackends (up_Backends existingUp) (up_Backends upstream)) existingUp]>
                     desiredState
              else desiredState
          | None => <[up_Name upstream := upstream]> desiredState
          end
      end)
  end.
Definition read_desired (upstreams : gmap string Upstream) (lbName : string) (services : list Service)
    : reading (gmap string Upstream) :=
  desiredState ← read_fold (read_desire upstreams lbName) ∅ services;
  mret (foldl (secure cfg upstreams lbName) desiredState (map_range desiredState)).

(** ** In one world *)

Lemma at_once_bind {A B} w (p : reading A) (f : A → reading B) : at_once w (p ≫= f) = at_once w (f (at_once w p)).
Proof. induction p as [x|C r k IH]; [done|]. cbn. apply IH. Qed.
Lemma at_once_loop {S A} w (f : S → A → reading (result S)) (g : S → A → result S) s l :
  (∀ s x, at_once w (f s x) = g s x) → at_once w (read_loop f s l) = for_state g s l.
Proof.
  intros Hfg. revert s. induction l as [|x l IH]; intros s; [done|]. cbn [read_loop for_state].
  rewrite at_once_bind, Hfg. by destruct (g s x).
Qed.
Lemma at_once_fold {S A} w (f : S → A → reading S) (g : S → A → S) s l :
  (∀ s x, at_once w (f s x) = g s x) → at_once w (read_fold f s l) = foldl g s l.
Proof.
  intros Hfg. revert s. induction l as [|x l IH]; intros s; [done|]. cbn [read_fold foldl]. by rewrite at_once_bind, Hfg.
Qed.

Lemma at_once_pod_backend w svc pod : at_once w (read_pod_backend svc pod) = pod_backend k8s cfg w svc pod.
Proof.
  unfold read_pod_backend, pod_backend. destruct (_ || _); [done|]. cbn. destruct (GetNodeByName _ _ _) as [node|]; [|done].
  by destruct (bool_decide (_ = "")).
Qed.
Lemma at_once_upstream w svc pods : at_once w (read_upstream svc pods) = buildUpstream k8s cfg w svc pods.
Proof.
  unfold read_upstream, buildUpstream. destruct (_ || _); [done|]. rewrite at_once_bind. unfold read_pod_backends, pod_backends.
  rewrite (at_once_loop w _ (λ backends pod,
    match pod_backend k8s cfg w svc pod with Err err => Err err | Ok None => Ok backends | Ok (Some b) => Ok (backends ++ [b]) end)).
  - by destruct (for_state _ _ _).
  - intros s pod. by rewrite at_once_bind, at_once_pod_backend.
Qed.
Lemma at_once_other w svc bs other : at_once w (read_other svc bs other) = merge_other k8s cfg w svc bs other.
Proof.
  unfold read_other, merge_other. destruct (_ && _); [done|]. destruct (_ && _); [|done]. cbn.
  destruct (GetPodsForSelector _ _ _ _); [|done]. by rewrite at_once_bind, at_once_upstream.
Qed.
Lemma at_once_gather w svc : at_once w (read_gather svc) = gather k8s cfg w svc.
Proof.
  unfold read_gather, gather. cbn. destruct (GetPodsForSelector _ _ _ _) as [pods|]; [|done]. rewrite at_once_bind, at_once_upstream.
  destruct (buildUpstream _ _ _ _ _) as [[u|]|]; [|done..]. cbn. destruct (ListServices _ _) as [l|]; [|done].
  rewrite at_once_bind, (at_once_loop w _ (merge_other k8s cfg w svc)) by apply at_once_other. by destruct (for_state _ _ _).
Qed.
Lemma at_once_desired w upstreams lbName svcs :
  at_once w (read_desired upstreams lbName svcs) = desired_state k8s cfg w upstreams lbName svcs.
Proof.
  unfold read_desired, desired_state. rewrite at_once_bind, (at_once_fold w _ (desire k8s cfg w upstreams lbName)); [done|].
  intros D svc. unfold read_desire, desire. destruct (negb _); [done|]. destruct (bool_decide _); [done|]. cbn.
  destruct (GetPodsForSelector _ _ _ _); [|done]. by rewrite at_once_bind, at_once_upstream.
Qed.

(** Reads of caches with the same contents. *)
Lemma spread_same {A} w (ws : nat → W) (p : reading A) : (∀ i, same_reads k8s w (ws i)) → spread ws p = at_once w p.
Proof.
  revert ws. induction p as [x|B r k IH]; intros ws Hws; [done|]. cbn.
  assert (answer r (ws 0%nat) = answer r w) as ->.
  { destruct (Hws 0%nat) as (Ep & En & _ & El & _). destruct r; cbn; congruence. }
  apply IH. intros i. apply Hws.
Qed.
Lemma always_spread {A} (P : A → Prop) ws (p : reading A) : always P p → P (spread ws p).
Proof. revert ws. induction p as [x|B r k IH]; intros ws Hp; [done|]. cbn. apply IH, Hp. Qed.

(** ** Whatever is read *)

(** An upstream that is built bears the labels of its service. *)
Definition labelled (svc : Service) (u : Upstream) : Prop :=
  up_Name u = svc_upstream svc ∧ up_LoadBalancer u = svc_lb svc.
Lemma upstream_labelled svc pods : always (λ r,
  match r with
  | Ok (Some u) => labelled svc u
  | Ok None => svc_NodePort svc = 0 ∨ svc_lb svc = "" ∨ svc_upstream svc = ""
  | Err _ => True
  end) (read_upstream svc pods).
Proof.
  unfold read_upstream. destruct (_ || _) eqn:E; cbn.
  - apply orb_true_iff in E as [[->%Z.eqb_eq| ->%bool_decide_eq_true]%orb_true_iff| ->%bool_decide_eq_true]; auto.
  - apply always_any. by intros [bs|].
Qed.

(** What the loop over the services makes of the ones it has seen. *)
Record asked (lbName : string) (svcs : list Service) (D : gmap string Upstream) : Prop := {
  ak_kept : ∀ s n, s ∈ svcs → shares lbName n s = true → lbName ≠ "" → n ≠ "" → svc_NodePort s ≠ 0 → is_Some (D !! n);
  ak_named : ∀ n u, D !! n = Some u → n ≠ "" ∧ up_Name u = n ∧ up_LoadBalancer u = lbName ∧
    ∃ s, s ∈ svcs ∧ shares lbName n s = true
}.
Lemma asked_nil lbName : asked lbName [] ∅.
Proof. split; [by intros s n Hs%not_elem_of_nil|]. intros n u. by rewrite lookup_empty. Qed.
Lemma asked_skip lbName svcs D s : asked lbName svcs D →
  svc_lb s ≠ lbName ∨ lbName = "" ∨ svc_upstream s = "" ∨ svc_NodePort s = 0 → asked lbName (svcs ++ [s]) D.
Proof.
  intros [K N] Hs. split.
  - intros s' n [Hin| ->%list_elem_of_singleton]%elem_of_app; [by apply K|]. intros [<- <-]%shares_true. naive_solver.
  - intros n u (? & ? & ? & s' & ? & ?)%N. split_and!; try done. exists s'. split; [apply elem_of_app; by left|done].
Qed.
Lemma asked_insert lbName svcs D s u : asked lbName svcs D → svc_lb s = lbName → svc_upstream s ≠ "" → labelled s u →
  asked lbName (svcs ++ [s]) (<[svc_upstream s := u]> D).
Proof.
  intros [K N] <- Hn [Hu Hlb]. split.
  - intros s' n [Hin| ->%list_elem_of_singleton]%elem_of_app Hsh ? ? ?; destruct (decide (svc_upstream s = n)) as [->|Hne];
      rewrite ?lookup_insert_eq; [done| |done|by apply shares_true in Hsh as [_ <-]].
    rewrite lookup_insert_ne by done. by apply (K s').
  - intros n v. destruct (decide (svc_upstream s = n)) as [<-|Hne].
    + rewrite lookup_insert_eq. intros [= <-]. split_and!; try done. exists s.
      split; [apply elem_of_app; right; by constructor|by apply shares_true].
    + rewrite lookup_insert_ne by done. intros (? & ? & ? & s' & ? & ?)%N. split_and!; try done.
      exists s'. split; [apply elem_of_app; by left|done].
Qed.
Lemma desire_asked upstreams lbName svcs D s : asked lbName svcs D →
  always (asked lbName (svcs ++ [s])) (read_desire upstreams lbName D s).
Proof.
  intros HD. unfold read_desire. destruct (bool_decide_reflect (svc_lb s = lbName)) as [Hlb|Hlb]; cbn [negb];
    [|apply asked_skip; auto].
  case_bool_decide as Hn; [apply asked_skip; auto|].
  assert (asked lbName (svcs ++ [s]) (<[svc_upstream s := preserveUp upstreams lbName (svc_upstream s)]> D)) as Hp
    by (apply asked_insert; [done..|]; split; [done|by subst]).
  intros [pods|]; [|done]. cbn. apply (always_bind _ _ _ _ (upstream_labelled s pods)). intros [[u|]|] Hu; cbn; [| |done].
  - pose proof Hu as [-> _]. destruct (D !! svc_upstream s) as [v|] eqn:Ev; [|by apply asked_insert].
    pose proof (ak_named _ _ _ HD _ _ Ev) as (_ & Hv & Hvl & _). destruct (negb _); [by apply asked_insert; [..|split]; subst|].
    rewrite <- (insert_id D _ _ Ev). apply asked_insert; [done..|]. split; congruence.
  - apply asked_skip; [done|]. destruct Hu as [|[|]]; subst; auto.
Qed.
Lemma secure_asked upstreams lbName svcs D : asked lbName svcs D →
  asked lbName svcs (foldl (secure cfg upstreams lbName) D (map_range D)).
Proof.
  intros [K N]. split.
  - intros s n Hs Hsh Hl Hn Hp. unfold secure. rewrite (fold_entries (secure_up cfg upstreams lbName)). by apply fmap_is_Some, (K s).
  - intros n u. unfold secure. rewrite (fold_entries (secure_up cfg upstreams lbName)). intros (v & (? & <- & <- & ?)%N & ->)%fmap_Some.
    split_and!; try done; unfold secure_up;
      repeat first [done | case_match | case_bool_decide].
Qed.
Lemma desired_asked upstreams lbName svcs : always (asked lbName svcs) (read_desired upstreams lbName svcs).
Proof.
  unfold read_desired. apply (always_bind (asked lbName svcs)); [|intros D; apply secure_asked].
  apply (always_fold (asked lbName) _ svcs [] ∅); [apply asked_nil|]. intros. by apply desire_asked.
Qed.
End reads.

(** The first read before a tick, the others after it. *)
Module ticking.
Definition ys (i : nat) : fine (W := memory.world) (Q := queue) :=
  if (i =? 0)%nat then converging.added else ticked "edge" converging.added.
Lemma calm_ys i : rtc (@calm_step map_range_reverse _ memory.fixed single.adapters single.config converging.svcs _ documented)
  converging.added (ys i).
Proof. destruct i as [|i]; [constructor|]. apply rtc_once, (calm_round _ _ _ _ _ _ (Ticker "edge")). split; [by eexists|]. done. Qed.
End ticking.

(** A pod that changes the label its service selects it by, while a reconciliation
    reads the pods of one service after those of the other. *)
Module torn.
Definition held_by (app : string) : memory.world :=
  (caches.mkCluster [memory.v1_service "web" "web"; memory.v1_service "web2" "web"] [memory.v1_pod "p1" app "n1"]
     [mkV1Node "n1" [("InternalIP", "10.0.0.1")]] true, ∅).
(** The pod changes hands after the second read: the pods and the node of the
    first service. *)
Definition ws (late : nat) (i : nat) : memory.world := if (i <? late)%nat then held_by "web" else held_by "web2".
Definition desired (late : nat) (svcs : list Service) : gmap string Upstream :=
  @spread memory.world memory.port _ (ws late) (@read_desired map_range_reverse memory.config ∅ "edge" svcs).
Definition serves (weight : Z) (o : option Upstream) : Prop := up_Backends <$> o = Some [mkBackend "10.0.0.1" 30080 weight].
End torn.

(** ** Properties *)

(** Reads between other steps.  While the caches keep their contents, a handler
    and a reconciliation that make their reads one by one, with any steps of the
    others between two of them, compute what they compute when they read
    everything at once: the stages that read may be taken as one step. *)
Theorem reads_atomic `{MapRange} {W I Q} (k8s : KubernetesPort W) (adapters : gmap string (LoadBalancerAdapter W))
    (cfg : Config) healthy (instances : string → list I) view (svcs : list Service)
    (WQ : WorkQueue Q) (abs : Q → queue) `{!WorkQueueLaws WQ abs} (w : W) (q : Q) (x : fine (W := W) (Q := Q))
    (ys : nat → fine (W := W) (Q := Q)) :
  isolated k8s adapters healthy instances view → cached k8s svcs (world_of x) → current k8s cfg svcs x →
  abs q = empty_queue → (1 <= cfg_RequestPoolSize cfg)%Z →
  rtc (fine_step k8s WQ adapters cfg) (fine_start cfg w q) x → (∀ i, rtc (calm_step k8s adapters cfg svcs WQ) x (ys i)) →
  let ws i := world_of (ys i) in
  (∀ svc, spread k8s ws (read_gather cfg svc) = gather k8s cfg (world_of x) svc) ∧
  (∀ upstreams lbName, spread k8s ws (read_desired cfg upstreams lbName svcs) =
    desired_state k8s cfg (world_of x) upstreams lbName svcs).
Proof.
  intros iso Hc Hcur Hq Hp Hr Hys ws. pose proof (reachable_fine_ok k8s WQ adapters cfg abs w q x Hq Hp Hr) as Hx.
  assert (∀ i, same_reads k8s (world_of x) (ws i)) as Hws.
  { intros i. exact (proj1 (proj1 (calm_converges k8s adapters cfg healthy (λ _, ∅) (λ _ _, True) (λ _, True) (λ _, true)
      instances view svcs iso WQ abs x (ys i) Hc Hx Hcur (Hys i)))). }
  split; intros; rewrite (spread_same k8s (world_of x)) by done; [apply at_once_gather|apply at_once_desired].
Qed.

Lemma reads_atomic_witness :
  ∃ u, spread memory.fixed (λ i, world_of (ticking.ys i)) (@read_gather map_range_reverse single.config memory.web) = Ok (Some u) ∧
    up_Backends u = [mkBackend "10.0.0.1" 30080 2; mkBackend "192.0.2.2" 30080 1].
Proof.
  destruct (@reads_atomic map_range_reverse _ _ _ memory.fixed single.adapters single.config (λ _ _, True) (λ _, [tt])
    (λ _, memory.view) converging.svcs documented id _ (ct_world memory.start) empty_queue converging.added
    ticking.ys converging.isolated (converging.cached _) (converging.added_current _) eq_refl ltac:(cbn; lia) converging.event_reached ticking.calm_ys) as [Hg _].
  rewrite Hg. eexists. split; vm_compute; reflexivity.
Defined.

(** C13. Whatever the informers do between two reads of a reconciliation.  The
    desired state has an entry for every upstream that a listed service with a
    valid port asks for, so none of these is pruned; every entry bears the name of
    an upstream that a listed service of the balancer asks for. *)
Theorem torn_reads_keep `{MapRange} {W} (k8s : KubernetesPort W) (cfg : Config) (ws : nat → W)
    (upstreams : gmap string Upstream) (lbName : string) (svcs : list Service) (n : string) :
  let desired := spread k8s ws (read_desired cfg upstreams lbName svcs) in
  (lbName ≠ "" → n ≠ "" → (∃ s, s ∈ svcs ∧ svc_lb s = lbName ∧ svc_upstream s = n ∧ svc_NodePort s ≠ 0) →
    is_Some (desired !! n)) ∧
  (∀ u, desired !! n = Some u → n ≠ "" ∧ up_Name u = n ∧ up_LoadBalancer u = lbName ∧
    ∃ s, s ∈ svcs ∧ svc_lb s = lbName ∧ svc_upstream s = n).
Proof.
  intros desired. assert (asked lbName svcs desired) as [K N] by apply always_spread, desired_asked. split.
  - intros Hl Hn (s & Hs & Hlb & Hup & Hp). apply (K s); try done. by apply shares_true.
  - intros u (? & ? & ? & s & Hs & Hsh)%N. split_and!; try done. exists s. apply shares_true in Hsh as [? ?]. by split_and!.
Qed.

Lemma torn_reads_keep_witness :
  is_Some (torn.desired 1 [memory.web2; memory.web] !! "web") ∧ up_Name <$> torn.desired 1 [memory.web2; memory.web] !! "web" = Some "web".
Proof.
  destruct (@torn_reads_keep map_range_reverse _ memory.port memory.config (torn.ws 1) ∅ "edge" [memory.web2; memory.web] "web")
    as [K N].
  assert (is_Some (torn.desired 1 [memory.web2; memory.web] !! "web")) as [u Hu].
  { apply K; [done..|]. exists memory.web. split_and!; [by repeat constructor|vm_compute; reflexivity..|vm_decide]. }
  split; [by rewrite Hu|]. rewrite Hu. cbn. f_equal. by apply N.
Defined.

(** What torn reads can do.  One pod moves from a service to another of the same
    upstream: in every state of the caches the upstream has the weight of one pod,
    yet a reconciliation that reads on both sides of the move counts the pod twice
    or not at all, and then it keeps what the balancer has. *)
Theorem torn_weights :
  let prescribed app := @intent_of map_range_reverse _ memory.port memory.config (torn.held_by app) "edge" "web" [memory.web; memory.web2] in
  (∀ app, app = "web" ∨ app = "web2" → ∃ u, prescribed app = Serve u ∧ torn.serves 1 (Some u)) ∧
  torn.serves 2 (torn.desired 2 [memory.web; memory.web2] !! "web") ∧
  kept "web" (torn.desired 1 [memory.web2; memory.web] !! "web").
Proof.
  cbv zeta. split_and!.
  - intros app [->| ->]; eexists; (split; vm_compute; reflexivity).
  - vm_compute. reflexivity.
  - eexists. split; [vm_compute; reflexivity|]. split; vm_compute; reflexivity.
Qed.
