(* ===== verification/ControllerRaces.v ===== *)
(** * What changes of the caches can leave behind: internal/controller/controller.go

    The convergence of ControllerConverge is for work that has read the caches as
    they are.  A handler or a reconciliation that read them before a change pushes
    what it read after the change, and nothing orders its push with the pushes of
    the others.  This file runs the stages and shows two such runs, in which every
    handler succeeds, no key is left, and a balancer is off its intent; then it
    shows that such work ends and that the next reconciliation repairs what it
    left. *)
From S2P Require Export ControllerConverge.
From Stdlib Require Import Lia.
Local Open Scope nat_scope.

(** ** Running the stages *)

Section moves.
Context `{MapRange} {W Q : Type} (k8s : KubernetesPort W) (WQ : WorkQueue Q)
  (adapters : gmap string (LoadBalancerAdapter W)) (cfg : Config).
Implicit Types x y : fine (W := W) (Q := Q).

(** The steps of [fine_step] as commands: the first worker that can does it, and
    the reconciliations are those of the tickers. *)
Inductive move :=
  | MGet
  | MStage (k : string)
  | MConclude (k : string)
  | MTick (lbName : string)
  | MRound (lbName : string)
  | MEvent (case : select_case)
  | MCaches (f : W → W).

Definition cut (w : worker) (ws : list worker) : option (list worker * list worker) :=
  (λ '(i, _), (take i ws, drop (S i) ws)) <$> list_find (λ w', w' = w) ws.
Definition make_move x (m : move) : option fine :=
  let t := fn_loop x in
  match m with
  | MGet =>
      '(l1, l2) ← cut AtGet (lp_workers t);
      match wq_Get WQ (lp_queue t) with
      | Item k q => Some (mkFine (mkLoop (lp_ctrl t) q (l1 ++ Holding k :: l2) (lp_log t ++ [EGet k]))
                           (<[k := GettingService]> (fn_stages x)) (fn_rounds x))
      | _ => None
      end
  | MStage k =>
      st ← fn_stages x !! k;
      if returning st || negb (bool_decide (Holding k ∈ lp_workers t)) then None else
      let '(st', c') := advance k8s adapters cfg k st (lp_ctrl t) in
      Some (mkFine (with_ctrl c' t) (<[k := st']> (fn_stages x)) (fn_rounds x))
  | MConclude k =>
      '(l1, l2) ← cut (Holding k) (lp_workers t);
      match fn_stages x !! k with
      | Some (Returning err) => Some (mkFine (item_done WQ t (l1 ++ AtGet :: l2) k err (conclude k err (lp_ctrl t)))
                                       (delete k (fn_stages x)) (fn_rounds x))
      | _ => None
      end
  | MTick lb =>
      match adapters !! lb, fn_rounds x !! Ticker lb with
      | Some _, None => Some (ticked lb x)
      | Some _, Some r => if round_over r then Some (ticked lb x) else None
      | None, _ => None
      end
  | MRound lb =>
      ad ← adapters !! lb; r ← fn_rounds x !! Ticker lb;
      if round_over r then None else
      let '(r', c') := round_step k8s cfg lb ad r (lp_ctrl t) in
      Some (mkFine (with_ctrl c' t) (fn_stages x) (<[Ticker lb := r']> (fn_rounds x)))
  | MEvent CtxDone => None
  | MEvent case => Some (on_loop (on_event WQ case) x)
  | MCaches f => Some (on_loop (refreshed (f (ct_world (lp_ctrl t)))) x)
  end.
Definition moves (ms : list move) x : option fine := foldl (λ o m, o ≫= λ y, make_move y m) (Some x) ms.

Lemma cut_Some w ws l1 l2 : cut w ws = Some (l1, l2) → ws = l1 ++ w :: l2.
Proof.
  unfold cut. destruct (list_find _ ws) as [[i w']|] eqn:E; [|done]. intros [= <- <-].
  apply list_find_Some in E as (Hi & -> & _). symmetry. by apply take_drop_middle.
Qed.

Lemma make_move_sound x m y : make_move x m = Some y → fine_step k8s WQ adapters cfg x y.
Proof.
  destruct m as [|k|k|lb|lb|case|f]; cbn [make_move]; intros E.
  - apply bind_Some in E as ([l1 l2] & Hc%cut_Some & E). destruct (wq_Get WQ _) as [k q| |] eqn:Hg; try done. injection E as <-.
    apply fine_work. by apply work_get.
  - apply bind_Some in E as (st & Hst & E). destruct (returning st) eqn:Hr; [done|]. cbn in E. case_bool_decide as Hk; [|done].
    destruct (advance _ _ _ _ _ _) as [st' c'] eqn:Ha. injection E as <-. apply fine_work. by eapply work_stage.
  - apply bind_Some in E as ([l1 l2] & Hc%cut_Some & E). destruct (fn_stages x !! k) as [[]|] eqn:Hst; try done. injection E as <-.
    apply fine_work. by apply work_conclude.
  - destruct (adapters !! lb) eqn:Ha; [|done]. destruct (fn_rounds x !! Ticker lb) as [r|] eqn:Hr; [destruct (round_over r) eqn:Ho; [|done]|];
      injection E as <-; apply (fine_round _ _ _ _ x (Ticker lb)); (split; [by eexists|]); by rewrite Hr.
  - apply bind_Some in E as (ad & Ha & E). apply bind_Some in E as (r & Hr & E). destruct (round_over r) eqn:Ho; [done|].
    destruct (round_step _ _ _ _ _ _) as [r' c'] eqn:Hs. injection E as <-. apply fine_work. by eapply (work_round _ _ _ _ x (Ticker lb)).
  - destruct case; try done; injection E as <-; by apply fine_event.
  - injection E as <-. apply fine_caches.
Qed.
Lemma moves_sound ms x y : moves ms x = Some y → rtc (fine_step k8s WQ adapters cfg) x y.
Proof.
  unfold moves. revert x. induction ms as [|m ms IH]; intros x E; [by injection E as ->|]. cbn [foldl] in E.
  destruct (make_move x m) as [x'|] eqn:Em; cbn in E; rewrite ?Em in E; cbn in E.
  - eapply rtc_l; [by eapply make_move_sound|by apply IH].
  - exfalso. clear -E. induction ms as [|m' ms IH]; [done|by apply IH].
Qed.
End moves.

(** ** Off the intent *)

(** Nothing is left to do and every key that was added was handled successfully,
    and a balancer does not hold what the caches prescribe for [n]. *)
Record left_off `{MapRange} {W I Q} (k8s : KubernetesPort W) (cfg : Config) (desired : Upstream → gmap string Z)
    (view : W → I → string → gmap string Z) (svcs : list Service) (abs : Q → queue) (lb : string) (i : I) (n : string)
    (x : fine (W := W) (Q := Q)) : Prop := {
  lf_still : still abs x;
  lf_queue : q_delayed (abs (lp_queue (fn_loop x))) = ∅;
  lf_log : owed (lp_log (fn_loop x)) = ∅;
  lf_cached : cached k8s svcs (world_of x);
  lf_off : ∃ u, intent_of k8s cfg (world_of x) lb n svcs = Serve u ∧ view (world_of x) i n ≠ desired u
}.

(** ** The next reconciliation *)

Section repair.
Context `{MapRange} {W I Q : Type} (k8s : KubernetesPort W) (adapters : gmap string (LoadBalancerAdapter W)) (cfg : Config).
Context (healthy : string → W → Prop) (desired : Upstream → gmap string Z) (ok : string → Upstream → Prop)
  (name_ok : string → Prop) (prune : string → bool) (instances : string → list I)
  (view : string → W → I → string → gmap string Z) (svcs : list Service).
Context (WQ : WorkQueue Q) (abs : Q → queue) `{!WorkQueueLaws WQ abs}.
Hypothesis iso : isolated k8s adapters healthy instances view.
Implicit Types x z : fine (W := W) (Q := Q).

Lemma work_ends x : fine_ok adapters abs x → inevitably (work_step k8s WQ adapters cfg) (still abs) x.
Proof.
  intros Hx. apply (inevitably_wf _ lex (fine_ok adapters abs) _ (fine_weight abs) lex_wf); [| |done].
  - intros y z Hy Hst. split; [by apply (work_step_ok k8s WQ adapters cfg abs y)|by apply (work_step_weight k8s WQ adapters cfg abs y z Hy)].
  - intros y Hy. destruct (work_progress k8s WQ adapters cfg abs y Hy); [by left|by right].
Qed.

(** What the balancer holds in [w'], when [w] is the world in which it is
    reconciled. *)
Definition repaired (lb : string) (w w' : W) : Prop := ∀ n i, name_ok n → i ∈ instances lb →
  match intent_of k8s cfg w lb n svcs with
  | Serve u => view lb w' i n = desired u
  | Keep => view lb w' i n = view lb w i n
  | Absent => prune lb = true → view lb w' i n = ∅
  end.

Lemma tick_repairs x lb : fine_ok adapters abs x → still abs x → cached k8s svcs (world_of x) →
  tended k8s adapters cfg healthy desired ok name_ok prune instances view svcs lb (world_of x) →
  inevitably (work_step k8s WQ adapters cfg) (λ z, still abs z ∧ repaired lb (world_of x) (world_of z)) (ticked lb x).
Proof.
  intros Hx (_ & Hs & Hr) Hc T.
  assert (fine_ok adapters abs (ticked lb x)) as Hx'.
  { apply (begun_ok adapters abs (Ticker lb)); [done|]. destruct T as [(ad & Ha & _) _]. by exists ad. }
  assert (current k8s cfg svcs (ticked lb x)) as Hcur.
  { split; cbn [ticked begun fn_stages fn_rounds]; [by intros k st; rewrite Hs, lookup_empty|]. intros j r.
    destruct (decide (Ticker lb = j)) as [<-|Hne]; [rewrite lookup_insert_eq; by intros [= <-]|].
    rewrite lookup_insert_ne by done. intros Hj%Hr. by destruct r. }
  destruct (calm_converges k8s adapters cfg healthy desired ok name_ok prune instances view svcs iso WQ abs (ticked lb x) (ticked lb x)
    Hc Hx' Hcur (rtc_refl _ _)) as [_ Hi]. apply (inevitably_mono _ _ _ _ Hi). intros z (Hz & [_ Hcalm] & _ & Hall). split; [done|]. intros n i Hn Hin.
  destruct (Hcalm lb T) as [_ Hto]. specialize (Hall lb n).
  assert (reconciling (ticked lb x) lb) as Hre by (exists (Ticker lb), Listing_services; split_and!; [done|apply lookup_insert_eq|done]).
  specialize (Hto n Hn). unfold arrived, aim, shows, settles in *. change (world_of (ticked lb x)) with (world_of x) in *.
  destruct (intent_of _ _ _ _ _ _) as [|u|].
  - destruct Hto as [Hv|(v & [=] & _)]. by apply Hv.
  - by apply (Hall Hre T Hn).
  - intros Hp. by apply (Hall Hre T Hn).
Qed.
End repair.

(** Two workers; the caches first hold one service of "web", then a second one. *)
Module races.
Definition config : Config :=
  mkConfig 1 (mkLeaderElection false "" "" 0 0 0) (mkLog false "" "") (mkMetrics false 0 "")
    (mkKubernetes 0 "") (mkGlobalList [] []) (cfg_LoadBalancers memory.config) 2 false None.
Definition before : caches.cluster :=
  caches.mkCluster [memory.v1_service "web" "web"] [memory.v1_pod "p1" "web" "n1"; memory.v1_pod "p3" "web2" "n2"]
    [mkV1Node "n1" [("InternalIP", "10.0.0.1")]; mkV1Node "n2" [("ExternalIP", "192.0.2.2")]] true.
Definition later (n : string) : caches.cluster :=
  caches.mkCluster [memory.v1_service "web" "web"; memory.v1_service "web2" n] (caches.pods before) (caches.nodes before) true.
Definition added (n : string) : Service := mapService (memory.v1_service "web2" n).
Definition start : fine (W := memory.world) (Q := queue) := fine_start config (before, ∅) empty_queue.
Definition change (n : string) : list (move (W := memory.world)) :=
  [MCaches (λ w : memory.world, (later n, w.2)); MEvent (FromServices (mkServiceEvent EventTypeAdd (added n)))].
Definition handle (k : string) (n : nat) : list (move (W := memory.world)) := MGet :: replicate n (MStage k).
Abbreviation run := (@moves map_range_reverse _ _ memory.port documented single.adapters config).

(** The handler of the first service has read the caches and recorded its
    upstream; the second service appears and is handled; then the first handler
    pushes. *)
Definition stale_handler : list (move (W := memory.world)) :=
  MEvent (FromServices (mkServiceEvent EventTypeAdd memory.web)) ::
  handle "default/web" 4 ++ change "web" ++ handle "default/web2" 6 ++ [MConclude "default/web2"] ++
  [MStage "default/web"; MStage "default/web"; MConclude "default/web"].
(** The reconciliation has computed the desired state; a service of another
    upstream appears and is handled; then the reconciliation pushes. *)
Definition stale_round : list (move (W := memory.world)) :=
  MEvent (FromServices (mkServiceEvent EventTypeAdd memory.web)) ::
  handle "default/web" 6 ++ [MConclude "default/web"; MTick "edge"; MRound "edge"; MRound "edge"; MRound "edge"] ++
  change "api" ++ handle "default/web2" 6 ++ [MConclude "default/web2"; MRound "edge"; MRound "edge"].
Definition end_of (ms : list (move (W := memory.world))) : fine := default start (run ms start).

Lemma run_ends ms : match run ms start with Some _ => true | None => false end = true → run ms start = Some (end_of ms).
Proof. unfold end_of. by destruct (run ms start). Qed.
Lemma runs : run stale_handler start = Some (end_of stale_handler) ∧ run stale_round start = Some (end_of stale_round).
Proof. split; apply run_ends; vm_compute; reflexivity. Qed.
Lemma ends : fn_stages (end_of stale_handler) = ∅ ∧ fn_rounds (end_of stale_handler) = ∅ ∧
  fn_stages (end_of stale_round) = ∅ ∧ fn_rounds (end_of stale_round) = {[Ticker "edge" := Ended None]}.
Proof. split_and!; vm_compute; reflexivity. Qed.
Lemma loops :
  (lp_queue (fn_loop (end_of stale_handler)) = empty_queue ∧ lp_workers (fn_loop (end_of stale_handler)) = [AtGet; AtGet] ∧
   owed (lp_log (fn_loop (end_of stale_handler))) = ∅) ∧
  lp_queue (fn_loop (end_of stale_round)) = empty_queue ∧ lp_workers (fn_loop (end_of stale_round)) = [AtGet; AtGet] ∧
  owed (lp_log (fn_loop (end_of stale_round))) = ∅.
Proof. split_and!; vm_compute; reflexivity. Qed.
Lemma quiet_loop (t : loop (W := memory.world) (Q := queue)) : lp_queue t = empty_queue → lp_workers t = [AtGet; AtGet] → quiet id t.
Proof.
  intros E1 E2. unfold quiet. rewrite E1, E2. split_and!; [done..|]. intros w. cbn. rewrite !elem_of_cons, elem_of_nil. naive_solver.
Qed.
Lemma clusters : (world_of (end_of stale_handler)).1 = later "web" ∧ (world_of (end_of stale_round)).1 = later "api".
Proof. split; vm_compute; reflexivity. Qed.
Lemma listed n (w : memory.world) : w.1 = later n → NoDup ((λ s, (vs_Namespace s, vs_Name s)) <$> caches.services (later n)) →
  cached memory.port [memory.web; added n] w.
Proof.
  destruct w as [cl t]. cbn. intros -> Hd. split; [split; [reflexivity|vm_compute; reflexivity]|].
  apply memory.port_contract; [exact Hd|]. repeat constructor.
Qed.
Lemma intents :
  @intent_of map_range_reverse _ memory.port config (world_of (end_of stale_handler)) "edge" "web" [memory.web; added "web"] =
    Serve (mkUpstream "web" "edge" [mkBackend "10.0.0.1" 30080 1; mkBackend "192.0.2.2" 30080 1] "envoy" (getLoadBalancerConfig config "edge") false) ∧
  @intent_of map_range_reverse _ memory.port config (world_of (end_of stale_round)) "edge" "api" [memory.web; added "api"] =
    Serve (mkUpstream "api" "edge" [mkBackend "192.0.2.2" 30080 1] "envoy" (getLoadBalancerConfig config "edge") false).
Proof. split; vm_compute; reflexivity. Qed.
Lemma held : memory.view (world_of (end_of stale_handler)) tt "web" = {["10.0.0.1:30080" := 1%Z]} ∧
  memory.view (world_of (end_of stale_round)) tt "api" = ∅.
Proof. split; vm_compute; reflexivity. Qed.
Lemma edge_isolated : isolated memory.port single.adapters (λ _ _, True) (λ _, [tt]) (λ _, memory.view).
Proof.
  split; [intros lb ad u w lb' Ha Ha' []; by eapply converging.one_balancer..| |];
    unfold single.adapters; intros lb ad x [cl t] [<- <-]%lookup_singleton_Some; split_and?; done.
Qed.
Lemma edge_tended svcs w : @tended map_range_reverse _ _ memory.port single.adapters config (λ _ _, True) memory.served (λ _ _, True)
  (λ _, True) (λ _, true) (λ _, [tt]) (λ _, memory.view) svcs "edge" w.
Proof. split; [|done]. exists memory.adapter. split; [done|]. split; [apply memory.adapter_converges|done..]. Qed.
Lemma handler_still : still id (end_of stale_handler).
Proof.
  destruct loops as [(Q & W & _) _], ends as (S & D & _). split; [by apply quiet_loop|]. split; [exact S|]. by rewrite D.
Qed.
End races.

(** ** Properties *)

(** C7. An out of date push survives.  Two runs of a controller with two workers
    in which every handler and reconciliation succeeds, every key that was added
    has been handled after its last event, nothing is left to do, and the balancer
    does not hold what the caches prescribe.  In the first one a handler reads the
    caches, a second service of the same upstream appears and is handled by the
    other worker, and then the first handler pushes the upstream without the
    backend of the second service.  In the second one a reconciliation computes the
    desired state, a service of a new upstream appears and is handled, and then
    the reconciliation removes the new upstream from the balancer. *)
Theorem stale_push_survives :
  let reached := rtc (@fine_step map_range_reverse _ _ memory.port documented single.adapters races.config) races.start in
  let left_off := @left_off map_range_reverse _ _ _ memory.port races.config memory.served memory.view in
  (∃ z, reached z ∧ left_off [memory.web; races.added "web"] id "edge" tt "web" z) ∧
  (∃ z, reached z ∧ left_off [memory.web; races.added "api"] id "edge" tt "api" z).
Proof.
  destruct races.runs as [R1 R2], races.ends as (_ & _ & S2 & D2), races.intents as [I1 I2], races.held as [V1 V2],
    races.loops as [(Q1 & _ & L1) (Q2 & W2 & L2)].
  split; [exists (races.end_of races.stale_handler)|exists (races.end_of races.stale_round)]; (split; [by eapply moves_sound|]); split.
  - exact races.handler_still.
  - by rewrite Q1.
  - exact L1.
  - apply (races.listed "web"); [apply races.clusters|vm_decide].
  - eexists. split; [exact I1|]. rewrite V1. vm_decide.
  - split; [by apply races.quiet_loop|]. split; [exact S2|]. rewrite D2. by intros lb r [_ <-]%lookup_singleton_Some.
  - by rewrite Q2.
  - exact L2.
  - apply (races.listed "api"); [apply races.clusters|vm_decide].
  - eexists. split; [exact I2|]. rewrite V2. vm_decide.
Qed.

(** C8. The next reconciliation repairs the balancer.  From every reachable state,
    whatever the caches were when the work under way read them, that work
    inevitably comes to an end, under every interleaving.  A tick that finds
    nothing left to do then starts a reconciliation that inevitably ends, and the
    balancer, if it works, holds the intent of the caches: the upstreams to serve,
    what it held for those to keep, and nothing else when orphans are pruned. *)
Theorem reconciliation_repairs `{MapRange} {W I Q} (k8s : KubernetesPort W) (adapters : gmap string (LoadBalancerAdapter W))
    (cfg : Config) healthy desired ok name_ok prune (instances : string → list I) view (svcs : list Service)
    (WQ : WorkQueue Q) (abs : Q → queue) `{!WorkQueueLaws WQ abs} (w : W) (q : Q) (x : fine (W := W) (Q := Q)) :
  isolated k8s adapters healthy instances view → abs q = empty_queue → (1 <= cfg_RequestPoolSize cfg)%Z →
  rtc (fine_step k8s WQ adapters cfg) (fine_start cfg w q) x →
  inevitably (work_step k8s WQ adapters cfg) (still abs) x ∧
  (∀ lb, still abs x → cached k8s svcs (world_of x) →
    tended k8s adapters cfg healthy desired ok name_ok prune instances view svcs lb (world_of x) →
    inevitably (work_step k8s WQ adapters cfg)
      (λ z, still abs z ∧ repaired k8s cfg desired name_ok prune instances view svcs lb (world_of x) (world_of z)) (ticked lb x)).
Proof.
  intros iso Hq Hp Hr. pose proof (reachable_fine_ok k8s WQ adapters cfg abs w q x Hq Hp Hr) as Hx. split; [by apply (work_ends k8s adapters cfg WQ abs)|].
  intros lb Hs Hc T. by apply (tick_repairs k8s adapters cfg healthy desired ok name_ok prune instances view svcs WQ abs iso).
Qed.

Lemma reconciliation_repairs_witness :
  inevitably (@work_step map_range_reverse _ _ memory.port documented single.adapters races.config)
    (λ z, memory.view (world_of z) tt "web" = list_to_map [("10.0.0.1:30080", 1%Z); ("192.0.2.2:30080", 1%Z)])
    (ticked "edge" (races.end_of races.stale_handler)).
Proof.
  destruct races.runs as [R1 _], races.intents as [I1 _], races.clusters as [C1 _].
  destruct (@reconciliation_repairs map_range_reverse _ _ _ memory.port single.adapters races.config _ memory.served (λ _ _, True)
    (λ _, True) (λ _, true) _ _ [memory.web; races.added "web"] documented id _ (races.before, ∅) empty_queue (races.end_of races.stale_handler)
    races.edge_isolated eq_refl ltac:(cbn; lia) ltac:(by eapply moves_sound)) as [_ Hrep].
  specialize (Hrep "edge" races.handler_still ltac:(apply (races.listed "web"); [exact C1|vm_decide]) (races.edge_tended _ _)).
  apply (inevitably_mono _ _ _ _ Hrep). intros z [_ Hz]. specialize (Hz "web" tt I ltac:(constructor)).
  rewrite I1 in Hz. rewrite Hz. vm_decide.
Defined.
