(* ===== verification/System.v ===== *)
(** * The system

    The controller composed with the NGINX adapter: the periodic reconciliation
    from the caches of Kubernetes down to what each NGINX server holds, for one
    balancer, for all the balancers of a site, and for the site that start-up
    builds from the configuration file. *)
From S2P Require Export NginxFleet ControllerLoop Wire.
From Stdlib Require Import Lia.
Local Open Scope Z_scope.

(** ** A deployment to evaluate the system on

    The two servers of [sim], and caches in which two pods of the service "web"
    are ready on one node. *)
Module deployment.
Definition cluster : caches.cluster :=
  caches.mkCluster [memory.v1_service "web" "web"] [memory.v1_pod "p1" "web" "n1"; memory.v1_pod "p2" "web" "n1"]
    [mkV1Node "n1" [("InternalIP", "10.1.0.1")]] true.
Definition port : KubernetesPort (AdState sim.W) :=
  let k := KubernetesAdapter caches.listers in {|
  GetPodsForSelector := λ _, GetPodsForSelector k cluster;
  GetNodeByName := λ _, GetNodeByName k cluster;
  GetService := λ _, GetService k cluster;
  ListServices := λ _, ListServices k cluster;
  HasSynced := λ _, HasSynced k cluster
|}.
Definition config : Config :=
  mkConfig 0 (mkLeaderElection false "" "" 0 0 0) (mkLog false "" "") (mkMetrics false 0 "")
    (mkKubernetes 0 "") (mkGlobalList [] []) [LBNginx sim.config] 0 false None.
(** One server holds another weight for "web", the other an orphan. *)
Definition start : Ctrl (AdState sim.W) :=
  NewController (mkAdState ∅ ∅ (sim.mkServer (Some false) false, sim.mkServer None true)).

Lemma start_coherent : coherent sim.adapter (λ _, True) sim.view sim.known (ct_world start).
Proof. split; [exact I|]. intros c m _ Hm. discriminate Hm. Qed.

(** The intent for the only upstream is known to the servers. *)
Ltac web_known n :=
  destruct (decide (n = "web")) as [->|Hn];
  [ intros E; vm_compute in E; injection E as <-; intros k b Hk;
    assert (desiredBackends [mkBackend "10.1.0.1" 30080 2] = {["10.1.0.1:30080" := mkBackend "10.1.0.1" 30080 2]}) as Hd by vm_decide;
    cbn [up_Backends] in Hk; rewrite Hd in Hk; apply lookup_singleton_Some in Hk as [_ <-]; do 2 constructor
  | unfold intent_of, sharing; cbn [List.filter]; rewrite shares_false by (intros [_ E]; by destruct Hn);
    cbn; destruct (bool_decide (n = "")); discriminate ].

Lemma desired_known n u :
  @intent_of map_range_reverse _ port config (ct_world start) "edge" n [memory.web] = Serve u →
  upstream_known sim.known u.
Proof. web_known n. Qed.
End deployment.

(** ** A site to evaluate the system on

    The deployment, next to a balancer whose server answers nothing it is asked. *)
Module site.
Definition dead : NginxAdapter := mkNginxAdapter [mkClient "http://10.0.0.9:8080" ""] sim.config.
Definition adapters : gmap string NginxAdapter := {["edge" := sim.adapter; "dead" := dead]}.
Definition start : Site caches.cluster sim.W :=
  mkSite deployment.cluster ∅ (sim.mkServer (Some false) false, sim.mkServer None true).
Definition k8s : KubernetesPort caches.cluster := KubernetesAdapter caches.listers.

Lemma adapters_cases lb a : adapters !! lb = Some a → (lb = "edge" ∧ a = sim.adapter) ∨ (lb = "dead" ∧ a = dead).
Proof.
  unfold adapters. intros [[<- <-]|[_ [<- <-]%lookup_singleton_Some]]%lookup_insert_Some; auto.
Qed.

(** A request to another base is no request of [c]. *)
Lemma serve_other c base host path s : c = sim.c1 ∨ c = sim.c2 →
  base ∈ ["http://10.0.0.1:8080"; "http://10.0.0.2:8080"; "http://10.0.0.9:8080"] → base ≠ cl_baseURL c →
  sim.serve c (req_URL (request_of (mkClient base host) "GET" path)) s = None.
Proof.
  intros Hc Hb Hne. assert (∀ p, bool_decide (req_URL (request_of (mkClient base host) "GET" path) = req_URL (request_of c "GET" p)) = false) as Hp.
  { intros p. apply bool_decide_false. rewrite !elem_of_cons, elem_of_nil in Hb. intros E. apply Hne. clear Hne.
    destruct Hc as [-> | ->], Hb as [-> |[-> |[-> |[]]]]; reflexivity || discriminate E || (cbn in E; injection E as E; discriminate E). }
  unfold sim.serve. rewrite Hp. cbn [first_some]. by rewrite !Hp.
Qed.

Lemma own a : (∀ c, c ∈ na_clients a → c = sim.c1 ∨ c = sim.c2 ∨ c = mkClient "http://10.0.0.9:8080" "") →
  OwnServers sim.env a (λ _, True) sim.view.
Proof.
  intros Hcl. split; [|done|done]. intros c path w Hc _. split; [done|]. intros base n Hb. cbn [sim.env ne_http http_Do].
  unfold sim.handle, sim.view. destruct (Hcl c Hc) as [-> |[-> | ->]].
  - destruct (decide (base = cl_baseURL sim.c1)) as [|_]; [done|].
    destruct (sim.serve sim.c1 _ w.1) as [[body s]|]; [done|].
    change (request_of sim.c1 "GET" path) with (request_of (mkClient "http://10.0.0.1:8080" "") "GET" path).
    rewrite serve_other; [done|by right|set_solver|done].
  - change (request_of sim.c2 "GET" path) with (request_of (mkClient "http://10.0.0.2:8080" "") "GET" path).
    rewrite serve_other; [|by left|set_solver|done].
    destruct (decide (base = cl_baseURL sim.c1)) as [|_]; [by destruct (sim.serve sim.c2 _ w.2) as [[body s]|]|].
    by destruct (decide (base = cl_baseURL sim.c2)).
  - rewrite !serve_other; try done; (by left) || (by right) || set_solver.
Qed.

Lemma adapters_own lb a : adapters !! lb = Some a → OwnServers sim.env a (λ _, True) sim.view.
Proof.
  intros [[-> ->]|[-> ->]]%adapters_cases; apply own; intros c; cbn; rewrite !elem_of_cons, elem_of_nil; naive_solver.
Qed.

Lemma apart : disjoint_servers adapters.
Proof.
  assert (∀ lb a c, adapters !! lb = Some a → c ∈ na_clients a →
    lb = if bool_decide (cl_baseURL c = "http://10.0.0.9:8080") then "dead" else "edge") as Hlb.
  { intros lb a c [[-> ->]|[-> ->]]%adapters_cases; cbn; rewrite !elem_of_cons, elem_of_nil.
    - by intros [-> |[-> |[]]].
    - by intros [-> |[]]. }
  intros lb1 a1 c1 lb2 a2 c2 H1 Hc1 H2 Hc2 E. by rewrite (Hlb lb1 a1 c1), (Hlb lb2 a2 c2), E.
Qed.

Lemma start_works :
  @site_works map_range_reverse _ _ (λ _, sim.env) adapters (λ _, True) sim.view sim.known k8s deployment.config "edge" sim.adapter
    [memory.web] start.
Proof.
  split; [done|exact sim.api|vm_decide| |].
  - split; [exact I|]. intros c m _ Hm. discriminate Hm.
  - intros n u Hi. by apply (deployment.desired_known n).
Qed.

(** A configuration file for the working balancer, and what start-up makes of it. *)
Definition raw : rawConfig NginxConfig :=
  mkRaw 0 (mkLeaderElection false "" "" 0 0 0) (mkLog true "info" "json") (mkMetrics true 9090 "/metrics")
    (mkKubernetes 0 "") (mkGlobalList [] []) [sim.config] 0 false None.
Definition viper : ViperEnv (rawConfig NginxConfig) NginxConfig := {|
  ReadInConfig := λ _ _, Ok raw;
  ParseDuration := λ _, Ok 0;
  NewDecoder := None;
  Decode_raw := λ _ s, Ok s;
  raw_type := λ c, Some (ng_Type c);
  Decode_nginx := λ _ c, Ok c;
  Decode_envoy := λ _ _, Err (Errorf "no envoy" [])
|}.
Definition config : Config := ApplyDefaultValues (assemble raw [LBNginx sim.config]).
Definition boot : built (Container (list string) (gmap string endpoint) bool (Site caches.cluster sim.W)) * disk.W :=
  NewContainer viper (disk.env (λ _, disk.files)) lists.prom (λ _, None) None (λ _, 450) id id start "config.yaml" None (disk.mkW 450 0).

Lemma boot_built : ∃ ct w, boot = (Built ct, w) ∧ cn_config ct = config ∧ cn_adapters ct = {["edge" := sim.adapter]}.
Proof.
  destruct boot as [r w] eqn:E. vm_compute in E. injection E as <- <-. do 2 eexists. split; [reflexivity|].
  split; vm_compute; reflexivity.
Qed.

Lemma config_known n u : @intent_of map_range_reverse _ (site_port k8s) config start "edge" n [memory.web] = Serve u →
  upstream_known sim.known u.
Proof. deployment.web_known n. Qed.
End site.

(** ** Properties *)

(** C1. From the configuration file to the servers.  When [NewContainer] builds
    the process from its file, the servers of the balancers are disjoint and
    implement the requests, and the caches of Kubernetes sync, then
    [Controller.Start] registers its watchers, has at least one worker to start,
    and its first reconciliation leaves every address of every configured
    balancer holding the intent for the caches: the servers and weights of the
    upstreams that are served, what it held for the upstreams that are kept, and
    nothing for the others when orphans are pruned. *)
Theorem startup_end_to_end `{MapRange, Schedule} {W Settings RawLB R M W' K N}
    (V : ViperEnv Settings RawLB) (E : CertEnv W) (PE : PromEnv R) (build : string → option error) (new : option error)
    (now : LoadBalancerConfig → Z) (Synced Leader : W' → bool) (path : string) (ctx_err : option error) (w w' : W)
    (env : string → NginxEnv N) (wf : N → Prop) (view : N → string → string → gmap string Z) (known : string → Backend → Prop)
    (k8s : KubernetesPort K) (k : K) (net : N) (svcs : list Service) (ct : Container R M W' (Site K N)) :
  let s := mkSite k ∅ net in
  NewContainer V E PE build new now Synced Leader s path ctx_err w = (Built ct, w') →
  let cfg := cn_config ct in
  disjoint_servers (cn_adapters ct) →
  (∀ lb a, cn_adapters ct !! lb = Some a →
    OwnServers (env lb) a wf view ∧ NginxApi (env lb) a wf view known ∧ NoDup (cl_baseURL <$> na_clients a) ∧
    ∀ n u, intent_of (site_port k8s) cfg s lb n svcs = Serve u → upstream_known known u) →
  wf net → HasSynced k8s k = true → ListServices k8s k = Ok svcs →
  ∃ workers st c', Controller_Start (site_port k8s) (site_adapters env (cn_adapters ct)) cfg None None None true true
      (mkStartState false None, cn_Controller ct) = (Ok workers, (st, c')) ∧ (1 <= workers)%nat ∧
  ∀ lb addr n, LBNginx lb ∈ cfg_LoadBalancers cfg → addr ∈ ng_Addresses lb → n ≠ "" →
    let base := client_baseURL lb addr in
    view (si_net (ct_world c')) base n =
    match intent_of (site_port k8s) cfg s (ng_Name lb) n svcs with
    | Serve u => desired_weights (up_Backends u)
    | Keep => view net base n
    | Absent => if ng_PruneOrphans lb then ∅ else view net base n
    end.
Proof.
  intros s (Hok & Hctrl & Hlbs)%NewContainer_adapters cfg Hd Hall Hwf Hs Hl.
  unfold Controller_Start, watch_returns, Kubernetes.Start. cbn [startOnce startErr]. rewrite Hctrl.
  pose proof (site_SyncUpstreams_ok env (cn_adapters ct) wf view known k8s Hd cfg svcs (NewController s)) as Hsync.
  specialize (Hsync ltac:(intros lb a Ha; by apply (Hall lb a Ha)) Hs Hl).
  cbn. destruct (SyncUpstreams _ _ _ _) as [e c']. destruct Hsync as [Hv _]. do 3 eexists. split; [reflexivity|].
  split; [pose proof (co_pool _ Hok); subst cfg; lia|]. intros lb addr n Hlb Haddr Hn. cbv zeta.
  destruct (Hlbs _ Hlb) as (a & Ha & Hcfg & Hcl). cbn in Ha. injection Hcfg as Hcfg.
  destruct (Hall _ _ Ha) as (_ & Hapi & Hb & Hk).
  destruct (Hv (ng_Name lb) a) as [_ Hview].
  { split; [done..| |done]. split; [done|]. intros c m _ Hm. discriminate Hm. }
  rewrite Hcfg in *. apply (Hview (mkClient (client_baseURL (na_config a) addr) (ng_Hostname (na_config a))) n); [|done].
  rewrite Hcl. by apply (list_elem_of_fmap_2 (λ addr, mkClient (client_baseURL (na_config a) addr) _)).
Qed.

Lemma startup_end_to_end_witness :
  let M := map_range_reverse in let S := schedule_reverse in
  ∃ ct w, site.boot = (Built ct, w) ∧
  ∃ workers st c', Controller_Start (site_port site.k8s) (site_adapters (λ _, sim.env) (cn_adapters ct)) (cn_config ct)
      None None None true true (mkStartState false None, cn_Controller ct) = (Ok workers, (st, c')) ∧
    sim.view (si_net (ct_world c')) "http://10.0.0.1:8080" "web" = {["10.1.0.1:30080" := 2]} ∧
    sim.view (si_net (ct_world c')) "http://10.0.0.2:8080" "web" = {["10.1.0.1:30080" := 2]} ∧
    sim.view (si_net (ct_world c')) "http://10.0.0.2:8080" "old" = ∅.
Proof.
  cbv zeta. destruct site.boot_built as (ct & w & Hb & Hcfg & Had). exists ct, w. split; [exact Hb|].
  destruct (@startup_end_to_end map_range_reverse schedule_reverse _ _ _ _ _ _ _ _ site.viper (disk.env (λ _, disk.files)) lists.prom
    (λ _, None) None (λ _, 450) id id "config.yaml" None (disk.mkW 450 0) w (λ _, sim.env) (λ _, True) sim.view sim.known
    site.k8s deployment.cluster (sim.mkServer (Some false) false, sim.mkServer None true) [memory.web] ct Hb)
    as (workers & st & c' & Hs & _ & Hv).
  - rewrite Had. intros lb1 a1 c1 lb2 a2 c2 [<- <-]%lookup_singleton_Some _ [<- <-]%lookup_singleton_Some _ _. reflexivity.
  - rewrite Had, Hcfg. intros lb a [<- <-]%lookup_singleton_Some.
    split; [by apply (site.adapters_own "edge")|]. split; [exact sim.api|]. split; [vm_decide|exact site.config_known].
  - exact I.
  - reflexivity.
  - vm_compute. reflexivity.
  - exists workers, st, c'. split; [exact Hs|]. rewrite Hcfg in Hv.
    pose proof (λ addr n Ha, Hv sim.config addr n ltac:(constructor) Ha) as H1. clear Hv Hs.
    pose proof (H1 (mkAddress "10.0.0.1" 8080) "web" ltac:(constructor) ltac:(discriminate)) as E1.
    pose proof (H1 (mkAddress "10.0.0.2" 8080) "web" ltac:(do 2 constructor) ltac:(discriminate)) as E2.
    pose proof (H1 (mkAddress "10.0.0.2" 8080) "old" ltac:(do 2 constructor) ltac:(discriminate)) as E3. clear H1.
    cbv zeta in E1, E2, E3.
    change (client_baseURL sim.config (mkAddress "10.0.0.1" 8080)) with "http://10.0.0.1:8080" in E1.
    change (client_baseURL sim.config (mkAddress "10.0.0.2" 8080)) with "http://10.0.0.2:8080" in E2, E3.
    rewrite E1, E2, E3. split_and!; vm_decide.
Defined.

(** C3. A site end to end. Several balancers with disjoint servers share the
    network.  With synchronised caches, the reconciliation of all of them brings
    every balancer that works to the intent for it, as if it were alone: a
    balancer whose servers fail, or answer anything, changes nothing for the
    others, in whatever order they are visited.  When all of them work there is
    no error. *)
Theorem site_end_to_end `{MapRange, Schedule} {K W} (env : string → NginxEnv W) (adapters : gmap string NginxAdapter)
    (wf : W → Prop) (view : W → string → string → gmap string Z) (known : string → Backend → Prop)
    (k8s : KubernetesPort K) (cfg : Config) (svcs : list Service) (c : Ctrl (Site K W)) :
  disjoint_servers adapters → (∀ lb a, adapters !! lb = Some a → OwnServers (env lb) a wf view) →
  HasSynced k8s (si_cluster (ct_world c)) = true → ListServices k8s (si_cluster (ct_world c)) = Ok svcs →
  let '(e, c') := SyncUpstreams (site_port k8s) (site_adapters env adapters) cfg c in
  (∀ lb a, site_works env adapters wf view known k8s cfg lb a svcs (ct_world c) →
    site_serves wf view known k8s cfg lb a svcs (ct_world c) (ct_world c')) ∧
  ((∀ lb a, adapters !! lb = Some a → site_works env adapters wf view known k8s cfg lb a svcs (ct_world c)) → e = None).
Proof. intros Hd Ho Hs Hl. by apply site_SyncUpstreams_ok. Qed.

Lemma site_end_to_end_witness :
  let M := map_range_reverse in let S := schedule_reverse in
  let '(e, c') := SyncUpstreams (site_port site.k8s) (site_adapters (λ _, sim.env) site.adapters) deployment.config
    (NewController site.start) in
  is_Some e ∧ ∀ client, client ∈ na_clients sim.adapter →
    sim.view (si_net (ct_world c')) (cl_baseURL client) "web" = {["10.1.0.1:30080" := 2]} ∧
    sim.view (si_net (ct_world c')) (cl_baseURL client) "old" = ∅.
Proof.
  cbv zeta.
  pose proof (@site_end_to_end map_range_reverse schedule_reverse _ _ (λ _, sim.env) site.adapters (λ _, True) sim.view sim.known
    site.k8s deployment.config [memory.web] (NewController site.start) site.apart site.adapters_own eq_refl
    ltac:(vm_compute; reflexivity)) as Hr.
  assert (is_Some (@SyncUpstreams map_range_reverse _ (site_port site.k8s)
    (@site_adapters map_range_reverse schedule_reverse _ _ (λ _, sim.env) site.adapters) deployment.config
    (NewController site.start)).1) as He by (vm_compute; eexists; reflexivity).
  destruct (SyncUpstreams _ _ _ _) as [e c']. destruct Hr as [Hv _]. split; [exact He|]. intros client Hc.
  destruct (Hv "edge" sim.adapter site.start_works) as [_ Hs].
  rewrite (Hs client "web" Hc), (Hs client "old" Hc) by discriminate. split; vm_decide.
Defined.

(** One balancer end to end. With synchronised caches, NGINX servers that implement the
    list, add and remove requests, and a cache of listings that agrees with them,
    one periodic reconciliation returns no error and leaves every server holding,
    for every upstream, exactly the addresses of the intent with their weights;
    what it held before for an upstream the controller keeps; and, when orphans
    are pruned, nothing for a name no service targets. *)
Theorem reconciliation_end_to_end `{MapRange, Schedule} {W} (env : NginxEnv W) (a : NginxAdapter)
    (wf : W → Prop) (view : W → string → string → gmap string Z) (known : string → Backend → Prop)
    (k8s : KubernetesPort (AdState W)) (cfg : Config) (lbName : string) (svcs : list Service) (c : Ctrl (AdState W)) :
  NginxApi env a wf view known → NoDup (cl_baseURL <$> na_clients a) → coherent a wf view known (ct_world c) →
  HasSynced k8s (ct_world c) = true → ListServices k8s (ct_world c) = Ok svcs →
  (∀ n u, intent_of k8s cfg (ct_world c) lbName n svcs = Serve u → upstream_known known u) →
  let '(e, c') := syncSingleLoadBalancer k8s cfg lbName (nginx_adapter env a) c in
  e = None ∧ coherent a wf view known (ct_world c') ∧
  ∀ client n, client ∈ na_clients a → n ≠ "" →
    server_view view (ct_world c') client n =
    match intent_of k8s cfg (ct_world c) lbName n svcs with
    | Serve u => desired_weights (up_Backends u)
    | Keep => server_view view (ct_world c) client n
    | Absent => if ng_PruneOrphans (na_config a) then ∅ else server_view view (ct_world c) client n
    end.
Proof.
  intros api bases Hc Hs Hl Hk. apply (reconcile_ok k8s cfg lbName (nginx_adapter env a) (coherent a wf view known)
    (λ u, desired_weights (up_Backends u)) (upstream_known known) (λ n, n ≠ "") (ng_PruneOrphans (na_config a))
    (na_clients a) (server_view view) svcs c); try done. by apply nginx_adapter_ok.
Qed.

Lemma reconciliation_end_to_end_witness :
  let M := map_range_reverse in let S := schedule_reverse in
  let '(e, c') := syncSingleLoadBalancer deployment.port deployment.config "edge" (nginx_adapter sim.env sim.adapter) deployment.start in
  e = None ∧ ∀ client, client ∈ na_clients sim.adapter →
    server_view sim.view (ct_world c') client "web" = {["10.1.0.1:30080" := 2]} ∧
    server_view sim.view (ct_world c') client "old" = ∅.
Proof.
  cbv zeta. assert (ListServices deployment.port (ct_world deployment.start) = Ok [memory.web]) as Hl by (vm_compute; reflexivity).
  assert (NoDup (cl_baseURL <$> na_clients sim.adapter)) as Hb by vm_decide.
  pose proof (@reconciliation_end_to_end map_range_reverse schedule_reverse _ sim.env sim.adapter _ sim.view sim.known
    deployment.port deployment.config "edge" _ deployment.start sim.api Hb deployment.start_coherent eq_refl Hl
    deployment.desired_known) as Hr.
  destruct (syncSingleLoadBalancer _ _ _ _ _) as [e c']. destruct Hr as (He & _ & Hv). split; [exact He|].
  intros client Hc. rewrite (Hv client "web" Hc), (Hv client "old" Hc) by discriminate. split; vm_decide.
Defined.
