(* ===== verification/SiteEvents.v ===== *)
(** * Events on a site: from a queued key to the servers

    The convergence of the event path (ControllerConverge) on the NGINX balancers
    of a site (NginxFleet): what the servers hold when the workers are done. *)
From S2P Require Export ControllerConverge System.
From Stdlib Require Import Lia.
Local Open Scope Z_scope.

Section site_events.
Context `{MapRange, Schedule} {K W : Type} (env : string → NginxEnv W) (adapters : gmap string NginxAdapter).
Context (wf : W → Prop) (view : W → string → string → gmap string Z) (known : string → Backend → Prop).
Context (k8s : KubernetesPort K) (cfg : Config) (svcs : list Service).

(** Key [k] is about upstream [n] of balancer [lb]: its service targets it, and
    did so when it was last seen; or its service targeted it then, and no service
    does any more. *)
Inductive about (last : gmap string Service) (k : string) : string → string → Prop :=
  | about_target svc : svc ∈ svcs → svc_key svc = k →
      svc_NodePort svc ≠ 0 → svc_lb svc ≠ "" → svc_upstream svc ≠ "" →
      (∀ l, last !! k = Some l → labels_moved l svc = false) →
      about last k (svc_lb svc) (svc_upstream svc)
  | about_left l : last !! k = Some l → svc_key l = k →
      str_free "/" (svc_Namespace l) = true → str_free "/" (svc_Name l) = true →
      svc_lb l ≠ "" → svc_upstream l ≠ "" →
      (∀ s, s ∈ svcs → ¬ (svc_lb s = svc_lb l ∧ svc_upstream s = svc_upstream l)) →
      about last k (svc_lb l) (svc_upstream l).

(** The servers of [v] follow the intent, from [v0]. *)
Definition at_intent (s : Site K W) (lb n : string) (v0 v : gmap string Z) : Prop :=
  match intent_of (site_port k8s) cfg s lb n svcs with
  | Serve u => v = desired_weights (up_Backends u)
  | Keep => v = v0
  | Absent => v = ∅
  end.

Local Abbreviation tended := (tended (site_port k8s) (site_adapters env adapters) cfg (site_healthy adapters wf view known)
  (λ u, desired_weights (up_Backends u)) (λ _, upstream_known known) (λ n, n ≠ "") (site_prune adapters) (site_clients adapters)
  (site_view view) svcs).

Lemma site_tended lb a s : site_works env adapters wf view known k8s cfg lb a svcs s → tended lb s.
Proof.
  intros [Ha Hapi Hb Hc Hk]. split.
  - exists (site_adapter env lb a). split; [apply site_adapters_lookup; eauto|]. split; [by apply site_converges| |done].
    intros a' Ha'. rewrite Ha in Ha'. by injection Ha' as <-.
  - intros n _. split; [|done]. intros k b Hkb. cbn in Hkb. by rewrite lookup_empty in Hkb.
Qed.

(** What the contract of the controller says of the servers of one balancer. *)
Lemma site_toward lb a s s' client n : site_works env adapters wf view known k8s cfg lb a svcs s →
  toward (site_port k8s) cfg (site_healthy adapters wf view known) (λ u, desired_weights (up_Backends u)) (λ n, n ≠ "")
    (site_clients adapters) (site_view view) svcs lb s s' →
  client ∈ na_clients a → n ≠ "" →
  let v0 := view (si_net s) (cl_baseURL client) n in let v := view (si_net s') (cl_baseURL client) n in
  (v = v0 ∨ at_intent s lb n v0 v) ∧
  (arrived (site_port k8s) cfg (λ u, desired_weights (up_Backends u)) (site_clients adapters) (site_view view) svcs s lb n s' →
   at_intent s lb n v0 v).
Proof.
  intros Hw [_ Hv] Hin Hn. specialize (Hv n Hn). unfold arrived, shows, aim, site_view, site_clients in *.
  rewrite (sw_adapter _ _ _ _ _ _ _ _ _ _ _ Hw) in *. cbn [fmap option_fmap option_map default] in *. cbv zeta. unfold at_intent.
  destruct (intent_of _ _ _ _ _ _) as [|u|].
  - assert (view (si_net s') (cl_baseURL client) n = view (si_net s) (cl_baseURL client) n) as ->; [|auto].
    destruct Hv as [Hv|(v & [=] & _)]. by apply Hv.
  - split; [|intros Ha; by apply (Ha _ eq_refl)]. destruct Hv as [Hv|(v & [= <-] & Hv)]; [left; by apply Hv|right; by apply Hv].
  - split; [|intros Ha; by apply (Ha _ eq_refl)]. destruct Hv as [Hv|(v & [= <-] & Hv)]; [left; by apply Hv|right; by apply Hv].
Qed.

Lemma about_concerns s last k lb n : about last k lb n →
  concerns (site_port k8s) (site_adapters env adapters) cfg (site_healthy adapters wf view known)
    (λ u, desired_weights (up_Backends u)) (λ _, upstream_known known) (λ n, n ≠ "") (site_prune adapters)
    (site_clients adapters) (site_view view) svcs s last k lb n.
Proof.
  intros [svc Hin Hk Hp Hlb Hup Hm|l Hl Hk H1 H2 Hlb Hup Hu]; [|by apply concerns_left].
  apply concerns_target; try done. intros l Hl Ht. by rewrite (Hm l Hl) in Ht.
Qed.

Context {Q : Type} (WQ : WorkQueue Q) (abs : Q → queue) `{!WorkQueueLaws WQ abs}.
Implicit Types x z : fine (W := Site K W) (Q := Q).

(** A key that waits, or whose handler has not read anything yet. *)
Definition queued x (k : string) : Prop :=
  k ∈ q_waiting (abs (lp_queue (fn_loop x))) ∨ fn_stages x !! k = Some GettingService.

Local Abbreviation tracked := (tracked (site_port k8s) (site_adapters env adapters) cfg (site_healthy adapters wf view known)
  (λ u, desired_weights (up_Backends u)) (λ _, upstream_known known) (λ n, n ≠ "") (site_prune adapters)
  (site_clients adapters) (site_view view) svcs abs).
Lemma queued_tracked x k lb n : queued x k → about (ct_last (ctrl_of x)) k lb n → tracked x k lb n.
Proof. intros [Hk|Hk] Ha%(about_concerns (world_of x)); [left|right; exists GettingService]; by split. Qed.

(** The servers of the balancers that work, when the system goes from [x] to a
    state of the site: they hold what they held or follow the intent, and they do
    follow it for what the queued keys are about, and for what a reconciliation
    under way settles. *)
Definition site_since x (s : Site K W) : Prop :=
  ∀ lb a client n, site_works env adapters wf view known k8s cfg lb a svcs (world_of x) → client ∈ na_clients a → n ≠ "" →
    let v0 := view (si_net (world_of x)) (cl_baseURL client) n in
    let v := view (si_net s) (cl_baseURL client) n in
    (v = v0 ∨ at_intent (world_of x) lb n v0 v) ∧
    ((∃ k, queued x k ∧ about (ct_last (ctrl_of x)) k lb n) ∨ (reconciling x lb ∧ ng_PruneOrphans (na_config a) = true) →
     at_intent (world_of x) lb n v0 v).

Lemma site_events_converge x y : disjoint_servers adapters →
  (∀ lb a, adapters !! lb = Some a → OwnServers (env lb) a wf view) →
  cached (site_port k8s) svcs (world_of x) → fine_ok (site_adapters env adapters) abs x → current (site_port k8s) cfg svcs x →
  rtc (calm_step (site_port k8s) (site_adapters env adapters) cfg svcs WQ) x y →
  inevitably (work_step (site_port k8s) WQ (site_adapters env adapters) cfg) (λ z, still abs z ∧ site_since x (world_of z)) y.
Proof.
  intros Hd Hown Hc Hx Hcur Hr.
  destruct (calm_converges (site_port k8s) (site_adapters env adapters) cfg (site_healthy adapters wf view known)
    (λ u, desired_weights (up_Backends u)) (λ _, upstream_known known) (λ n, n ≠ "") (site_prune adapters) (site_clients adapters)
    (site_view view) svcs (site_isolated env adapters wf view known k8s Hd Hown) WQ abs x y Hc Hx Hcur Hr) as (_ & Hi).
  apply (inevitably_mono _ _ _ _ Hi). intros z (Hq & [_ Hcalm] & Hkeys & Hrounds). split; [done|]. intros lb a client n Hw Hin Hn.
  pose proof (site_tended _ _ _ Hw) as Ht. destruct (site_toward lb a _ _ client n Hw (Hcalm lb Ht) Hin Hn) as [H1 H2].
  split; [exact H1|]. intros [(k & Hk & Hab)|[Hre Hp]]; apply H2.
  - by apply (Hkeys k); [apply queued_tracked|..].
  - apply Hrounds; try done. intros _. unfold site_prune. by rewrite (sw_adapter _ _ _ _ _ _ _ _ _ _ _ Hw).
Qed.
End site_events.

(** The site of [System.site], a worker, and the key of its service. *)
Module site_loop.
Definition one_worker : Config :=
  mkConfig 0 (mkLeaderElection false "" "" 0 0 0) (mkLog false "" "") (mkMetrics false 0 "")
    (mkKubernetes 0 "") (mkGlobalList [] []) [LBNginx sim.config] 1 false None.
Definition start : fine (W := Site caches.cluster sim.W) (Q := queue) := fine_start one_worker site.start empty_queue.
Definition added : fine (W := Site caches.cluster sim.W) (Q := queue) :=
  on_loop (@on_event map_range_reverse _ _ documented (FromServices (mkServiceEvent EventTypeAdd memory.web))) start.
Lemma site_event_reached : rtc (@fine_step map_range_reverse _ _ (site_port site.k8s) documented
  (@site_adapters map_range_reverse schedule_reverse _ _ (λ _, sim.env) site.adapters) one_worker) start added.
Proof. apply rtc_once. by apply (fine_event _ _ _ _ start (FromServices (mkServiceEvent EventTypeAdd memory.web))). Qed.
Lemma contract : PortContract site.k8s deployment.cluster.
Proof. eapply KubernetesAdapter_laws, caches.listers_laws; vm_decide. Qed.
Lemma site_last_known : ct_last (ctrl_of added) !! "default/web" = Some memory.web.
Proof. vm_compute. reflexivity. Qed.
Lemma one_worker_known n u : @intent_of map_range_reverse _ (site_port site.k8s) one_worker site.start "edge" n [memory.web] = Serve u →
  upstream_known sim.known u.
Proof. deployment.web_known n. Qed.
End site_loop.

(** ** Properties *)

(** C2. From an event to the servers.  Several balancers with disjoint servers
    share the network, and the caches do not change any more.  In whatever order
    the stages of the handlers of several workers and of the reconciliations,
    events that agree with the caches, ticks and delays have interleaved since
    [x], the work inevitably comes to an end, and then every server of a balancer
    that works holds, name by name, what it held in [x] or the intent; and it
    holds the intent (the addresses and weights to serve, what it held when the
    upstream must be kept, nothing when no service targets it) for the upstream of
    each service whose key was queued in [x], for an upstream that the service of
    a queued key targeted and none targets any more, and for every upstream of a
    balancer that was being reconciled. *)
Theorem event_end_to_end `{MapRange, Schedule} {K W Q} (env : string → NginxEnv W) (adapters : gmap string NginxAdapter)
    (wf : W → Prop) (view : W → string → string → gmap string Z) (known : string → Backend → Prop)
    (k8s : KubernetesPort K) (cfg : Config) (svcs : list Service) (WQ : WorkQueue Q) (abs : Q → queue) `{!WorkQueueLaws WQ abs}
    (s : Site K W) (q : Q) (x y : fine (W := Site K W) (Q := Q)) :
  disjoint_servers adapters → (∀ lb a, adapters !! lb = Some a → OwnServers (env lb) a wf view) →
  let cluster := si_cluster (world_of x) in
  PortContract k8s cluster → HasSynced k8s cluster = true → ListServices k8s cluster = Ok svcs →
  abs q = empty_queue → (1 <= cfg_RequestPoolSize cfg)%Z →
  let port := site_port k8s in let lbs := site_adapters env adapters in
  rtc (fine_step port WQ lbs cfg) (fine_start cfg s q) x → current port cfg svcs x → rtc (calm_step port lbs cfg svcs WQ) x y →
  inevitably (work_step port WQ lbs cfg)
    (λ z, still abs z ∧ site_since env adapters wf view known k8s cfg svcs abs x (world_of z)) y.
Proof.
  intros Hd Hown cluster [P1 P2 P3] Hs Hl Hq Hp port lbs Hr Hcur Hc.
  apply site_events_converge; [done..| | |done|done]; [by split; [|split]|by apply (reachable_fine_ok port WQ lbs cfg abs s q x)].
Qed.

Lemma event_end_to_end_witness :
  inevitably (@work_step map_range_reverse _ _ (site_port site.k8s) documented
      (@site_adapters map_range_reverse schedule_reverse _ _ (λ _, sim.env) site.adapters) site_loop.one_worker)
    (λ z, ∀ client, client ∈ na_clients sim.adapter →
      sim.view (si_net (world_of z)) (cl_baseURL client) "web" = {["10.1.0.1:30080" := 2]}) site_loop.added.
Proof.
  pose proof (@event_end_to_end map_range_reverse schedule_reverse _ _ _ (λ _, sim.env) site.adapters (λ _, True) sim.view sim.known
    site.k8s site_loop.one_worker [memory.web] documented id _ site.start empty_queue site_loop.added site_loop.added
    site.apart site.adapters_own site_loop.contract eq_refl ltac:(vm_compute; reflexivity) eq_refl ltac:(cbn; lia)
    site_loop.site_event_reached ltac:(by apply at_rest_current) (rtc_refl _ _)) as Hi.
  apply (inevitably_mono _ _ _ _ Hi). intros z [_ Hz] client Hc.
  destruct (Hz "edge" sim.adapter client "web") as [_ Hat]; [|exact Hc|discriminate|].
  - split; [reflexivity|exact sim.api|vm_decide| |exact site_loop.one_worker_known].
    split; [exact I|]. intros c m _ Hm. discriminate Hm.
  - unfold at_intent in Hat. destruct (intent_of _ _ _ _ _ _) as [|u|] eqn:Ei; vm_compute in Ei; [discriminate Ei| |discriminate Ei].
    injection Ei as <-. rewrite Hat; [vm_decide|]. left. exists "default/web". split; [left; vm_decide|].
    apply (about_target _ _ _ memory.web); [constructor|reflexivity|discriminate..|].
    intros l Hl. rewrite site_loop.site_last_known in Hl. injection Hl as <-. vm_compute. reflexivity.
Defined.
