(* ===== verification/SiteCalls.v ===== *)
(** * The calls under way on one adapter

    In ControllerStages a call of an adapter is one step.  The workers and the
    reconciliation of a balancer share its adapter, and their calls run at the
    same time in it (NginxPool).  What they push while the caches do not change
    agrees, so the calls reach what they would reach one after the other. *)
From S2P Require Export NginxPool SiteEvents.
From Stdlib Require Import Lia.
Local Open Scope Z_scope.

(** ** The calls *)

(** The call a handler is about to make on the adapter of balancer [lb], or a
    reconciliation on its own. *)
Definition handler_call (cfg : Config) (lb : string) (st : stage) : option request :=
  match st with
  | Pushing svc u _ => if bool_decide (svc_lb svc = lb) then Some (One u) else None
  | PushingEmpty l _ => if bool_decide (svc_lb l = lb) then Some (One (emptyUpstream cfg lb (svc_upstream l))) else None
  | _ => None
  end.
Definition round_call (r : round) : option request := match r with PushingAll m => Some (All m) | _ => None end.
Definition calls_on {W Q} (cfg : Config) (lb : string) (x : fine (W := W) (Q := Q)) : list request :=
  omap (handler_call cfg lb) (map_to_list (fn_stages x)).*2 ++
  omap (λ '(g, r), if bool_decide (sy_lb g = lb) then round_call r else None) (map_to_list (fn_rounds x)).

Section calls.
Context `{MapRange, Schedule} {K W Q : Type} (env : string → NginxEnv W) (adapters : gmap string NginxAdapter).
Context (wf : W → Prop) (view : W → string → string → gmap string Z) (known : string → Backend → Prop).
Context (k8s : KubernetesPort K) (cfg : Config) (svcs : list Service).
Implicit Types x : fine (W := Site K W) (Q := Q).

Local Abbreviation intent s lb n := (intent_of (site_port k8s) cfg s lb n svcs).
Local Abbreviation aim := (aim (site_port k8s) cfg (λ u, desired_weights (up_Backends u)) svcs).

(** The names a call is about. *)
Definition covers (a : NginxAdapter) (s : Site K W) (lb : string) (r : request) (n : string) : Prop :=
  match r with One u => n = up_Name u | All m => intent s lb n = Absent → ng_PruneOrphans (na_config a) = true end.

Inductive up_to_date (s : Site K W) (lb : string) : request → Prop :=
  | current_upstream n u : intent s lb n = Serve u → up_to_date s lb (One u)
  | current_empty n : intent s lb n = Absent → up_to_date s lb (One (emptyUpstream cfg lb n))
  | current_all m : prescribed (site_port k8s) cfg svcs s lb m → up_to_date s lb (All m).

Lemma calls_up_to_date x lb r : current (site_port k8s) cfg svcs x → r ∈ calls_on cfg lb x → up_to_date (world_of x) lb r.
Proof.
  intros [Hs Hr]. unfold calls_on. rewrite elem_of_app. intros [Hin|Hin].
  - apply list_elem_of_omap in Hin as (st & ([k st'] & -> & Hk%elem_of_map_to_list)%list_elem_of_fmap & Hc). cbn in Hc.
    specialize (Hs _ _ Hk). destruct st' as [| |svc|l a|l a|l a| |svc|svc a|svc u a|svc u a|e]; try done; cbn in Hc;
      case_bool_decide as E; try done; injection Hc as <-; rewrite <- E.
    + apply current_empty, Hs.
    + eapply current_upstream, Hs.
  - apply list_elem_of_omap in Hin as ([g rd] & Hg%elem_of_map_to_list & Hc). case_bool_decide as E; [|done]. subst lb.
    specialize (Hr _ _ Hg). destruct rd; try done. injection Hc as <-. by apply current_all.
Qed.

Lemma asks_aim a s lb r n t : up_to_date s lb r → asks a r n t → aim s lb n = Some t.
Proof.
  unfold aim. intros [n' u Hi|n' Hi|m Hm]; cbn [asks emptyUpstream up_Name up_Backends].
  - intros [-> ->]. pose proof (intent_Serve _ _ _ _ _ _ _ Hi) as (_ & -> & _). by rewrite Hi.
  - intros [-> ->]. by rewrite Hi.
  - specialize (Hm n). intros [(u & Hu & Hp & ->)|(_ & _ & Hn & ->)]; rewrite ?Hu, ?Hn in Hm; destruct (intent s lb n) as [|u'|];
      try done; [destruct Hm as (? & [= <-] & _ & ?); congruence|by injection Hm as ->|by destruct Hm as (? & ? & _)].
Qed.
Lemma covers_asks a s lb r n t : up_to_date s lb r → covers a s lb r n → n ≠ "" → aim s lb n = Some t → asks a r n t.
Proof.
  unfold aim. intros [n' u Hi|n' Hi|m Hm] Hc Hn Ht; cbn [asks covers emptyUpstream up_Name up_Backends] in *; [subst n|subst n|].
  - split; [done|]. pose proof (intent_Serve _ _ _ _ _ _ _ Hi) as (_ & E & _). rewrite E, Hi in Ht. by injection Ht.
  - split; [done|]. rewrite Hi in Ht. by injection Ht.
  - specialize (Hm n). destruct (intent s lb n) as [|u|] eqn:Ei; [done| |]; injection Ht as <-; [left|right; auto].
    exists u. split; [done|]. by apply intent_Serve in Ei as (_ & _ & _ & ?).
Qed.

Lemma asks_covers a s lb r n t : up_to_date s lb r → asks a r n t → covers a s lb r n.
Proof.
  intros Hr Ht. pose proof (asks_aim _ _ _ _ _ _ Hr Ht) as Ha. destruct r as [u|m]; cbn in *; [by destruct Ht|].
  unfold aim in Ha. intros Hi. rewrite Hi in Ha. inversion_clear Hr as [| |? Hm]. specialize (Hm n). rewrite Hi in Hm.
  destruct Ht as [(u & Hu & _)|(? & _)]; [congruence|done].
Qed.
Local Instance covers_dec a s lb r n : Decision (covers a s lb r n).
Proof.
  destruct r as [u|m]; cbn; [apply _|]. destruct (intent s lb n); [left; done..|].
  destruct (ng_PruneOrphans (na_config a)); [by left|right; by intros [=]%(λ f, f eq_refl)].
Defined.

Lemma up_to_date_ok a s lb r : site_works env adapters wf view known k8s cfg lb a svcs s → up_to_date s lb r → request_ok known r.
Proof.
  intros [_ _ _ _ Hk] [n u Hi|n Hi|m Hm]; cbn [request_ok]; [by eapply Hk| |].
  - intros k b Hb. cbn in Hb. by rewrite lookup_empty in Hb.
  - by eapply (prescribed_ok (site_port k8s) cfg (λ _, upstream_known known) svcs s lb m Hm (Hk)).
Qed.

Lemma calls_converge a lb x : site_works env adapters wf view known k8s cfg lb a svcs (world_of x) →
  current (site_port k8s) cfg svcs x → 1 <= capacity a →
  let s := world_of x in
  inevitably (pool_step (env lb) a) (λ '(s', ks), (∀ k, k ∈ ks → returned k ∧ call_result k = None) ∧
    ∀ client n, client ∈ na_clients a → n ≠ "" →
      let v0 := view (si_net s) (cl_baseURL client) n in let v := view (ad_world s') (cl_baseURL client) n in
      (v = v0 ∨ at_intent k8s cfg svcs s lb n v0 v) ∧
      (∀ r, r ∈ calls_on cfg lb x → covers a s lb r n → at_intent k8s cfg svcs s lb n v0 v)) (pool_start a (calls_on cfg lb x) (slice lb s)).
Proof.
  intros Hw Hcur Hcap s. pose proof (calls_up_to_date x lb) as Hup. pose proof Hw as [Ha Hapi Hb Hcoh _].
  assert (∀ n v0 v t, aim s lb n = Some t → v = t → at_intent k8s cfg svcs s lb n v0 v) as Hat.
  { unfold aim, at_intent. intros n v0 v t Ht ->. destruct (intent s lb n); [done|by injection Ht as <-|by injection Ht as <-]. }
  eapply inevitably_mono; [apply (pool_ok (env lb) a wf view known (calls_on cfg lb x) (slice lb s) Hapi Hb Hcap Hcoh)|].
  - intros r Hr. eapply up_to_date_ok; [exact Hw|by apply Hup].
  - intros r1 r2 n t1 t2 H1 H2 A1 A2. apply (asks_aim a s lb) in A1, A2; [|by apply Hup..]. congruence.
  - intros [s' ks] [Hret Hv]. split; [done|]. intros client n Hin Hn v0 v. destruct (Hv client n Hin) as [Hask Hno].
    assert (aim s lb n = None → at_intent k8s cfg svcs s lb n v0 v0) as Hkeep.
    { unfold aim, at_intent. by destruct (intent s lb n). }
    assert ((∀ r t, r ∈ calls_on cfg lb x → ¬ asks a r n t) → v = v0) as Hsame by done.
    assert (∀ r, r ∈ calls_on cfg lb x → covers a s lb r n → at_intent k8s cfg svcs s lb n v0 v) as Hcov.
    { intros r Hr Hc. destruct (aim s lb n) as [t|] eqn:Et.
      - apply (Hat n v0 v t Et), (Hask r); [done|]. eapply covers_asks; [by apply Hup|exact Hc|done|done].
      - rewrite Hsame; [by apply Hkeep|]. intros r' t Hr' Ht%(asks_aim a s lb); [congruence|by apply Hup]. }
    split; [|done]. destruct (decide (Exists (λ r, covers a s lb r n) (calls_on cfg lb x))) as [Hex|Hex].
    + apply list.Exists_exists in Hex as (r & Hr & Hc). right. by apply (Hcov r).
    + left. apply Hsame. intros r t Hr Ht. apply Hex, list.Exists_exists. exists r. split; [done|].
      eapply asks_covers; [by apply Hup|done].
Qed.
End calls.

(** The site of [System.site] when a worker and the reconciliation of "edge" are
    about to push. *)
Module pushing.
Definition port : KubernetesPort (Site caches.cluster sim.W) := site_port site.k8s.
Definition m : gmap string Upstream := @desired_state map_range_reverse _ port site_loop.one_worker site.start ∅ "edge" [memory.web].
Definition u : Upstream := default (emptyUpstream site_loop.one_worker "edge" "web") (m !! "web").
Definition state : fine (W := Site caches.cluster sim.W) (Q := queue) :=
  mkFine (fn_loop site_loop.start) {["default/web" := Pushing memory.web u ThenReturn]} {[Ticker "edge" := PushingAll m]}.
Lemma serves : @intent_of map_range_reverse _ port site_loop.one_worker site.start "edge" "web" [memory.web] = Serve u.
Proof. vm_compute. reflexivity. Qed.
Lemma u_served : desired_weights (up_Backends u) = {["10.1.0.1:30080" := 2]}.
Proof. vm_decide. Qed.
Lemma up_to_date : @current map_range_reverse _ port site_loop.one_worker [memory.web] _ state.
Proof.
  unfold state. split; cbn [fn_stages fn_rounds].
  - intros k st [<- <-]%lookup_singleton_Some. split; [exact I|]. split; [constructor|exact serves].
  - intros lb r [<- <-]%lookup_singleton_Some n. apply desired_state_intent.
Qed.
Lemma works : @site_works map_range_reverse _ _ (λ _, sim.env) site.adapters (λ _, True) sim.view sim.known
  site.k8s site_loop.one_worker "edge" sim.adapter [memory.web] site.start.
Proof.
  split; [reflexivity|exact sim.api|vm_decide| |exact site_loop.one_worker_known].
  split; [exact I|]. intros c l _ Hl. discriminate Hl.
Qed.
Lemma calls : calls_on site_loop.one_worker "edge" state = [One u; All m].
Proof. vm_compute. reflexivity. Qed.
End pushing.

(** ** Properties *)

(** C6. The calls under way agree.  In a state where what the handlers and the
    reconciliation of a balancer that works have read is up to date, let all the
    calls they are about to make on its adapter run at the same time, their
    critical sections and requests interleaved in any way.  They inevitably all
    return without errors; then every server of the balancer holds, name by name,
    what it held or the intent of the caches, and it holds the intent for the
    upstream of each handler, and for every upstream when a reconciliation is
    among the calls (those that no service targets only when orphans are pruned). *)
Theorem pushes_agree `{MapRange, Schedule} {K W Q} (env : string → NginxEnv W) (adapters : gmap string NginxAdapter)
    (wf : W → Prop) (view : W → string → string → gmap string Z) (known : string → Backend → Prop)
    (k8s : KubernetesPort K) (cfg : Config) (svcs : list Service) (lb : string) (a : NginxAdapter)
    (x : fine (W := Site K W) (Q := Q)) :
  let s := world_of x in
  site_works env adapters wf view known k8s cfg lb a svcs s → current (site_port k8s) cfg svcs x → 1 <= capacity a →
  inevitably (pool_step (env lb) a) (λ '(s', ks), (∀ k, k ∈ ks → returned k ∧ call_result k = None) ∧
    ∀ client n, client ∈ na_clients a → n ≠ "" →
      let v0 := view (si_net s) (cl_baseURL client) n in let v := view (ad_world s') (cl_baseURL client) n in
      (v = v0 ∨ at_intent k8s cfg svcs s lb n v0 v) ∧
      (∀ r, r ∈ calls_on cfg lb x → covers k8s cfg svcs a s lb r n → at_intent k8s cfg svcs s lb n v0 v))
    (pool_start a (calls_on cfg lb x) (slice lb s)).
Proof. intros s Hw Hcur Hcap. by apply (calls_converge env adapters wf view known). Qed.

Lemma pushes_agree_witness :
  inevitably (@pool_step map_range_reverse _ sim.env sim.adapter)
    (λ '(s', ks), ∀ client, client ∈ na_clients sim.adapter →
      sim.view (ad_world s') (cl_baseURL client) "web" = {["10.1.0.1:30080" := 2]})
    (@pool_start map_range_reverse _ sim.adapter [One pushing.u; All pushing.m] (slice "edge" site.start)).
Proof.
  pose proof (@pushes_agree map_range_reverse schedule_reverse _ _ _ (λ _, sim.env) site.adapters (λ _, True) sim.view sim.known
    site.k8s site_loop.one_worker [memory.web] "edge" sim.adapter pushing.state pushing.works pushing.up_to_date
    ltac:(vm_compute; discriminate)) as Hi. rewrite pushing.calls in Hi.
  apply (inevitably_mono _ _ _ _ Hi). intros [s' ks] [_ Hv] client Hc. destruct (Hv client "web" Hc) as [_ Hat]; [discriminate|].
  specialize (Hat (One pushing.u) ltac:(constructor) ltac:(vm_compute; reflexivity)). unfold at_intent in Hat.
  change (world_of pushing.state) with site.start in Hat. fold pushing.port in Hat. rewrite pushing.serves in Hat.
  by rewrite Hat, pushing.u_served.
Defined.
